(* ===== verification/_CoqProject ===== *)
-Q . S2P
Prelude.v
Identity.v
Service.v
Core.v
Api.v
Announcements.v
CertManager.v
CertManagerFacts.v
MeshConfig.v
GoTime.v
Net.v
NetFacts.v
Cidr.v
CidrFacts.v
TrafficPolicy.v
TrafficPolicyFacts.v
K8s.v
K8sClient.v
K8sClientFacts.v
Smi.v
Policy.v
Catalog.v
CatalogFacts.v
Multicluster.v
Providers.v
ProvidersFacts.v
CatalogInbound.v
CatalogInboundFacts.v
Configurator.v
ConfiguratorFacts.v
CatalogEgress.v
CatalogEgressFacts.v
Validators.v
ValidatorsFacts.v
CatalogIngress.v
CatalogIngressFacts.v
CatalogOutbound.v
CatalogOutboundFacts.v
Dispatcher.v
DispatcherFacts.v
Messaging.v
MessagingFacts.v
Pipy.v
PipyConf.v
PipyGen.v
PipyOut.v
PipyRouting.v
PipyRoutingFacts.v
PipyPackFacts.v
PipyGenFacts.v
PipyFacts.v
PipyBacklog.v
PipyPlugins.v
PipyPluginsFacts.v
PipyJobs.v
PipyJobsFacts.v
PipyRepo.v
PipyRepoFacts.v
PipyCerts.v
GatewayApi.v
Gateway.v
GatewayFacts.v
GatewayStatus.v
GatewayDemo.v
GatewayStatusFacts.v
GatewayListeners.v
GatewayListenersFacts.v
GatewayBackends.v
GatewayBackendsFacts.v
GatewayConfig.v
GatewayConfigFacts.v
GatewaySync.v
GatewaySyncFacts.v
