(* ===== verification/Prelude.v ===== *)
(** * The FSM control plane: a verification development

    FSM (Flomesh Service Mesh) configures the proxies of a service mesh on
    Kubernetes.  Informers cache the cluster's resources; clients answer
    questions about them; providers turn services and endpoints into mesh
    services; the catalog combines these into traffic policies for each proxy;
    jobs turn the policies of a proxy into the configuration of its Pipy
    sidecar and publish it to a repository, from which scripts of the sidecar
    read it; the certificate manager issues and rotates certificates;
    validators admit resources; and the message broker decides when proxies,
    ingresses and gateways have to be told of a change.  Gateways have a path
    of their own: controllers write the status of gateways and routes, a
    generator turns the routes that are effective for a gateway into its
    configuration, and a processor uploads what changed.  This library models
    those parts as executable definitions and proves what makes them correct.

    ** How the code is modelled

    Pure functions are functions.  A call that can dereference nil or index
    out of range is in the monad [go], whose [Panic] is a result.  An error
    is the left side of a sum.  A slice compared with [reflect.DeepEqual] is a
    [slice], which tells nil from empty; others are lists.  Integers are [Z]
    with their conversions ([uint16], [uint32], [int64]) written out.  Objects
    that the code mutates while they are shared live in a store
    (TrafficPolicy); the security specs of a sidecar's ranges are indices into
    a list, the mount points of its plugins names into a map (Pipy, PipyConf).
    Goroutines are step relations (Dispatcher, Messaging, PipyBacklog).
    Interfaces are records of functions, with the laws their clients rely on
    as classes ([PolicyLaws], [MeshSpecLaws], [StoreLaws]).  Third-party code
    is a class or an argument: sets ([MapSet]), label selectors ([LabelMatch]),
    client-go stores ([Store]), the metadata cache, the issuers of certificates
    and shared calls of singleflight, [hashstructure.Hash] ([StructHash]), the
    regular expressions of the scripts ([RegExp]), and the repository server,
    whose answer may depend on all earlier requests ([RepoServer]).  Hashes are
    64-bit numbers that may collide: where it matters, a theorem assumes that
    the values it speaks of do not ([noCollisions], [noCollision]).  Making a
    regular expression may throw, and the scripts are in the monad [go] for
    it.  A theorem that needs the repository to behave says how, with what it
    has committed and what is only uploaded told apart ([CodebaseLaws]).  For
    gateways they are the conditions, label selectors and name checks of
    apimachinery ([StatusConditions], [LabelSelectors], [DNSValidation]), globs
    ([Globs]), the indexed cache of controller-runtime ([Cache]), YAML and the
    hashes ([FilterHash], [Encoders]).  The order of [range] over
    a map and the result of an unstable sort are arguments too ([MapRange],
    [SliceSort]).  Log lines are left out.

    ** The files

    - Prelude: the monad, integers, strings, sets and maps, generic lemmas.
    - Identity (pkg/identity), Service (pkg/service): identities, principals,
      mesh services and the names derived from them.
    - Core, Api, MeshConfig: Kubernetes, multicluster, policy and
      configuration objects (pkg/apis, pkg/connector/metadata.go).
    - Announcements (pkg/announcements): the kinds of events.
    - GoTime, Net: the parts of Go's time and net packages that are used.
    - Cidr, CidrFacts (pkg/utils/cidr): address blocks.
    - TrafficPolicy, TrafficPolicyFacts (pkg/trafficpolicy): policies, merging.
    - K8s (pkg/k8s/util.go, types.go, informers), K8sClient, K8sClientFacts
      (pkg/k8s/client.go): informers, the controller interface, its
      implementation.
    - Smi (pkg/smi), Policy (pkg/policy): the clients of SMI and policy
      resources.
    - Catalog, CatalogFacts, CatalogInbound, CatalogEgress, CatalogOutbound,
      CatalogIngress and their Facts (pkg/catalog): listings and the inbound,
      egress, outbound, ingress, access control and export policies.
    - Multicluster (pkg/multicluster), Providers, ProvidersFacts
      (pkg/providers/kube, pkg/providers/fsm): imported services, providers.
    - Configurator, ConfiguratorFacts (pkg/configurator): the mesh
      configuration with its defaults.
    - Dispatcher, DispatcherFacts, Messaging, MessagingFacts (pkg/messaging):
      the dispatchers with their timers, the broker, and both together.
    - CertManager, CertManagerFacts (pkg/certificate): the cache, issuing,
      rotation, root certificates, the tresor issuer.
    - Validators, ValidatorsFacts (pkg/validator): the admission webhook.
    - Pipy, PipyConf (pkg/sidecar/v1/providers/pipy/repo: types.go, policy.go,
      ratelimit.go): the configuration of a sidecar and its operations;
      rebalancing, sorting and packing.
    - PipyGen, PipyOut (util.go): its generation from the policies of the
      catalog, inbound and outbound.
    - PipyRouting, PipyRoutingFacts (codebase/modules/inbound-http-routing.js):
      how the sidecar finds the rule of a request.
    - PipyGenFacts, PipyPackFacts, PipyFacts: what generation, packing and
      rebalancing keep.
    - PipyPlugins, PipyPluginsFacts (plugin.go): the plugins of a sidecar.
    - PipyJobs, PipyJobsFacts, PipyCerts, PipyBacklog (jobs.go): the job of a
      sidecar and what it enforces, its certificate, and concurrent jobs of
      one proxy.
    - PipyRepo, PipyRepoFacts (pipy/client, jobs.go): the client of the
      repository and the publication of a configuration.

    - GatewayApi: the objects of the gateway API and the classes above.
    - Gateway, GatewayFacts (pkg/gateway/utils, pkg/gateway/types): references
      and grants, listeners and hostnames, policies, certificates.
    - GatewayStatus, GatewayStatusFacts (pkg/gateway/status/routes, policies):
      the conditions of routes and of the policies of their backends.
    - GatewayListeners, GatewayListenersFacts (pkg/controllers/gateway/v1,
      pkg/gateway/status/gw): the status of the listeners of a gateway.
    - GatewayBackends, GatewayBackendsFacts (pkg/gateway/processor/v2:
      backends.go, utils.go): the targets of a backend.
    - GatewayConfig, GatewayConfigFacts (pkg/gateway/processor/v2): the
      configuration of a gateway.
    - GatewaySync, GatewaySyncFacts (processor/v2/config.go, pkg/repo): its
      upload.
    - GatewayDemo: a gateway with its routes, for the witnesses.

    ** What the theorems show

    - Access: merging rules, TrafficTargets, isolation, ingress and egress
      grant exactly what the resources say (TrafficPolicyFacts, the Facts of
      the catalog), and where sharing breaks this.
    - From resources to requests: a sidecar gives a route to a request exactly
      when a TrafficTarget grants it and all expressions are valid, through
      the catalog, the whole job with its generators, sorting and packing, and
      the routing script (PipyJobsFacts, on PipyGenFacts); packing keeps what
      is routed where (PipyPackFacts); a TrafficTarget without sources opens
      its routes (PipyGenFacts); which endpoints rebalancing and warm-up leave
      without traffic (PipyFacts).
    - Delivery: no update of the mesh is lost by jobs that return early,
      unless a certificate is never issued (PipyBacklog); how a publication
      ends whatever the repository answers (PipyRepoFacts); plugins get the
      configuration of the last PluginConfig (PipyPluginsFacts).
    - Gateways: the hostnames of a route, the routes that are effective, the
      listeners that are valid together and the targets of a backend are
      exact (GatewayFacts, GatewayStatusFacts, GatewayListenersFacts,
      GatewayBackendsFacts); a configuration only has effective routes and
      permitted backends, and never TLS routes (GatewayConfigFacts); an update
      leaves exactly the files of the configuration, and a failed one is lost
      (GatewaySyncFacts).  Two names that collide are shown in
      GatewayConfigFacts.
    - Certificates: cached ones trust the authorities in use, rotation
      completes and keeps names (CertManagerFacts); a new sidecar gets one,
      unless the validity is too short (PipyCerts).
    - Admission: verdicts are exact for ingress backends, where conflicts with
      other resources play no part, and carry the UID of the request
      (ValidatorsFacts).
    - Identity: conversions are inverse on well-formed names; a proxy only
      gets the workload of its certificate (Identity, K8sClientFacts).
    - Composition: listing services over the client never panics; endpoints
      survive the annotations between the multicluster client and its
      provider (ProvidersFacts); a missing configuration panics the catalog
      (ConfiguratorFacts).
    - Messaging: a dispatcher never blocks, implements batching and publishes
      on time (DispatcherFacts); every broadcast reaches its dispatcher once
      and in order, and the counters are consistent (MessagingFacts).
    - Arithmetic: blocks, iteration, weights.

    ** Fuel and bounds

    Recursion is structural but for parsing a duration ([GoTime.parseTerms],
    where the length of the string is enough, [parseTerms_fuel]), parsing an
    IPv6 address (as many rounds as an address has fields), and the iteration
    over a block ([Cidr.forEach], whose result is given for any fuel: the size
    of the block is enough, except for 0.0.0.0/0, on which it never ends).  Two loops over
    bytes run a fixed number of rounds: one per byte of an address
    ([Cidr.decrRounds]) and one per bit of a mask byte ([Net.shiftOnes]).  The
    dispatcher theorems hold before the idle timers run out, a decade after the
    start.  The digits of a packed name have as many rounds as the number has
    bits ([PipyConf.hexName]).  The fuel of [PipyCerts.certLoop] is the number
    of rounds that are looked at: the theorems say in which round the loop
    ends, and that for some validities it ends in none.

    ** What is not modelled

    Connectors talk to service registries, the DNS proxy, xnetwork and the
    command line to the network and the kernel, through libraries and services
    that are not part of the sources.  The multicluster controllers, the
    injector and the ingress controller are reconcilers, pod patches and
    ingress routes that the modelled parts do not use.  Of the
    sidecar, the options that are copied to its configuration, probes, cloud
    connectors, the upload of plugins, the goroutines that submit jobs
    (broadcast.go, inform.go), bootstrap and the other scripts are left out.
    Of gateways, the deployment with Helm, addresses, the triggers that start
    a generation, the encoding of filters (an argument) and the matches of
    rules, which are copied, are left out; the times and generations of
    conditions and their messages as well.  The weight of traffic warm-up is
    a floating-point computation and an argument, as is the policy of the
    catalog, which parses floats, as do sampled fractions.  Informer registration, metrics,
    encoding as JSON and calls to the API server are input and output.
    Generated code (pkg/gen, deep copies) is left out. *)

From stdpp Require Export prelude gmap strings pretty sorting.
From Stdlib Require Export Ascii.
#[global] Set Default Goal Selector "!".

Declare Scope go_scope.
Delimit Scope go_scope with go.

(** ** Results of Go computations

    A call that dereferences a nil pointer or indexes a slice out of range
    panics.  Every such call is modelled in the monad [go]; stdpp's
    overloaded [x ← e; k] is its bind. *)

Inductive go (A : Type) : Type :=
  | Ret (a : A)
  | Panic.
Arguments Ret {_} _.
Arguments Panic {_}.

#[export] Instance go_ret : MRet go := λ A a, Ret a.
#[export] Instance go_bind : MBind go := λ A B f m,
  match m with Ret a => f a | Panic => Panic end.
#[export] Instance go_fmap : FMap go := λ A B f m,
  match m with Ret a => Ret (f a) | Panic => Panic end.

#[export] Instance go_eq_dec {A} `{EqDecision A} : EqDecision (go A).
Proof. solve_decision. Defined.

(** A dereference: [None] is the nil pointer. *)
Definition deref {A} (p : option A) : go A :=
  match p with Some a => Ret a | None => Panic end.

(** [s[i]], which panics out of range. *)
Definition index {A} (l : list A) (i : nat) : go A := deref (l !! i).

(** A [for range] loop whose body may panic. *)
Fixpoint gofold {A B} (f : B → A → go B) (b : B) (l : list A) : go B :=
  match l with
  | [] => Ret b
  | x :: l => b' ← f b x; gofold f b' l
  end.

Definition gomap {A B} (f : A → go B) (l : list A) : go (list B) :=
  gofold (λ acc x, y ← f x; Ret (acc ++ [y])) [] l.

Lemma go_bind_Ret {A B} (m : go A) (f : A → go B) b :
  m ≫= f = Ret b ↔ ∃ a, m = Ret a ∧ f a = Ret b.
Proof. destruct m; naive_solver. Qed.

Lemma gofold_app {A B} (f : B → A → go B) b l1 l2 :
  gofold f b (l1 ++ l2) = gofold f b l1 ≫= λ b', gofold f b' l2.
Proof.
  revert b. induction l1 as [|x l1 IH]; intros b; [done|].
  simpl. destruct (f b x) as [b'|]; simpl; [apply IH|done].
Qed.

(** The loop rule: an invariant indexed by the prefix already visited. *)
Lemma gofold_inv {A B} (P : list A → B → Prop) (f : B → A → go B) b l b' :
  P [] b →
  (∀ l1 x l2 c c', l = l1 ++ x :: l2 → P l1 c → f c x = Ret c' → P (l1 ++ [x]) c') →
  gofold f b l = Ret b' → P l b'.
Proof.
  intros H0 Hstep. revert b'.
  induction l as [|x l IH] using rev_ind; intros b' Hf.
  { simpl in Hf. by simplify_eq. }
  rewrite gofold_app in Hf. apply go_bind_Ret in Hf as (c & Hc & Hf).
  simpl in Hf. destruct (f c x) as [c'|] eqn:E; simplify_eq/=.
  eapply Hstep; [done| |done].
  apply IH; [|done]. intros l1 y l2 d d' -> ??.
  eapply (Hstep l1 y (l2 ++ [x])); [|done..]. by rewrite <-app_assoc.
Qed.

(** The loop terminates without a panic when every iteration does. *)
Lemma gofold_total {A B} (P : B → Prop) (f : B → A → go B) b l :
  P b → (∀ c x, x ∈ l → P c → ∃ c', f c x = Ret c' ∧ P c') →
  ∃ b', gofold f b l = Ret b' ∧ P b'.
Proof.
  revert b. induction l as [|x l IH]; intros b Hb Hf; [by eexists|].
  destruct (Hf b x) as (c & Hc & HP); [left|done|]. simpl. rewrite Hc. simpl.
  apply IH; [done|]. intros; apply Hf; [by right|done].
Qed.

(** Both at once: the invariant tells that the next iteration returns. *)
Lemma gofold_run {A B} (P : list A → B → Prop) (f : B → A → go B) b l :
  P [] b →
  (∀ l1 x l2 c, l = l1 ++ x :: l2 → P l1 c → ∃ c', f c x = Ret c' ∧ P (l1 ++ [x]) c') →
  ∃ b', gofold f b l = Ret b' ∧ P l b'.
Proof.
  intros H0 Hstep. induction l as [|x l IH] using rev_ind; [by eexists|].
  destruct IH as (c & Hc & HP).
  { intros l1 y l2 d ->. apply (Hstep l1 y (l2 ++ [x])). by rewrite <-app_assoc. }
  destruct (Hstep l x [] c) as (c' & Hf & HP'); [done..|].
  exists c'. rewrite gofold_app, Hc. simpl. by rewrite Hf.
Qed.

(** A loop that panics does so at some iteration. *)
Lemma gofold_Panic {A B} (f : B → A → go B) b l :
  gofold f b l = Panic → ∃ c x, x ∈ l ∧ f c x = Panic.
Proof.
  revert b. induction l as [|x l IH]; intros b; simpl; [done|]. destruct (f b x) as [c|] eqn:E; simpl.
  - intros (c' & y & ? & ?)%IH. exists c', y. split; [by right|done].
  - intros _. exists b, x. split; [left|done].
Qed.

Lemma gofold_Ret {A B} (f : B → A → B) b l :
  gofold (λ b x, Ret (f b x)) b l = Ret (foldl f b l).
Proof. revert b. by induction l; simpl. Qed.

(** The same rule for loops that cannot panic. *)
Lemma foldl_inv {A B} (P : list A → B → Prop) (f : B → A → B) b l :
  P [] b →
  (∀ l1 x l2 c, l = l1 ++ x :: l2 → P l1 c → P (l1 ++ [x]) (f c x)) →
  P l (foldl f b l).
Proof.
  intros H0 Hstep. eapply (gofold_inv P (λ b x, Ret (f b x))); [done| |apply gofold_Ret].
  intros ????? -> HP [= <-]. by eapply Hstep.
Qed.

(** A loop that returns at the first error. *)
Fixpoint efold {E A B} (f : B → A → E + B) (b : B) (l : list A) : E + B :=
  match l with
  | [] => inr b
  | x :: l => match f b x with inl e => inl e | inr b' => efold f b' l end
  end.

(** What every step preserves holds in every state reached. *)
Lemma rtc_preserved {A} (R : relation A) (P : A → Prop) x y :
  (∀ a b, R a b → P a → P b) → P x → rtc R x y → P y.
Proof. intros Hp Hx Hr. revert Hx. induction Hr; eauto. Qed.

(** A loop that appends to its result collects what each round appends. *)
Lemma foldl_collect {A B} (step : list B → A → list B) (g : A → list B) acc l :
  (∀ acc x, step acc x = acc ++ g x) → foldl step acc l = acc ++ (l ≫= g).
Proof.
  intros H. revert acc. induction l as [|x l IH]; intros acc; simpl; [by rewrite app_nil_r|].
  by rewrite IH, H, app_assoc.
Qed.

Lemma bind_filter {A} (p : A → bool) (l : list A) :
  (l ≫= λ x, if p x then [x] else []) = List.filter p l.
Proof. induction l as [|x l IH]; [done|]. rewrite bind_cons, IH. simpl. by destruct (p x). Qed.

Lemma elem_of_option {A} (o : option A) x : x ∈ option_list o ↔ o = Some x.
Proof. destruct o; simpl; [rewrite list_elem_of_singleton|rewrite elem_of_nil]; naive_solver. Qed.

Lemma elem_of_lfilter {A} (p : A → bool) l x : x ∈ List.filter p l ↔ x ∈ l ∧ p x = true.
Proof. rewrite !list_elem_of_In. apply filter_In. Qed.

(** ** Machine integers

    [int] is 64 bits wide on the platforms FSM ships for.  Values are kept as
    [Z]; conversions and additions that can leave the range wrap explicitly. *)

Definition uint16 (z : Z) : Z := z `mod` 2 ^ 16.
Definition uint32 (z : Z) : Z := z `mod` 2 ^ 32.
Definition int64 (z : Z) : Z := (z + 2 ^ 63) `mod` 2 ^ 64 - 2 ^ 63.

Definition is_uint16 (z : Z) : Prop := (0 ≤ z < 2 ^ 16)%Z.
Definition is_int64 (z : Z) : Prop := (- 2 ^ 63 ≤ z < 2 ^ 63)%Z.

Lemma uint16_id z : is_uint16 z → uint16 z = z.
Proof. apply Z.mod_small. Qed.

Lemma uint16_range z : is_uint16 (uint16 z).
Proof. apply Z.mod_pos_bound. lia. Qed.

Lemma uint32_id z : (0 ≤ z < 2 ^ 32)%Z → uint32 z = z.
Proof. apply Z.mod_small. Qed.

Lemma int64_id z : is_int64 z → int64 z = z.
Proof. unfold is_int64, int64. intros ?. rewrite Z.mod_small; lia. Qed.

Create HintDb goint.
#[export] Hint Resolve uint16_id uint16_range uint32_id int64_id : goint.

(** ** Strings

    A Go string is a sequence of bytes, [string] of the Standard Library.
    [strings.ToLower] and [strings.EqualFold] are modelled on ASCII letters:
    protocol names, namespaces and annotation values are ASCII. *)

(** [strings.Split s sep] for a separator of one byte. *)
Fixpoint Split (s : string) (c : ascii) : list string :=
  match s with
  | EmptyString => [""]
  | String a s' =>
      if bool_decide (a = c) then "" :: Split s' c
      else match Split s' c with
           | [] => [String a ""]
           | h :: t => String a h :: t
           end
  end.

Fixpoint str_in (c : ascii) (s : string) : bool :=
  match s with
  | EmptyString => false
  | String a s' => bool_decide (a = c) || str_in c s'
  end.

Fixpoint str_take (n : nat) (s : string) : string :=
  match n, s with
  | S n, String a s => String a (str_take n s)
  | _, _ => ""
  end.

Fixpoint str_drop (n : nat) (s : string) : string :=
  match n, s with
  | O, _ => s
  | S n, String _ s => str_drop n s
  | S _, EmptyString => ""
  end.

Definition HasSuffix (s suffix : string) : bool :=
  bool_decide (String.length suffix ≤ String.length s ∧
               str_drop (String.length s - String.length suffix) s = suffix).

Definition TrimSuffix (s suffix : string) : string :=
  if HasSuffix s suffix
  then str_take (String.length s - String.length suffix) s else s.

Definition lower_ascii (a : ascii) : ascii :=
  let n := nat_of_ascii a in
  if bool_decide (65 ≤ n ≤ 90) then ascii_of_nat (n + 32) else a.

Fixpoint ToLower (s : string) : string :=
  match s with
  | EmptyString => ""
  | String a s' => String (lower_ascii a) (ToLower s')
  end.

Definition EqualFold (s t : string) : bool := bool_decide (ToLower s = ToLower t).

(** [sort.Strings]: the byte-wise order. *)
Definition sort_strings (l : list string) : list string := merge_sort String.le l.

Lemma str_app_nil_l s : "" +:+ s = s.
Proof. done. Qed.

Lemma str_app_cons a s t : String a s +:+ t = String a (s +:+ t).
Proof. done. Qed.

Ltac str_simpl := simpl; rewrite ?str_app_nil_l, ?str_app_cons in *; simpl.

Lemma str_app_nil s : s +:+ "" = s.
Proof. induction s as [|a s IH]; [done|]. str_simpl. f_equal. apply IH. Qed.

Lemma str_app_assoc s t u : (s +:+ t) +:+ u = s +:+ (t +:+ u).
Proof. induction s as [|a s IH]; [done|]. str_simpl. by rewrite IH. Qed.

Lemma str_length_app s t : String.length (s +:+ t) = String.length s + String.length t.
Proof. induction s as [|a s IH]; [done|]. str_simpl. by rewrite IH. Qed.

Lemma str_in_app c s t : str_in c (s +:+ t) = str_in c s || str_in c t.
Proof.
  induction s as [|a s IH]; [done|]. str_simpl.
  by rewrite IH, orb_assoc.
Qed.

Lemma str_take_app s t : str_take (String.length s) (s +:+ t) = s.
Proof. induction s as [|a s IH]; [by destruct t|]. str_simpl. by rewrite IH. Qed.

Lemma str_drop_app s t : str_drop (String.length s) (s +:+ t) = t.
Proof. induction s as [|a s IH]; [done|]. str_simpl. done. Qed.

Lemma str_take_drop n s : str_take n s +:+ str_drop n s = s.
Proof.
  revert s. induction n as [|n IH]; intros [|a s]; try done.
  str_simpl. by rewrite IH.
Qed.

Lemma str_app_inv_head s t u : s +:+ t = s +:+ u → t = u.
Proof. induction s as [|a s IH]; [done|]. rewrite !str_app_cons. intros [= ?]. auto. Qed.

Lemma str_app_inv_tail s t u : s +:+ u = t +:+ u → s = t.
Proof.
  intros H. assert (String.length s = String.length t) as Hl.
  { apply (f_equal String.length) in H. rewrite !str_length_app in H. lia. }
  rewrite <-(str_take_app s u), <-(str_take_app t u), H. by rewrite Hl.
Qed.

(** The suffix test and the trim are the two halves of one decomposition. *)
Lemma HasSuffix_spec s suf : HasSuffix s suf = true ↔ ∃ p, s = p +:+ suf.
Proof.
  unfold HasSuffix. rewrite bool_decide_eq_true. split.
  - intros [Hl Hd]. pose proof (str_take_drop (String.length s - String.length suf) s) as E.
    rewrite Hd in E. eauto.
  - intros [p ->]. rewrite str_length_app. split; [lia|].
    replace (_ + _ - _) with (String.length p) by lia. apply str_drop_app.
Qed.

Lemma TrimSuffix_app s suf : TrimSuffix (s +:+ suf) suf = s.
Proof.
  unfold TrimSuffix. rewrite (proj2 (HasSuffix_spec _ _)) by eauto.
  rewrite str_length_app. replace (_ + _ - _) with (String.length s) by lia.
  apply str_take_app.
Qed.

Lemma Split_ne_nil s c : Split s c ≠ [].
Proof. destruct s; simpl; repeat case_match; done. Qed.

(** [strings.Split] cuts at the first separator... *)
Lemma Split_app s t c :
  str_in c s = false → Split (s +:+ String c t) c = s :: Split t c.
Proof.
  induction s as [|a s IH]; str_simpl.
  { intros _. by rewrite bool_decide_true. }
  intros [Ha Hs]%orb_false_iff. rewrite Ha, IH by done. done.
Qed.

(** ... and returns the whole string when there is none. *)
Lemma Split_none s c : str_in c s = false → Split s c = [s].
Proof.
  induction s as [|a s IH]; simpl; [done|].
  intros [Ha Hs]%orb_false_iff. by rewrite Ha, IH.
Qed.

Lemma Split_singleton s c x : Split s c = [x] → x = s ∧ str_in c s = false.
Proof.
  revert x. induction s as [|a s IH]; simpl; intros x; [naive_solver|].
  case_bool_decide; [by intros [= _ ?%Split_ne_nil]|].
  destruct (Split s c) as [|h t] eqn:E; [by apply Split_ne_nil in E|].
  intros [= <- ->]. destruct (IH h) as [-> ?]; done.
Qed.

(** Cutting two strings at their first separator is unambiguous. *)
Lemma str_cut_first c s1 t1 s2 t2 :
  str_in c s1 = false → str_in c s2 = false →
  s1 +:+ String c t1 = s2 +:+ String c t2 → s1 = s2 ∧ t1 = t2.
Proof.
  revert s2. induction s1 as [|a s1 IH]; intros [|b s2]; str_simpl.
  - intros _ _ [= ->]. done.
  - intros _ H [= <- _]. by rewrite bool_decide_true in H.
  - intros H _ [= -> _]. by rewrite bool_decide_true in H.
  - intros [_ H1]%orb_false_iff [_ H2]%orb_false_iff [= <- H].
    destruct (IH s2) as [-> ->]; done.
Qed.

(** Cutting at the last separator is unambiguous as well. *)
Lemma str_cut_last c s1 t1 s2 t2 :
  str_in c t1 = false → str_in c t2 = false →
  s1 +:+ String c t1 = s2 +:+ String c t2 → s1 = s2 ∧ t1 = t2.
Proof.
  revert s2. induction s1 as [|a s1 IH]; intros [|b s2]; str_simpl.
  - intros _ _ [= ->]. done.
  - intros H _ [= <- ->]. rewrite str_in_app in H. simpl in H.
    rewrite bool_decide_true in H by done. by rewrite orb_true_r in H.
  - intros _ H [= -> <-]. rewrite str_in_app in H. simpl in H.
    rewrite bool_decide_true in H by done. by rewrite orb_true_r in H.
  - intros H1 H2 [= <- H]. destruct (IH s2) as [-> ->]; done.
Qed.

(** Decimal renderings ([%d]) hold digits and a leading minus only. *)
Definition is_digit (a : ascii) : bool := bool_decide (48 ≤ nat_of_ascii a ≤ 57).

Lemma pretty_N_go_in c n s :
  is_digit c = false → str_in c (pretty_N_go n s) = str_in c s.
Proof.
  intros Hc. revert s. induction (N.lt_wf_0 n) as [n _ IH]; intros s.
  destruct (decide (0 < n)%N) as [Hn|Hn].
  - rewrite pretty_N_go_step by done. rewrite IH by (by apply N.div_lt). simpl.
    rewrite bool_decide_false; [done|]. intros <-. revert Hc.
    unfold pretty_N_char. by repeat case_match.
  - assert (n = 0%N) as -> by lia. done.
Qed.

Lemma pretty_Z_in c (z : Z) :
  is_digit c = false → c ≠ "-"%char → str_in c (pretty z) = false.
Proof.
  intros Hc Hm. assert (∀ n, str_in c (pretty_N n) = false) as HN.
  { intros n. unfold pretty_N. case_decide.
    - simpl. rewrite bool_decide_false; [done|]. by intros <-.
    - by rewrite pretty_N_go_in. }
  destruct z as [|p|p]; simpl.
  - rewrite bool_decide_false; [done|]. by intros <-.
  - apply HN.
  - unfold pretty, pretty_Z. rewrite str_in_app. simpl.
    rewrite bool_decide_false by congruence. apply HN.
Qed.

(** ** Slices and maps

    A slice that the code only builds with [append] from a nil [var] is a
    [list] ([nil] and [[]] are then the same value).  Where the code keeps a
    slice or a map read from an API object and compares it with
    [reflect.DeepEqual], which tells nil from empty, it is an [option]. *)

Definition slice (A : Type) : Type := option (list A).
Definition slice_elems {A} (s : slice A) : list A := default [] s.
Definition slice_len {A} (s : slice A) : nat := length (slice_elems s).

(** A Go map that may be nil, and its lookup (nil behaves as empty). *)
Definition gomap_lookup {V} (m : option (gmap string V)) (k : string) : option V :=
  m ≫= λ m', m' !! k.

(** [m[k] = append(m[k], xs...)] on a map of slices. *)
Definition map_append {K V} `{Countable K} (k : K) (xs : list V)
    (m : gmap K (list V)) : gmap K (list V) :=
  <[k := default [] (m !! k) ++ xs]> m.

Lemma map_append_lookup {K V} `{Countable K} (k k' : K) (xs : list V) m :
  default [] (map_append k xs m !! k') =
  default [] (m !! k') ++ (if decide (k = k') then xs else []).
Proof.
  unfold map_append. rewrite lookup_insert. case_decide; subst; simpl; [done|].
  by rewrite app_nil_r.
Qed.

(** The order in which [range] visits a map is unspecified; it is an argument
    of the definitions that depend on it, known to be an enumeration. *)
Class MapRange : Type := {
  map_range : ∀ {K V : Type} `{Countable K}, gmap K V → list (K * V);
  map_range_perm : ∀ {K V : Type} `{Countable K} (m : gmap K V),
    map_range m ≡ₚ map_to_list m
}.

Lemma elem_of_map_range `{MapRange} {K V} `{Countable K} (m : gmap K V) k v :
  (k, v) ∈ map_range m ↔ m !! k = Some v.
Proof. by rewrite map_range_perm, elem_of_map_to_list. Qed.

Lemma NoDup_map_range `{MapRange} {K V} `{Countable K} (m : gmap K V) :
  NoDup (map_range m).*1.
Proof. rewrite map_range_perm. apply NoDup_fst_map_to_list. Qed.

Lemma list_to_map_range `{MapRange} {K V} `{Countable K} (m : gmap K V) : list_to_map (map_range m) = m.
Proof.
  rewrite <-(list_to_map_to_list m) at 2. apply list_to_map_proper; [apply NoDup_map_range|apply map_range_perm].
Qed.

(** The loop rule for [range] over a map: an invariant indexed by the part of
    the map already visited. *)
Lemma foldl_map_range_inv `{MapRange} {K V B} `{Countable K} (P : gmap K V → B → Prop) (f : B → K * V → B) b m :
  P ∅ b →
  (∀ seen k v c, seen !! k = None → m !! k = Some v → P seen c → P (<[k := v]> seen) (f c (k, v))) →
  P m (foldl f b (map_range m)).
Proof.
  intros Hinit Hstep. rewrite <-(list_to_map_range m) at 1.
  apply (foldl_inv (λ l, P (list_to_map l))); [done|].
  intros l1 [k v] l2 c Hl HP. pose proof (NoDup_map_range m) as Hnd.
  rewrite Hl, fmap_app in Hnd. apply NoDup_app in Hnd as (_ & Hd & _).
  assert ((list_to_map l1 : gmap K V) !! k = None).
  { apply not_elem_of_list_to_map_1. intros Hk. apply (Hd k Hk). left. }
  rewrite list_to_map_app. simpl. rewrite insert_empty, <-insert_union_singleton_r by done.
  apply Hstep; [done| |done]. apply elem_of_map_range. rewrite Hl, elem_of_app. right. left.
Qed.

Lemma gofold_map_range_inv `{MapRange} {K V B} `{Countable K} (P : gmap K V → B → Prop) (f : B → K * V → go B) b m b' :
  P ∅ b →
  (∀ seen k v c c', seen !! k = None → m !! k = Some v → P seen c → f c (k, v) = Ret c' → P (<[k := v]> seen) c') →
  gofold f b (map_range m) = Ret b' → P m b'.
Proof.
  intros Hinit Hstep Hrun. rewrite <-(list_to_map_range m).
  apply (gofold_inv (λ l, P (list_to_map l)) f b (map_range m) b'); [done| |done].
  intros l1 [k v] l2 c c' Hl HP Hf. pose proof (NoDup_map_range m) as Hnd.
  rewrite Hl, fmap_app in Hnd. apply NoDup_app in Hnd as (_ & Hd & _).
  assert ((list_to_map l1 : gmap K V) !! k = None).
  { apply not_elem_of_list_to_map_1. intros Hk. apply (Hd k Hk). left. }
  rewrite list_to_map_app. simpl. rewrite insert_empty, <-insert_union_singleton_r by done.
  apply (Hstep _ _ _ c); [done| |done..]. apply elem_of_map_range. rewrite Hl, elem_of_app. right. left.
Qed.

(** The enumeration of the underlying trie is one such order. *)
Definition trie_range : MapRange.
Proof.
  refine {| map_range := λ K V _ _ m, map_to_list m |}. done.
Defined.

(** ** [mapset.Set]

    github.com/deckarep/golang-set is a third-party package, so its sets are a
    parameter: the operations FSM calls, and the documented behaviour of each
    of them as the finite-set operation on the elements.  [ToSlice] (and
    [Iter]) enumerate in an unspecified order.  [ms_deepeq] is what
    [reflect.DeepEqual] answers on two sets. *)

Class MapSet : Type := {
  mset : ∀ (A : Type) `{Countable A}, Type;
  NewSet : ∀ {A} `{Countable A}, mset A;
  Add : ∀ {A} `{Countable A}, A → mset A → mset A * bool;
  Contains : ∀ {A} `{Countable A}, A → mset A → bool;
  Union : ∀ {A} `{Countable A}, mset A → mset A → mset A;
  Intersect : ∀ {A} `{Countable A}, mset A → mset A → mset A;
  IsSubset : ∀ {A} `{Countable A}, mset A → mset A → bool;
  Equal : ∀ {A} `{Countable A}, mset A → mset A → bool;
  ToSlice : ∀ {A} `{Countable A}, mset A → list A;
  ms_deepeq : ∀ {A} `{Countable A}, mset A → mset A → bool
}.

Class MapSetSpec `{MapSet} : Type := {
  elems : ∀ {A} `{Countable A}, mset A → gset A;
  elems_NewSet : ∀ {A} `{Countable A}, elems (NewSet (A:=A)) = ∅;
  elems_Add : ∀ {A} `{Countable A} (x : A) s, elems (Add x s).1 = {[x]} ∪ elems s;
  Add_added : ∀ {A} `{Countable A} (x : A) s, (Add x s).2 = bool_decide (x ∉ elems s);
  Contains_spec : ∀ {A} `{Countable A} (x : A) s, Contains x s = bool_decide (x ∈ elems s);
  elems_Union : ∀ {A} `{Countable A} (s t : mset A), elems (Union s t) = elems s ∪ elems t;
  elems_Intersect : ∀ {A} `{Countable A} (s t : mset A),
    elems (Intersect s t) = elems s ∩ elems t;
  IsSubset_spec : ∀ {A} `{Countable A} (s t : mset A),
    IsSubset s t = bool_decide (elems s ⊆ elems t);
  Equal_spec : ∀ {A} `{Countable A} (s t : mset A), Equal s t = bool_decide (elems s = elems t);
  ToSlice_NoDup : ∀ {A} `{Countable A} (s : mset A), NoDup (ToSlice s);
  elem_of_ToSlice : ∀ {A} `{Countable A} (s : mset A) x, x ∈ ToSlice s ↔ x ∈ elems s;
  ms_deepeq_spec : ∀ {A} `{Countable A} (s t : mset A),
    ms_deepeq s t = bool_decide (elems s = elems t)
}.

(** Finite sets satisfy the contract; witnesses evaluate with this instance. *)
Definition gset_MapSet : MapSet := {|
  mset A _ _ := gset A;
  NewSet A _ _ := ∅;
  Add A _ _ x s := ({[x]} ∪ s, bool_decide (x ∉ s));
  Contains A _ _ x s := bool_decide (x ∈ s);
  Union A _ _ s t := s ∪ t;
  Intersect A _ _ s t := s ∩ t;
  IsSubset A _ _ s t := bool_decide (s ⊆ t);
  Equal A _ _ s t := bool_decide (s = t);
  ToSlice A _ _ s := elements s;
  ms_deepeq A _ _ s t := bool_decide (s = t)
|}.

Definition gset_MapSetSpec : @MapSetSpec gset_MapSet.
Proof.
  refine {| elems := λ A _ _ (s : @mset gset_MapSet A _ _), s : gset A |}; intros; simpl; try done.
  - apply NoDup_elements.
  - apply elem_of_elements.
Defined.

(** [NewSetFromSlice] and [NewSetWith]: the elements added one by one. *)
Definition NewSetFromSlice `{MapSet} {A} `{Countable A} (l : list A) : mset A :=
  foldl (λ s x, (Add x s).1) NewSet l.

(** [Cardinality]. *)
Definition Cardinality `{MapSet} {A} `{Countable A} (s : mset A) : nat := length (ToSlice s).

(** The idiom [if set.Add(x) { out = append(out, x) }], with which the code
    keeps a slice free of duplicates. *)
Definition addUnique `{MapSet} {A} `{Countable A}
    (st : mset A * list A) (x : A) : mset A * list A :=
  let '(s, out) := st in
  let '(s', added) := Add x s in
  (s', if added then out ++ [x] else out).

(** Its meaning: the first occurrence of every element, in order. *)
Fixpoint uniq {A} `{EqDecision A} (l : list A) : list A :=
  match l with
  | [] => []
  | x :: l => x :: filter (λ y, y ≠ x) (uniq l)
  end.

Lemma elem_of_uniq {A} `{EqDecision A} (l : list A) x : x ∈ uniq l ↔ x ∈ l.
Proof.
  induction l as [|y l IH]; simpl; [done|].
  rewrite !elem_of_cons, list_elem_of_filter, IH. destruct (decide (x = y)); naive_solver.
Qed.

Lemma NoDup_uniq {A} `{EqDecision A} (l : list A) : NoDup (uniq l).
Proof.
  induction l as [|y l IH]; simpl; constructor.
  - rewrite list_elem_of_filter. naive_solver.
  - by apply NoDup_filter.
Qed.

Lemma filter_all {A} (P : A → Prop) `{∀ x, Decision (P x)} (l : list A) :
  (∀ x, x ∈ l → P x) → filter P l = l.
Proof.
  induction l as [|x l IH]; intros Hl; [done|].
  rewrite filter_cons_True by (apply Hl; left). f_equal. apply IH.
  intros; apply Hl; by right.
Qed.

Lemma uniq_NoDup_id {A} `{EqDecision A} (l : list A) : NoDup l → uniq l = l.
Proof.
  induction 1 as [|x l Hx _ IH]; simpl; [done|]. rewrite IH. f_equal.
  apply filter_all. intros y Hy ->. done.
Qed.

Lemma uniq_snoc {A} `{EqDecision A} (l : list A) x :
  uniq (l ++ [x]) = if decide (x ∈ l) then uniq l else uniq l ++ [x].
Proof.
  induction l as [|y l IH]; simpl.
  { done. }
  rewrite IH. destruct (decide (x ∈ l)) as [Hl|Hl].
  - rewrite decide_True by (by right). done.
  - rewrite filter_app. destruct (decide (x = y)) as [->|Hne].
    + rewrite filter_cons_False by tauto. rewrite decide_True by left. by rewrite app_nil_r.
    + rewrite filter_cons_True by done. rewrite decide_False; [done|].
      rewrite elem_of_cons. naive_solver.
Qed.

Section mapset_lemmas.
Context {MS : MapSet} {MSS : MapSetSpec}.

Lemma elems_FromSlice {A} `{Countable A} (l : list A) :
  elems (NewSetFromSlice l) = list_to_set l.
Proof.
  unfold NewSetFromSlice. apply (foldl_inv (λ l s, elems s = list_to_set l)).
  { by rewrite elems_NewSet. }
  intros l1 x l2 c _ Hc. rewrite elems_Add, Hc, list_to_set_app_L. set_solver.
Qed.

Lemma foldl_addUnique {A} `{Countable A} (l : list A) :
  (foldl addUnique (NewSet, []) l).2 = uniq l ∧
  elems (foldl addUnique (NewSet, []) l).1 = list_to_set l.
Proof.
  apply (foldl_inv (λ l st, st.2 = uniq l ∧ elems st.1 = list_to_set l)).
  { split; [done|]. simpl. by rewrite elems_NewSet. }
  intros l1 x l2 [s out] _ [Hout Hs]; simpl in *. unfold addUnique.
  pose proof (elems_Add x s) as E1. pose proof (Add_added x s) as E2.
  destruct (Add x s) as [s' b]; simpl in *. rewrite uniq_snoc, Hout.
  split.
  - subst b. rewrite Hs. case_bool_decide as Hx; case_decide; set_solver.
  - rewrite E1, Hs, list_to_set_app_L. set_solver.
Qed.

Lemma ms_deepeq_refl {A} `{Countable A} (s : mset A) : ms_deepeq s s = true.
Proof. rewrite ms_deepeq_spec. by apply bool_decide_true. Qed.

End mapset_lemmas.

(** ** Automation *)

Create HintDb fsm.
Create Rewrite HintDb fsm.
#[export] Hint Rewrite @elems_NewSet @elems_Add @elems_Union @elems_Intersect
  @elems_FromSlice using (typeclasses eauto) : fsm.
#[export] Hint Resolve NoDup_uniq ToSlice_NoDup : fsm.

(** Split on the tests and matches of a definition that was just unfolded. *)
Ltac go_cases := repeat (case_match || case_decide || case_bool_decide); simplify_eq/=.

(** Turn boolean guards of the code into propositions. *)
Ltac bool_prop :=
  repeat match goal with
  | H : _ && _ = true |- _ => apply andb_true_iff in H as [? ?]
  | H : _ || _ = false |- _ => apply orb_false_iff in H as [? ?]
  | H : negb _ = true |- _ => apply negb_true_iff in H
  | H : negb _ = false |- _ => apply negb_false_iff in H
  | H : bool_decide _ = true |- _ => apply bool_decide_eq_true in H
  | H : bool_decide _ = false |- _ => apply bool_decide_eq_false in H
  end.
