(* ===== verification/Identity.v ===== *)
(** * Service identities: pkg/identity/types.go

    A workload is identified by [<ServiceAccount>.<Namespace>]; a principal
    is an identity followed by the trust domain.  [Module Identity] holds the
    conversions between identities, principals and Kubernetes service
    accounts, and shows when they are inverse to each other. *)

From S2P Require Import Prelude.

Module Identity.

Definition namespaceNameSeparator : string := "/".

(** [type ServiceIdentity string] *)
Definition ServiceIdentity : Type := string.

Definition WildcardServiceIdentity : ServiceIdentity := "*".
Definition WildcardPrincipal : string := "*".

Definition New (name namespace : string) : ServiceIdentity :=
  if bool_decide (0 < String.length name)
  then name +:+ "." +:+ namespace
  else "default" +:+ "." +:+ namespace.

Definition FromPrincipal (servicePrincipal trustDomain : string) : ServiceIdentity :=
  TrimSuffix servicePrincipal ("." +:+ trustDomain).

Definition IsWildcard (si : ServiceIdentity) : bool :=
  bool_decide (si = WildcardServiceIdentity).

Definition AsPrincipal (si : ServiceIdentity) (trustDomain : string) : string :=
  if IsWildcard si then si else si +:+ "." +:+ trustDomain.

Record K8sServiceAccount := mkSA { sa_Namespace : string; sa_Name : string }.

#[export] Instance K8sServiceAccount_eq_dec : EqDecision K8sServiceAccount.
Proof. solve_decision. Defined.

#[export] Instance K8sServiceAccount_countable : Countable K8sServiceAccount.
Proof.
  apply (inj_countable' (λ sa, (sa_Namespace sa, sa_Name sa)) (λ p, mkSA p.1 p.2)).
  by intros [].
Defined.

(** Splitting an identity without a dot indexes past the end of the slice. *)
Definition ToK8sServiceAccount (si : ServiceIdentity) : go K8sServiceAccount :=
  let chunks := Split si "."%char in
  name ← index chunks 0;
  namespace ← index chunks 1;
  Ret {| sa_Namespace := namespace; sa_Name := name |}.

Definition sa_String (sa : K8sServiceAccount) : string :=
  sa_Namespace sa +:+ namespaceNameSeparator +:+ sa_Name sa.

Definition ToServiceIdentity (sa : K8sServiceAccount) : ServiceIdentity :=
  New (sa_Name sa) (sa_Namespace sa).

Definition sa_AsPrincipal (sa : K8sServiceAccount) (trustDomain : string) : string :=
  AsPrincipal (ToServiceIdentity sa) trustDomain.

(** A service account as the identity format assumes it: a non-empty name and
    no dot in either part. *)
Definition dotless (sa : K8sServiceAccount) : Prop :=
  sa_Name sa ≠ "" ∧ str_in "." (sa_Name sa) = false ∧ str_in "." (sa_Namespace sa) = false.

(** ** Lemmas *)

Lemma New_nonempty name ns : name ≠ "" → New name ns = name +:+ "." +:+ ns.
Proof. destruct name; [done|]. intros _. by unfold New; rewrite bool_decide_true by (simpl; lia). Qed.

Lemma ToK8sServiceAccount_dot name rest :
  str_in "." name = false →
  ∃ ns tl, Split rest "."%char = ns :: tl ∧
    ToK8sServiceAccount (name +:+ "." +:+ rest) = Ret (mkSA ns name).
Proof.
  intros Hn. unfold ToK8sServiceAccount. rewrite str_app_cons, str_app_nil_l, Split_app by done.
  destruct (Split rest ".") as [|ns tl] eqn:E; [by apply Split_ne_nil in E|]. eauto.
Qed.

Lemma ToK8sServiceAccount_New sa :
  dotless sa → ToK8sServiceAccount (ToServiceIdentity sa) = Ret sa.
Proof.
  destruct sa as [ns name]. intros (Hne & Hn & Hns). unfold ToServiceIdentity; simpl in *.
  rewrite New_nonempty by done.
  destruct (ToK8sServiceAccount_dot name ns Hn) as (ns' & tl & E & ->).
  rewrite Split_none in E by done. by simplify_eq.
Qed.

Lemma ToServiceIdentity_inj sa sa' :
  dotless sa → dotless sa' → ToServiceIdentity sa = ToServiceIdentity sa' → sa = sa'.
Proof.
  intros H H' E. pose proof (ToK8sServiceAccount_New sa H) as HR.
  rewrite E, ToK8sServiceAccount_New in HR by done. by simplify_eq.
Qed.

Lemma FromPrincipal_AsPrincipal si td : FromPrincipal (AsPrincipal si td) td = si.
Proof.
  unfold AsPrincipal, FromPrincipal, IsWildcard. case_bool_decide as Hw.
  - subst. unfold TrimSuffix, WildcardServiceIdentity.
    destruct (HasSuffix "*" ("." +:+ td)) eqn:E; [|done].
    apply HasSuffix_spec in E as [[|a p] Hp]; rewrite ?str_app_nil_l, ?str_app_cons in Hp;
      simplify_eq. destruct p; done.
  - apply TrimSuffix_app.
Qed.

(** ** Properties *)

(** A principal determines the identity it was made from: for every
    identity (the wildcard included) and every trust domain,
    [FromPrincipal] undoes [AsPrincipal]. *)
Theorem principal_roundtrip si td : FromPrincipal (AsPrincipal si td) td = si.
Proof. apply FromPrincipal_AsPrincipal. Qed.

(** Converting a service account to an identity and back returns it, for
    every account with a non-empty name and no dot in name or namespace; in
    particular the conversion does not panic. *)
Theorem service_account_roundtrip sa :
  dotless sa → ToK8sServiceAccount (ToServiceIdentity sa) = Ret sa.
Proof. apply ToK8sServiceAccount_New. Qed.

Lemma service_account_roundtrip_witness :
  ToK8sServiceAccount (ToServiceIdentity (mkSA "bookstore" "sa-1")) = Ret (mkSA "bookstore" "sa-1").
Proof. apply service_account_roundtrip. vm_compute. repeat split; congruence. Defined.

(** Without that condition distinct accounts can share an identity: the
    account [name.ns1] of namespace [ns2] (Kubernetes allows dots in service
    account names) is read back as the account [name] of namespace [ns1], so
    a policy for the latter is applied to the former. *)
Theorem dotted_account_confusion name ns1 ns2 :
  name ≠ "" → str_in "." name = false → str_in "." ns1 = false →
  ToK8sServiceAccount (ToServiceIdentity (mkSA ns2 (name +:+ "." +:+ ns1))) = Ret (mkSA ns1 name).
Proof.
  intros Hne Hn Hns. unfold ToServiceIdentity; simpl. rewrite New_nonempty.
  2:{ destruct name; done. }
  rewrite !str_app_assoc.
  destruct (ToK8sServiceAccount_dot name (ns1 +:+ "." +:+ ns2) Hn) as (ns & tl & E & ->).
  rewrite str_app_cons, str_app_nil_l, Split_app in E by done. by simplify_eq.
Qed.

Lemma dotted_account_confusion_witness :
  ToK8sServiceAccount (ToServiceIdentity (mkSA "other" "admin.prod")) = Ret (mkSA "prod" "admin").
Proof. apply (dotted_account_confusion "admin" "prod" "other"); vm_compute; congruence. Defined.

End Identity.
