(* ===== verification/Service.v ===== *)
(** * Mesh services: pkg/service/types.go, pkg/service/service.go

    [Module Service] holds [MeshService], the names derived from it (cluster
    names, match names, host names) and [WeightedCluster].  The trust domain
    is a package variable of the program; it is passed to the operations that
    read it and [SetTrustDomain] is its state transformer. *)

From S2P Require Import Prelude Identity.

Module Service.

Record MeshService := mkMeshService {
  Namespace : string;
  Name : string;
  Port : Z;
  TargetPort : Z;
  Protocol : string;
  ServiceImportUID : string;
  CloudInheritedFrom : string;
  CloudAttachedNamespace : string
}.

#[export] Instance MeshService_eq_dec : EqDecision MeshService.
Proof. solve_decision. Defined.

#[export] Instance MeshService_countable : Countable MeshService.
Proof.
  apply (inj_countable'
    (λ s, (Namespace s, Name s, Port s, TargetPort s, Protocol s, ServiceImportUID s,
           CloudInheritedFrom s, CloudAttachedNamespace s))
    (λ '(a, b, c, d, e, f, g, h), mkMeshService a b c d e f g h)).
  by intros [].
Defined.

(** The zero value with a name and a namespace, the literal
    [MeshService{Namespace: ns, Name: name}]. *)
Definition named (ns name : string) : MeshService := mkMeshService ns name 0 0 "" "" "" "".

(** ** The trust domain *)

Definition trustDomain_init : string := "cluster.local".

Definition SetTrustDomain (trustDomain domain : string) : string :=
  if bool_decide (0 < String.length domain) then domain else trustDomain.

(** ** Operations *)

Definition nameComponents (ms : MeshService) : list string := Split (Name ms) "."%char.

Definition Subdomain (ms : MeshService) : string :=
  if bool_decide (length (nameComponents ms) = 1) then "" else default "" (head (nameComponents ms)).

Definition ProviderKey (ms : MeshService) : string := default "" (last (nameComponents ms)).

Definition NamespacedKey (ms : MeshService) : string :=
  Namespace ms +:+ "/" +:+ ProviderKey ms.

Definition IsMultiClusterService (ms : MeshService) : bool :=
  bool_decide (0 < String.length (ServiceImportUID ms)).

Definition SiblingTo (ms svc : MeshService) : bool :=
  bool_decide (NamespacedKey ms = NamespacedKey svc).

Definition ms_String (ms : MeshService) : string := Namespace ms +:+ "/" +:+ Name ms.

Definition SidecarClusterName (ms : MeshService) : string :=
  if bool_decide (0 < String.length (CloudAttachedNamespace ms))
  then CloudAttachedNamespace ms +:+ "/" +:+ Name ms +:+ "|" +:+ pretty (TargetPort ms)
  else Namespace ms +:+ "/" +:+ Name ms +:+ "|" +:+ pretty (TargetPort ms).

Definition ms_ClusterName (ms : MeshService) : string :=
  Namespace ms +:+ "/" +:+ Name ms +:+ "|" +:+ pretty (TargetPort ms).

Definition SidecarLocalClusterName (ms : MeshService) : string :=
  Namespace ms +:+ "/" +:+ Name ms +:+ "|" +:+ pretty (TargetPort ms) +:+ "|local".

Definition FQDN (trustDomain : string) (ms : MeshService) : string :=
  Name ms +:+ "." +:+ Namespace ms +:+ ".svc." +:+ trustDomain.

Definition ServerName (trustDomain : string) (ms : MeshService) : string := FQDN trustDomain ms.

Definition PolicyName (ms : MeshService) (attachedNamespace : bool) : string :=
  if attachedNamespace && bool_decide (0 < String.length (CloudAttachedNamespace ms))
  then Name ms +:+ "." +:+ CloudAttachedNamespace ms
  else Name ms +:+ "." +:+ Namespace ms.

Definition OutboundTrafficMatchName (ms : MeshService) : string :=
  "outbound_" +:+ ms_String ms +:+ "_" +:+ pretty (Port ms) +:+ "_" +:+ Protocol ms +:+
  "_" +:+ CloudAttachedNamespace ms.

Definition InboundTrafficMatchName (ms : MeshService) : string :=
  "inbound_" +:+ ms_String ms +:+ "_" +:+ pretty (TargetPort ms) +:+ "_" +:+ Protocol ms +:+
  "_" +:+ CloudAttachedNamespace ms.

Definition IngressTrafficMatchName (name namespace : string) (targetPort : Z) (protocol : string) : string :=
  "ingress_" +:+ namespace +:+ "/" +:+ name +:+ "_" +:+ pretty targetPort +:+ "_" +:+ protocol.

Definition AccessControlTrafficMatchName (name namespace : string) (targetPort : Z) (protocol : string) : string :=
  "acl_" +:+ namespace +:+ "/" +:+ name +:+ "_" +:+ pretty targetPort +:+ "_" +:+ protocol.

Definition ExportedServiceTrafficMatchName (name namespace : string) (targetPort : Z) (protocol : string) : string :=
  "exp_" +:+ namespace +:+ "/" +:+ name +:+ "_" +:+ pretty targetPort +:+ "_" +:+ protocol.

(** The methods of the same names, which pass the namespace first. *)
Definition ms_IngressTrafficMatchName (ms : MeshService) : string :=
  IngressTrafficMatchName (Namespace ms) (Name ms) (TargetPort ms) (Protocol ms).

Definition ms_AccessControlTrafficMatchName (ms : MeshService) : string :=
  AccessControlTrafficMatchName (Namespace ms) (Name ms) (TargetPort ms) (Protocol ms).

Definition ClusterName : Type := string.

Record WeightedCluster := mkWC { wc_ClusterName : ClusterName; wc_Weight : Z }.

#[export] Instance WeightedCluster_eq_dec : EqDecision WeightedCluster.
Proof. solve_decision. Defined.

#[export] Instance WeightedCluster_countable : Countable WeightedCluster.
Proof.
  apply (inj_countable' (λ w, (wc_ClusterName w, wc_Weight w)) (λ p, mkWC p.1 p.2)).
  by intros [].
Defined.

(** ** Lemmas *)

Lemma port_no_bar (z : Z) : str_in "|" (pretty z) = false.
Proof. by apply pretty_Z_in. Qed.

(** The parts of [<namespace>/<name>|<port>] can be read back. *)
Lemma cluster_name_parts ns name (port : Z) ns' name' (port' : Z) :
  str_in "/" ns = false → str_in "/" ns' = false →
  ns +:+ "/" +:+ name +:+ "|" +:+ pretty port = ns' +:+ "/" +:+ name' +:+ "|" +:+ pretty port' →
  ns = ns' ∧ name = name' ∧ port = port'.
Proof.
  intros H H'. rewrite !str_app_cons, !str_app_nil_l.
  intros [-> [-> ?%(inj pretty)]%str_cut_last]%str_cut_first; auto using port_no_bar.
Qed.

Lemma SidecarClusterName_tail ms :
  ∃ p, SidecarClusterName ms = p +:+ String "|" (pretty (TargetPort ms)).
Proof.
  unfold SidecarClusterName. case_bool_decide.
  - exists (CloudAttachedNamespace ms +:+ "/" +:+ Name ms). by rewrite !str_app_assoc.
  - exists (Namespace ms +:+ "/" +:+ Name ms). by rewrite !str_app_assoc.
Qed.

Lemma local_cluster_name_tail ms :
  ∃ p, SidecarLocalClusterName ms = p +:+ String "|" "local".
Proof.
  unfold SidecarLocalClusterName.
  exists (Namespace ms +:+ "/" +:+ Name ms +:+ "|" +:+ pretty (TargetPort ms)).
  by rewrite !str_app_assoc.
Qed.

(** ** Properties *)

(** Cluster names do not collide: when the namespaces that enter them hold
    no slash, equal [ClusterName]s come from services with the same
    namespace, name and target port. *)
Theorem cluster_name_injective ms ms' :
  str_in "/" (Namespace ms) = false → str_in "/" (Namespace ms') = false →
  ms_ClusterName ms = ms_ClusterName ms' →
  Namespace ms = Namespace ms' ∧ Name ms = Name ms' ∧ TargetPort ms = TargetPort ms'.
Proof. apply cluster_name_parts. Qed.

Lemma cluster_name_injective_witness :
  let ms := mkMeshService "ns" "svc" 80 8080 "http" "" "" "" in
  let ms' := mkMeshService "ns" "svc" 81 8080 "tcp" "" "" "" in
  Namespace ms = Namespace ms' ∧ Name ms = Name ms' ∧ TargetPort ms = TargetPort ms'.
Proof. apply cluster_name_injective; vm_compute; reflexivity. Defined.

(** The cluster an upstream serves locally and the cluster a downstream
    dials never share a name, whatever services they belong to. *)
Theorem local_and_remote_cluster_names_differ ms ms' :
  SidecarLocalClusterName ms ≠ SidecarClusterName ms'.
Proof.
  destruct (local_cluster_name_tail ms) as [p ->], (SidecarClusterName_tail ms') as [q ->].
  intros [_ E]%str_cut_last; [|done|apply port_no_bar].
  assert (str_in "l" (pretty (TargetPort ms')) = true) as Hl by by rewrite <-E.
  by rewrite pretty_Z_in in Hl.
Qed.

(** A headless service's [MeshService] is named [<pod>.<service>]; its
    provider key is the service, its subdomain the pod, and all the pods of
    one service are siblings of the service itself. *)
Theorem subdomain_provider_key ns pod svc port tport proto uid cif can :
  str_in "." pod = false → str_in "." svc = false →
  let ms := mkMeshService ns (pod +:+ "." +:+ svc) port tport proto uid cif can in
  Subdomain ms = pod ∧ ProviderKey ms = svc ∧ SiblingTo ms (named ns svc) = true.
Proof.
  intros Hp Hs ms. assert (nameComponents ms = [pod; svc]) as E.
  { unfold nameComponents; simpl. rewrite str_app_cons, str_app_nil_l.
    by rewrite Split_app, Split_none. }
  assert (ProviderKey ms = svc) as Hk by (by unfold ProviderKey; rewrite E).
  split; [by unfold Subdomain; rewrite E|]. split; [done|].
  unfold SiblingTo, NamespacedKey. rewrite Hk. unfold ProviderKey, nameComponents; simpl.
  rewrite Split_none by done. by apply bool_decide_true.
Qed.

Lemma subdomain_provider_key_witness :
  let ms := mkMeshService "db" "mysql-0.mysql" 3306 3306 "tcp" "" "" "" in
  Subdomain ms = "mysql-0" ∧ ProviderKey ms = "mysql" ∧ SiblingTo ms (named "db" "mysql") = true.
Proof. apply (subdomain_provider_key "db" "mysql-0" "mysql"); vm_compute; reflexivity. Defined.

(** The ingress match name of a service rendered by the method is the one
    the catalog renders with the function only when name and namespace
    agree: the method hands the namespace over as the name. *)
Theorem ingress_match_name_swapped ms :
  str_in "/" (Name ms) = false → str_in "/" (Namespace ms) = false →
  ms_IngressTrafficMatchName ms =
    IngressTrafficMatchName (Name ms) (Namespace ms) (TargetPort ms) (Protocol ms) →
  Name ms = Namespace ms.
Proof.
  intros Hn Hns. unfold ms_IngressTrafficMatchName, IngressTrafficMatchName.
  intros H%(inj (String.app "ingress_")). rewrite !str_app_cons, !str_app_nil_l in H.
  by apply str_cut_first in H as [? _].
Qed.

Lemma ingress_match_name_swapped_witness :
  let ms := mkMeshService "a" "a" 80 80 "http" "" "" "" in Name ms = Namespace ms.
Proof. apply ingress_match_name_swapped; vm_compute; reflexivity. Defined.

End Service.
