(* ===== verification/Core.v ===== *)
(** * Kubernetes core objects, machines, multicluster resources

    The objects of k8s.io/api/core/v1 with the fields the control plane
    reads, pkg/apis/machine/v1alpha1, pkg/apis/multicluster/v1alpha1, and the
    metadata a connector attaches to a service (pkg/connector/metadata.go).
    Label selectors are those of k8s.io/apimachinery: a class with the
    documented contract. *)

From S2P Require Import Prelude.

Module Core.

(** ** Core objects *)

Record K8sNamespace := mkNamespace { ns_Name : string; ns_Annotations : gmap string string }.

Record NamespacedName := mkNN { nn_Namespace : string; nn_Name : string }.

Definition nn_String (n : NamespacedName) : string := nn_Namespace n +:+ "/" +:+ nn_Name n.

(** intstr.IntOrString *)
Inductive IntOrString := IntVal (i : Z) | StrVal (s : string).

(** [corev1.ServicePort] *)
Record K8sServicePort := mkServicePort {
  svp_Name : string; svp_Protocol : string; svp_AppProtocol : option string; svp_Port : Z;
  svp_TargetPort : IntOrString }.

Record K8sService := mkK8sService {
  k8s_Namespace : string; k8s_Name : string; k8s_UID : string;
  k8s_Labels : gmap string string; k8s_Annotations : gmap string string;
  k8s_Selector : gmap string string; k8s_ClusterIP : string; k8s_Ports : list K8sServicePort }.

Record EndpointPort := mkEndpointPort {
  epp_Name : string; epp_Protocol : string; epp_AppProtocol : option string; epp_Port : Z }.

Record EndpointAddress := mkEndpointAddress { epa_IP : string; epa_Hostname : string }.

Record EndpointSubset := mkSubset { sub_Addresses : list EndpointAddress; sub_Ports : list EndpointPort }.

Record Endpoints := mkEndpoints {
  eps_Namespace : string; eps_Name : string; eps_Labels : gmap string string;
  eps_Annotations : gmap string string; eps_Subsets : list EndpointSubset }.

Record Pod := mkPod {
  pod_Namespace : string; pod_Name : string; pod_Labels : gmap string string;
  pod_Annotations : gmap string string; pod_ServiceAccountName : string; pod_PodIPs : list string;
  pod_DeletionTimestamp : option Z }.

Record K8sServiceAccountObj := mkServiceAccountObj { sao_Namespace : string; sao_Name : string }.

(** pkg/apis/machine/v1alpha1 *)
Record VirtualMachine := mkVM {
  vm_Namespace : string; vm_Name : string; vm_Labels : gmap string string;
  vm_ServiceAccountName : string; vm_MachineIP : string }.

(** networkingv1.IngressClass *)
Record IngressClass := mkIngressClass { igc_Annotations : gmap string string }.

(** ** Label selectors *)

(** [labels.Set(selector).AsSelector().Matches(labels)] *)
Class LabelMatch := { Matches : gmap string string → gmap string string → bool }.

(** Every requirement of the selector is a label. *)
Class LabelMatchSpec `{LM : LabelMatch} := {
  Matches_spec : ∀ selector labels, Matches selector labels = true ↔ selector ⊆ labels
}.

Definition subset_LabelMatch : LabelMatch :=
  {| Matches := λ selector labels,
       bool_decide (Forall (λ kv : string * string, labels !! kv.1 = Some kv.2) (map_to_list selector)) |}.

Definition subset_LabelMatchSpec : @LabelMatchSpec subset_LabelMatch.
Proof.
  constructor. intros selector labels. simpl. rewrite bool_decide_eq_true, Forall_forall, map_subseteq_spec. split.
  - intros H k v Hk. apply (H (k, v)). by apply elem_of_map_to_list.
  - intros H [k v] Hkv. apply H. by apply elem_of_map_to_list in Hkv.
Defined.

(** ** Multicluster resources *)

Record Target := mkTarget { tgt_Host : string; tgt_IP : string; tgt_Port : Z; tgt_Path : string }.

Record ImportEndpoint := mkImportEndpoint { ime_Target : Target; ime_ClusterKey : string }.

Record ImportPort := mkImportPort {
  ipt_Name : string; ipt_Protocol : string; ipt_AppProtocol : option string; ipt_Port : Z;
  ipt_Endpoints : list ImportEndpoint }.

Record ServiceImport := mkServiceImport {
  si_Namespace : string; si_Name : string; si_UID : string; si_Ports : list ImportPort;
  si_ServiceAccountName : string }.

Definition LocalityLbType : string := "Locality".

Record LbTarget := mkLbTarget { lbt_ClusterKey : string; lbt_Weight : option Z }.

Record GlobalTrafficPolicy := mkGlobalTrafficPolicy {
  gtp_Namespace : string; gtp_Name : string; gtp_LbType : string; gtp_Targets : list LbTarget }.

Record ServiceExportRule := mkExportRule {
  ser_PortNumber : Z; ser_Path : string; ser_PathType : option string }.

(** metav1.Condition *)
Record Condition := mkCondition { cond_Type : string; cond_Status : string }.

Record ServiceExport := mkServiceExport {
  se_Namespace : string; se_Name : string; se_Rules : list ServiceExportRule;
  se_Conditions : list Condition }.

(** ** Connector metadata *)

Record MicroEndpointMeta := mkMicroEndpoint {
  mem_Ports : gmap Z string;
  mem_ClusterSet : string; mem_ClusterId : string; mem_ViaGatewayHTTP : string;
  mem_ViaGatewayGRPC : string; mem_ViaGatewayMode : string;
  mem_InternalService : bool; mem_WithGateway : bool; mem_WithMultiGateways : bool }.

Record MicroSvcMeta := mkMicroSvc {
  msm_TargetPorts : gmap Z string;
  msm_Endpoints : gmap string MicroEndpointMeta;
  msm_GRPCInterface : option string }.

End Core.
