(* ===== verification/Api.v ===== *)
(** * API objects: pkg/apis/policy/v1alpha1, pkg/apis/config/v1alpha3

    The resources the control plane reads, with the fields the modelled code
    reads or compares; of object metadata, statuses and the objects of other
    repositories (Kubernetes core, the SMI SDK) only what it needs appears.  Pointers are [option]s; a slice or map that is compared with
    [reflect.DeepEqual] keeps the difference between nil and empty; floats are
    carried as their IEEE bit patterns, since no modelled operation computes
    with them. *)

From S2P Require Import Prelude Core.

Module Api.

Export Core.Core.

(** metav1.Duration, in nanoseconds, and a float's bits. *)
Definition Duration : Type := Z.
Definition float_bits : Type := Z.

(** corev1.TypedLocalObjectReference *)
Record TypedLocalObjectReference := mkRef {
  ref_APIGroup : option string; ref_Kind : string; ref_Name : string }.

(** ** policy.flomesh.io/v1alpha1 *)

Record PortSpec := mkPortSpec { ps_Number : Z; ps_Protocol : string }.

Record HTTPHeaderValue := mkHeader { hv_Name : string; hv_Value : string }.

Record TCPLocalRateLimitSpec := mkTCPRL {
  trl_Connections : Z; trl_Unit : string; trl_Burst : Z }.

Record HTTPLocalRateLimitSpec := mkHTTPRL {
  hrl_Requests : Z; hrl_Unit : string; hrl_Burst : Z; hrl_ResponseStatusCode : Z;
  hrl_ResponseHeadersToAdd : slice HTTPHeaderValue }.

Record LocalRateLimitSpec := mkLocalRL {
  lrl_TCP : option TCPLocalRateLimitSpec; lrl_HTTP : option HTTPLocalRateLimitSpec }.

Record RateLimitSpec := mkRL { rl_Local : option LocalRateLimitSpec }.

Record HTTPPerRouteRateLimitSpec := mkPerRouteRL { prl_Local : option HTTPLocalRateLimitSpec }.

Record HTTPRouteSpec := mkHTTPRouteSpec {
  hrs_Path : string; hrs_RateLimit : option HTTPPerRouteRateLimitSpec }.

Record TCPConnectionSettings := mkTCPConn {
  tcs_MaxConnections : option Z; tcs_ConnectTimeout : option Duration }.

Record HTTPCircuitBreaking := mkHTTPCB {
  hcb_StatTimeWindow : option Duration; hcb_MinRequestAmount : Z;
  hcb_DegradedTimeWindow : option Duration; hcb_SlowTimeThreshold : option Duration;
  hcb_SlowAmountThreshold : option Z; hcb_SlowRatioThreshold : option float_bits;
  hcb_ErrorAmountThreshold : option Z; hcb_ErrorRatioThreshold : option float_bits;
  hcb_DegradedStatusCode : option Z; hcb_DegradedResponseContent : option string }.

Record HTTPConnectionSettings := mkHTTPConn {
  hcs_MaxRequests : option Z; hcs_MaxRequestsPerConnection : option Z;
  hcs_MaxPendingRequests : option Z; hcs_MaxRetries : option Z;
  hcs_CircuitBreaking : option HTTPCircuitBreaking }.

Record ConnectionSettingsSpec := mkConn {
  cs_TCP : option TCPConnectionSettings; cs_HTTP : option HTTPConnectionSettings }.

Record UpstreamTrafficSettingSpec := mkUTSSpec {
  utss_Host : string; utss_ConnectionSettings : option ConnectionSettingsSpec;
  utss_RateLimit : option RateLimitSpec; utss_HTTPRoutes : slice HTTPRouteSpec }.

Record UpstreamTrafficSetting := mkUTS {
  uts_Namespace : string; uts_Name : string; uts_Spec : UpstreamTrafficSettingSpec }.

Record RetrySrcDstSpec := mkRetrySD { rsd_Kind : string; rsd_Name : string; rsd_Namespace : string }.

Record RetryPolicySpec := mkRetryPolicy {
  rp_RetryOn : string; rp_PerTryTimeout : option Duration; rp_NumRetries : option Z;
  rp_RetryBackoffBaseInterval : option Duration }.

Record RetrySpec := mkRetrySpec {
  rs_Source : RetrySrcDstSpec; rs_Destinations : list RetrySrcDstSpec;
  rs_RetryPolicy : RetryPolicySpec }.

Record Retry := mkRetry { retry_Spec : RetrySpec }.

Record SecretReference := mkSecretRef { sr_Name : string; sr_Namespace : string }.

Record EgressSourceCertSpec := mkESCert {
  esc_SerialNumber : Z; esc_SubjectAltNames : slice string; esc_Expiration : string;
  esc_Secret : SecretReference }.

Record EgressSourceMTLSSpec := mkESMTLS {
  esm_Issuer : string; esm_Cert : option EgressSourceCertSpec }.

Record EgressSourceSpec := mkESource {
  ess_Kind : string; ess_Name : string; ess_Namespace : string;
  ess_MTLS : option EgressSourceMTLSSpec }.

Record EgressSpec := mkEgressSpec {
  es_Sources : list EgressSourceSpec; es_Hosts : list string; es_IPAddresses : list string;
  es_Ports : list PortSpec; es_Matches : list TypedLocalObjectReference }.

Record Egress := mkEgress { eg_Namespace : string; eg_Name : string; eg_Spec : EgressSpec }.

Record GatewayBindingSubject := mkGBS {
  gbs_Service : string; gbs_Namespace : string; gbs_Weight : option Z }.

Record EgressGateway := mkEgressGateway {
  egw_Namespace : string; egw_Name : string;
  egw_GlobalEgressGateways : slice GatewayBindingSubject }.

Record TLSSpec := mkTLS { tls_SkipClientCertValidation : bool; tls_SNIHosts : list string }.

(** [BackendSpec] and [AccessControlBackendSpec] have the same fields, and so
    do [IngressSourceSpec] and [AccessControlSourceSpec]. *)
Record BackendSpec := mkBackend {
  be_Name : string; be_Port : PortSpec; be_TLS : option TLSSpec }.

Record SourceSpec := mkSource { src_Kind : string; src_Name : string; src_Namespace : string }.

Definition KindService : string := "Service".
Definition KindAuthenticatedPrincipal : string := "AuthenticatedPrincipal".
Definition KindIPRange : string := "IPRange".

Record Status := mkStatus { st_CurrentStatus : string; st_Reason : string }.

Record IngressBackend := mkIngressBackend {
  ib_Namespace : string; ib_Name : string; ib_Backends : list BackendSpec;
  ib_Sources : list SourceSpec; ib_Status : Status }.

Record AccessControl := mkAccessControl {
  ac_Namespace : string; ac_Name : string; ac_Backends : list BackendSpec;
  ac_Sources : list SourceSpec; ac_Status : Status }.

Record Isolation := mkIsolation { iso_CIDR : list string }.

(** ** config.flomesh.io/v1alpha3 *)

Record TrafficWarmupSpec := mkWarmup {
  tw_Enable : bool; tw_Duration : Duration; tw_MinWeight : option Z; tw_MaxWeight : option Z;
  tw_Aggression : option float_bits }.

Record TrafficWarmup := mkTrafficWarmup { two_Namespace : string; two_Spec : TrafficWarmupSpec }.

Record CloudServiceAccessNames := mkCSAN { csan_WithNamespace : bool }.

Record ServiceAccessNames := mkSAN {
  san_MustWithServicePort : bool; san_WithTrustDomain : bool; san_MustWithNamespace : bool;
  san_Cloud : option CloudServiceAccessNames }.

Definition ServiceAccessMode : Type := string.
Definition ServiceAccessModeIP : ServiceAccessMode := "ip".
Definition ServiceAccessModeDomain : ServiceAccessMode := "domain".
Definition ServiceAccessModeMixed : ServiceAccessMode := "mixed".

Definition FailOverLbType : string := "FailOver".
Definition ActiveActiveLbType : string := "ActiveActive".

Record LoadBalancer := mkLB {
  lb_Type : string; lb_MasterNamespace : string; lb_SlaveNamespaces : slice string }.

Definition IsMasterNamespace (lb : LoadBalancer) (namespace : string) : bool :=
  if bool_decide (FailOverLbType = lb_Type lb) && bool_decide (0 < length (slice_elems (lb_SlaveNamespaces lb)))
  then EqualFold (lb_MasterNamespace lb) namespace else false.

Definition IsSlaveNamespace (lb : LoadBalancer) (namespace : string) : bool :=
  if bool_decide (FailOverLbType = lb_Type lb) && bool_decide (0 < length (slice_elems (lb_SlaveNamespaces lb)))
  then existsb (λ ns, EqualFold ns namespace) (slice_elems (lb_SlaveNamespaces lb)) else false.

(** ** SMI objects *)

Record IdentityBindingSubject := mkSubject {
  ibs_Kind : string; ibs_Name : string; ibs_Namespace : string }.

Record TrafficTargetRule := mkTTRule {
  ttr_Kind : string; ttr_Name : string; ttr_Matches : list string }.

Record TrafficTarget := mkTrafficTarget {
  tt_Namespace : string; tt_Name : string; tt_Destination : IdentityBindingSubject;
  tt_Sources : list IdentityBindingSubject; tt_Rules : list TrafficTargetRule }.

Record HTTPMatch := mkHTTPMatch {
  hm_Name : string; hm_Methods : slice string; hm_PathRegex : string;
  hm_Headers : option (gmap string string) }.

Record HTTPRouteGroup := mkHTTPRouteGroup {
  hrg_Namespace : string; hrg_Name : string; hrg_Matches : slice HTTPMatch }.

Record TCPRoute := mkTCPRoute {
  tcp_Namespace : string; tcp_Name : string; tcp_Ports : list Z }.

Record TrafficSplitBackend := mkSplitBackend { tsb_Service : string; tsb_Weight : Z }.

Record TrafficSplit := mkTrafficSplit {
  ts_Namespace : string; ts_Name : string; ts_Service : string;
  ts_Backends : list TrafficSplitBackend; ts_Matches : list TypedLocalObjectReference }.

Definition HTTPRouteGroupKind : string := "HTTPRouteGroup".
Definition TCPRouteKind : string := "TCPRoute".
Definition ServiceAccountKind : string := "ServiceAccount".

(** ** Decidable equality, where the code compares values *)

#[export] Instance HTTPHeaderValue_eq_dec : EqDecision HTTPHeaderValue.
Proof. solve_decision. Defined.
#[export] Instance HTTPLocalRateLimitSpec_eq_dec : EqDecision HTTPLocalRateLimitSpec.
Proof. unfold slice. solve_decision. Defined.
#[export] Instance HTTPPerRouteRateLimitSpec_eq_dec : EqDecision HTTPPerRouteRateLimitSpec.
Proof. solve_decision. Defined.
#[export] Instance TCPLocalRateLimitSpec_eq_dec : EqDecision TCPLocalRateLimitSpec.
Proof. solve_decision. Defined.
#[export] Instance LocalRateLimitSpec_eq_dec : EqDecision LocalRateLimitSpec.
Proof. solve_decision. Defined.
#[export] Instance RateLimitSpec_eq_dec : EqDecision RateLimitSpec.
Proof. solve_decision. Defined.
#[export] Instance RetryPolicySpec_eq_dec : EqDecision RetryPolicySpec.
Proof. unfold Duration. solve_decision. Defined.
#[export] Instance K8sSubject_eq_dec : EqDecision IdentityBindingSubject.
Proof. solve_decision. Defined.

End Api.
