(* ===== verification/Announcements.v ===== *)
(** * Announcement kinds: pkg/announcements/types.go

    The kinds of the events the control plane reacts to.  A [Kind] is a
    string, and two constants with one string are the same kind: the lists
    below keep the order of the declarations, so that this can be decided. *)

From S2P Require Import Prelude.

Module Announcements.

Definition Kind : Type := string.

Definition ProxyUpdate : Kind := "proxy-update".
Definition IngressUpdate : Kind := "ingress-update".
Definition GatewayUpdate : Kind := "gateway-update".
Definition ServiceUpdate : Kind := "service-update".
Definition ConnectorUpdate : Kind := "connector-update".
Definition XNetworkUpdate : Kind := "xnetwork-update".
Definition MCSUpdate : Kind := "mcs-update".
Definition PodAdded : Kind := "pod-added".
Definition PodDeleted : Kind := "pod-deleted".
Definition PodUpdated : Kind := "pod-updated".
Definition EndpointAdded : Kind := "endpoint-added".
Definition EndpointDeleted : Kind := "endpoint-deleted".
Definition EndpointUpdated : Kind := "endpoint-updated".
Definition NamespaceAdded : Kind := "namespace-added".
Definition NamespaceDeleted : Kind := "namespace-deleted".
Definition NamespaceUpdated : Kind := "namespace-updated".
Definition ServiceAdded : Kind := "service-added".
Definition ServiceDeleted : Kind := "service-deleted".
Definition ServiceUpdated : Kind := "service-updated".
Definition ServiceAccountAdded : Kind := "serviceaccount-added".
Definition ServiceAccountDeleted : Kind := "serviceaccount-deleted".
Definition ServiceAccountUpdated : Kind := "serviceaccount-updated".
Definition TrafficSplitAdded : Kind := "trafficsplit-added".
Definition TrafficSplitDeleted : Kind := "trafficsplit-deleted".
Definition TrafficSplitUpdated : Kind := "trafficsplit-updated".
Definition RouteGroupAdded : Kind := "routegroup-added".
Definition RouteGroupDeleted : Kind := "routegroup-deleted".
Definition RouteGroupUpdated : Kind := "routegroup-updated".
Definition TCPRouteAdded : Kind := "tcproute-added".
Definition TCPRouteDeleted : Kind := "tcproute-deleted".
Definition TCPRouteUpdated : Kind := "tcproute-updated".
Definition TrafficTargetAdded : Kind := "traffictarget-added".
Definition TrafficTargetDeleted : Kind := "traffictarget-deleted".
Definition TrafficTargetUpdated : Kind := "traffictarget-updated".
Definition IngressAdded : Kind := "ingress-added".
Definition IngressDeleted : Kind := "ingress-deleted".
Definition IngressUpdated : Kind := "ingress-updated".
Definition IngressClassAdded : Kind := "ingressclass-added".
Definition IngressClassDeleted : Kind := "ingressclass-deleted".
Definition IngressClassUpdated : Kind := "ingressclass-updated".
Definition CertificateRotated : Kind := "certificate-rotated".
Definition MeshConfigAdded : Kind := "meshconfig-added".
Definition MeshConfigDeleted : Kind := "meshconfig-deleted".
Definition MeshConfigUpdated : Kind := "meshconfig-updated".
Definition MeshRootCertificateAdded : Kind := "meshrootcertificate-added".
Definition MeshRootCertificateDeleted : Kind := "meshrootcertificate-deleted".
Definition MeshRootCertificateUpdated : Kind := "meshrootcertificate-updated".
Definition EgressAdded : Kind := "egress-added".
Definition EgressDeleted : Kind := "egress-deleted".
Definition EgressUpdated : Kind := "egress-updated".
Definition EgressGatewayAdded : Kind := "egressgateway-added".
Definition EgressGatewayDeleted : Kind := "egressgateway-deleted".
Definition EgressGatewayUpdated : Kind := "egressgateway-updated".
Definition IngressBackendAdded : Kind := "ingressbackend-added".
Definition IngressBackendDeleted : Kind := "ingressbackend-deleted".
Definition IngressBackendUpdated : Kind := "ingressbackend-updated".
Definition AccessControlAdded : Kind := "accesscontrol-added".
Definition AccessControlDeleted : Kind := "accesscontrol-deleted".
Definition AccessControlUpdated : Kind := "accesscontrol-updated".
Definition AccessCertAdded : Kind := "accesscert-added".
Definition AccessCertDeleted : Kind := "accesscert-deleted".
Definition AccessCertUpdated : Kind := "accesscert-updated".
Definition ConsulConnectorAdded : Kind := "consulconnector-added".
Definition ConsulConnectorDeleted : Kind := "consulconnector-deleted".
Definition ConsulConnectorUpdated : Kind := "consulconnector-updated".
Definition EurekaConnectorAdded : Kind := "eurekaconnector-added".
Definition EurekaConnectorDeleted : Kind := "eurekaconnector-deleted".
Definition EurekaConnectorUpdated : Kind := "eurekaconnector-updated".
Definition NacosConnectorAdded : Kind := "nacosconnector-added".
Definition NacosConnectorDeleted : Kind := "nacosconnector-deleted".
Definition NacosConnectorUpdated : Kind := "nacosconnector-updated".
Definition ZookeeperConnectorAdded : Kind := "zookeeperconnector-added".
Definition ZookeeperConnectorDeleted : Kind := "zookeeperconnector-deleted".
Definition ZookeeperConnectorUpdated : Kind := "zookeeperconnector-updated".
Definition MachineConnectorAdded : Kind := "machineconnector-added".
Definition MachineConnectorDeleted : Kind := "machineconnector-deleted".
Definition MachineConnectorUpdated : Kind := "machineconnector-updated".
Definition GatewayConnectorAdded : Kind := "gatewayconnector-added".
Definition GatewayConnectorDeleted : Kind := "gatewayconnector-deleted".
Definition GatewayConnectorUpdated : Kind := "gatewayconnector-updated".
Definition ServiceExportAdded : Kind := "serviceexport-added".
Definition ServiceExportDeleted : Kind := "serviceexport-deleted".
Definition ServiceExportUpdated : Kind := "serviceexport-updated".
Definition MultiClusterServiceExportCreated : Kind := "mcs-serviceexport-created".
Definition MultiClusterServiceExportDeleted : Kind := "mcs-serviceexport-deleted".
Definition MultiClusterServiceExportAccepted : Kind := "mcs-serviceexport-accepted".
Definition MultiClusterServiceExportRejected : Kind := "mcs-serviceexport-rejected".
Definition ServiceImportAdded : Kind := "serviceimport-added".
Definition ServiceImportDeleted : Kind := "serviceimport-deleted".
Definition ServiceImportUpdated : Kind := "serviceimport-updated".
Definition GlobalTrafficPolicyAdded : Kind := "globaltrafficpolicy-added".
Definition GlobalTrafficPolicyDeleted : Kind := "globaltrafficpolicy-deleted".
Definition GlobalTrafficPolicyUpdated : Kind := "globaltrafficpolicy-updated".
Definition IsolationPolicyAdded : Kind := "isolation-added".
Definition IsolationPolicyDeleted : Kind := "isolation-deleted".
Definition IsolationPolicyUpdated : Kind := "isolation-updated".
Definition RetryPolicyAdded : Kind := "retry-added".
Definition RetryPolicyDeleted : Kind := "retry-deleted".
Definition RetryPolicyUpdated : Kind := "retry-updated".
Definition TrafficWarmupAdded : Kind := "trafficwarmup-added".
Definition TrafficWarmupDeleted : Kind := "trafficwarmup-deleted".
Definition TrafficWarmupUpdated : Kind := "trafficwarmup-updated".
Definition UpstreamTrafficSettingAdded : Kind := "upstreamtrafficsetting-added".
Definition UpstreamTrafficSettingDeleted : Kind := "upstreamtrafficsetting-deleted".
Definition UpstreamTrafficSettingUpdated : Kind := "upstreamtrafficsetting-updated".
Definition PluginAdded : Kind := "plugin-added".
Definition PluginDeleted : Kind := "plugin-deleted".
Definition PluginUpdated : Kind := "plugin-updated".
Definition PluginChainAdded : Kind := "pluginchain-added".
Definition PluginChainDeleted : Kind := "pluginchain-deleted".
Definition PluginChainUpdated : Kind := "pluginchain-updated".
Definition PluginConfigAdded : Kind := "pluginconfig-added".
Definition PluginConfigDeleted : Kind := "pluginconfig-deleted".
Definition PluginConfigUpdated : Kind := "pluginconfig-updated".
Definition VirtualMachineAdded : Kind := "virtualmachine-added".
Definition VirtualMachineDeleted : Kind := "virtualmachine-deleted".
Definition VirtualMachineUpdated : Kind := "virtualmachine-updated".
Definition XAccessControlAdded : Kind := "accesscontrol-added".
Definition XAccessControlDeleted : Kind := "accesscontrol-deleted".
Definition XAccessControlUpdated : Kind := "accesscontrol-updated".
Definition XEIPAdvertisementAdded : Kind := "eipadvertisement-added".
Definition XEIPAdvertisementDeleted : Kind := "eipadvertisement-deleted".
Definition XEIPAdvertisementUpdated : Kind := "eipadvertisement-updated".
Definition EndpointSlicesAdded : Kind := "endpointslices-added".
Definition EndpointSlicesDeleted : Kind := "endpointslices-deleted".
Definition EndpointSlicesUpdated : Kind := "endpointslices-updated".
Definition SecretAdded : Kind := "secret-added".
Definition SecretDeleted : Kind := "secret-deleted".
Definition SecretUpdated : Kind := "secret-updated".
Definition ConfigMapAdded : Kind := "configmap-added".
Definition ConfigMapDeleted : Kind := "configmap-deleted".
Definition ConfigMapUpdated : Kind := "configmap-updated".
Definition GatewayAPIGatewayClassAdded : Kind := "gwapi-gatewayclass-added".
Definition GatewayAPIGatewayClassDeleted : Kind := "gwapi-gatewayclass-deleted".
Definition GatewayAPIGatewayClassUpdated : Kind := "gwapi-gatewayclass-updated".
Definition GatewayAPIGatewayAdded : Kind := "gwapi-gateway-added".
Definition GatewayAPIGatewayDeleted : Kind := "gwapi-gateway-deleted".
Definition GatewayAPIGatewayUpdated : Kind := "gwapi-gateway-updated".
Definition GatewayAPIHTTPRouteAdded : Kind := "gwapi-httproute-added".
Definition GatewayAPIHTTPRouteDeleted : Kind := "gwapi-httproute-deleted".
Definition GatewayAPIHTTPRouteUpdated : Kind := "gwapi-httproute-updated".
Definition GatewayAPIGRPCRouteAdded : Kind := "gwapi-grpcroute-added".
Definition GatewayAPIGRPCRouteDeleted : Kind := "gwapi-grpcroute-deleted".
Definition GatewayAPIGRPCRouteUpdated : Kind := "gwapi-grpcroute-updated".
Definition GatewayAPITLSRouteAdded : Kind := "gwapi-tlsroute-added".
Definition GatewayAPITLSRouteDeleted : Kind := "gwapi-tlsroute-deleted".
Definition GatewayAPITLSRouteUpdated : Kind := "gwapi-tlsroute-updated".
Definition GatewayAPITCPRouteAdded : Kind := "gwapi-tcproute-added".
Definition GatewayAPITCPRouteDeleted : Kind := "gwapi-tcproute-deleted".
Definition GatewayAPITCPRouteUpdated : Kind := "gwapi-tcproute-updated".
Definition GatewayAPIUDPRouteAdded : Kind := "gwapi-udproute-added".
Definition GatewayAPIUDPRouteDeleted : Kind := "gwapi-udproute-deleted".
Definition GatewayAPIUDPRouteUpdated : Kind := "gwapi-udproute-updated".
Definition GatewayAPIReferenceGrantAdded : Kind := "gwapi-referencegrant-added".
Definition GatewayAPIReferenceGrantDeleted : Kind := "gwapi-referencegrant-deleted".
Definition GatewayAPIReferenceGrantUpdated : Kind := "gwapi-referencegrant-updated".
Definition RateLimitAdded : Kind := "RateLimit-added".
Definition RateLimitDeleted : Kind := "RateLimit-deleted".
Definition RateLimitUpdated : Kind := "RateLimit-updated".
Definition CircuitBreakerAdded : Kind := "circuitbreaking-added".
Definition CircuitBreakerDeleted : Kind := "circuitbreaking-deleted".
Definition CircuitBreakerUpdated : Kind := "circuitbreaking-updated".
Definition HealthCheckPolicyAdded : Kind := "healthcheckpolicy-added".
Definition HealthCheckPolicyDeleted : Kind := "healthcheckpolicy-deleted".
Definition HealthCheckPolicyUpdated : Kind := "healthcheckpolicy-updated".
Definition FaultInjectionAdded : Kind := "FaultInjection-added".
Definition FaultInjectionDeleted : Kind := "FaultInjection-deleted".
Definition FaultInjectionUpdated : Kind := "FaultInjection-updated".
Definition BackendTLSPolicyAdded : Kind := "backendtlspolicy-added".
Definition BackendTLSPolicyDeleted : Kind := "backendtlspolicy-deleted".
Definition BackendTLSPolicyUpdated : Kind := "backendtlspolicy-updated".
Definition BackendLBPolicyAdded : Kind := "backendlbpolicy-added".
Definition BackendLBPolicyDeleted : Kind := "backendlbpolicy-deleted".
Definition BackendLBPolicyUpdated : Kind := "backendlbpolicy-updated".
Definition RouteRuleFilterPolicyAdded : Kind := "routerulefilterpolicy-added".
Definition RouteRuleFilterPolicyDeleted : Kind := "routerulefilterpolicy-deleted".
Definition RouteRuleFilterPolicyUpdated : Kind := "routerulefilterpolicy-updated".
Definition FilterAdded : Kind := "filter-added".
Definition FilterDeleted : Kind := "filter-deleted".
Definition FilterUpdated : Kind := "filter-updated".
Definition FilterDefinitionAdded : Kind := "filterdefinition-added".
Definition FilterDefinitionDeleted : Kind := "filterdefinition-deleted".
Definition FilterDefinitionUpdated : Kind := "filterdefinition-updated".
Definition ListenerFilterAdded : Kind := "listenerfilter-added".
Definition ListenerFilterDeleted : Kind := "listenerfilter-deleted".
Definition ListenerFilterUpdated : Kind := "listenerfilter-updated".
Definition FilterConfigAdded : Kind := "filterconfig-added".
Definition FilterConfigDeleted : Kind := "filterconfig-deleted".
Definition FilterConfigUpdated : Kind := "filterconfig-updated".
Definition GatewayHTTPLogAdded : Kind := "gatewayhttplog-added".
Definition GatewayHTTPLogDeleted : Kind := "gatewayhttplog-deleted".
Definition GatewayHTTPLogUpdated : Kind := "gatewayhttplog-updated".
Definition GatewayMetricsAdded : Kind := "gatewaymetrics-added".
Definition GatewayMetricsDeleted : Kind := "gatewaymetrics-deleted".
Definition GatewayMetricsUpdated : Kind := "gatewaymetrics-updated".
Definition GatewayZipkinAdded : Kind := "gatewayzipkin-added".
Definition GatewayZipkinDeleted : Kind := "gatewayzipkin-deleted".
Definition GatewayZipkinUpdated : Kind := "gatewayzipkin-updated".
Definition GatewayProxyTagAdded : Kind := "gatewayproxytag-added".
Definition GatewayProxyTagDeleted : Kind := "gatewayproxytag-deleted".
Definition GatewayProxyTagUpdated : Kind := "gatewayproxytag-updated".
Definition GatewayIPRestrictionAdded : Kind := "gatewayiprestriction-added".
Definition GatewayIPRestrictionDeleted : Kind := "gatewayiprestriction-deleted".
Definition GatewayIPRestrictionUpdated : Kind := "gatewayiprestriction-updated".
Definition GatewayConcurrencyLimitAdded : Kind := "gatewayconcurrencylimit-added".
Definition GatewayConcurrencyLimitDeleted : Kind := "gatewayconcurrencylimit-deleted".
Definition GatewayConcurrencyLimitUpdated : Kind := "gatewayconcurrencylimit-updated".
Definition GatewayExternalRateLimitAdded : Kind := "gatewayexternalratelimit-added".
Definition GatewayExternalRateLimitDeleted : Kind := "gatewayexternalratelimit-deleted".
Definition GatewayExternalRateLimitUpdated : Kind := "gatewayexternalratelimit-updated".
Definition GatewayRequestTerminationAdded : Kind := "gatewayrequesttermination-added".
Definition GatewayRequestTerminationDeleted : Kind := "gatewayrequesttermination-deleted".
Definition GatewayRequestTerminationUpdated : Kind := "gatewayrequesttermination-updated".
Definition GatewayDNSModifierAdded : Kind := "gatewaydnsmodifier-added".
Definition GatewayDNSModifierDeleted : Kind := "gatewaydnsmodifier-deleted".
Definition GatewayDNSModifierUpdated : Kind := "gatewaydnsmodifier-updated".

Definition kinds1 : list Kind :=
  [ProxyUpdate; IngressUpdate; GatewayUpdate; ServiceUpdate; ConnectorUpdate; XNetworkUpdate; MCSUpdate;
   PodAdded; PodDeleted; PodUpdated; EndpointAdded; EndpointDeleted; EndpointUpdated; NamespaceAdded;
   NamespaceDeleted; NamespaceUpdated; ServiceAdded; ServiceDeleted; ServiceUpdated; ServiceAccountAdded;
   ServiceAccountDeleted; ServiceAccountUpdated; TrafficSplitAdded; TrafficSplitDeleted;
   TrafficSplitUpdated; RouteGroupAdded; RouteGroupDeleted; RouteGroupUpdated; TCPRouteAdded;
   TCPRouteDeleted; TCPRouteUpdated; TrafficTargetAdded; TrafficTargetDeleted; TrafficTargetUpdated;
   IngressAdded; IngressDeleted; IngressUpdated; IngressClassAdded; IngressClassDeleted; IngressClassUpdated].

Definition kinds2 : list Kind :=
  [CertificateRotated; MeshConfigAdded; MeshConfigDeleted; MeshConfigUpdated; MeshRootCertificateAdded;
   MeshRootCertificateDeleted; MeshRootCertificateUpdated; EgressAdded; EgressDeleted; EgressUpdated;
   EgressGatewayAdded; EgressGatewayDeleted; EgressGatewayUpdated; IngressBackendAdded;
   IngressBackendDeleted; IngressBackendUpdated; AccessControlAdded; AccessControlDeleted;
   AccessControlUpdated; AccessCertAdded; AccessCertDeleted; AccessCertUpdated; ConsulConnectorAdded;
   ConsulConnectorDeleted; ConsulConnectorUpdated; EurekaConnectorAdded; EurekaConnectorDeleted;
   EurekaConnectorUpdated; NacosConnectorAdded; NacosConnectorDeleted; NacosConnectorUpdated;
   ZookeeperConnectorAdded; ZookeeperConnectorDeleted; ZookeeperConnectorUpdated; MachineConnectorAdded;
   MachineConnectorDeleted; MachineConnectorUpdated; GatewayConnectorAdded; GatewayConnectorDeleted;
   GatewayConnectorUpdated; ServiceExportAdded; ServiceExportDeleted; ServiceExportUpdated;
   MultiClusterServiceExportCreated; MultiClusterServiceExportDeleted; MultiClusterServiceExportAccepted].

Definition kinds3 : list Kind :=
  [MultiClusterServiceExportRejected; ServiceImportAdded; ServiceImportDeleted; ServiceImportUpdated;
   GlobalTrafficPolicyAdded; GlobalTrafficPolicyDeleted; GlobalTrafficPolicyUpdated; IsolationPolicyAdded;
   IsolationPolicyDeleted; IsolationPolicyUpdated; RetryPolicyAdded; RetryPolicyDeleted;
   RetryPolicyUpdated; TrafficWarmupAdded; TrafficWarmupDeleted; TrafficWarmupUpdated;
   UpstreamTrafficSettingAdded; UpstreamTrafficSettingDeleted; UpstreamTrafficSettingUpdated; PluginAdded;
   PluginDeleted; PluginUpdated; PluginChainAdded; PluginChainDeleted; PluginChainUpdated;
   PluginConfigAdded; PluginConfigDeleted; PluginConfigUpdated; VirtualMachineAdded; VirtualMachineDeleted;
   VirtualMachineUpdated; XAccessControlAdded; XAccessControlDeleted; XAccessControlUpdated;
   XEIPAdvertisementAdded; XEIPAdvertisementDeleted; XEIPAdvertisementUpdated; EndpointSlicesAdded;
   EndpointSlicesDeleted; EndpointSlicesUpdated; SecretAdded; SecretDeleted; SecretUpdated].

Definition kinds4 : list Kind :=
  [ConfigMapAdded; ConfigMapDeleted; ConfigMapUpdated; GatewayAPIGatewayClassAdded;
   GatewayAPIGatewayClassDeleted; GatewayAPIGatewayClassUpdated; GatewayAPIGatewayAdded;
   GatewayAPIGatewayDeleted; GatewayAPIGatewayUpdated; GatewayAPIHTTPRouteAdded;
   GatewayAPIHTTPRouteDeleted; GatewayAPIHTTPRouteUpdated; GatewayAPIGRPCRouteAdded;
   GatewayAPIGRPCRouteDeleted; GatewayAPIGRPCRouteUpdated; GatewayAPITLSRouteAdded;
   GatewayAPITLSRouteDeleted; GatewayAPITLSRouteUpdated; GatewayAPITCPRouteAdded;
   GatewayAPITCPRouteDeleted; GatewayAPITCPRouteUpdated; GatewayAPIUDPRouteAdded;
   GatewayAPIUDPRouteDeleted; GatewayAPIUDPRouteUpdated; GatewayAPIReferenceGrantAdded;
   GatewayAPIReferenceGrantDeleted; GatewayAPIReferenceGrantUpdated; RateLimitAdded; RateLimitDeleted;
   RateLimitUpdated; CircuitBreakerAdded; CircuitBreakerDeleted; CircuitBreakerUpdated;
   HealthCheckPolicyAdded; HealthCheckPolicyDeleted; HealthCheckPolicyUpdated; FaultInjectionAdded;
   FaultInjectionDeleted; FaultInjectionUpdated].

Definition kinds5 : list Kind :=
  [BackendTLSPolicyAdded; BackendTLSPolicyDeleted; BackendTLSPolicyUpdated; BackendLBPolicyAdded;
   BackendLBPolicyDeleted; BackendLBPolicyUpdated; RouteRuleFilterPolicyAdded;
   RouteRuleFilterPolicyDeleted; RouteRuleFilterPolicyUpdated; FilterAdded; FilterDeleted; FilterUpdated;
   FilterDefinitionAdded; FilterDefinitionDeleted; FilterDefinitionUpdated; ListenerFilterAdded;
   ListenerFilterDeleted; ListenerFilterUpdated; FilterConfigAdded; FilterConfigDeleted;
   FilterConfigUpdated; GatewayHTTPLogAdded; GatewayHTTPLogDeleted; GatewayHTTPLogUpdated;
   GatewayMetricsAdded; GatewayMetricsDeleted; GatewayMetricsUpdated; GatewayZipkinAdded;
   GatewayZipkinDeleted; GatewayZipkinUpdated; GatewayProxyTagAdded; GatewayProxyTagDeleted;
   GatewayProxyTagUpdated; GatewayIPRestrictionAdded; GatewayIPRestrictionDeleted;
   GatewayIPRestrictionUpdated; GatewayConcurrencyLimitAdded; GatewayConcurrencyLimitDeleted;
   GatewayConcurrencyLimitUpdated].

Definition kinds6 : list Kind :=
  [GatewayExternalRateLimitAdded; GatewayExternalRateLimitDeleted; GatewayExternalRateLimitUpdated;
   GatewayRequestTerminationAdded; GatewayRequestTerminationDeleted; GatewayRequestTerminationUpdated;
   GatewayDNSModifierAdded; GatewayDNSModifierDeleted; GatewayDNSModifierUpdated].

(** Every kind, in the order of the file. *)
Definition kinds : list Kind := kinds1 ++ kinds2 ++ kinds3 ++ kinds4 ++ kinds5 ++ kinds6.

Lemma kinds_of_access_control :
  (AccessControlAdded, AccessControlDeleted, AccessControlUpdated) =
  (XAccessControlAdded, XAccessControlDeleted, XAccessControlUpdated).
Proof. reflexivity. Qed.

(** Apart from the three kinds of AccessControl events, which XAccessControl
    declares again, no kind is declared twice. *)
Lemma kinds_distinct :
  NoDup (List.filter (λ k, negb (bool_decide (k ∈ [XAccessControlAdded; XAccessControlDeleted; XAccessControlUpdated]))) kinds).
Proof. apply (bool_decide_unpack _). vm_compute. exact I. Qed.

End Announcements.
