(* ===== verification/CertManager.v ===== *)
(** * Certificates: pkg/certificate (manager.go, options.go, certificate.go)
    and the tresor issuer

    The manager keeps a cache of certificates by prefix, two issuers (one
    that signs and one that validates, which differ while a root certificate
    is being replaced), and rotates what expires or was made for other
    issuers.  What a call reads from outside is an [Env]: the clock, the
    random noise, the validity periods of the configuration and the answers
    of the issuers.  PEM blocks are strings, times are nanoseconds. *)

From S2P Require Import Prelude Announcements.
Import Announcements.Announcements.

Module CertManager.

#[local] Open Scope Z_scope.

Definition Second : Z := 10 ^ 9.
Definition RenewBeforeCertExpires : Z := 30 * Second.
Definition noiseSeconds : Z := 5.
Definition FSMCertificateValidityPeriod : Z := 87600 * 3600 * Second.

(** [time.Until], which saturates at the bounds of a duration. *)
Definition Until (t now : Z) : Z := Z.max (- 2 ^ 63) (Z.min (2 ^ 63 - 1) (t - now)).

(** ** Data *)

Definition CertType : Type := string.
Definition Internal : CertType := "internal".
Definition IngressGateway : CertType := "ingressGateway".
Definition Service : CertType := "service".

Record Certificate := mkCertificate {
  CommonName : string;
  SANames : list string;
  SerialNumber : string;
  Expiration : Z;
  CertChain : string;
  PrivateKey : string;
  IssuingCA : string;
  TrustedCAs : string;
  signingIssuerID : string;
  validatingIssuerID : string;
  certType : CertType
}.

#[export] Instance Certificate_eq_dec : EqDecision Certificate.
Proof. solve_decision. Defined.

Definition newMergedWithRoot (c : Certificate) (root : string) : Certificate :=
  mkCertificate (CommonName c) (SANames c) (SerialNumber c) (Expiration c) (CertChain c) (PrivateKey c)
    (IssuingCA c) (IssuingCA c +:+ root) (signingIssuerID c) (validatingIssuerID c) (certType c).

(** The assignments of [issueCertificate] to the certificate it got. *)
Definition withIssuers (c : Certificate) (signing validating : string) (ct : CertType) : Certificate :=
  mkCertificate (CommonName c) (SANames c) (SerialNumber c) (Expiration c) (CertChain c) (PrivateKey c)
    (IssuingCA c) (TrustedCAs c) signing validating ct.

(** A MeshRootCertificate: its name, the state of its status, its spec. *)
Record MeshRootCertificate := mkMRC {
  mrc_Name : string; mrc_State : string; mrc_TrustDomain : string }.

Definition MRCStateValidatingRollout : string := "validatingRollout".
Definition MRCStateIssuingRollout : string := "issuingRollout".
Definition MRCStateActive : string := "active".
Definition MRCStateIssuingRollback : string := "issuingRollback".
Definition MRCStateValidatingRollback : string := "validatingRollback".
Definition MRCStateError : string := "error".

Definition MRCEventAdded : string := "meshrootcertificate-added".
Definition MRCEventUpdated : string := "meshrootcertificate-updated".

Record MRCEvent := mkMRCEvent { ev_Type : string; ev_MRC : MeshRootCertificate }.

(** ** options.go *)

Record issueOptions := mkOptions {
  fullCNProvided : bool; validityDuration : option Z; saNames : list string }.

Definition IssueOption : Type := issueOptions → issueOptions.

Definition FullCNProvided : IssueOption := λ o, mkOptions true (validityDuration o) (saNames o).
Definition ValidityDurationProvided (d : option Z) : IssueOption := λ o,
  mkOptions (fullCNProvided o) d (saNames o).
Definition SubjectAlternativeNames (names : list string) : IssueOption := λ o,
  mkOptions (fullCNProvided o) (validityDuration o) names.

Definition formatCN (o : issueOptions) (prefix trustDomain : string) : string :=
  if fullCNProvided o then prefix else prefix +:+ "." +:+ trustDomain.

(** One round of the loop: the names seen and the names kept. *)
Definition uniqueStep (excludeSANS : list string) (st : gset string * list string) (san : string)
    : gset string * list string :=
  let '(sanMap, uniqueSans) := st in
  if str_in ":" san then st
  else if existsb (λ exs, bool_decide (san = exs)) excludeSANS then st
  else if bool_decide (san ∈ sanMap) then st
  else ({[san]} ∪ sanMap, uniqueSans ++ [san]).

Definition uniqueSubjectAlternativeNames (names excludeSANS : list string) : list string :=
  if bool_decide (1 < length names)%nat
  then (foldl (uniqueStep excludeSANS) (∅, []) names).2 else names.

Definition subjectAlternativeNames (o : issueOptions) : list string :=
  if bool_decide (1 < length (saNames o))%nat
  then uniqueSubjectAlternativeNames (saNames o) [] else saNames o.

Definition validityPeriod (o : issueOptions) (d : Z) : Z := default d (validityDuration o).

(** ** manager.go *)

(** golang.org/x/sync/singleflight, a third-party package: the callers of
    one flight on a key, the one that runs the function and the duplicates
    that arrive before it is done, all receive its results. *)
Class SingleFlight : Type := {
  Do : ∀ {R : Type}, R → nat → list R;
  Do_shared : ∀ {R : Type} (r : R) (duplicates : nat), Do r duplicates = replicate (S duplicates) r
}.

Definition shared_SingleFlight : SingleFlight :=
  {| Do := λ R r n, replicate (S n) r; Do_shared := λ R r n, eq_refl |}.

Section manager.
Context {Issuer : Type}.

Record issuer := mkIssuer {
  iss_Issuer : Issuer; iss_ID : string; iss_TrustDomain : string; iss_CertificateAuthority : string }.

Record Manager := mkManager {
  cache : gmap string Certificate;
  signingIssuer : option issuer;
  validatingIssuer : option issuer
}.

(** What a call observes: [env_noise] is the result of [rand.Intn]. *)
Record Env := mkEnv {
  env_now : Z;
  env_noise : Z;
  env_ingressCertValidityDuration : Z;
  env_serviceCertValidityDuration : Z;
  env_IssueCertificate : Issuer → string → list string → Z → string + Certificate
}.

(** The message published when a certificate was rotated. *)
Record Rotated := mkRotated { rot_Kind : Kind; rot_NewObj : Certificate; rot_OldObj : Certificate }.

Definition setIssuers (m : Manager) (s v : option issuer) : Manager := mkManager (cache m) s v.

Definition handleMRCEvent (GetCertIssuerForMRC : MeshRootCertificate → string + (Issuer * string))
    (m : Manager) (event : MRCEvent) : string + Manager :=
  if bool_decide (ev_Type event = MRCEventAdded) then
    let mrc := ev_MRC event in
    if bool_decide (mrc_State mrc = MRCStateError) then inr m
    else match GetCertIssuerForMRC mrc with
         | inl err => inl err
         | inr (client, ca) =>
             let c := mkIssuer client (mrc_Name mrc) (mrc_TrustDomain mrc) ca in
             let st := mrc_State mrc in
             inr (if bool_decide (st = MRCStateActive) then setIssuers m (Some c) (Some c)
                  else if bool_decide (st = MRCStateIssuingRollback ∨ st = MRCStateIssuingRollout)
                  then setIssuers m (Some c) (validatingIssuer m)
                  else if bool_decide (st = MRCStateValidatingRollback ∨ st = MRCStateValidatingRollout)
                  then setIssuers m (signingIssuer m) (Some c)
                  else setIssuers m (Some c) (Some c))
         end
  else inr m.

(** The goroutine of [start] on the events it receives: the manager, and
    whether the caller was told that it is ready. *)
Definition start (GetCertIssuerForMRC : MeshRootCertificate → string + (Issuer * string))
    (m : Manager) (mrcEvents : list MRCEvent) : Manager * bool :=
  foldl (λ '(m, ready) event,
    match handleMRCEvent GetCertIssuerForMRC m event with
    | inl _ => (m, ready)
    | inr m' => (m', ready || (bool_decide (is_Some (signingIssuer m')) &&
                               bool_decide (is_Some (validatingIssuer m'))))
    end) (m, false) mrcEvents.

Definition GetTrustDomain (m : Manager) : go string :=
  s ← deref (signingIssuer m); Ret (iss_TrustDomain s).

Definition ShouldRotate (env : Env) (m : Manager) (c : Certificate) : go bool :=
  let renewBefore := RenewBeforeCertExpires + env_noise env * Second in
  if bool_decide (Until (Expiration c) (env_now env) ≤ renewBefore) then Ret true
  else
    s ← deref (signingIssuer m);
    if negb (bool_decide (signingIssuerID c = iss_ID s)) then Ret true
    else v ← deref (validatingIssuer m);
         Ret (negb (bool_decide (validatingIssuerID c = iss_ID v))).

Definition getValidityDurationForCertType (env : Env) (ct : CertType) : Z :=
  if bool_decide (ct = Internal) then FSMCertificateValidityPeriod
  else if bool_decide (ct = IngressGateway) then env_ingressCertValidityDuration env
  else if bool_decide (ct = Service) then env_serviceCertValidityDuration env
  else FSMCertificateValidityPeriod.

Definition getFromCache (m : Manager) (key : string) : option Certificate := cache m !! key.

(** The part of [issueCertificate] after the cache was consulted: [rotated]
    is the certificate to replace, if there is one. *)
Definition issueNew (env : Env) (m : Manager) (prefix : string) (ct : CertType)
    (opts : list IssueOption) (rotated : option Certificate)
    : go (Manager * list Rotated * (string + Certificate)) :=
  let options := foldl (λ o f, f o) (mkOptions false None []) opts in
  let options := match rotated with
                 | Some c => SubjectAlternativeNames (uniqueSubjectAlternativeNames (SANames c) []) options
                 | None => options
                 end in
  s ← deref (signingIssuer m);
  let validity := getValidityDurationForCertType env ct in
  match env_IssueCertificate env (iss_Issuer s) (formatCN options prefix (iss_TrustDomain s))
          (subjectAlternativeNames options) (validityPeriod options validity) with
  | inl err => Ret (m, [], inl err)
  | inr newCert =>
      v ← deref (validatingIssuer m);
      let newCert := if bool_decide (iss_ID v = iss_ID s) then newCert
                     else newMergedWithRoot newCert (iss_CertificateAuthority v) in
      let newCert := withIssuers newCert (iss_ID s) (iss_ID v) ct in
      Ret (mkManager (<[prefix := newCert]> (cache m)) (signingIssuer m) (validatingIssuer m),
           match rotated with Some c => [mkRotated CertificateRotated newCert c] | None => [] end,
           inr newCert)
  end.

Definition issueCertificate (env : Env) (m : Manager) (prefix : string) (ct : CertType)
    (opts : list IssueOption) : go (Manager * list Rotated * (string + Certificate)) :=
  match getFromCache m prefix with
  | None => issueNew env m prefix ct opts None
  | Some cert =>
      rotate ← ShouldRotate env m cert;
      if rotate : bool then issueNew env m prefix ct opts (Some cert)
      else Ret (m, [], inr cert)
  end.

(** The two functions that go through the group, and what each makes of the
    results of the flight: [GetCertificate] drops the error. *)
Inductive Call := GetCertificate | IssueCertificate (ct : CertType) (opts : list IssueOption).

Definition callResult (call : Call) (r : string + option Certificate) : string + option Certificate :=
  match call with
  | GetCertificate => inr (match r with inr c => c | inl _ => None end)
  | IssueCertificate _ _ => r
  end.

(** One flight on a prefix: its first caller runs. *)
Definition flight `{SingleFlight} (env : Env) (m : Manager) (prefix : string) (first : Call)
    (duplicates : list Call) : go (Manager * list Rotated * list (string + option Certificate)) :=
  '(m', evs, r) ← match first with
    | GetCertificate => Ret (m, [], inr (getFromCache m prefix))
    | IssueCertificate ct opts =>
        '(m', evs, r) ← issueCertificate env m prefix ct opts;
        Ret (m', evs, match r with inl e => inl e | inr c => inr (Some c) end)
    end;
  Ret (m', evs, zip_with callResult (first :: duplicates) (Do r (length duplicates))).

(** The options [checkAndRotate] makes for an entry of the cache. *)
Definition rotationOptions (key : string) (cert : Certificate) : list IssueOption :=
  if bool_decide (key = CommonName cert)
  then [FullCNProvided; SubjectAlternativeNames (uniqueSubjectAlternativeNames (SANames cert) [key])]
  else [].

(** Every call has its own environment; errors are logged. *)
Definition checkAndRotate `{MapRange} (env : string → Env) (m : Manager) : go (Manager * list Rotated) :=
  gofold (λ '(m, evs) '(key, cert),
    '(m', evs', _) ← issueCertificate (env key) m key (certType cert) (rotationOptions key cert);
    Ret (m', evs ++ evs')) (m, []) (map_range (cache m)).

Definition ReleaseCertificate (m : Manager) (key : string) : Manager :=
  mkManager (delete key (cache m)) (signingIssuer m) (validatingIssuer m).

Definition ListIssuedCertificates `{MapRange} (m : Manager) : list Certificate :=
  (map_range (cache m)).*2.

(** Everything that changes a manager, one call at a time, in environments
    that are [lawful]. *)
Inductive managerStep `{MapRange} (GetCertIssuerForMRC : MeshRootCertificate → string + (Issuer * string))
    (lawful : Env → Prop) : Manager → Manager → Prop :=
  | StepMRC m m' event :
      handleMRCEvent GetCertIssuerForMRC m event = inr m' →
      managerStep GetCertIssuerForMRC lawful m m'
  | StepIssue m m' env prefix ct opts evs r :
      lawful env → issueCertificate env m prefix ct opts = Ret (m', evs, r) →
      managerStep GetCertIssuerForMRC lawful m m'
  | StepRotate m m' env evs :
      (∀ k, lawful (env k)) → checkAndRotate env m = Ret (m', evs) →
      managerStep GetCertIssuerForMRC lawful m m'
  | StepRelease m key : managerStep GetCertIssuerForMRC lawful m (ReleaseCertificate m key).

End manager.
Arguments issuer : clear implicits.
Arguments Manager : clear implicits.
Arguments Env : clear implicits.

(** ** The tresor issuer: pkg/certificate/providers/tresor

    The primitives of the crypto packages: each may fail; a template is what
    the certificate is made of. *)

Record Template := mkTemplate {
  tpl_SerialNumber : Z; tpl_DNSNames : list string; tpl_CommonName : string;
  tpl_Organization : string; tpl_NotBefore : Z; tpl_NotAfter : Z }.

Record Crypto := mkCrypto {
  cr_GenerateKey : Z → string + string;
  cr_Serial : string + Z;
  cr_CreateCertificate : Template → string → string → string → string + string;
  cr_DecodePEMCertificate : string → string + string;
  cr_DecodePEMPrivateKey : string → string + string;
  cr_EncodeCertDERtoPEM : string → string + string;
  cr_EncodeKeyDERtoPEM : string → string + string
}.

Record CertManager := mkCertManager {
  ca : option Certificate; certificatesOrganization : string; keySize : Z }.

(** A fallible call whose error is returned, wrapped in [msg] if there is one. *)
Definition try {A B} (msg : string) (x : string + A) (k : A → string + B) : string + B :=
  match x with
  | inl e => inl (if bool_decide (msg = "") then e else msg +:+ ": " +:+ e)
  | inr a => k a
  end.

Definition tresorDNSNames (cn : string) (names : list string) : list string :=
  let dns := cn :: names in
  if bool_decide (1 < length dns)%nat then uniqueSubjectAlternativeNames dns [] else dns.

Definition tresor_IssueCertificate (cr : Crypto) (now : Z) (cm : CertManager)
    (cn : string) (names : list string) (validity : Z) : string + Certificate :=
  match ca cm with
  | None => inl "no issuing CA"
  | Some root =>
      try "generate private" (cr_GenerateKey cr (keySize cm)) (λ certPrivKey,
      try "generate serial number" (cr_Serial cr) (λ serialNumber,
      let template := mkTemplate serialNumber (tresorDNSNames cn names) cn
                        (certificatesOrganization cm) now (now + validity) in
      try "create cert" (cr_DecodePEMCertificate cr (CertChain root)) (λ x509Root,
      try "create cert" (cr_DecodePEMPrivateKey cr (PrivateKey root)) (λ rsaKeyRoot,
      try "create cert" (cr_CreateCertificate cr template x509Root certPrivKey rsaKeyRoot) (λ derBytes,
      try "" (cr_EncodeCertDERtoPEM cr derBytes) (λ certPEM,
      try "" (cr_EncodeKeyDERtoPEM cr certPrivKey) (λ privKeyPEM,
      inr {| CommonName := cn; SANames := tpl_DNSNames template;
             SerialNumber := pretty serialNumber; Expiration := tpl_NotAfter template;
             CertChain := certPEM; PrivateKey := privKeyPEM;
             IssuingCA := CertChain root; TrustedCAs := CertChain root;
             signingIssuerID := ""; validatingIssuerID := ""; certType := "" |})))))))
  end.

End CertManager.
