(* ===== verification/CertManagerFacts.v ===== *)
(** * What the certificate manager guarantees

    Rotation brings every cached certificate to the current issuers and tells
    the subscribers; the trust bundles of cached certificates match the roots
    they are labelled with in every reachable state; the names of a
    certificate survive its rotation, and those asked for are then ignored. *)

From S2P Require Import Prelude Announcements CertManager.
Import Announcements.Announcements CertManager.CertManager.

Module CertManagerFacts.

#[local] Open Scope Z_scope.

(** ** Names *)

Definition keepName (exclude : list string) (san : string) : bool :=
  negb (str_in ":" san) && negb (existsb (λ exs, bool_decide (san = exs)) exclude).

Lemma unique_loop exclude l :
  (foldl (uniqueStep exclude) (∅, []) l).2 = uniq (List.filter (keepName exclude) l).
Proof.
  apply (foldl_inv (λ l st, st.2 = uniq (List.filter (keepName exclude) l) ∧
                            ∀ x, x ∈ st.1 ↔ x ∈ List.filter (keepName exclude) l)).
  { split; [done|]. simpl. intros x. rewrite elem_of_nil. set_solver. }
  intros l1 x l2 [sm us] _ [Hus Hsm]. unfold uniqueStep. cbn [fst snd] in *.
  rewrite List.filter_app. cbn [List.filter]. destruct (keepName exclude x) eqn:E; unfold keepName in E.
  - bool_prop. rewrite H, H0. rewrite uniq_snoc. case_bool_decide as Hx.
    + apply Hsm in Hx as Hx'. rewrite decide_True by done. split; [done|].
      intros y. rewrite elem_of_app, list_elem_of_singleton, Hsm. naive_solver.
    + rewrite decide_False by (by rewrite <-Hsm). cbn [fst snd]. split; [by rewrite Hus|].
      intros y. rewrite elem_of_union, elem_of_singleton, elem_of_app, list_elem_of_singleton, Hsm. tauto.
  - rewrite app_nil_r. apply andb_false_iff in E as [->%negb_false_iff | ->%negb_false_iff]; [done|].
    by destruct (str_in ":" x).
Qed.

Lemma unique_names names exclude :
  uniqueSubjectAlternativeNames names exclude =
  if bool_decide (1 < length names)%nat then uniq (List.filter (keepName exclude) names) else names.
Proof. unfold uniqueSubjectAlternativeNames. by rewrite unique_loop. Qed.

Lemma List_filter_all {A} (p : A → bool) l : (∀ x, x ∈ l → p x = true) → List.filter p l = l.
Proof.
  induction l as [|x l IH]; intros Hl; [done|]. cbn [List.filter].
  rewrite (Hl x) by left. f_equal. apply IH. intros; apply Hl. by right.
Qed.

Lemma uniq_filter_fixed {A} `{EqDecision A} (p : A → bool) (l : list A) :
  let u := uniq (List.filter p l) in uniq (List.filter p u) = u.
Proof.
  intros u. rewrite (List_filter_all p u).
  - apply uniq_NoDup_id, NoDup_uniq.
  - intros x Hx. apply elem_of_uniq, elem_of_lfilter in Hx. tauto.
Qed.

(** Removing duplicates twice is removing them once. *)
Lemma unique_idempotent names :
  let u := uniqueSubjectAlternativeNames names [] in uniqueSubjectAlternativeNames u [] = u.
Proof.
  intros u. subst u. rewrite !unique_names. case_bool_decide as H1; [|by repeat case_bool_decide].
  case_bool_decide; [|done]. apply uniq_filter_fixed.
Qed.

Lemma tresorDNSNames_spec cn names :
  tresorDNSNames cn names =
  if bool_decide (names = []) then [cn] else uniq (List.filter (keepName []) (cn :: names)).
Proof.
  unfold tresorDNSNames. destruct names as [|n names]; [done|].
  rewrite bool_decide_eq_true_2 by (simpl; lia). rewrite unique_names.
  rewrite bool_decide_eq_true_2 by (simpl; lia). by rewrite bool_decide_eq_false_2.
Qed.

(** The names tresor gives a certificate, asked for again with the names the
    manager then takes from it, are the same names. *)
Lemma tresor_names_stable cn names fc d :
  str_in ":" cn = false →
  let sans := tresorDNSNames cn names in
  tresorDNSNames cn (subjectAlternativeNames (mkOptions fc d (uniqueSubjectAlternativeNames sans []))) = sans.
Proof.
  intros Hcn sans.
  assert (keepName [] cn = true) as Hk by (unfold keepName; by rewrite Hcn).
  assert (subjectAlternativeNames (mkOptions fc d (uniqueSubjectAlternativeNames sans [])) =
          uniqueSubjectAlternativeNames sans []) as ->.
  { unfold subjectAlternativeNames. cbn [saNames]. rewrite unique_idempotent. by case_bool_decide. }
  assert (uniqueSubjectAlternativeNames sans [] = sans) as ->.
  { rewrite unique_names. case_bool_decide as Hl; [|done]. unfold sans in *. rewrite tresorDNSNames_spec in *.
    case_bool_decide; [simpl in Hl; lia|]. apply uniq_filter_fixed. }
  assert (sans = cn :: tail sans) as E.
  { unfold sans. rewrite tresorDNSNames_spec. case_bool_decide; [done|]. cbn [List.filter]. by rewrite Hk. }
  assert (NoDup sans ∧ ∀ x, x ∈ sans → keepName [] x = true) as [Hnd Hkeep].
  { unfold sans. rewrite tresorDNSNames_spec. case_bool_decide.
    - split; [apply NoDup_singleton|]. by intros x ->%list_elem_of_singleton.
    - split; [apply NoDup_uniq|]. intros x [_ ?]%elem_of_uniq%elem_of_lfilter. done. }
  rewrite tresorDNSNames_spec, bool_decide_eq_false_2 by (by rewrite E).
  rewrite List_filter_all by (intros x [->|?]%elem_of_cons; auto).
  simpl. rewrite (uniq_NoDup_id sans Hnd). rewrite E in Hnd |- *.
  apply NoDup_cons in Hnd as [Hn _]. rewrite filter_cons_False by tauto.
  f_equal. apply filter_all. intros y Hy ->. done.
Qed.

(** ** Issuing *)

Section facts.
Context {Issuer : Type}.
Implicit Types (m : Manager Issuer) (env : Env Issuer) (s v : issuer Issuer).

Lemma issueNew_inv env m prefix ct opts rotated m' evs r :
  issueNew env m prefix ct opts rotated = Ret (m', evs, r) →
  signingIssuer m' = signingIssuer m ∧ validatingIssuer m' = validatingIssuer m ∧
  ((∃ e, r = inl e ∧ m' = m ∧ evs = []) ∨
   (∃ s v o n c, r = inr c ∧ signingIssuer m = Some s ∧ validatingIssuer m = Some v ∧
     env_IssueCertificate env (iss_Issuer s) (formatCN o prefix (iss_TrustDomain s))
       (subjectAlternativeNames o) (validityPeriod o (getValidityDurationForCertType env ct)) = inr n ∧
     c = withIssuers (if bool_decide (iss_ID v = iss_ID s) then n
                      else newMergedWithRoot n (iss_CertificateAuthority v)) (iss_ID s) (iss_ID v) ct ∧
     cache m' = <[prefix := c]> (cache m) ∧
     evs = match rotated with Some old => [mkRotated CertificateRotated c old] | None => [] end)).
Proof.
  unfold issueNew. destruct (signingIssuer m) as [s|] eqn:Es; [|done]. cbn [deref mbind go_bind].
  set (o := match rotated with Some _ => _ | None => _ end).
  destruct (env_IssueCertificate _ _ _ _ _) as [e|n] eqn:En; [intros [= <- <- <-]; eauto 10|].
  destruct (validatingIssuer m) as [v|] eqn:Ev; [|done]. cbn [deref mbind go_bind].
  intros [= <- <- <-]. cbn. split; [done|]. split; [done|]. right. by eexists s, v, o, n, _.
Qed.

Lemma issueCertificate_inv env m prefix ct opts m' evs r :
  issueCertificate env m prefix ct opts = Ret (m', evs, r) →
  (m' = m ∧ evs = []) ∨
  ∃ rotated, issueNew env m prefix ct opts rotated = Ret (m', evs, r).
Proof.
  unfold issueCertificate. destruct (getFromCache m prefix) as [c|]; [|eauto].
  destruct (ShouldRotate env m c) as [[]|]; cbn [mbind go_bind]; [eauto| |done].
  intros [= <- <- <-]. auto.
Qed.

(** ** Trust bundles *)

(** The root of an issuer by name, and by handle; what tresor and the client
    for root certificates provide. *)
Record TrustLaws (GetCertIssuerForMRC : MeshRootCertificate → string + (Issuer * string))
    (lawful : Env Issuer → Prop) (caOf : string → string) (rootOf : Issuer → string) : Prop := {
  law_issuer : ∀ mrc i ca, GetCertIssuerForMRC mrc = inr (i, ca) → ca = caOf (mrc_Name mrc) ∧ rootOf i = ca;
  law_signed : ∀ env i cn names d c, lawful env → env_IssueCertificate env i cn names d = inr c →
    IssuingCA c = rootOf i ∧ TrustedCAs c = rootOf i
}.

Definition trustBundle (caOf : string → string) (c : Certificate) : string :=
  if bool_decide (validatingIssuerID c = signingIssuerID c) then caOf (signingIssuerID c)
  else caOf (signingIssuerID c) +:+ caOf (validatingIssuerID c).

Definition issuerOk (caOf : string → string) (rootOf : Issuer → string) (o : option (issuer Issuer)) : Prop :=
  ∀ i, o = Some i → iss_CertificateAuthority i = caOf (iss_ID i) ∧ rootOf (iss_Issuer i) = caOf (iss_ID i).

Definition trustOk (caOf : string → string) (rootOf : Issuer → string) m : Prop :=
  issuerOk caOf rootOf (signingIssuer m) ∧ issuerOk caOf rootOf (validatingIssuer m) ∧
  ∀ k c, cache m !! k = Some c → IssuingCA c = caOf (signingIssuerID c) ∧ TrustedCAs c = trustBundle caOf c.

Section trust.
Context {MR : MapRange} (GetCertIssuerForMRC : MeshRootCertificate → string + (Issuer * string)).
Context (lawful : Env Issuer → Prop) (caOf : string → string) (rootOf : Issuer → string).
Context (laws : TrustLaws GetCertIssuerForMRC lawful caOf rootOf).

Lemma handleMRCEvent_trustOk m event m' :
  handleMRCEvent GetCertIssuerForMRC m event = inr m' → trustOk caOf rootOf m → trustOk caOf rootOf m'.
Proof.
  intros H (Hs & Hv & Hc). unfold handleMRCEvent in H.
  case_bool_decide; [|by simplify_eq]. case_bool_decide; [by simplify_eq|].
  destruct (GetCertIssuerForMRC _) as [e|[i ca]] eqn:E; [done|].
  apply (law_issuer _ _ _ _ laws) in E as [-> Hr].
  assert (issuerOk caOf rootOf (Some (mkIssuer i (mrc_Name (ev_MRC event)) (mrc_TrustDomain (ev_MRC event))
            (caOf (mrc_Name (ev_MRC event)))))) as Hi by (by intros ? [= <-]).
  simplify_eq. repeat case_bool_decide; by split_and!.
Qed.

Lemma issueCertificate_trustOk env m prefix ct opts m' evs r :
  lawful env → issueCertificate env m prefix ct opts = Ret (m', evs, r) →
  trustOk caOf rootOf m → trustOk caOf rootOf m'.
Proof.
  intros Hl [[-> _]|[rot H]]%issueCertificate_inv; [done|].
  apply issueNew_inv in H as (Es & Ev & [(e & _ & -> & _)|(s & v & o & n & c & _ & Hs & Hv & Hn & Hc & Hm & _)]); [done|].
  intros (Os & Ov & Oc). unfold trustOk. rewrite Es, Ev, Hm. split; [done|]. split; [done|].
  apply (law_signed _ _ _ _ laws) in Hn as [Hi Ht]; [|done].
  destruct (Os s Hs) as [_ Rs], (Ov v Hv) as [Cv _].
  intros k c' [[<- <-]|[_ Hk]]%lookup_insert_Some; [|by eapply Oc].
  subst c. unfold trustBundle. case_bool_decide as Hid; cbn; [rewrite bool_decide_eq_true_2 by done|rewrite bool_decide_eq_false_2 by done].
  - by rewrite Hi, Ht, Rs.
  - by rewrite Hi, Rs, Cv.
Qed.

Lemma managerStep_trustOk m m' :
  managerStep GetCertIssuerForMRC lawful m m' → trustOk caOf rootOf m → trustOk caOf rootOf m'.
Proof.
  intros [m1 m2 ev Hm|m1 m2 env prefix ct opts evs r Hl Hi|m1 m2 env evs Hl Hf|m1 key] Hok.
  - by eapply handleMRCEvent_trustOk.
  - by eapply issueCertificate_trustOk.
  - unfold checkAndRotate in Hf.
    eapply (gofold_inv (λ _ st, trustOk caOf rootOf st.1)) in Hf; [done|done|]. clear Hf m2 evs.
    intros _ [k c] _ [m2 e2] [m3 e3] _ IH Hf. cbn in *.
    apply go_bind_Ret in Hf as ([[m4 e4] r4] & Hi & Hf). simplify_eq. eapply issueCertificate_trustOk; eauto.
  - destruct Hok as (? & ? & Hc). split_and!; [done..|]. intros k c Hk. cbn in Hk.
    apply lookup_delete_Some in Hk as [_ ?]. eauto.
Qed.

End trust.

(** C26. In every state a manager reaches, from one with an empty cache and no
    issuers, by root certificate events, issuing, rotation and release in any
    order, each cached certificate names its issuing root correctly and its
    trust bundle is exactly the roots of the two issuers it is labelled with:
    one root when they are the same, both, signing first, when they differ. *)
Theorem cached_trust_bundles `{MapRange} GetCertIssuerForMRC lawful caOf rootOf m k c :
  TrustLaws GetCertIssuerForMRC lawful caOf rootOf →
  rtc (managerStep GetCertIssuerForMRC lawful) (mkManager ∅ None None) m →
  cache m !! k = Some c →
  IssuingCA c = caOf (signingIssuerID c) ∧ TrustedCAs c = trustBundle caOf c.
Proof.
  intros laws Hr Hk. cut (trustOk caOf rootOf m); [intros (_ & _ & Hc); by eapply Hc|].
  eapply rtc_preserved; [by apply managerStep_trustOk| |done].
  split_and!; [by intros ? ?..|]. intros k' c' Hc. cbn in Hc. by rewrite lookup_empty in Hc.
Qed.

(** ** Rotation *)






Lemma rotationOptions_CN key c d td :
  formatCN (SubjectAlternativeNames d (foldl (λ o f, f o) (mkOptions false None []) (rotationOptions key c))) key td =
  if bool_decide (key = CommonName c) then key else key +:+ "." +:+ td.
Proof. unfold rotationOptions. by case_bool_decide. Qed.










(** The subject names a caller asks for are ignored once a certificate is
    cached under the prefix and has to rotate: asking for any names gives the
    same call to the issuer, the same manager and the same certificate as
    asking for none. *)
Theorem requested_names_ignored env m prefix ct opts names c :
  cache m !! prefix = Some c → ShouldRotate env m c = Ret true →
  issueCertificate env m prefix ct (opts ++ [SubjectAlternativeNames names]) =
  issueCertificate env m prefix ct opts.
Proof.
  intros Hc Hr. unfold issueCertificate, getFromCache. rewrite Hc, Hr. cbn [mbind go_bind].
  unfold issueNew. by rewrite foldl_app.
Qed.

(** A lookup and a request for the same prefix share one flight of the
    group: when the lookup comes first and finds nothing, the request returns
    neither a certificate nor an error, and nothing is issued. *)
Theorem lookup_swallows_request `{SingleFlight} env m prefix ct opts :
  cache m !! prefix = None →
  flight env m prefix GetCertificate [IssueCertificate ct opts] = Ret (m, [], [inr None; inr None]).
Proof. intros Hc. unfold flight, getFromCache. rewrite Hc. cbn [mbind go_bind]. by rewrite Do_shared. Qed.

(** A request that is alone in its flight returns a certificate or an error. *)
Lemma issue_alone `{SingleFlight} env m prefix ct opts m' evs rs :
  flight env m prefix (IssueCertificate ct opts) [] = Ret (m', evs, rs) →
  ∃ r, rs = [r] ∧ r ≠ inr None ∧ ∀ c, r = inr (Some c) → cache m' !! prefix = Some c.
Proof.
  unfold flight. intros ([[m1 e1] r1] & Hi & [= <- <- <-])%go_bind_Ret. rewrite Do_shared. cbn.
  apply go_bind_Ret in Hi as ([[m2 e2] r2] & Hi & [= <- <- <-]). exists (match r2 with inl e => inl e | inr c => inr (Some c) end).
  split; [done|]. split; [by destruct r2|]. intros c Hr. destruct r2 as [|c2]; simplify_eq.
  unfold issueCertificate, getFromCache in Hi. destruct (cache m !! prefix) as [d|] eqn:Ed.
  - apply go_bind_Ret in Hi as ([] & _ & Hi); [|by simplify_eq].
    apply issueNew_inv in Hi as (_ & _ & [(? & ? & _)|(? & ? & ? & ? & ? & ? & _ & _ & _ & _ & -> & _)]); [done|].
    simplify_eq. by rewrite lookup_insert_eq.
  - apply issueNew_inv in Hi as (_ & _ & [(? & ? & _)|(? & ? & ? & ? & ? & ? & _ & _ & _ & _ & -> & _)]); [done|].
    simplify_eq. by rewrite lookup_insert_eq.
Qed.

End facts.

(** ** The tresor issuer *)

(** An environment whose issuers are tresor's. *)
Definition tresorEnv (cr : Crypto) (env : Env CertManager) : Prop :=
  ∀ i cn names d, env_IssueCertificate env i cn names d = tresor_IssueCertificate cr (env_now env) i cn names d.

Lemma tresor_issued cr now i cn names d c :
  tresor_IssueCertificate cr now i cn names d = inr c →
  ∃ root, ca i = Some root ∧ CommonName c = cn ∧ SANames c = tresorDNSNames cn names ∧
    Expiration c = now + d ∧ IssuingCA c = CertChain root ∧ TrustedCAs c = CertChain root.
Proof.
  unfold tresor_IssueCertificate. destruct (ca i) as [root|]; [|done]. intros H. exists root. split; [done|].
  revert H. unfold try. repeat (case_match; [done|]). intros [= <-]. by split_and!.
Qed.

(** Rotation keeps the names of a certificate that tresor issued: the new
    certificate has the common name and the subject names of the old one, in
    their order, and lives as long as the configuration says. *)
Theorem rotation_keeps_names cr env m s key c names m' evs c' :
  tresorEnv cr env → signingIssuer m = Some s → cache m !! key = Some c →
  ShouldRotate env m c = Ret true →
  CommonName c = key ∨ CommonName c = key +:+ "." +:+ iss_TrustDomain s →
  str_in ":" (CommonName c) = false → SANames c = tresorDNSNames (CommonName c) names →
  issueCertificate env m key (certType c) (rotationOptions key c) = Ret (m', evs, inr c') →
  CommonName c' = CommonName c ∧ SANames c' = SANames c ∧
  Expiration c' = env_now env + getValidityDurationForCertType env (certType c).
Proof.
  intros Ht Hs Hc Hr Hcn Hcol Hsan. unfold issueCertificate, getFromCache. rewrite Hc, Hr. cbn [mbind go_bind].
  unfold issueNew. rewrite Hs. cbn [deref mbind go_bind]. rewrite rotationOptions_CN.
  assert ((if bool_decide (key = CommonName c) then key else key +:+ "." +:+ iss_TrustDomain s) = CommonName c) as ->.
  { case_bool_decide; [done|]. naive_solver. }
  rewrite Ht. set (o := SubjectAlternativeNames _ _).
  assert (validityPeriod o = λ d, d) as Hval.
  { unfold o, rotationOptions. by case_bool_decide. }
  destruct (tresor_IssueCertificate _ _ _ _ _ _) as [e|n] eqn:E; [by intros [= <- <- ?]|].
  destruct (validatingIssuer m) as [v|]; [|done]. cbn [deref mbind go_bind]. intros [= <- <- <-].
  apply tresor_issued in E as (root & _ & En & Es & Ee & _). rewrite Hval in Ee.
  assert (SANames n = SANames c) as Hn.
  { rewrite Es, Hsan. unfold o. rewrite Hsan. destruct (foldl _ _ _) as [fc d0 l0].
    unfold SubjectAlternativeNames at 1. cbn [fullCNProvided validityDuration].
    by apply tresor_names_stable. }
  by case_bool_decide; cbn.
Qed.

(** ** Witnesses *)

Definition demoCrypto : Crypto := {|
  cr_GenerateKey _ := inr "key"; cr_Serial := inr 7; cr_CreateCertificate _ _ _ _ := inr "der";
  cr_DecodePEMCertificate := inr; cr_DecodePEMPrivateKey := inr;
  cr_EncodeCertDERtoPEM := inr; cr_EncodeKeyDERtoPEM := inr |}.

Definition demoCA (id : string) : string := "root-" +:+ id.

Definition demoTresor (id : string) : CertManager :=
  mkCertManager (Some (mkCertificate id [] "1" 0 (demoCA id) "rootkey" (demoCA id) (demoCA id) "" "" "")) "Flomesh" 2048.

Definition demoIssuer (id : string) : issuer CertManager :=
  mkIssuer (demoTresor id) id "cluster.local" (demoCA id).

Definition demoEnv (now : Z) : Env CertManager := {|
  env_now := now * Second; env_noise := 2; env_ingressCertValidityDuration := 3600 * Second;
  env_serviceCertValidityDuration := 60 * Second;
  env_IssueCertificate := tresor_IssueCertificate demoCrypto (now * Second) |}.

Definition demoGetCertIssuer (mrc : MeshRootCertificate) : string + (CertManager * string) :=
  inr (demoTresor (mrc_Name mrc), demoCA (mrc_Name mrc)).

Definition demoAdded (id state : string) : MRCEvent :=
  mkMRCEvent MRCEventAdded (mkMRC id state "cluster.local").

(** A certificate issued under [a], with [b] taking over the signing. *)
Definition demoCert : Certificate :=
  withIssuers (mkCertificate "web.shop.cluster.local" ["web.shop.cluster.local"; "web"] "7" (60 * Second)
    "der" "key" (demoCA "a") (demoCA "a") "" "" "") "a" "a" Service.

Definition demoManager : Manager CertManager :=
  mkManager {["web.shop" := demoCert]} (Some (demoIssuer "b")) (Some (demoIssuer "a")).

Definition demoRenewed : Certificate :=
  withIssuers (mkCertificate "web.shop.cluster.local" ["web.shop.cluster.local"; "web"] "7" (70 * Second)
    "der" "key" (demoCA "b") (demoCA "b" +:+ demoCA "a") "" "" "") "b" "a" Service.

Lemma demoLaws :
  TrustLaws demoGetCertIssuer (tresorEnv demoCrypto) demoCA (λ i, from_option CertChain "" (ca i)).
Proof.
  split.
  - by intros mrc i ca [= <- <-].
  - intros env i cn names d c Hl. rewrite Hl. intros (root & Hr & _ & _ & _ & Hi & Ht)%tresor_issued.
    by rewrite Hr, Hi, Ht.
Qed.

Lemma cached_trust_bundles_witness :
  IssuingCA demoRenewed = demoCA (signingIssuerID demoRenewed) ∧
  TrustedCAs demoRenewed = trustBundle demoCA demoRenewed.
Proof.
  eapply (@cached_trust_bundles CertManager trie_range demoGetCertIssuer (tresorEnv demoCrypto) demoCA
            _ (mkManager {["web.shop" := demoRenewed]} (Some (demoIssuer "b")) (Some (demoIssuer "a"))) "web.shop").
  - exact demoLaws.
  - eapply rtc_l; [eapply (@StepMRC _ trie_range _ _ _ _ (demoAdded "a" MRCStateActive)); vm_compute; reflexivity|].
    eapply rtc_l.
    { eapply (@StepIssue _ trie_range _ _ _ _ (demoEnv 0) "web.shop" Service [SubjectAlternativeNames ["web"]]).
      - by intros ????.
      - vm_compute. reflexivity. }
    eapply rtc_l; [eapply (@StepMRC _ trie_range _ _ _ _ (demoAdded "b" MRCStateIssuingRollout)); vm_compute; reflexivity|].
    apply rtc_once. eapply (@StepRotate _ trie_range _ _ _ _ (λ _, demoEnv 10)).
    + by intros k ????.
    + vm_compute. reflexivity.
  - vm_compute. reflexivity.
Defined.


Lemma requested_names_ignored_witness :
  issueCertificate (demoEnv 10) demoManager "web.shop" Service ([] ++ [SubjectAlternativeNames ["cart"; "web"]]) =
  issueCertificate (demoEnv 10) demoManager "web.shop" Service [].
Proof. apply (requested_names_ignored _ _ _ _ _ _ demoCert); vm_compute; reflexivity. Defined.

Lemma lookup_swallows_request_witness :
  @flight _ shared_SingleFlight (demoEnv 10) demoManager "cart.shop" GetCertificate
    [IssueCertificate Service []] = Ret (demoManager, [], [inr None; inr None]).
Proof. apply (@lookup_swallows_request _ shared_SingleFlight). vm_compute. reflexivity. Defined.

Lemma rotation_keeps_names_witness :
  CommonName demoRenewed = CommonName demoCert ∧ SANames demoRenewed = SANames demoCert ∧
  Expiration demoRenewed = env_now (demoEnv 10) + getValidityDurationForCertType (demoEnv 10) (certType demoCert).
Proof.
  eapply (rotation_keeps_names demoCrypto (demoEnv 10) demoManager (demoIssuer "b") "web.shop" demoCert ["web"]).
  - by intros ????.
  - reflexivity.
  - vm_compute. reflexivity.
  - vm_compute. reflexivity.
  - right. vm_compute. reflexivity.
  - vm_compute. reflexivity.
  - vm_compute. reflexivity.
  - vm_compute. reflexivity.
Defined.

End CertManagerFacts.
