(* ===== verification/MeshConfig.v ===== *)
(** * The mesh configuration: pkg/apis/config/v1alpha3/mesh_config.go

    The MeshConfig resource with its nested specifications.  A pointer whose
    target is only read is an [option]; a pointer that the code compares as
    such is a [Ptr], an address with its target.  The resource requirements
    of injected containers, which no decision of the control plane reads, are
    left out. *)

From S2P Require Import Prelude Api.
Import Api.Api.

Module MeshConfig.

(** A non-nil pointer: [==] on pointers compares addresses. *)
Record Ptr (A : Type) := mkPtr { ptr_addr : positive; ptr_val : A }.
Arguments mkPtr {A} _ _.
Arguments ptr_addr {A} _.
Arguments ptr_val {A} _.

(** ** Sidecars *)

Definition LocalProxyMode : Type := string.
Definition LocalProxyModeLocalhost : LocalProxyMode := "Localhost".
Definition LocalProxyModePodIP : LocalProxyMode := "PodIP".

Record ResolveAddr := mkResolveAddr { ra_IPv4 : string; ra_IPv6 : string }.

Record WildcardDN := mkWildcardDN {
  wdn_Enable : bool; wdn_LOs : slice (option ResolveAddr); wdn_IPs : slice (option ResolveAddr) }.

Record ResolveDN := mkResolveDN { rdn_DN : string; rdn_IPs : slice (option ResolveAddr) }.

Record LocalDNSProxy := mkLocalDNSProxy {
  ldp_Enable : bool; ldp_PrimaryUpstreamDNSServerIPAddr : string;
  ldp_SecondaryUpstreamDNSServerIPAddr : string; ldp_GenerateIPv6BasedOnIPv4 : bool;
  ldp_Wildcard : WildcardDN; ldp_DB : slice ResolveDN }.

Record DNSUpstream := mkDNSUpstream {
  du_Name : string; du_Namespace : string; du_IP : string; du_Port : Z }.

Record XNetDNSProxy := mkXNetDNSProxy { xdp_Enable : bool; xdp_Upstreams : slice DNSUpstream }.

Record SidecarSpec := mkSidecarSpec {
  sc_EnablePrivilegedInitContainer : bool; sc_CompressConfig : bool;
  sc_HoldApplicationUntilProxyStarts : bool; sc_GracefulExitUntilDownstreamEnds : bool;
  sc_LogLevel : string; sc_SidecarImage : string; sc_SidecarDisabledMTLS : bool;
  sc_MaxDataPlaneConnections : Z; sc_ConfigResyncInterval : string; sc_SidecarTimeout : Z;
  sc_TLSMinProtocolVersion : string; sc_TLSMaxProtocolVersion : string;
  sc_CipherSuites : list string; sc_ECDHCurves : list string;
  sc_LocalProxyMode : LocalProxyMode; sc_LocalDNSProxy : LocalDNSProxy; sc_XNetDNSProxy : XNetDNSProxy }.

(** ** Traffic *)

Record ExternalAuthzSpec := mkExternalAuthz {
  ea_Enable : bool; ea_Address : string; ea_Port : Z; ea_StatPrefix : string; ea_Timeout : string;
  ea_FailureModeAllow : bool }.

Record TrafficSpec := mkTrafficSpec {
  tr_InterceptionMode : string; tr_EnableEgress : bool;
  tr_OutboundIPRangeExclusionList : list string; tr_OutboundIPRangeInclusionList : list string;
  tr_OutboundPortExclusionList : list Z; tr_InboundPortExclusionList : list Z;
  tr_EnablePermissiveTrafficPolicyMode : bool; tr_InboundExternalAuthorization : ExternalAuthzSpec;
  tr_NetworkInterfaceExclusionList : list string; tr_HTTP1PerRequestLoadBalancing : bool;
  tr_HTTP2PerRequestLoadBalancing : bool; tr_ServiceAccessMode : ServiceAccessMode;
  tr_ServiceAccessNames : option ServiceAccessNames }.

(** ** Observability *)

Record TracingSpec := mkTracing {
  trc_Enable : bool; trc_Port : Z; trc_Address : string; trc_Endpoint : string;
  trc_SampledFraction : option (Ptr string) }.

Record RemoteLoggingSpec := mkRemoteLogging {
  rl_Enable : bool; rl_Level : Z; rl_Port : Z; rl_Address : string; rl_Endpoint : string;
  rl_Authorization : string; rl_SampledFraction : option (Ptr string); rl_SecretName : string }.

Record ObservabilitySpec := mkObservability {
  obs_FSMLogLevel : string; obs_Tracing : TracingSpec; obs_RemoteLogging : RemoteLoggingSpec }.

(** ** Certificates *)

Record SecretReference := mkSecretReference { sr_Name : string; sr_Namespace : string }.

Record IngressGatewayCertSpec := mkIngressGatewayCert {
  igc_SubjectAltNames : list string; igc_ValidityDuration : string; igc_Secret : SecretReference }.

Record CertificateSpec := mkCertificateSpec {
  cs_ServiceCertValidityDuration : string; cs_CertKeyBitSize : Z;
  cs_IngressGateway : option IngressGatewayCertSpec }.

(** ** Feature flags *)

Record FeatureFlags := mkFlags {
  EnableEgressPolicy : bool; EnableSnapshotCacheMode : bool; EnableAsyncProxyServiceMapping : bool;
  EnableIngressBackendPolicy : bool; EnableAccessControlPolicy : bool; EnableAccessCertPolicy : bool;
  EnableTrafficWarmupPolicy : bool; EnableSidecarPrettyConfig : bool;
  EnableSidecarActiveHealthChecks : bool; EnableRetryPolicy : bool; EnablePluginPolicy : bool;
  EnableAutoDefaultRoute : bool; EnableValidateGatewayListenerHostname : bool;
  EnableValidateHTTPRouteHostnames : bool; EnableValidateGRPCRouteHostnames : bool;
  EnableValidateTLSRouteHostnames : bool; UseEndpointSlicesForGateway : bool;
  DropRouteRuleIfNoAvailableBackends : bool }.

(** ** Repo server, cluster set, plugin chains *)

Record RepoServerSpec := mkRepoServer { rsv_IPAddr : string; rsv_Port : Z; rsv_Codebase : string }.

Record ClusterPropertySpec := mkClusterProperty { cp_Name : string; cp_Value : string }.

Record ClusterSetSpec := mkClusterSet {
  cls_IsManaged : bool; cls_UID : string; cls_Region : string; cls_Zone : string; cls_Group : string;
  cls_Name : string; cls_ControlPlaneUID : string; cls_Properties : slice ClusterPropertySpec }.

Record PluginChainSpec := mkPluginChain {
  pcs_Plugin : string; pcs_Priority : float_bits; pcs_Disable : bool }.

Record PluginChainsSpec := mkPluginChains {
  pch_InboundTCPChains : slice (option PluginChainSpec);
  pch_InboundHTTPChains : slice (option PluginChainSpec);
  pch_OutboundTCPChains : slice (option PluginChainSpec);
  pch_OutboundHTTPChains : slice (option PluginChainSpec) }.

(** ** Ingress, gateways, load balancers *)

Record HTTP := mkHTTP { http_Enabled : bool; http_Bind : Z; http_Listen : Z; http_NodePort : Z }.

Record SSLPassthrough := mkSSLPassthrough { sp_Enabled : bool; sp_UpstreamPort : Z }.

Record TLS := mkTLS {
  tls_Enabled : bool; tls_Bind : Z; tls_Listen : Z; tls_NodePort : Z; tls_MTLS : bool;
  tls_SSLPassthrough : option SSLPassthrough }.

Record IngressSpec := mkIngressSpec {
  ing_Enabled : bool; ing_Namespaced : bool; ing_Type : string; ing_LogLevel : string;
  ing_HTTP : option HTTP; ing_TLS : option TLS }.

Record GatewayAPISpec := mkGatewayAPI { gw_Enabled : bool; gw_LogLevel : string }.

Record ServiceLBSpec := mkServiceLB { slb_Enabled : bool; slb_Image : string }.

Definition FLBUpstreamMode : Type := string.
Definition FLBUpstreamModeNodePort : FLBUpstreamMode := "NodePort".
Definition FLBUpstreamModeEndpoint : FLBUpstreamMode := "Endpoint".

Record FLBSpec := mkFLB {
  flb_Enabled : bool; flb_StrictMode : bool; flb_UpstreamMode : FLBUpstreamMode; flb_SecretName : string }.

Record EgressGatewaySpec := mkEgressGatewaySpec {
  egs_Enabled : bool; egs_LogLevel : string; egs_Mode : string; egs_Port : option Z;
  egs_AdminPort : option Z; egs_Replicas : option Z }.

Record ImageSpec := mkImage {
  img_Registry : string; img_Tag : string; img_Name : gmap string string;
  img_Digest : gmap string string; img_PullPolicy : string }.

Record MiscSpec := mkMisc { misc_RepoServerImage : string }.

(** ** Connectors *)

Record ConnectorGatewaySpec := mkConnectorGateway {
  cg_ClusterIP : string; cg_ExternalIP : string; cg_IngressAddr : string; cg_IngressHTTPPort : Z;
  cg_IngressGRPCPort : Z; cg_EgressAddr : string; cg_EgressHTTPPort : Z; cg_EgressGRPCPort : Z }.

Record ConnectorSpec := mkConnector {
  con_Lb : LoadBalancer; con_Notice : string; con_ViaGateway : ConnectorGatewaySpec }.

(** ** The resource *)

Record MeshConfigSpec := mkMeshConfigSpec {
  ClusterSet : ClusterSetSpec; Sidecar : SidecarSpec; RepoServer : RepoServerSpec; Traffic : TrafficSpec;
  Warmup : TrafficWarmupSpec; Observability : ObservabilitySpec; Certificate : CertificateSpec;
  mcs_FeatureFlags : FeatureFlags; PluginChains : PluginChainsSpec; Ingress : IngressSpec;
  GatewayAPI : GatewayAPISpec; ServiceLB : ServiceLBSpec; FLB : FLBSpec; EgressGatewayCfg : EgressGatewaySpec;
  Image : ImageSpec; Misc : MiscSpec; Connector : ConnectorSpec }.

Record MeshConfig := mkMeshConfig { mcfg_Namespace : string; mcfg_Name : string; Spec : MeshConfigSpec }.

(** ** Zero values

    What Go's [var meshConfig MeshConfig] holds. *)

Definition zeroLocalDNSProxy : LocalDNSProxy :=
  mkLocalDNSProxy false "" "" false (mkWildcardDN false None None) None.
Definition zeroSidecar : SidecarSpec :=
  mkSidecarSpec false false false false "" "" false 0 "" 0 "" "" [] [] "" zeroLocalDNSProxy
    (mkXNetDNSProxy false None).
Definition zeroTraffic : TrafficSpec :=
  mkTrafficSpec "" false [] [] [] [] false (mkExternalAuthz false "" 0 "" "" false) [] false false "" None.
Definition zeroObservability : ObservabilitySpec :=
  mkObservability "" (mkTracing false 0 "" "" None) (mkRemoteLogging false 0 0 "" "" "" None "").
Definition zeroFlags : FeatureFlags :=
  mkFlags false false false false false false false false false false false false false false false false
    false false.
Definition zeroSpec : MeshConfigSpec := {|
  ClusterSet := mkClusterSet false "" "" "" "" "" "" None; Sidecar := zeroSidecar;
  RepoServer := mkRepoServer "" 0 ""; Traffic := zeroTraffic; Warmup := mkWarmup false 0%Z None None None;
  Observability := zeroObservability; Certificate := mkCertificateSpec "" 0 None;
  mcs_FeatureFlags := zeroFlags; PluginChains := mkPluginChains None None None None;
  Ingress := mkIngressSpec false false "" "" None None; GatewayAPI := mkGatewayAPI false "";
  ServiceLB := mkServiceLB false ""; FLB := mkFLB false false "" "";
  EgressGatewayCfg := mkEgressGatewaySpec false "" "" None None None; Image := mkImage "" "" ∅ ∅ "";
  Misc := mkMisc ""; Connector := mkConnector (mkLB "" "" None) "" (mkConnectorGateway "" "" "" 0 0 "" 0 0) |}.
Definition zeroMeshConfig : MeshConfig := mkMeshConfig "" "" zeroSpec.

(** ** Decidable equality, where the code compares values

    [ptr_eq] is Go's [==] on pointers; a struct with a pointer field is
    compared with it. *)

Definition ptr_eq {A} (p q : option (Ptr A)) : bool :=
  bool_decide (ptr_addr <$> p = ptr_addr <$> q).

#[export] Instance ExternalAuthz_eq_dec : EqDecision ExternalAuthzSpec.
Proof. solve_decision. Defined.
#[export] Instance FeatureFlags_eq_dec : EqDecision FeatureFlags.
Proof. solve_decision. Defined.
#[export] Instance ResolveAddr_eq_dec : EqDecision ResolveAddr.
Proof. solve_decision. Defined.
#[export] Instance WildcardDN_eq_dec : EqDecision WildcardDN.
Proof. unfold slice. solve_decision. Defined.
#[export] Instance ResolveDN_eq_dec : EqDecision ResolveDN.
Proof. unfold slice. solve_decision. Defined.
#[export] Instance LocalDNSProxy_eq_dec : EqDecision LocalDNSProxy.
Proof. unfold slice. solve_decision. Defined.
#[export] Instance DNSUpstream_eq_dec : EqDecision DNSUpstream.
Proof. solve_decision. Defined.
#[export] Instance XNetDNSProxy_eq_dec : EqDecision XNetDNSProxy.
Proof. unfold slice. solve_decision. Defined.
#[export] Instance ClusterProperty_eq_dec : EqDecision ClusterPropertySpec.
Proof. solve_decision. Defined.
#[export] Instance ClusterSet_eq_dec : EqDecision ClusterSetSpec.
Proof. unfold slice. solve_decision. Defined.
#[export] Instance PluginChain_eq_dec : EqDecision PluginChainSpec.
Proof. unfold float_bits. solve_decision. Defined.
#[export] Instance PluginChains_eq_dec : EqDecision PluginChainsSpec.
Proof. unfold slice. solve_decision. Defined.
#[export] Instance LoadBalancer_eq_dec : EqDecision LoadBalancer.
Proof. unfold slice. solve_decision. Defined.
#[export] Instance ConnectorGateway_eq_dec : EqDecision ConnectorGatewaySpec.
Proof. solve_decision. Defined.
#[export] Instance Connector_eq_dec : EqDecision ConnectorSpec.
Proof. solve_decision. Defined.

Definition TracingSpec_eqb (x y : TracingSpec) : bool :=
  bool_decide (trc_Enable x = trc_Enable y) && bool_decide (trc_Port x = trc_Port y) &&
  bool_decide (trc_Address x = trc_Address y) && bool_decide (trc_Endpoint x = trc_Endpoint y) &&
  ptr_eq (trc_SampledFraction x) (trc_SampledFraction y).

(** [reflect.DeepEqual] compares floats with [==], for which the two zeros are
    equal; a NaN does not occur in a decoded resource. *)
Definition positiveZero (x : float_bits) : float_bits := if decide (x = 2 ^ 31)%Z then 0%Z else x.

Definition normalChain (c : PluginChainSpec) : PluginChainSpec :=
  mkPluginChain (pcs_Plugin c) (positiveZero (pcs_Priority c)) (pcs_Disable c).

Definition normalSlice (l : slice (option PluginChainSpec)) : slice (option PluginChainSpec) :=
  map (option_map normalChain) <$> l.

Definition PluginChainsSpec_eqb (x y : PluginChainsSpec) : bool :=
  bool_decide (normalSlice (pch_InboundTCPChains x) = normalSlice (pch_InboundTCPChains y)) &&
  bool_decide (normalSlice (pch_InboundHTTPChains x) = normalSlice (pch_InboundHTTPChains y)) &&
  bool_decide (normalSlice (pch_OutboundTCPChains x) = normalSlice (pch_OutboundTCPChains y)) &&
  bool_decide (normalSlice (pch_OutboundHTTPChains x) = normalSlice (pch_OutboundHTTPChains y)).

Definition RemoteLoggingSpec_eqb (x y : RemoteLoggingSpec) : bool :=
  bool_decide (rl_Enable x = rl_Enable y) && bool_decide (rl_Level x = rl_Level y) &&
  bool_decide (rl_Port x = rl_Port y) && bool_decide (rl_Address x = rl_Address y) &&
  bool_decide (rl_Endpoint x = rl_Endpoint y) && bool_decide (rl_Authorization x = rl_Authorization y) &&
  ptr_eq (rl_SampledFraction x) (rl_SampledFraction y) && bool_decide (rl_SecretName x = rl_SecretName y).

End MeshConfig.
