(* ===== verification/GoTime.v ===== *)
(** * Go's durations: time.ParseDuration

    A duration is an [int64] number of nanoseconds.  Fractions of a unit go
    through float64, so the conversion rounds as IEEE binary64 does; floats
    are pairs of a mantissa and an exponent of two, and only the range the
    function uses (no overflow, no subnormals) is covered. *)

From S2P Require Import Prelude.
#[local] Open Scope Z_scope.

Module GoTime.

(** ** Binary64 rounding of a positive rational *)

(** [n / d], scaled by [2 ^ -e]. *)
Definition scaled (n d e : Z) : Z * Z := (n * 2 ^ Z.max 0 (- e), d * 2 ^ Z.max 0 e).

(** Round to nearest, ties to even, with 53 bits. *)
Definition round64 (n d : Z) : Z * Z :=
  if decide (n = 0) then (0, 0)
  else
    let e0 := Z.log2 n - Z.log2 d - 53 in
    let '(a, b) := scaled n d e0 in
    let e := if decide (2 ^ 53 * b ≤ a) then e0 + 1 else e0 in
    let '(a, b) := scaled n d e in
    let q := a / b in
    let r := (a `mod` b) in
    (if decide (b < 2 * r ∨ (b = 2 * r ∧ Z.odd q = true)) then q + 1 else q, e).

Definition float_mul (x y : Z * Z) : Z * Z :=
  let e := x.2 + y.2 in
  round64 (x.1 * y.1 * 2 ^ Z.max 0 e) (2 ^ Z.max 0 (- e)).

(** [uint64(x)] for a float in range: truncation. *)
Definition float_trunc (x : Z * Z) : Z := x.1 * 2 ^ Z.max 0 x.2 / 2 ^ Z.max 0 (- x.2).

(** ** Parsing *)

Definition digit (c : ascii) : Z := Z.of_nat (nat_of_ascii c) - 48.

(** [leadingInt]: the digits at the front, [None] past [1 << 63]. *)
Fixpoint leadingInt (x : Z) (s : string) : option (Z * string) :=
  match s with
  | String c s' =>
      if is_digit c then
        if decide (2 ^ 63 / 10 < x) then None
        else let y := x * 10 + digit c in
             if decide (2 ^ 63 < y) then None else leadingInt y s'
      else Some (x, s)
  | EmptyString => Some (x, s)
  end.

(** [leadingFraction]: digits past the precision are skipped; the power of
    ten of the digits kept. *)
Fixpoint leadingFraction (x scale : Z) (overflow : bool) (s : string) : Z * Z * string :=
  match s with
  | String c s' =>
      if is_digit c then
        if overflow || bool_decide ((2 ^ 63 - 1) / 10 < x) then leadingFraction x scale true s'
        else let y := x * 10 + digit c in
             if decide (2 ^ 63 < y) then leadingFraction x scale true s'
             else leadingFraction y (scale * 10) false s'
      else (x, scale, s)
  | EmptyString => (x, scale, s)
  end.

(** The unit: everything up to the next digit or dot. *)
Fixpoint spanUnit (s : string) : string * string :=
  match s with
  | String c s' =>
      if bool_decide (c = "."%char) || is_digit c then (EmptyString, s)
      else let '(u, rest) := spanUnit s' in (String c u, rest)
  | EmptyString => (EmptyString, s)
  end.

(** The two spellings of micro are those of U+00B5 and U+03BC in UTF-8. *)
Definition unitMap (u : string) : option Z :=
  let micro a b := String (ascii_of_nat a) (String (ascii_of_nat b) "s") in
  if decide (u = "ns") then Some 1
  else if decide (u = "us" ∨ u = micro 194 181 ∨ u = micro 206 188)%nat then Some 1000
  else if decide (u = "ms") then Some 1000000
  else if decide (u = "s") then Some 1000000000
  else if decide (u = "m") then Some 60000000000
  else if decide (u = "h") then Some 3600000000000
  else None.

(** One number with its unit: the nanoseconds and the rest of the text. *)
Definition parseTerm (s : string) : option (Z * string) :=
  match s with
  | EmptyString => None
  | String c _ =>
      if negb (bool_decide (c = "."%char) || is_digit c) then None
      else
        '(v, s1) ← leadingInt 0 s;
        let pre := negb (bool_decide (String.length s = String.length s1)) in
        let '(f, scale, s2, post) :=
          match s1 with
          | String "."%char s' =>
              let '(f, scale, s2) := leadingFraction 0 1 false s' in
              (f, scale, s2, negb (bool_decide (String.length s' = String.length s2)))
          | _ => (0, 1, s1, false)
          end in
        if negb pre && negb post then None
        else
          let '(u, rest) := spanUnit s2 in
          if decide (u = "") then None
          else
            unit ← unitMap u;
            if decide (2 ^ 63 / unit < v) then None
            else
              let v := v * unit in
              if decide (0 < f) then
                let v := v + float_trunc (float_mul (round64 f 1) (round64 unit scale)) in
                if decide (2 ^ 63 < v) then None else Some (v, rest)
              else Some (v, rest)
  end.

(** The sum of the terms, in [uint64]; every round consumes text, so [fuel] above the
    length is enough. *)
Fixpoint parseTerms (fuel : nat) (d : Z) (s : string) : option Z :=
  match fuel with
  | O => None
  | S fuel =>
      match s with
      | EmptyString => Some d
      | _ => '(v, rest) ← parseTerm s;
             let d := ((d + v) `mod` 2 ^ 64) in
             if decide (2 ^ 63 < d) then None else parseTerms fuel d rest
      end
  end.

Definition ParseDuration (s : string) : option Z :=
  let '(neg, s) := match s with
                   | String "-"%char s' => (true, s')
                   | String "+"%char s' => (false, s')
                   | _ => (false, s)
                   end in
  if decide (s = "0") then Some 0
  else if decide (s = "") then None
  else
    d ← parseTerms (S (String.length s)) 0 s;
    if (neg : bool) then Some (- d)
    else if decide (2 ^ 63 - 1 < d) then None else Some d.

(** ** Facts *)

Lemma leadingInt_nonneg x s v rest :
  0 ≤ x → leadingInt x s = Some (v, rest) →
  0 ≤ v ∧ (String.length rest ≤ String.length s)%nat.
Proof.
  revert x. induction s as [|c s IH]; intros x Hx; simpl; [by intros [= <- <-]|].
  destruct (is_digit c) eqn:Hc; [|intros [= <- <-]; simpl; auto].
  case_decide; [done|]. case_decide; [done|]. intros H1. apply IH in H1 as [? ?]; [lia|].
  apply bool_decide_eq_true in Hc. unfold digit. lia.
Qed.

Lemma leadingFraction_length x scale ov s v sc rest :
  leadingFraction x scale ov s = (v, sc, rest) → (String.length rest ≤ String.length s)%nat.
Proof.
  revert x scale ov. induction s as [|c s IH]; intros x scale ov; simpl; [by intros [= _ _ <-]|].
  destruct (is_digit c); [|intros [= _ _ <-]; simpl; lia].
  destruct (ov || _); [intros H%IH; lia|]. case_decide; intros H'%IH; lia.
Qed.

Lemma spanUnit_length s u rest :
  spanUnit s = (u, rest) → (String.length s = String.length u + String.length rest)%nat.
Proof.
  revert u. induction s as [|c s IH]; intros u; simpl; [by intros [= <- <-]|].
  destruct (_ || _); [by intros [= <- <-]|].
  destruct (spanUnit s) as [u' rest'] eqn:E. intros [= <- <-]. simpl. rewrite (IH u' eq_refl). done.
Qed.

Lemma parseTerm_shorter s v rest :
  parseTerm s = Some (v, rest) → (String.length rest < String.length s)%nat.
Proof.
  destruct s as [|c s]; [done|]. unfold parseTerm. remember (String c s) as t eqn:Et.
  destruct (negb _) eqn:?; [done|]. rewrite bind_Some. intros ([v0 s1] & Hi & H).
  apply leadingInt_nonneg in Hi as [_ Hl]; [|done].
  assert (∃ f scale s2 post, (match s1 with
      | String "."%char s' => let '(f, scale, s2) := leadingFraction 0 1 false s' in
          (f, scale, s2, negb (bool_decide (String.length s' = String.length s2)))
      | _ => (0, 1, s1, false) end) = (f, scale, s2, post) ∧ (String.length s2 ≤ String.length s1)%nat)
    as (f & scale & s2 & post & E & Hl2).
  { assert (∃ f scale s2 post, (0, 1, s1, false) = (f, scale, s2, post) ∧
      (String.length s2 ≤ String.length s1)%nat) as Hother by (by eexists _, _, _, _).
    destruct s1 as [|a s1]; [done|].
    destruct a as [[] [] [] [] [] [] [] []]; try exact Hother.
    destruct (leadingFraction 0 1 false s1) as [[f sc] s2] eqn:E.
    apply leadingFraction_length in E. eexists _, _, _, _. split; [done|]. simpl. lia. }
  rewrite E in H. destruct (negb _ && _); [done|].
  destruct (spanUnit s2) as [u r] eqn:Eu. apply spanUnit_length in Eu.
  case_decide as Hu; [done|]. apply bind_Some in H as (unit & _ & H).
  assert (0 < String.length u)%nat by (destruct u; [done|simpl; lia]).
  case_decide; [done|]. case_decide; [|by injection H as <- <-; lia].
  case_decide; [done|]. injection H as <- <-. lia.
Qed.

(** The fuel is enough: more of it changes nothing. *)
Lemma parseTerms_fuel n m d s :
  (String.length s < n)%nat → (String.length s < m)%nat → parseTerms n d s = parseTerms m d s.
Proof.
  revert m d s. induction n as [|n IH]; intros m d s Hn Hm; [lia|]. destruct m as [|m]; [lia|]. simpl.
  destruct s as [|c s]; [done|]. destruct (parseTerm (String c s)) as [[v rest]|] eqn:E; [|done].
  apply parseTerm_shorter in E. simpl in *. case_decide; [done|]. apply IH; lia.
Qed.

Example parse_examples :
  ParseDuration "24h" = Some 86400000000000 ∧ ParseDuration "-1.5h" = Some (-5400000000000) ∧
  ParseDuration "1h15m30.918273645s" = Some 4530918273645 ∧ ParseDuration "3" = None ∧
  ParseDuration ".5.s" = None ∧ ParseDuration "9223372036854775807ns" = Some (2 ^ 63 - 1) ∧
  ParseDuration "9223372036854775808ns" = None ∧
  ParseDuration "-9223372036854775808ns" = Some (- 2 ^ 63).
Proof. repeat split. Qed.

End GoTime.
