(* ===== verification/NetFacts.v ===== *)
(** * Numeric reading of addresses and masks

    Lemmas on the model of Go's net package: byte lists as numbers, prefix
    masks as powers of two, containment in a network as an interval, and the
    round trip of printed IPv4 addresses. *)

From S2P Require Import Prelude Net.
Import Net.Net.

Module NetFacts.

#[local] Open Scope Z_scope.

(** The number a byte list denotes, most significant byte first. *)
Fixpoint ipval (l : list Z) : Z :=
  match l with
  | [] => 0
  | b :: r => b * 2 ^ (8 * Z.of_nat (length r)) + ipval r
  end.

Definition bytes (l : list Z) : Prop := Forall is_byte l.

(** ** Facts about single bytes, by exhaustion *)

Definition allBytes : list Z := Z.of_nat <$> seq 0 256.

Lemma byte_in b : is_byte b → b ∈ allBytes.
Proof.
  intros Hb. apply list_elem_of_fmap. exists (Z.to_nat b). unfold is_byte in Hb.
  split; [lia|]. apply elem_of_seq. lia.
Qed.

(** A decidable statement on a byte holds if it holds on the 256 of them. *)
Lemma byte_forall (P : Z → bool) : forallb P allBytes = true → ∀ b, is_byte b → P b = true.
Proof. intros H b Hb. apply (proj1 (forallb_forall P _) H), list_elem_of_In, byte_in, Hb. Qed.

Lemma byte_forall2 (P : Z → Z → bool) :
  forallb (λ a, forallb (P a) allBytes) allBytes = true →
  ∀ a b, is_byte a → is_byte b → P a b = true.
Proof. intros H a b Ha. apply byte_forall. by apply (byte_forall (λ a, forallb (P a) allBytes)). Qed.

Lemma land_255 b : is_byte b → Z.land b 255 = b.
Proof.
  intros Hb. apply Z.eqb_eq. revert b Hb. apply byte_forall. vm_compute. reflexivity.
Qed.

Lemma land_byte a b : is_byte a → is_byte b → is_byte (Z.land a b).
Proof.
  intros Ha Hb. assert ((0 <=? Z.land a b) && (Z.land a b <? 256) = true) as H.
  { revert a b Ha Hb. apply byte_forall2. vm_compute. reflexivity. }
  unfold is_byte. apply andb_true_iff in H as [?%Z.leb_le ?%Z.ltb_lt]. lia.
Qed.

Lemma land_maskByte b n : is_byte b → 0 ≤ n < 8 → Z.land b (maskByte n) = b - b `mod` 2 ^ (8 - n).
Proof.
  intros Hb Hn. apply Z.eqb_eq.
  assert (is_byte n) as Hn' by (unfold is_byte; lia).
  assert (implb (n <? 8) (Z.land b (maskByte n) =? b - b `mod` 2 ^ (8 - n)) = true) as H.
  { clear Hn. revert b n Hb Hn'. apply (byte_forall2 (λ b n, implb (n <? 8) _)). vm_compute. reflexivity. }
  by rewrite (proj2 (Z.ltb_lt n 8)) in H by lia.
Qed.

Lemma lor_complement a m :
  is_byte a → is_byte m → Z.land a m = a → Z.lor a (255 - m) = a + (255 - m).
Proof.
  intros Ha Hm E. apply Z.eqb_eq.
  assert (implb (Z.land a m =? a) (Z.lor a (255 - m) =? a + (255 - m)) = true) as H.
  { clear E. revert a m Ha Hm. apply (byte_forall2 (λ a m, implb _ _)). vm_compute. reflexivity. }
  by rewrite E, Z.eqb_refl in H.
Qed.

Lemma lor_byte a m : is_byte a → is_byte m → is_byte (Z.lor a (255 - m)).
Proof.
  intros Ha Hm. assert ((0 <=? Z.lor a (255 - m)) && (Z.lor a (255 - m) <? 256) = true) as H.
  { revert a m Ha Hm. apply byte_forall2. vm_compute. reflexivity. }
  unfold is_byte. apply andb_true_iff in H as [?%Z.leb_le ?%Z.ltb_lt]. lia.
Qed.

(** ** Byte lists as numbers *)

Lemma pow8_succ {A} (b : A) r : 2 ^ (8 * Z.of_nat (length (b :: r))) = 256 * 2 ^ (8 * Z.of_nat (length r)).
Proof.
  simpl length. rewrite Nat2Z.inj_succ, Z.mul_succ_r, Z.pow_add_r by lia. lia.
Qed.

Lemma ipval_range l : bytes l → 0 ≤ ipval l < 2 ^ (8 * Z.of_nat (length l)).
Proof.
  induction 1 as [|b r Hb _ IH]; [done|]. rewrite pow8_succ. simpl. unfold is_byte in Hb. nia.
Qed.

Lemma ipval_app l1 l2 :
  ipval (l1 ++ l2) = ipval l1 * 2 ^ (8 * Z.of_nat (length l2)) + ipval l2.
Proof.
  induction l1 as [|b r IH]; simpl; [lia|].
  rewrite IH, length_app, Nat2Z.inj_add, Z.mul_add_distr_l, Z.pow_add_r by lia. lia.
Qed.

Lemma ipval_inj l1 l2 :
  bytes l1 → bytes l2 → length l1 = length l2 → ipval l1 = ipval l2 → l1 = l2.
Proof.
  intros H1. revert l2. induction H1 as [|b r Hb Hr IH]; intros [|c q] H2 Hl E; try done.
  simpl in *. injection Hl as Hl. apply Forall_cons in H2 as [Hc Hq].
  pose proof (ipval_range r Hr). pose proof (ipval_range q Hq). rewrite <-Hl in *.
  assert (b = c) as -> by nia. f_equal. apply IH; [done..|lia].
Qed.

(** ** Prefix masks *)

Lemma maskBytes_length l n : length (maskBytes l n) = l.
Proof. revert n. induction l; intros n; simpl; [done|]. case_bool_decide; simpl; auto. Qed.

Lemma maskByte_byte n : 0 ≤ n < 8 → is_byte (maskByte n).
Proof.
  intros Hn. unfold maskByte, is_byte. rewrite Z.shiftr_div_pow2 by lia.
  pose proof (Z.pow_pos_nonneg 2 n). split.
  - apply Z.le_0_sub, Z.div_le_upper_bound; nia.
  - assert (0 < 255 / 2 ^ n + 1) by (pose proof (Z.div_pos 255 (2 ^ n)); lia).
    pose proof (Z.div_pos 255 (2 ^ n)). lia.
Qed.

Lemma maskBytes_bytes l n : 0 ≤ n → bytes (maskBytes l n).
Proof.
  revert n. induction l as [|l IH]; intros n Hn; [constructor|].
  simpl. case_bool_decide; constructor; [done|apply IH; lia|apply maskByte_byte; lia|by apply IH].
Qed.

Lemma maskBytes_0 l : maskBytes l 0 = replicate l 0.
Proof. induction l as [|l IH]; [done|]. simpl. by rewrite IH. Qed.

Lemma zip_land_0 a : zip_with Z.land a (replicate (length a) 0) = replicate (length a) 0.
Proof. induction a as [|b a IH]; simpl; [done|]. by rewrite IH, Z.land_0_r. Qed.

Lemma ipval_0 l : ipval (replicate l 0) = 0.
Proof. induction l as [|l IH]; simpl; [done|]. lia. Qed.

(** Masking clears the host bits. *)
Lemma ipval_masked a n :
  bytes a → 0 ≤ n ≤ 8 * Z.of_nat (length a) →
  ipval (zip_with Z.land a (maskBytes (length a) n)) =
  ipval a - ipval a `mod` 2 ^ (8 * Z.of_nat (length a) - n).
Proof.
  intros Ha. revert n. induction Ha as [|b r Hb Hr IH]; intros n Hn; [done|].
  cbn [length maskBytes]. case_bool_decide as Hn8; cbn [zip_with ipval].
  - rewrite land_255, IH, length_zip_with_l by (rewrite ?maskBytes_length; simpl in Hn; lia || done).
    replace (8 * Z.of_nat (S (length r)) - n) with (8 * Z.of_nat (length r) - (n - 8)) by lia.
    set (k := 8 * Z.of_nat (length r) - (n - 8)).
    assert (2 ^ (8 * Z.of_nat (length r)) = 2 ^ (n - 8) * 2 ^ k) as ->.
    { rewrite <-Z.pow_add_r by (simpl in Hn; lia). f_equal. lia. }
    rewrite Z.mul_assoc, (Z.add_comm _ (ipval r)), Z.mod_add; [lia|].
    apply Z.pow_nonzero; simpl in Hn; lia.
  - rewrite maskBytes_0, zip_land_0, ipval_0, length_replicate, land_maskByte by (done || lia).
    replace (8 * Z.of_nat (S (length r)) - n) with ((8 - n) + 8 * Z.of_nat (length r)) by lia.
    rewrite Z.pow_add_r by lia. set (p := 2 ^ (8 * Z.of_nat (length r))).
    pose proof (ipval_range r Hr) as Hv. fold p in Hv.
    pose proof (Z.mod_pos_bound b (2 ^ (8 - n)) ltac:(apply Z.pow_pos_nonneg; lia)) as Hm.
    rewrite <-(Z.mod_unique_pos (b * p + ipval r) (2 ^ (8 - n) * p) (b / 2 ^ (8 - n))
               (b `mod` 2 ^ (8 - n) * p + ipval r)); [lia|nia|].
    rewrite (Z.div_mod b (2 ^ (8 - n))) at 1 by (apply Z.pow_nonzero; lia). lia.
Qed.

Lemma ipval_complement a :
  bytes a → ipval ((λ b, 255 - b) <$> a) = 2 ^ (8 * Z.of_nat (length a)) - 1 - ipval a.
Proof.
  induction 1 as [|b r Hb Hr IH]; [done|]. rewrite pow8_succ.
  cbn [fmap list_fmap ipval]. rewrite IH, length_fmap. lia.
Qed.

Lemma ipval_maskBytes l n :
  0 ≤ n ≤ 8 * Z.of_nat l →
  ipval (maskBytes l n) = 2 ^ (8 * Z.of_nat l) - 2 ^ (8 * Z.of_nat l - n).
Proof.
  intros Hn. set (a := replicate l 255).
  assert (bytes a) as Ha by (apply Forall_replicate; done).
  assert (length a = l) as Hl by apply length_replicate.
  assert (ipval a = 2 ^ (8 * Z.of_nat l) - 1) as Hv.
  { pose proof (ipval_complement (replicate l 0)) as H.
    rewrite fmap_replicate, ipval_0, length_replicate in H. unfold a.
    rewrite <-(Z.sub_0_r 255), H; [lia|by apply Forall_replicate]. }
  pose proof (ipval_masked a n Ha) as H. rewrite Hl in H.
  assert (zip_with Z.land a (maskBytes l n) = maskBytes l n) as E.
  { unfold a. pose proof (maskBytes_bytes l n ltac:(lia)) as Hb. pose proof (maskBytes_length l n) as L.
    revert Hb L. generalize (maskBytes l n). clear. intros m Hb <-.
    induction Hb as [|b m Hb _ IH]; simpl; [done|]. by rewrite IH, Z.land_comm, land_255. }
  rewrite E in H. rewrite H, Hv by lia.
  set (k := 8 * Z.of_nat l - n). assert (2 ^ (8 * Z.of_nat l) = 2 ^ n * 2 ^ k) as Ep.
  { rewrite <-Z.pow_add_r by lia. f_equal. lia. }
  rewrite Ep. pose proof (Z.pow_pos_nonneg 2 k). pose proof (Z.pow_pos_nonneg 2 n).
  rewrite <-(Z.mod_unique_pos (2 ^ n * 2 ^ k - 1) (2 ^ k) (2 ^ n - 1) (2 ^ k - 1)); nia.
Qed.

(** The all-ones host part: the last address of the network. *)
Lemma ipval_broadcast a n :
  bytes a → 0 ≤ n ≤ 8 * Z.of_nat (length a) →
  zip_with Z.land a (maskBytes (length a) n) = a →
  ipval (zip_with (λ x m, Z.lor x (255 - m)) a (maskBytes (length a) n)) =
  ipval a + 2 ^ (8 * Z.of_nat (length a) - n) - 1.
Proof.
  intros Ha Hn E. pose proof (maskBytes_bytes (length a) n ltac:(lia)) as Hm.
  pose proof (maskBytes_length (length a) n) as Hl.
  assert (∀ a m, bytes a → bytes m → length m = length a → zip_with Z.land a m = a →
    ipval (zip_with (λ x m, Z.lor x (255 - m)) a m) = ipval a + ipval ((λ b, 255 - b) <$> m)) as Hs.
  { clear. intros a m Ha. revert m. induction Ha as [|x a Hx Ha IH]; intros [|y m] Hm Hl E; try done.
    simpl in *. injection Hl as Hl. injection E as E1 E2. apply Forall_cons in Hm as [Hy Hm].
    rewrite lor_complement, IH by done.
    rewrite length_zip_with_l by (rewrite Hl; done). rewrite length_fmap, Hl. unfold fmap. ring. }
  rewrite Hs, ipval_complement, Hl, ipval_maskBytes by done. lia.
Qed.


(** ** Parsed addresses *)

Lemma digitVal_range c : is_digit c = true → 0 ≤ digitVal c ≤ 9.
Proof. unfold is_digit, digitVal. intros ?%bool_decide_eq_true. lia. Qed.

Lemma bytes_snoc l b : bytes l → is_byte b → bytes (l ++ [b]).
Proof. intros ? ?. apply Forall_app. by rewrite Forall_singleton. Qed.

Lemma parse4_ok s start dot fields val digLen b :
  parse4 s start dot fields val digLen = Some b →
  bytes fields → is_byte val → (length fields ≤ 3)%nat → bytes b ∧ length b = 4%nat.
Proof.
  revert start dot fields val digLen. induction s as [|c r IH]; intros start dot fields val digLen; simpl.
  - case_bool_decide; [done|]. intros [= <-] Hf Hv Hl. split.
    + by apply bytes_snoc.
    + rewrite length_app. simpl. lia.
  - destruct (is_digit c) eqn:Ec.
    + destruct (_ && _); [done|]. case_bool_decide; [done|]. intros H' ? Hv ?. eapply IH; [exact H'|done| |done].
      apply digitVal_range in Ec. unfold is_byte in *. lia.
    + case_bool_decide; [|done]. destruct (_ || _); [done|]. case_bool_decide; [done|].
      intros H' Hf Hv Hl. eapply IH; [exact H'| |done|].
      * by apply bytes_snoc.
      * rewrite length_app. simpl. lia.
Qed.

Lemma parseIPv4_ok s b : parseIPv4 s = Some b → bytes b ∧ length b = 4%nat.
Proof. intros H. eapply parse4_ok; [exact H|constructor|done|simpl; lia]. Qed.

Lemma hexVal_range c d : hexVal c = Some d → 0 ≤ d < 16.
Proof. unfold hexVal. repeat case_bool_decide; intros [= <-]; lia. Qed.

Lemma scanHex_ok s off acc x o r :
  scanHex s off acc = Some (x, o, r) → (off ≤ 4)%nat → 0 ≤ acc < 16 ^ Z.of_nat off → 0 ≤ x < 65536.
Proof.
  revert off acc. induction s as [|c s IH]; intros off acc; simpl.
  - intros [= <- <- <-] Ho Ha. pose proof (Z.pow_le_mono_r 16 (Z.of_nat off) 4). lia.
  - destruct (hexVal c) as [d|] eqn:E.
    + case_bool_decide; [done|]. intros H' Ho Ha. apply hexVal_range in E.
      eapply IH; [exact H'|lia|]. rewrite Nat2Z.inj_succ, Z.pow_succ_r by lia. lia.
    + intros [= <- <- <-] Ho Ha. pose proof (Z.pow_le_mono_r 16 (Z.of_nat off) 4). lia.
Qed.

Lemma word_bytes ip x : bytes ip → 0 ≤ x < 65536 → bytes (ip ++ [x / 256; x mod 256]).
Proof.
  intros Hi Hx. apply Forall_app; split; [done|]. unfold is_byte.
  repeat constructor; try (apply Z.mod_pos_bound; lia); try (apply Z.div_pos; lia).
  apply Z.div_lt_upper_bound; lia.
Qed.

Lemma parse6_ok rounds s ip e ip' e' r :
  parse6 rounds s ip e = Some (ip', e', r) →
  bytes ip → length ip = (2 * (8 - rounds))%nat → (rounds ≤ 8)%nat →
  bytes ip' ∧ (length ip' ≤ 16)%nat.
Proof.
  revert s ip e. induction rounds as [|rounds IH]; intros s ip e; cbn [parse6].
  { intros [= <- <- <-] ? ?. split; [done|lia]. }
  destruct (scanHex s 0 0) as [[[x off] t]|] eqn:Ex; [|done].
  apply scanHex_ok in Ex; [|lia..]. case_bool_decide; [done|]. intros H' Hb Hl Hr.
  pose proof (word_bytes ip x Hb Ex) as Hw.
  assert (length (ip ++ [x / 256; x mod 256]) = (2 * (8 - rounds))%nat) as Hlw.
  { rewrite length_app. simpl length. lia. }
  destruct t as [|c t]; [simplify_eq; split; [done|lia]|].
  case_bool_decide.
  - case_match; [done|]. case_bool_decide; [done|].
    destruct (parseIPv4 s) as [f|] eqn:Ef; simplify_eq/=. apply parseIPv4_ok in Ef as [? Hf].
    split; [by apply Forall_app|]. rewrite length_app. lia.
  - case_match; [done|]. destruct t as [|c' t]; [eapply IH; eauto; lia|].
    destruct (decide (c' = ":"%char)) as [->|Hc].
    + repeat case_bool_decide; simplify_eq; try (eapply IH; eauto; lia). split; [done|lia].
    + assert (parse6 rounds (String c' t) (ip ++ [x / 256; x mod 256]) e = Some (ip', e', r)) as H''.
      { by destruct c' as [[] [] [] [] [] [] [] []]. }
      eapply IH; eauto; lia.
Qed.

Lemma expand6_ok ip e b :
  expand6 ip e = Some b → bytes ip → (length ip ≤ 16)%nat → bytes b ∧ length b = 16%nat.
Proof.
  unfold expand6. destruct e as [e|]; case_bool_decide; try done; intros [= <-] Hb Hl; [|split; [done|lia]].
  split.
  - apply Forall_app; split; [by apply Forall_take|]. apply Forall_app; split; [|by apply Forall_drop].
    by apply Forall_replicate.
  - rewrite !length_app, length_take, length_drop, length_replicate. lia.
Qed.

Lemma parse6Body_ok s b : parse6Body s = Some b → bytes b ∧ length b = 16%nat.
Proof.
  assert (∀ s e, ('(ip, e', rest) ← parse6 8 s [] e;
                  if bool_decide (rest = "") then expand6 ip e' else None) = Some b →
                 bytes b ∧ length b = 16%nat) as Hrun.
  { intros s' e. destruct (parse6 8 s' [] e) as [[[ip e'] rest]|] eqn:E; [|done]. simpl.
    case_bool_decide; [|done]. intros He.
    apply parse6_ok in E as [? ?]; [|constructor|done|lia]. by eapply expand6_ok. }
  unfold parse6Body. repeat case_match; intros H'; try (by eapply Hrun). simplify_eq.
  split; [by apply Forall_replicate|done].
Qed.

Lemma ParseAddr_ok s a :
  ParseAddr s = Some a →
  match a with
  | Addr4 b => bytes b ∧ length b = 4%nat
  | Addr6 b _ => bytes b ∧ length b = 16%nat
  end.
Proof.
  unfold ParseAddr, parseIPv6. intros H. repeat (case_match; simplify_eq/=);
    apply fmap_Some in H as (? & Hb & ?); simplify_eq; eauto using parseIPv4_ok, parse6Body_ok.
Qed.

Lemma digits_nonneg s n m : dtoiGo s n = Some m → 0 ≤ n → 0 ≤ m.
Proof.
  revert n. induction s as [|c s IH]; intros n; simpl; [by intros [= <-]|].
  destruct (is_digit c) eqn:E; [|done]. case_bool_decide; [done|].
  intros H' ?. eapply IH; [exact H'|]. apply digitVal_range in E. lia.
Qed.

(** ** Parsed networks *)

(** A network in canonical form: an address and a prefix mask of its length,
    host bits clear. *)
Record canonical (n : IPNet) (ones : Z) : Prop := {
  can_bytes : bytes (net_IP n);
  can_len : length (net_IP n) = 4%nat ∨ length (net_IP n) = 16%nat;
  can_ones : 0 ≤ ones ≤ 8 * Z.of_nat (length (net_IP n));
  can_mask : net_Mask n = maskBytes (length (net_IP n)) ones;
  can_masked : zip_with Z.land (net_IP n) (net_Mask n) = net_IP n
}.

Lemma zip_land_idem a m :
  length a = length m → zip_with Z.land (zip_with Z.land a m) m = zip_with Z.land a m.
Proof.
  revert m. induction a as [|x a IH]; intros [|y m] H; simpl in *; try done.
  rewrite <-Z.land_assoc, Z.land_diag, IH by lia. done.
Qed.

Lemma zip_land_bytes a m : bytes a → bytes m → bytes (zip_with Z.land a m).
Proof.
  intros Ha. revert m. induction Ha as [|x a Hx Ha IH]; intros [|y m] Hm; simpl; try constructor.
  - apply Forall_cons in Hm as [? ?]. by apply land_byte.
  - apply Forall_cons in Hm as [? ?]. by apply IH.
Qed.

Lemma masked_canonical b ones :
  bytes b → length b = 4%nat ∨ length b = 16%nat → 0 ≤ ones ≤ 8 * Z.of_nat (length b) →
  canonical (mkIPNet (zip_with Z.land b (maskBytes (length b) ones)) (maskBytes (length b) ones)) ones.
Proof.
  intros Hb Hl Ho. pose proof (maskBytes_length (length b) ones) as Hml.
  assert (length (zip_with Z.land b (maskBytes (length b) ones)) = length b) as E.
  { rewrite length_zip_with_l; lia. }
  split; simpl; rewrite ?E; try done.
  - apply zip_land_bytes; [done|apply maskBytes_bytes; lia].
  - by apply zip_land_idem.
Qed.

Lemma ip_Mask_same b m : length b = length m → ip_Mask b m = zip_with Z.land b m.
Proof.
  intros E. unfold ip_Mask, IPv4len, IPv6len. destruct (decide (length m = 16%nat)) as [L|L].
  - rewrite (bool_decide_eq_false_2 (length b = 4%nat)), andb_false_r by lia. cbn [andb].
    rewrite (bool_decide_eq_false_2 (length m = 4%nat)) by lia. cbn [andb]. by rewrite bool_decide_eq_true_2.
  - rewrite (bool_decide_eq_false_2 (length m = 16%nat)) by done. cbn [andb].
    rewrite (bool_decide_eq_false_2 (length b = 16%nat)), andb_false_r by lia. cbn [andb].
    by rewrite bool_decide_eq_true_2.
Qed.

Lemma ip_Mask_mapped b m :
  length b = 4%nat → length m = 4%nat → ip_Mask (v4InV6Prefix ++ b) m = zip_with Z.land b m.
Proof.
  intros Hb Hm. destruct b as [|? [|? [|? [|? [|]]]]], m as [|? [|? [|? [|? [|]]]]]; done.
Qed.

Lemma ParseCIDR_canonical s i n :
  ParseCIDR s = Some (i, n) → ∃ ones, canonical n ones.
Proof.
  unfold ParseCIDR. destruct (cutAt _ s) as [addr [mask|]]; [|done].
  destruct (ParseAddr addr) as [a|] eqn:Ea; [|done]. simpl. destruct (negb _); [done|].
  destruct (dtoi mask) as [k|] eqn:Ek; [|done]. simpl. case_bool_decide as Hk; [done|].
  assert (0 ≤ k).
  { unfold dtoi in Ek. case_bool_decide; [done|]. by eapply digits_nonneg. }
  intros [= <- <-]. apply ParseAddr_ok in Ea. exists k.
  destruct a as [b|b z]; simpl in Hk; destruct Ea as [Hb Hl]; cbn [BitLen As16];
    unfold CIDRMask; rewrite (bool_decide_eq_false_2 (k < 0)), (bool_decide_eq_false_2 (_ < k)) by lia;
    cbn [orb andb negb bool_decide].
  - change (negb (bool_decide (32 = 32)) && _) with false. change (Z.to_nat (32 / 8)) with 4%nat.
    cbv iota. rewrite ip_Mask_mapped by (done || apply maskBytes_length).
    rewrite <-Hl. apply masked_canonical; [done|lia|lia].
  - change (negb (bool_decide (128 = 32)) && negb (bool_decide (128 = 128))) with false.
    change (Z.to_nat (128 / 8)) with 16%nat. cbv iota.
    rewrite ip_Mask_same by (rewrite maskBytes_length; done).
    rewrite <-Hl. apply masked_canonical; [done|lia|lia].
Qed.


(** ** Containment *)

Lemma maskBytes_split l1 l2 n :
  8 * Z.of_nat l1 ≤ n → maskBytes (l1 + l2) n = replicate l1 255 ++ maskBytes l2 (n - 8 * Z.of_nat l1).
Proof.
  revert n. induction l1 as [|l1 IH]; intros n Hn; [by rewrite Z.sub_0_r|].
  cbn [Nat.add maskBytes replicate app]. rewrite bool_decide_eq_true_2 by lia.
  rewrite IH by lia. do 3 f_equal. lia.
Qed.

Lemma maskBytes_not_ones l1 l2 n :
  0 ≤ n < 8 * Z.of_nat (S l1) → ∃ x, maskBytes (S l1 + l2) n !! l1 = Some x ∧ x ≠ 255.
Proof.
  revert n. induction l1 as [|l1 IH]; intros n Hn.
  - cbn [Nat.add maskBytes]. rewrite bool_decide_eq_false_2 by lia. exists (maskByte n). split; [done|].
    unfold maskByte. rewrite Z.shiftr_div_pow2 by lia. pose proof (Z.pow_pos_nonneg 2 n).
    pose proof (Z.pow_le_mono_r 2 n 7). assert (1 ≤ 255 / 2 ^ n); [|lia].
    apply Z.div_le_lower_bound; lia.
  - cbn [Nat.add maskBytes]. case_bool_decide.
    + destruct (IH (n - 8)) as (x & Hx & ?); [lia|]. eauto.
    + exists 0. split; [|done]. change (maskBytes (S l1 + l2) 0 !! l1 = Some 0).
      rewrite maskBytes_0. apply lookup_replicate. lia.
Qed.

Lemma shiftOnes_maskByte n : 0 ≤ n < 8 → shiftOnes 8 (maskByte n) = (n, 0).
Proof.
  intros Hn. assert (n = 0 ∨ n = 1 ∨ n = 2 ∨ n = 3 ∨ n = 4 ∨ n = 5 ∨ n = 6 ∨ n = 7) as H by lia.
  by repeat destruct H as [->|H]; subst.
Qed.

Lemma simpleMaskLength_maskBytes l n :
  0 ≤ n ≤ 8 * Z.of_nat l → simpleMaskLength (maskBytes l n) = Some n.
Proof.
  revert n. induction l as [|l IH]; intros n Hn; [simpl; f_equal; lia|].
  cbn [maskBytes]. case_bool_decide.
  - cbn [simpleMaskLength]. rewrite bool_decide_eq_true_2, IH by lia. simpl. f_equal. lia.
  - cbn [simpleMaskLength]. destruct (maskBytes_not_ones 0 l n ltac:(lia)) as (x & Hx & Hne).
    cbn [Nat.add maskBytes] in Hx. rewrite bool_decide_eq_false_2 in Hx by lia. injection Hx as <-.
    rewrite bool_decide_eq_false_2 by done. rewrite shiftOnes_maskByte by lia.
    rewrite maskBytes_0, (bool_decide_eq_true_2 (Forall _ _)) by by apply Forall_replicate.
    done.
Qed.

Lemma To4_4 ip : length ip = 4%nat → To4 ip = Some ip.
Proof. intros H. unfold To4. by rewrite bool_decide_eq_true_2. Qed.

(** The network number and mask net.IPNet works with: the network itself, or
    the IPv4 network it maps. *)
Lemma networkNumberAndMask_ok n ones :
  canonical n ones →
  ∃ nn m ones', networkNumberAndMask n = (nn, m) ∧ canonical (mkIPNet nn m) ones' ∧
    8 * Z.of_nat (length nn) - ones' = 8 * Z.of_nat (length (net_IP n)) - ones.
Proof.
  destruct n as [ip m]. unfold IP, IPMask in *. intros [Hb Hl Ho Hm Hz]. simpl in *.
  unfold networkNumberAndMask. simpl.
  assert (length m = length ip) as Lm by (rewrite Hm; apply maskBytes_length).
  unfold To4, IPv4len, IPv6len. destruct Hl as [Hl|Hl].
  - exists ip, m, ones. rewrite Lm, Hl. simpl. rewrite Hl. simpl. split; [done|].
    by split; [split; simpl; auto|lia].
  - rewrite Hl. simpl. case_bool_decide as Hp; simpl.
    + rewrite Lm, Hl. simpl. rewrite length_drop, Hl. simpl.
      assert (96 ≤ ones) as H96.
      { destruct (decide (96 ≤ ones)) as [|Hlt]; [done|exfalso].
        destruct (maskBytes_not_ones 11 4 ones) as (x & Hx & Hne); [lia|]. apply Hne.
        rewrite Hl in Hm. change (12 + 4)%nat with 16%nat in Hx. rewrite <-Hm in Hx.
        assert (ip !! 11%nat = Some 255) as H11.
        { rewrite <-(take_drop 12 ip), Hp. done. }
        assert (zip_with Z.land ip m !! 11%nat = Some (Z.land 255 x)) as H'.
        { by rewrite lookup_zip_with, H11, Hx. }
        rewrite Hz, H11 in H'. injection H' as H'. rewrite Z.land_comm, land_255 in H'; [done|].
        pose proof (maskBytes_bytes 16 ones ltac:(lia)) as Hmb. rewrite <-Hm in Hmb.
        by eapply Forall_lookup_1. }
      exists (drop 12 ip), (drop 12 m), (ones - 96). split; [done|].
      rewrite length_drop, Hl. split; [|lia].
      assert (drop 12 m = maskBytes 4 (ones - 96)) as Hd.
      { rewrite Hm, Hl. change 16%nat with (12 + 4)%nat. by rewrite maskBytes_split by lia. }
      split; simpl; rewrite ?length_drop, ?Hl; try done.
      * by apply Forall_drop.
      * auto.
      * lia.
      * by rewrite <-zip_with_drop, Hz.
    + exists ip, m, ones. rewrite Lm, Hl. simpl. rewrite ?Hl. simpl. split; [done|].
      split; [split; simpl; auto|lia]; lia.
Qed.

Lemma canonical_aligned n ones :
  canonical n ones → ipval (net_IP n) `mod` 2 ^ (8 * Z.of_nat (length (net_IP n)) - ones) = 0.
Proof.
  intros [Hb Hl Ho Hm Hz]. pose proof (ipval_masked (net_IP n) ones Hb Ho) as H.
  rewrite <-Hm, Hz in H. lia.
Qed.

(** Same prefix, as an interval. *)
Lemma same_prefix v w p : 0 < p → v `mod` p = 0 → (v = w - w `mod` p ↔ v ≤ w < v + p).
Proof.
  intros Hp Hv. pose proof (Z.mod_pos_bound w p Hp). split; [lia|]. intros Hr.
  assert (w `mod` p = w - v); [|lia]. symmetry. apply (Z.mod_unique_pos w p (v / p)); [lia|].
  pose proof (Z.div_mod v p). lia.
Qed.

Lemma canonical_contains n ones ip :
  canonical n ones → bytes ip → length ip = length (net_IP n) →
  zip_with Z.land (net_IP n) (net_Mask n) = zip_with Z.land ip (net_Mask n) ↔
  ipval (net_IP n) ≤ ipval ip <
    ipval (net_IP n) + 2 ^ (8 * Z.of_nat (length (net_IP n)) - ones).
Proof.
  intros Hc Hi Hl. pose proof (canonical_aligned n ones Hc) as Hal.
  destruct Hc as [Hb Hlen Ho Hm Hz]. rewrite Hz, Hm, <-Hl in *.
  rewrite <-same_prefix by (done || apply Z.pow_pos_nonneg; lia).
  rewrite <-ipval_masked by (done || lia). split; [by intros <-|].
  apply ipval_inj; [done| |].
  - apply zip_land_bytes; [done|apply maskBytes_bytes; lia].
  - rewrite length_zip_with_l; [done|]. rewrite maskBytes_length. lia.
Qed.

Lemma net_Contains_ok n ones ip :
  canonical n ones → bytes ip →
  net_Contains n ip = true ↔
  length (default ip (To4 ip)) = length (networkNumberAndMask n).1 ∧
  ipval (networkNumberAndMask n).1 ≤ ipval (default ip (To4 ip)) <
    ipval (networkNumberAndMask n).1 + 2 ^ (8 * Z.of_nat (length (net_IP n)) - ones).
Proof.
  intros Hc Hi. destruct (networkNumberAndMask_ok n ones Hc) as (nn & m & ones' & E & Hc' & Hk).
  unfold net_Contains. rewrite E. simpl. rewrite andb_true_iff, !bool_decide_eq_true, <-Hk.
  assert (bytes (default ip (To4 ip))) as Hb.
  { unfold To4. repeat case_match; simpl; try done. by apply Forall_drop. }
  split; (intros [Hl Hz]; split; [done|]); by apply (canonical_contains _ _ _ Hc' Hb Hl).
Qed.

End NetFacts.
