(* ===== verification/Cidr.v ===== *)
(** * CIDR blocks: pkg/utils/cidr (cidr.go, helper.go)

    The whole package.  A [CIDR] holds the parsed address and the network;
    [ParseCIDR] is its only constructor, so the network pointer is never nil.
    Loops that may not end take fuel and return [None] without it; loops with
    an index that can leave its slice live in [go]. *)

From S2P Require Import Prelude Net.
Import Net.Net.

Module Cidr.

#[local] Open Scope Z_scope.

(** [sort.Slice] promises a sorted permutation when [less] orders the
    elements; it is not stable. *)
Class SliceSort : Type := {
  sort_slice : ∀ {A} (less : A → A → bool), list A → list A;
  sort_slice_perm : ∀ {A} (less : A → A → bool) l, sort_slice less l ≡ₚ l;
  sort_slice_sorted : ∀ {A} (less : A → A → bool) l,
    Transitive (λ x y, less y x = false) → (∀ x y, less x y = true → less y x = false) →
    StronglySorted (λ x y, less y x = false) (sort_slice less l)
}.

(** ** helper.go *)

(** [ip[i]++] from the last byte on, while a byte wraps to zero. *)
Fixpoint incrBytes (rev : list Z) : list Z :=
  match rev with
  | [] => []
  | b :: r => let b' := (b + 1) `mod` 256 in
              if bool_decide (0 < b') then b' :: r else b' :: incrBytes r
  end.

Definition IncrIP (ip : IP) : IP := reverse (incrBytes (reverse ip)).

(** The inner loop of [DecrIP], over the bytes before the last: whether it
    returned. *)
Fixpoint borrowBytes (rev : list Z) : list Z * bool :=
  match rev with
  | [] => ([], false)
  | b :: r => let b' := (b - 1) `mod` 256 in
              if bool_decide (b' < 255) then (b' :: r, true)
              else let '(r', done) := borrowBytes r in (b' :: r', done)
  end.

(** The outer loop runs once per byte unless it is left. *)
Fixpoint decrRounds (rounds : nat) (rev : list Z) : list Z :=
  match rounds with
  | 0%nat => rev
  | S n => match rev with
           | [] => []
           | b :: r => let b' := (b - 1) `mod` 256 in
                       if bool_decide (b' < 255) then b' :: r
                       else let '(r', done) := borrowBytes r in
                            if done : bool then b' :: r' else decrRounds n (b' :: r')
           end
  end.

Definition DecrIP (ip : IP) : IP := reverse (decrRounds (length ip) (reverse ip)).

(** [bytes.Compare] *)
Fixpoint Compare (a b : IP) : Z :=
  match a, b with
  | [], [] => 0
  | [], _ :: _ => -1
  | _ :: _, [] => 1
  | x :: a', y :: b' => if bool_decide (x < y) then -1 else if bool_decide (y < x) then 1 else Compare a' b'
  end.

(** ** cidr.go *)

Record CIDR := mkCIDR { cidr_ip : IP; ipnet : IPNet }.

Definition CompareCIDR (a b : CIDR) : Z :=
  let i1 := (mask_Size (net_Mask (ipnet a))).1 in
  let j1 := (mask_Size (net_Mask (ipnet b))).1 in
  if bool_decide (i1 = j1) then Compare (net_IP (ipnet a)) (net_IP (ipnet b))
  else if bool_decide (j1 < i1) then 1 else -1.

Definition ascLess (a b : CIDR) : bool :=
  let i1 := (mask_Size (net_Mask (ipnet a))).1 in
  let j1 := (mask_Size (net_Mask (ipnet b))).1 in
  if bool_decide (i1 = j1) then bool_decide (Compare (net_IP (ipnet a)) (net_IP (ipnet b)) < 0)
  else bool_decide (i1 < j1).

Definition descLess (a b : CIDR) : bool :=
  let i1 := (mask_Size (net_Mask (ipnet a))).1 in
  let j1 := (mask_Size (net_Mask (ipnet b))).1 in
  if bool_decide (i1 = j1) then bool_decide (0 ≤ Compare (net_IP (ipnet a)) (net_IP (ipnet b)))
  else bool_decide (j1 < i1).

Definition AscSortCIDRs `{SliceSort} (cs : list CIDR) : list CIDR := sort_slice ascLess cs.
Definition DescSortCIDRs `{SliceSort} (cs : list CIDR) : list CIDR := sort_slice descLess cs.

Definition ParseCIDR (s : string) : option CIDR :=
  '(i, n) ← Net.ParseCIDR s; Some (mkCIDR i n).

Definition cidr_String (c : CIDR) : string := net_String (ipnet c).

Definition cidr_Equal (c : CIDR) (ns : string) : bool :=
  match ParseCIDR ns with
  | None => false
  | Some c2 => ip_Equal (net_IP (ipnet c)) (net_IP (ipnet c2))
  end.

Definition MaskSize (c : CIDR) : Z * Z := mask_Size (net_Mask (ipnet c)).
Definition IsIPv4 (c : CIDR) : bool := bool_decide ((MaskSize c).2 `quot` 8 = Z.of_nat IPv4len).
Definition IsIPv6 (c : CIDR) : bool := bool_decide ((MaskSize c).2 `quot` 8 = Z.of_nat IPv6len).
Definition cidr_Contains (c : CIDR) (ip : string) : bool := net_Contains (ipnet c) (ParseIP ip).
Definition Has (c : CIDR) (ip : IP) : bool := net_Contains (ipnet c) ip.
Definition cidr_CIDR (c : CIDR) : string := net_String (ipnet c).
Definition cidr_IP (c : CIDR) : string := ip_String (cidr_ip c).
Definition Network (c : CIDR) : string := ip_String (net_IP (ipnet c)).

(** [hex.DecodeString]: the bytes decoded before an error, if any. *)
Fixpoint hexDecode (s : string) : list Z :=
  match s with
  | String a (String b r) =>
      match hexVal a, hexVal b with
      | Some x, Some y => (x * 16 + y) :: hexDecode r
      | _, _ => []
      end
  | _ => []
  end.

Definition Mask (c : CIDR) : string := ip_String (hexDecode (mask_String (net_Mask (ipnet c)))).

(** One round of the loop of [Broadcast]: indices count from the ends. *)
Definition broadcastStep (ip : IP) (mask : IPMask) (bcst : IP) (i : nat) : go IP :=
  if bool_decide (length bcst ≤ i)%nat then Panic
  else
    let ipIdx := (length bcst - i - 1)%nat in
    x ← index ip ipIdx;
    m ← index mask (length mask - i - 1)%nat;
    Ret (<[ipIdx := Z.lor x (255 - m)]> bcst).

Definition broadcastIP (n : IPNet) : go IP :=
  gofold (broadcastStep (net_IP n) (net_Mask n)) (net_IP n) (seq 0 (length (net_Mask n))).

Definition Broadcast (c : CIDR) : go string := bcst ← broadcastIP (ipnet c); Ret (ip_String bcst).

Definition IPRange (c : CIDR) : go (string * string) := e ← Broadcast c; Ret (Network c, e).

(** A big.Int: no overflow. *)
Definition IPCount (c : CIDR) : Z :=
  let '(ones, bits) := MaskSize c in Z.shiftl 1 (bits - ones).

Section iteration.
Context {St E : Type} (iterator : St → string → St * option E).

(** The loop both iterations share; [None] without fuel. *)
Fixpoint forEach (fuel : nat) (n : IPNet) (next : IP) (st : St) : option (St * option E) :=
  match fuel with
  | 0%nat => None
  | S f =>
      if net_Contains n next then
        match iterator st (ip_String next) with
        | (st', Some e) => Some (st', Some e)
        | (st', None) => forEach f n (IncrIP next) st'
        end
      else Some (st, None)
  end.

Definition ForEachIP (fuel : nat) (c : CIDR) (st : St) : option (St * option E) :=
  forEach fuel (ipnet c) (net_IP (ipnet c)) st.

Definition ForEachIPBeginWith (fuel : nat) (c : CIDR) (beginIP : string) (st : St)
    : option (St * option E) :=
  forEach fuel (ipnet c) (ParseIP beginIP) st.

End iteration.

Definition subnettingMethodSubnetNum : Z := 0.
Definition subnettingMethodHostNum : Z := 1.

Definition isPow2 (num : Z) : bool := negb (bool_decide (num < 1)) && bool_decide (Z.land num (num - 1) = 0).

(** One round of splitting: the next subnet and the address after it.  A text
    that does not parse leaves a nil pointer behind, which [Broadcast]
    dereferences. *)
Definition subnetStep (newOnes : Z) (st : list CIDR * IP) (_ : nat) : go (list CIDR * IP) :=
  let '(cidrs, network) := st in
  cidr ← deref (ParseCIDR (ip_String network +:+ "/" +:+ pretty newOnes));
  b ← Broadcast cidr;
  Ret (cidrs ++ [cidr], IncrIP (ParseIP b)).

(** [overflow] is what converting a float beyond the range of [int] gives,
    which the language leaves open.  The result is an error, or a slice that
    may be nil. *)
Definition SubNetting (overflow : Z) (c : CIDR) (method num : Z) : go (string + slice CIDR) :=
  if negb (isPow2 num) then Ret (inl "num must the power of 2")
  else
    let log := Z.log2 num in
    let '(ones, bits) := MaskSize c in
    let split newOnes num :=
      '(cidrs, _) ← gofold (subnetStep newOnes) ([], net_IP (ipnet c)) (seq 0 (Z.to_nat num));
      Ret (inr (Some cidrs)) in
    if bool_decide (method = subnettingMethodSubnetNum) then
      let newOnes := ones + log in
      if bool_decide (bits < newOnes) then Ret (inr None) else split newOnes num
    else if bool_decide (method = subnettingMethodHostNum) then
      let newOnes := bits - log in
      if bool_decide (newOnes ≤ ones) then Ret (inr None)
      else split newOnes (if bool_decide (newOnes - ones < 63) then 2 ^ (newOnes - ones) else overflow)
    else Ret (inl "unsupported method").

(** First loop of [SuperNetting]: parse, and compare the masks' text. *)
Fixpoint parseSameMask (mask : string) (ns : list string) : string + list CIDR :=
  match ns with
  | [] => inr []
  | n :: rest =>
      match ParseCIDR n with
      | None => inl ("invalid CIDR format:" +:+ n)
      | Some c =>
          if negb (bool_decide (mask = "")) && negb (bool_decide (Mask c = mask))
          then inl "not the same mask"
          else match parseSameMask (Mask c) rest with
               | inl e => inl e
               | inr cs => inr (c :: cs)
               end
      end
  end.

(** Second loop: each network starts where the one before ends. *)
Fixpoint contiguous (network : IP) (cs : list CIDR) : go bool :=
  match cs with
  | [] => Ret true
  | c :: rest =>
      if bool_decide (0 < length network)%nat && negb (ip_Equal network (net_IP (ipnet c)))
      then Ret false
      else b ← Broadcast c; contiguous (IncrIP (ParseIP b)) rest
  end.

Definition SuperNetting `{SliceSort} (ns : list string) : go (string + CIDR) :=
  let num := Z.of_nat (length ns) in
  if negb (isPow2 num) then Ret (inl "ns length must the power of 2")
  else match parseSameMask "" ns with
       | inl e => Ret (inl e)
       | inr cidrs =>
           let sorted := AscSortCIDRs cidrs in
           ok ← contiguous [] sorted;
           if ok : bool then
             c ← index sorted 0;
             let '(ones, bits) := MaskSize c in
             (* the result of masking the address is discarded *)
             Ret (inr (mkCIDR (cidr_ip c)
                         (mkIPNet (net_IP (ipnet c)) (CIDRMask (ones - Z.log2 num) bits))))
           else Ret (inl "not the contiguous segments")
       end.

End Cidr.
