(* ===== verification/CidrFacts.v ===== *)
(** * Properties of CIDR blocks

    Containment is an interval of addresses, the iteration over a block visits
    its addresses in order (and never ends on 0.0.0.0/0), and three behaviours of the package that differ from its documentation. *)

From S2P Require Import Prelude Net NetFacts Cidr.
Import Net.Net NetFacts.NetFacts Cidr.Cidr.

Module CidrFacts.

#[local] Open Scope Z_scope.

(** The address of [len] bytes with a number, modulo the number of addresses. *)
Fixpoint ipOf (len : nat) (v : Z) : IP :=
  match len with
  | 0%nat => []
  | S k => (v / 2 ^ (8 * Z.of_nat k)) `mod` 256 :: ipOf k v
  end.

(** An iteration over a list of addresses, left at the first error. *)
Fixpoint iterate {St E} (iterator : St → string → St * option E) (l : list string) (st : St)
    : St * option E :=
  match l with
  | [] => (st, None)
  | s :: r => match iterator st s with
              | (st', Some e) => (st', Some e)
              | (st', None) => iterate iterator r st'
              end
  end.

(** The outcome of rounds that are not the last: no result without an error. *)
Definition untilError {St E} (r : St * option E) : option (St * option E) :=
  match r with
  | (st, Some e) => Some (st, Some e)
  | (_, None) => None
  end.

(** The first addresses from the network number on. *)
Definition addresses (c : CIDR) (count : Z) : list string :=
  let ip := net_IP (ipnet c) in
  (λ i, ip_String (ipOf (length ip) (ipval ip + i))) <$> seqZ 0 count.

(** The number of the first IPv6 address that stands for an IPv4 address,
    ::ffff:0.0.0.0, and those that do. *)
Definition mappedBase : Z := 65535 * 2 ^ 32.
Definition mapped (v : Z) : Prop := mappedBase ≤ v < mappedBase + 2 ^ 32.

(** How many addresses an iteration sees: the block, or the part of an IPv6
    block before the addresses that stand for IPv4 addresses. *)
Definition visited (c : CIDR) : Z :=
  let base := ipval (net_IP (ipnet c)) in
  if IsIPv6 c && bool_decide (base < mappedBase < base + IPCount c) then mappedBase - base else IPCount c.

(** A sort for the witnesses. *)
Fixpoint insertSorted {A} (less : A → A → bool) (x : A) (l : list A) : list A :=
  match l with
  | [] => [x]
  | y :: r => if less y x then y :: insertSorted less x r else x :: l
  end.
Definition insertionSort {A} (less : A → A → bool) (l : list A) : list A :=
  foldr (insertSorted less) [] l.

(** ** Lemmas *)

Lemma ipOf_length len v : length (ipOf len v) = len.
Proof. induction len; simpl; congruence. Qed.

Lemma ipOf_bytes len v : bytes (ipOf len v).
Proof. induction len; simpl; constructor; [apply Z.mod_pos_bound; lia|done]. Qed.

Lemma ipval_ipOf len v : ipval (ipOf len v) = v `mod` 2 ^ (8 * Z.of_nat len).
Proof.
  induction len as [|k IH]; [simpl; by rewrite Z.mod_1_r|]. cbn [ipOf ipval]. rewrite ipOf_length, IH.
  replace (8 * Z.of_nat (S k)) with (8 * Z.of_nat k + 8) by lia.
  rewrite Z.pow_add_r by lia. change (2 ^ 8) with 256. rewrite Z.rem_mul_r by (try apply Z.pow_nonzero; lia). lia.
Qed.

Lemma ipOf_ipval ip : bytes ip → ipOf (length ip) (ipval ip) = ip.
Proof.
  intros Hb. apply ipval_inj; [apply ipOf_bytes|done|apply ipOf_length|].
  rewrite ipval_ipOf, Z.mod_small; [done|]. by apply ipval_range.
Qed.

Lemma incrBytes_ok r :
  bytes r → bytes (incrBytes r) ∧ length (incrBytes r) = length r ∧
  ipval (reverse (incrBytes r)) = (ipval (reverse r) + 1) `mod` 2 ^ (8 * Z.of_nat (length r)).
Proof.
  induction 1 as [|b r Hb Hr (IHb & IHl & IHv)]; [split; [constructor|done]|]. cbn [incrBytes].
  assert (bytes (reverse r)) as Hr' by by apply Forall_reverse.
  pose proof (ipval_range _ Hr') as Hv. rewrite length_reverse in Hv. unfold is_byte in Hb.
  rewrite pow8_succ. set (M := 2 ^ _) in *.
  assert (∀ x y, ipval (reverse (x :: y)) = ipval (reverse y) * 256 + x) as Es.
  { intros x y. rewrite reverse_cons, ipval_app. simpl. lia. }
  case_bool_decide as Hz.
  - assert (b + 1 < 256) as Hlt.
    { destruct (decide (b = 255)) as [->|]; [done|lia]. }
    rewrite Z.mod_small in * by lia. rewrite !Es. split; [|split; [done|]].
    + constructor; [unfold is_byte; lia|done].
    + rewrite Z.mod_small; lia.
  - assert (b = 255) as ->.
    { destruct (decide (b = 255)) as [|]; [done|]. rewrite Z.mod_small in Hz by lia. lia. }
    change ((255 + 1) `mod` 256) with 0. rewrite !Es, IHv. split; [|split].
    + constructor; done.
    + simpl. by rewrite IHl.
    + replace (ipval (reverse r) * 256 + 255 + 1) with (256 * (ipval (reverse r) + 1)) by lia.
      rewrite Z.mul_mod_distr_l by lia. fold M. lia.
Qed.

Lemma IncrIP_ok ip :
  bytes ip → bytes (IncrIP ip) ∧ length (IncrIP ip) = length ip ∧
  ipval (IncrIP ip) = (ipval ip + 1) `mod` 2 ^ (8 * Z.of_nat (length ip)).
Proof.
  intros Hb. unfold IncrIP. rewrite length_reverse.
  destruct (incrBytes_ok (reverse ip)) as (H1 & H2 & H3); [by apply Forall_reverse|].
  rewrite length_reverse, reverse_involutive in *. split; [by apply Forall_reverse|done].
Qed.

Lemma MaskSize_ok c ones :
  canonical (ipnet c) ones → MaskSize c = (ones, 8 * Z.of_nat (length (net_IP (ipnet c)))).
Proof.
  intros [Hb Hl Ho Hm Hz]. unfold MaskSize, mask_Size.
  rewrite Hm, simpleMaskLength_maskBytes, maskBytes_length by done. f_equal. lia.
Qed.

Lemma IPCount_ok c ones :
  canonical (ipnet c) ones → IPCount c = 2 ^ (8 * Z.of_nat (length (net_IP (ipnet c))) - ones).
Proof.
  intros Hc. unfold IPCount. rewrite (MaskSize_ok c ones Hc).
  destruct Hc. by rewrite Z.shiftl_1_l.
Qed.

Lemma ParseCIDR_ok s c : ParseCIDR s = Some c → ∃ ones, canonical (ipnet c) ones.
Proof.
  unfold ParseCIDR. destruct (Net.ParseCIDR s) as [[i n]|] eqn:E; [|done].
  intros [= <-]. by eapply ParseCIDR_canonical.
Qed.

Lemma IsIPv4_len c ones :
  canonical (ipnet c) ones → IsIPv4 c = true → length (net_IP (ipnet c)) = 4%nat.
Proof.
  intros Hc. unfold IsIPv4. rewrite (MaskSize_ok c ones Hc). simpl.
  destruct (can_len _ _ Hc) as [->| ->]; done.
Qed.

Lemma IncrIP_ipOf len v : IncrIP (ipOf len v) = ipOf len (v + 1).
Proof.
  destruct (IncrIP_ok (ipOf len v) (ipOf_bytes len v)) as (Hb & Hl & Hv). rewrite ipOf_length in *.
  apply ipval_inj; [done|apply ipOf_bytes|by rewrite ipOf_length|].
  rewrite Hv, !ipval_ipOf. by rewrite Zplus_mod_idemp_l.
Qed.

(** The addresses of sixteen bytes that have a form of four. *)
Lemma To4_16 ip :
  bytes ip → length ip = 16%nat →
  match To4 ip with
  | Some ip4 => ip4 = drop 12 ip ∧ length ip4 = 4%nat ∧ mapped (ipval ip) ∧ ipval ip = mappedBase + ipval ip4
  | None => ¬ mapped (ipval ip)
  end.
Proof.
  intros Hb Hl. unfold To4, IPv4len, IPv6len. rewrite Hl. simpl.
  assert (ipval ip = ipval (take 12 ip) * 2 ^ 32 + ipval (drop 12 ip)) as Ev.
  { rewrite <-(take_drop 12 ip) at 1. rewrite ipval_app, length_drop, Hl. done. }
  assert (bytes (take 12 ip)) as Ht by by apply Forall_take.
  assert (bytes (drop 12 ip)) as Hd by by apply Forall_drop.
  pose proof (ipval_range _ Hd) as Hr. rewrite length_drop, Hl in Hr. change (8 * Z.of_nat (16 - 12)) with 32 in Hr.
  case_bool_decide as Hp; unfold mapped, mappedBase.
  - rewrite Hp in Ev. change (ipval v4InV6Prefix) with 65535 in Ev. rewrite length_drop, Hl. split_and!; try done; lia.
  - intros Hm. apply Hp. apply ipval_inj; [done| | |].
    + repeat (constructor; [unfold is_byte; lia|]). constructor.
    + rewrite length_take, Hl. done.
    + change (ipval v4InV6Prefix) with 65535. lia.
Qed.

(** Containment of an address of the network's length: the interval of the
    block, among the addresses that stand for IPv4 addresses or among the
    others. *)
Lemma contains_ok n ones ip :
  canonical n ones → bytes ip → length ip = length (net_IP n) →
  net_Contains n ip = true ↔
  ipval (net_IP n) ≤ ipval ip < ipval (net_IP n) + 2 ^ (8 * Z.of_nat (length ip) - ones) ∧
  (length ip = 16%nat → (mapped (ipval ip) ↔ mapped (ipval (net_IP n)))).
Proof.
  intros Hc Hb Hl. rewrite (net_Contains_ok n ones ip Hc Hb). rewrite Hl.
  assert (length (net_Mask n) = length (net_IP n)) as Hm by (rewrite (can_mask _ _ Hc); apply maskBytes_length).
  unfold networkNumberAndMask, IP, IPMask in *. destruct (can_len _ _ Hc) as [Hn|Hn].
  - rewrite !To4_4, Hm, Hn by congruence. simpl. rewrite Hn. simpl. rewrite Hl, Hn. naive_solver.
  - pose proof (To4_16 (net_IP n) (can_bytes _ _ Hc) Hn) as H1. pose proof (To4_16 ip Hb ltac:(congruence)) as H2.
    destruct (To4 (net_IP n)) as [n4|], (To4 ip) as [i4|]; rewrite ?(bool_decide_eq_true_2 (length (net_IP n) = IPv6len)) by done;
      rewrite Hm, Hn in *; simpl.
    + destruct H1 as (-> & Hn4 & Hm1 & Ev1), H2 as (-> & Hi4 & Hm2 & Ev2). rewrite Hn4, Hi4, Ev1, Ev2 in *. intuition lia.
    + destruct H1 as (-> & Hn4 & Hm1 & Ev1). split; [intros [? _]; lia|intros [_ Hq]; by apply Hq in Hm1].
    + destruct H2 as (-> & Hi4 & Hm2 & Ev2). split; [intros [? _]; lia|intros [_ Hq]; by apply Hq in Hm2].
    + split; [intros [_ ?]; split; [done|intros _; by split]|intros [? _]; split; [lia|done]].
Qed.

(** An aligned block does not straddle a boundary it divides. *)
Lemma aligned_fits k w x : 0 ≤ k ≤ w → x `mod` 2 ^ k = 0 → x < 2 ^ w → x + 2 ^ k ≤ 2 ^ w.
Proof.
  intros Hk Hx Hlt. assert (2 ^ w = 2 ^ (w - k) * 2 ^ k) as Ep by (rewrite <-Z.pow_add_r by lia; f_equal; lia).
  pose proof (Z.pow_pos_nonneg 2 k). apply Z.div_exact in Hx; [|lia]. set (p := 2 ^ k) in *.
  assert (x / p < 2 ^ (w - k)) by (apply Z.div_lt_upper_bound; lia). nia.
Qed.

(** A block among the addresses that stand for IPv4 addresses stays there. *)
Lemma aligned_mapped k x : 0 ≤ k → x `mod` 2 ^ k = 0 → mapped x → x + 2 ^ k ≤ mappedBase + 2 ^ 32.
Proof.
  unfold mapped, mappedBase. intros Hk Hx Hm. destruct (decide (k ≤ 32)) as [Hle|Hgt].
  - pose proof (aligned_fits k 32 (x - 65535 * 2 ^ 32)) as Hf.
    assert ((x - 65535 * 2 ^ 32) `mod` 2 ^ k = 0); [|lia].
    assert (2 ^ 32 = 2 ^ (32 - k) * 2 ^ k) as -> by (rewrite <-Z.pow_add_r by lia; f_equal; lia).
    rewrite Z.mul_assoc, Zminus_mod, Hx, Z.mod_mul by (apply Z.pow_nonzero; lia). done.
  - exfalso. assert (x `mod` 2 ^ 33 = 0) as H33.
    { apply Z.div_exact in Hx; [|apply Z.pow_nonzero; lia]. rewrite Hx.
      assert (2 ^ k = 2 ^ (k - 33) * 2 ^ 33) as -> by (rewrite <-Z.pow_add_r by lia; f_equal; lia).
      rewrite <-Z.mul_assoc, (Z.mul_comm _ (_ / _)), Z.mul_assoc. apply Z.mod_mul. lia. }
    apply Z.div_exact in H33; [|lia]. lia.
Qed.

(** Whether an iteration over a block never leaves it: the whole of the IPv4
    addresses, where the address after the last is the first. *)
Definition endless (c : CIDR) : bool := IsIPv4 c && bool_decide ((MaskSize c).1 = 0).

Section iteration.
Context {St E : Type} (iterator : St → string → St * option E).

Lemma iterate_seqZ (f : Z → string) st k j :
  iterate iterator (f <$> seqZ j (Z.of_nat (S k))) st =
  match iterator st (f j) with
  | (st', Some e) => (st', Some e)
  | (st', None) => iterate iterator (f <$> seqZ (j + 1) (Z.of_nat k)) st'
  end.
Proof. rewrite Nat2Z.inj_succ, seqZ_cons by lia. by rewrite Z.pred_succ. Qed.

(** Rounds inside the block, and then one outside. *)
Lemma forEach_leaves n len base k fuel j st :
  (∀ i, j ≤ i < j + Z.of_nat k → net_Contains n (ipOf len (base + i)) = true) →
  net_Contains n (ipOf len (base + j + Z.of_nat k)) = false → (k < fuel)%nat →
  forEach iterator fuel n (ipOf len (base + j)) st =
  Some (iterate iterator ((λ i, ip_String (ipOf len (base + i))) <$> seqZ j (Z.of_nat k)) st).
Proof.
  revert fuel j st. induction k as [|k IH]; intros [|fuel] j st Hin Hout Hf; try lia; cbn [forEach].
  - rewrite Z.add_0_r in Hout. by rewrite Hout.
  - rewrite Hin by lia. rewrite iterate_seqZ. destruct (iterator st _) as [st' [e|]]; [done|].
    rewrite IncrIP_ipOf, <-Z.add_assoc. apply IH; [|rewrite <-Hout; do 2 f_equal; lia|lia]. intros. apply Hin. lia.
Qed.

(** Only rounds inside the block. *)
Lemma forEach_stays n len base fuel j st :
  (∀ i, j ≤ i < j + Z.of_nat fuel → net_Contains n (ipOf len (base + i)) = true) →
  forEach iterator fuel n (ipOf len (base + j)) st =
  untilError (iterate iterator ((λ i, ip_String (ipOf len (base + i))) <$> seqZ j (Z.of_nat fuel)) st).
Proof.
  revert j st. induction fuel as [|fuel IH]; intros j st Hin; [done|]. cbn [forEach].
  rewrite Hin by lia. rewrite iterate_seqZ. destruct (iterator st _) as [st' [e|]]; [done|].
  rewrite IncrIP_ipOf, <-Z.add_assoc. apply IH. intros. apply Hin. lia.
Qed.

End iteration.

(** The number of an address of a block that an iteration comes to. *)
Lemma contains_at c ones i :
  canonical (ipnet c) ones →
  let base := ipval (net_IP (ipnet c)) in
  let len := length (net_IP (ipnet c)) in
  let v := (base + i) `mod` 2 ^ (8 * Z.of_nat len) in
  net_Contains (ipnet c) (ipOf len (base + i)) = true ↔
  base ≤ v < base + IPCount c ∧ (len = 16%nat → (mapped v ↔ mapped base)).
Proof.
  intros Hc. cbn zeta. rewrite (contains_ok _ ones) by (done || apply ipOf_bytes || apply ipOf_length).
  by rewrite ipval_ipOf, ipOf_length, (IPCount_ok c ones Hc).
Qed.

Lemma IsIPv6_len c ones :
  canonical (ipnet c) ones → IsIPv6 c = bool_decide (length (net_IP (ipnet c)) = 16%nat).
Proof.
  intros Hc. unfold IsIPv6. rewrite (MaskSize_ok c ones Hc). simpl.
  destruct (can_len _ _ Hc) as [->| ->]; done.
Qed.

(** The numbers of a parsed block. *)
Lemma block_numbers c ones :
  canonical (ipnet c) ones →
  let base := ipval (net_IP (ipnet c)) in
  let w := 8 * Z.of_nat (length (net_IP (ipnet c))) in
  0 ≤ base ∧ 0 < IPCount c ∧ base + IPCount c ≤ 2 ^ w ∧
  (mapped base → base + IPCount c ≤ mappedBase + 2 ^ 32) ∧
  (base + IPCount c = 2 ^ w → base = 0 → ones = 0).
Proof.
  intros Hc base w. pose proof (canonical_aligned _ _ Hc) as Hal. pose proof (can_ones _ _ Hc) as Ho.
  pose proof (ipval_range _ (can_bytes _ _ Hc)) as Hr. fold base w in Hal, Ho, Hr. rewrite (IPCount_ok c ones Hc). fold w.
  split_and!; [lia|apply Z.pow_pos_nonneg; lia|by apply aligned_fits; [lia|..|lia]|by apply aligned_mapped; [lia|..]|].
  intros Ep ->. rewrite Z.add_0_l in Ep. apply Z.pow_inj_r in Ep; lia.
Qed.

(** An iteration stays in the block for the addresses it sees. *)
Lemma visited_inside c ones i :
  canonical (ipnet c) ones → 0 ≤ i < visited c →
  net_Contains (ipnet c) (ipOf (length (net_IP (ipnet c))) (ipval (net_IP (ipnet c)) + i)) = true.
Proof.
  intros Hc Hi. apply (contains_at c ones i Hc). unfold visited in Hi. rewrite (IsIPv6_len c ones Hc) in Hi.
  destruct (block_numbers c ones Hc) as (Hb & Hp & Hfit & Hmap & _). cbn zeta in *.
  set (base := ipval _) in *. set (w := 2 ^ _) in *.
  assert (i < IPCount c) by (destruct (bool_decide (length _ = _)); simpl in Hi; [case_bool_decide|]; lia).
  rewrite Z.mod_small by lia. split; [lia|]. intros Hl. rewrite (bool_decide_eq_true_2 (length _ = _)) in Hi by done.
  unfold mapped in *. case_bool_decide; simpl in Hi; lia.
Qed.

Lemma wraps_at_zero base p P :
  0 ≤ base → 0 < p → base + p ≤ P → base ≤ (base + p) `mod` P < base + p → base + p = P ∧ base = 0.
Proof.
  intros Hb Hp Hle Hin. destruct (decide (base + p = P)) as [Ep|]; [|rewrite Z.mod_small in Hin; lia].
  rewrite Ep, Z.mod_same in Hin; lia.
Qed.

(** An iteration that is not endless leaves the block after those. *)
Lemma visited_outside c ones :
  canonical (ipnet c) ones → endless c = false →
  net_Contains (ipnet c) (ipOf (length (net_IP (ipnet c))) (ipval (net_IP (ipnet c)) + visited c)) = false.
Proof.
  intros Hc He. apply not_true_is_false. intros [Hin Hm]%(contains_at c ones _ Hc).
  destruct (block_numbers c ones Hc) as (Hb & Hp & Hfit & Hmap & Hall). cbn zeta in *.
  unfold endless, IsIPv4 in He. rewrite (MaskSize_ok c ones Hc) in He. simpl in He.
  unfold visited in Hin, Hm. rewrite (IsIPv6_len c ones Hc) in Hin, Hm. set (base := ipval _) in *.
  destruct (can_len _ _ Hc) as [Hn|Hn]; rewrite Hn in *.
  - destruct (wraps_at_zero _ _ _ Hb Hp Hfit Hin) as [Ep E0]. rewrite (Hall Ep E0) in He. done.
  - rewrite (bool_decide_eq_true_2 (16%nat = 16%nat)) in Hin, Hm by done. simpl andb in Hin, Hm.
    case_bool_decide as Hlt.
    + replace (base + (mappedBase - base)) with mappedBase in Hm by lia.
      rewrite Z.mod_small in Hm by (unfold mappedBase in *; lia). unfold mapped in Hm. lia.
    + destruct (wraps_at_zero _ _ _ Hb Hp Hfit Hin) as [Ep E0]. apply Hlt. rewrite Ep, E0. done.
Qed.

Lemma visited_nonneg c ones : canonical (ipnet c) ones → 0 ≤ visited c.
Proof.
  intros Hc. destruct (block_numbers c ones Hc) as (_ & Hp & _). cbn zeta in Hp. unfold visited.
  destruct (IsIPv6 c); simpl; [case_bool_decide; lia|lia].
Qed.

(** On the whole of the IPv4 addresses every address is inside. *)
Lemma endless_inside c ones i :
  canonical (ipnet c) ones → endless c = true →
  net_Contains (ipnet c) (ipOf (length (net_IP (ipnet c))) (ipval (net_IP (ipnet c)) + i)) = true.
Proof.
  intros Hc [H4 Ho%bool_decide_eq_true]%andb_true_iff. apply (contains_at c ones i Hc).
  pose proof (IsIPv4_len c ones Hc H4) as Hl. rewrite (MaskSize_ok c ones Hc) in Ho. simpl in Ho. subst ones.
  destruct (block_numbers c 0 Hc) as (Hb & _ & Hfit & _). cbn zeta in Hfit.
  rewrite (IPCount_ok c 0 Hc), Z.sub_0_r, Hl in *. split; [|done].
  pose proof (Z.mod_pos_bound (ipval (net_IP (ipnet c)) + i) (2 ^ (8 * Z.of_nat 4))). lia.
Qed.

Lemma broadcast_prefix ip m k :
  length m = length ip → (k ≤ length ip)%nat →
  gofold (broadcastStep ip m) ip (seq 0 k) =
  Ret (take (length ip - k) ip ++
       drop (length ip - k) (zip_with (λ x m, Z.lor x (255 - m)) ip m)).
Proof.
  intros Hm. induction k as [|k IH]; intros Hk.
  { rewrite Nat.sub_0_r, take_ge, drop_ge by (rewrite ?length_zip_with_l; lia). by rewrite app_nil_r. }
  rewrite seq_S, gofold_app, IH by lia. simpl.
  destruct (lookup_lt_is_Some_2 ip (length ip - S k)%nat) as [x Hx]; [lia|].
  destruct (lookup_lt_is_Some_2 m (length m - S k)%nat) as [y Hy]; [lia|].
  assert (length (take (length ip - k) ip ++
     drop (length ip - k) (zip_with (λ x m, Z.lor x (255 - m)) ip m)) = length ip) as El.
  { rewrite length_app, length_take, length_drop, length_zip_with_l by lia. lia. }
  unfold broadcastStep, IP, IPMask in *. rewrite El, bool_decide_eq_false_2 by lia.
  replace (length ip - k - 1)%nat with (length ip - S k)%nat by lia.
  replace (length m - k - 1)%nat with (length m - S k)%nat by lia.
  unfold index. rewrite Hx, Hy. simpl. f_equal.
  assert (take (length ip - k) ip = take (length ip - S k) ip ++ [x]) as ->.
  { replace (length ip - k)%nat with (S (length ip - S k)) by lia. by apply take_S_r. }
  rewrite <-app_assoc. rewrite insert_app_r_alt by (rewrite length_take; lia).
  rewrite length_take_le, Nat.sub_diag by lia. simpl. f_equal.
  rewrite (drop_S (zip_with _ ip m) (Z.lor x (255 - y)) (length ip - S k)).
  - do 2 f_equal. lia.
  - rewrite lookup_zip_with, Hx. simpl. rewrite Hm in Hy. by rewrite Hy.
Qed.

Lemma broadcastIP_ok n ones :
  canonical n ones →
  ∃ b, broadcastIP n = Ret b ∧ bytes b ∧ length b = length (net_IP n) ∧
       ipval b = ipval (net_IP n) + 2 ^ (8 * Z.of_nat (length (net_IP n)) - ones) - 1.
Proof.
  intros [Hb Hl Ho Hm Hz].
  assert (length (net_Mask n) = length (net_IP n)) as Lm by (rewrite Hm; apply maskBytes_length).
  unfold broadcastIP. rewrite Lm, broadcast_prefix, Nat.sub_diag, take_0, drop_0 by lia. cbn [app].
  eexists. split; [done|]. split; [|split].
  - pose proof (maskBytes_bytes (length (net_IP n)) ones ltac:(lia)) as Hmb. rewrite <-Hm in Hmb.
    revert Hz Hb Hmb. generalize (net_IP n) (net_Mask n). clear. intros ip m Hz Hb. revert m Hz.
    induction Hb as [|x ip Hx Hb IH]; intros [|y m] Hz Hmb; simpl in *; try constructor.
    + apply Forall_cons in Hmb as [Hy _]. by apply lor_byte.
    + apply Forall_cons in Hmb as [_ ?]. injection Hz as _ Hz. by apply IH.
  - rewrite length_zip_with_l; lia.
  - rewrite Hm at 1. rewrite ipval_broadcast; [done..|]. by rewrite <-Hm.
Qed.

(** ** Properties *)

(** C39. A parsed block is an interval of [IPCount] addresses: an address
    (taken in its IPv4 form if it has one) is in it exactly when it has the
    network's family and lies between the network number and the
    [IPCount - 1] addresses that follow; computing the broadcast address
    never indexes out of range and gives the last address of the block. *)
Theorem block_is_interval s c ip :
  ParseCIDR s = Some c → bytes ip →
  let nn := (networkNumberAndMask (ipnet c)).1 in
  let ip' := default ip (To4 ip) in
  (Has c ip = true ↔ length ip' = length nn ∧ ipval nn ≤ ipval ip' < ipval nn + IPCount c) ∧
  ∃ b, broadcastIP (ipnet c) = Ret b ∧ ipval b = ipval (net_IP (ipnet c)) + IPCount c - 1.
Proof.
  intros [ones Hc]%ParseCIDR_ok Hb nn ip'. rewrite (IPCount_ok c ones Hc). split.
  - by apply net_Contains_ok.
  - destruct (broadcastIP_ok _ _ Hc) as (b & ? & _ & _ & ?). eauto.
Qed.

Lemma block_is_interval_witness :
  let c := mkCIDR (ParseIP "10.1.2.3") (mkIPNet [10; 0; 0; 0] [255; 240; 0; 0]) in
  Has c [10; 15; 0; 1] = true ↔
  4%nat = 4%nat ∧ 167772160 ≤ ipval [10; 15; 0; 1] < 167772160 + IPCount c.
Proof.
  refine (proj1 (block_is_interval "10.1.2.3/12" _ [10; 15; 0; 1] _ _)); [vm_compute; reflexivity|].
  unfold bytes, is_byte. rewrite !Forall_cons. repeat (split; [lia|]). constructor.
Defined.

(** C38. Iterating over a parsed block calls the iterator on the addresses of
    the block, in order from the network number, each once, until the iterator
    returns an error or the addresses are exhausted, and needs one round more
    than those: with less fuel it has no result unless the iterator returned
    an error.  Two kinds of block are different.  On 0.0.0.0/0 the iteration
    does not end unless the iterator returns an error, since the address after
    the last one is the first.  On an IPv6 block with addresses below and
    above ::ffff:0.0.0.0 it ends before that address, which net.IPNet takes for
    an IPv4 address and not for one of the block. *)
Theorem for_each_ip_visits_block {St E} (iterator : St → string → St * option E) s c fuel st :
  ParseCIDR s = Some c →
  ForEachIP iterator fuel c st =
  if negb (endless c) && bool_decide (visited c < Z.of_nat fuel)
  then Some (iterate iterator (addresses c (visited c)) st)
  else untilError (iterate iterator (addresses c (Z.of_nat fuel)) st).
Proof.
  intros [ones Hc]%ParseCIDR_ok. unfold ForEachIP, addresses.
  rewrite <-(ipOf_ipval (net_IP (ipnet c))) at 1 by apply (can_bytes _ _ Hc).
  rewrite <-(Z.add_0_r (ipval _)) at 1. destruct (endless c) eqn:He; simpl.
  { apply forEach_stays. intros i Hi. by apply (endless_inside c ones). }
  case_bool_decide as Hf.
  - pose proof (visited_nonneg c ones Hc) as Hv. rewrite <-(Z2Nat.id (visited c)) by done.
    apply forEach_leaves; [|rewrite Z.add_0_r, Z2Nat.id by done; by apply (visited_outside c ones)|lia].
    intros i Hi. apply (visited_inside c ones); [done|lia].
  - apply forEach_stays. intros i Hi. apply (visited_inside c ones); [done|lia].
Qed.

Lemma for_each_ip_visits_block_witness :
  let iterator st a := (st ++ [a], None : option unit) in
  ForEachIP iterator 5 (mkCIDR (ParseIP "10.0.0.5") (mkIPNet [10; 0; 0; 4] [255; 255; 255; 252])) [] =
  Some (["10.0.0.4"; "10.0.0.5"; "10.0.0.6"; "10.0.0.7"], None) ∧
  ForEachIP iterator 9 (mkCIDR (ParseIP "0.0.0.0") (mkIPNet [0; 0; 0; 0] [0; 0; 0; 0])) [] = None.
Proof.
  split.
  - rewrite (for_each_ip_visits_block _ "10.0.0.5/30"); vm_compute; reflexivity.
  - rewrite (for_each_ip_visits_block _ "0.0.0.0/0"); vm_compute; reflexivity.
Defined.

(** ** Deviations from the documentation *)

Lemma insertSorted_perm {A} (less : A → A → bool) x l : insertSorted less x l ≡ₚ x :: l.
Proof.
  induction l as [|y l IH]; simpl; [done|]. destruct (less y x); [|done].
  rewrite IH. apply perm_swap.
Qed.

Lemma insertSorted_sorted {A} (less : A → A → bool) x l :
  Transitive (λ x y, less y x = false) → (∀ x y, less x y = true → less y x = false) →
  StronglySorted (λ x y, less y x = false) l →
  StronglySorted (λ x y, less y x = false) (insertSorted less x l).
Proof.
  intros Ht Ha. induction 1 as [|y l Hs IH Hy]; simpl; [repeat constructor|].
  destruct (less y x) eqn:E; (constructor; [try done; by constructor|]).
  - rewrite insertSorted_perm. constructor; auto.
  - constructor; [done|]. eapply Forall_impl; [exact Hy|]. intros z Hz. by eapply Ht.
Qed.

Definition insertion_SliceSort : SliceSort.
Proof.
  refine {| sort_slice := @insertionSort |}.
  - intros A less l. induction l as [|x l IH]; simpl; [done|]. by rewrite insertSorted_perm, IH.
  - intros A less l Ht Ha. induction l as [|x l IH]; simpl; [constructor|]. by apply insertSorted_sorted.
Defined.

(** Merging contiguous networks can give a block that is not their union:
    [SuperNetting] discards the masked address, so merging 10.0.1.0/24 and
    10.0.2.0/24 gives a block that holds 10.0.0.1, of neither network, and
    does not hold 10.0.2.1, of the second. *)
Theorem supernetting_is_not_the_union :
  ∃ c, @SuperNetting insertion_SliceSort ["10.0.1.0/24"; "10.0.2.0/24"] = Ret (inr c) ∧
    cidr_String c = "10.0.1.0/23" ∧
    cidr_Contains c "10.0.0.1" = true ∧ cidr_Contains c "10.0.2.1" = false.
Proof. eexists. split; [vm_compute; reflexivity|]. vm_compute. auto. Qed.

(** Blocks of different size are [Equal] when they start alike. *)
Example cidr_equal_ignores_mask :
  ∃ c, ParseCIDR "10.0.0.0/8" = Some c ∧ cidr_Equal c "10.0.0.0/16" = true.
Proof. eexists. split; [vm_compute; reflexivity|]. vm_compute. reflexivity. Qed.

(** Decrementing the zero address takes two instead of one. *)
Example decr_zero : DecrIP [0; 0; 0; 0] = [255; 255; 255; 254].
Proof. vm_compute. reflexivity. Qed.

(** Splitting an IPv4-mapped IPv6 block dereferences nil: its network prints
    as an IPv4 address, which cannot carry the longer prefix. *)
Example subnetting_mapped_panics overflow :
  ∃ c, ParseCIDR "::ffff:10.0.0.0/120" = Some c ∧ SubNetting overflow c 0 2 = Panic.
Proof. eexists. split; [vm_compute; reflexivity|]. vm_compute. reflexivity. Qed.

(** The descending comparison puts a block before itself, so it is not an
    order [sort.Slice] accepts. *)
Lemma descLess_irreflexive_fails c : descLess c c = true.
Proof.
  unfold descLess. rewrite bool_decide_eq_true_2 by done.
  assert (∀ a, Compare a a = 0) as ->; [|done].
  intros a. induction a as [|x a IH]; simpl; [done|]. by rewrite !bool_decide_eq_false_2 by lia.
Qed.

End CidrFacts.
