(* ===== verification/TrafficPolicy.v ===== *)
(** * Traffic policies: pkg/trafficpolicy

    The internal representation of mesh, ingress, egress and access-control
    policies, and the operations that build and merge them
    (trafficpolicy.go).  Rules and inbound policies are shared by pointer and
    mutated in place by the merges, so [MergeRules] is given twice: on a store
    of rule objects ([MergeRulesHeap], the code) and on values
    ([MergeRules], what it computes when no two pointers alias), with a
    refinement theorem between them; [MergeInboundPolicies] is given on the
    store. *)

From S2P Require Import Prelude Identity Service Api.
Import Identity.Identity Service.Service Api.Api.

Module TrafficPolicy.

(** Constants of pkg/constants the policies use. *)
Definition RegexMatchAll : string := ".*".
Definition WildcardHTTPMethod : string := "*".
Definition ClusterWeightAcceptAll : Z := 100.
Definition ClusterWeightFailOver : Z := 0.
Definition LocalhostIPAddress : string := "127.0.0.1".
Definition ProtocolHTTP : string := "http".
Definition ProtocolHTTPS : string := "https".
Definition ProtocolTCP : string := "tcp".
Definition ProtocolGRPC : string := "grpc".
Definition ProtocolTCPServerFirst : string := "tcp-server-first".

(** ** Data *)

Inductive PathMatchType := PathMatchRegex | PathMatchExact | PathMatchPrefix.

#[export] Instance PathMatchType_eq_dec : EqDecision PathMatchType.
Proof. solve_decision. Defined.

Record HTTPRouteMatch := mkHTTPRouteMatch {
  Path : string;
  hrm_PathMatchType : PathMatchType;
  Methods : slice string;
  Headers : option (gmap string string)
}.

(** [reflect.DeepEqual] on route matches. *)
#[export] Instance HTTPRouteMatch_eq_dec : EqDecision HTTPRouteMatch.
Proof. unfold slice. solve_decision. Defined.

Definition WildCardRouteMatch : HTTPRouteMatch :=
  mkHTTPRouteMatch RegexMatchAll PathMatchRegex (Some [WildcardHTTPMethod]) None.

Record HTTPRouteMatchWithWeightedClusters := mkRouteMatchWC {
  UpstreamClusters : list WeightedCluster;
  RouteMatches : list HTTPRouteMatch;
  HasSplitMatches : bool
}.

Record TCPRouteMatch := mkTCPRouteMatch { tcp_match_Ports : list Z }.

Record TrafficTargetWithRoutes := mkTTWithRoutes {
  ttw_Name : string; ttw_Destination : ServiceIdentity; ttw_Sources : list ServiceIdentity;
  ttw_TCPRouteMatches : list TCPRouteMatch
}.

Record TrafficMatch := mkTrafficMatch {
  tm_DestinationPort : Z;
  tm_DestinationProtocol : string;
  tm_DestinationIPRanges : list string;
  tm_ServerNames : list string;
  tm_Cluster : string;
  tm_Name : string;
  tm_WeightedClusters : list WeightedCluster;
  tm_RateLimit : option RateLimitSpec;
  tm_EgressGateWay : option string
}.

#[export] Instance TrafficMatch_eq_dec : EqDecision TrafficMatch.
Proof. solve_decision. Defined.

Record MeshClusterConfig := mkMeshClusterConfig {
  mcc_Name : string; mcc_Service : MeshService; mcc_Address : string; mcc_Port : Z;
  mcc_EnableSidecarActiveHealthChecks : bool;
  mcc_UpstreamTrafficSetting : option UpstreamTrafficSetting
}.

Record EgressClusterConfig := mkEgressClusterConfig {
  ecc_Name : string; ecc_Host : string; ecc_Port : Z;
  ecc_UpstreamTrafficSetting : option UpstreamTrafficSetting;
  ecc_SourceMTLS : option EgressSourceMTLSSpec
}.

(** The match of one ingress, access-control or export backend. *)
Record IngressTrafficMatch := mkIngressTM {
  itm_Name : string; itm_Port : Z; itm_Protocol : string; itm_SourceIPRanges : list string;
  itm_TLS : option TLSSpec; itm_ServerNames : list string; itm_SkipClientCertValidation : bool;
  itm_RateLimit : option RateLimitSpec
}.

Record AccessControlTrafficMatch := mkACTM {
  atm_Name : string; atm_Port : Z; atm_Protocol : string; atm_SourceIPRanges : list string;
  atm_TLS : option TLSSpec; atm_RateLimit : option RateLimitSpec
}.

Record ServiceExportTrafficMatch := mkExportTM {
  xtm_Name : string; xtm_Port : Z; xtm_Protocol : string; xtm_SourceIPRanges : list string;
  xtm_TLS : option TLSSpec
}.

(** [GetEgressTrafficMatchName] (egress_types.go). *)
Definition GetEgressTrafficMatchName (port : Z) (protocol : string) : string :=
  "egress-" +:+ ToLower protocol +:+ "." +:+ pretty port.

Section policies.
Context `{MS : MapSet}.

Record RouteWeightedClusters := mkRWC {
  rwc_HTTPRouteMatch : HTTPRouteMatch;
  rwc_WeightedClusters : mset WeightedCluster;
  rwc_RetryPolicy : option RetryPolicySpec;
  rwc_RateLimit : option HTTPPerRouteRateLimitSpec
}.

Record Rule := mkRule {
  Route : RouteWeightedClusters;
  AllowedPrincipals : mset string
}.

(** [Rules] holds rules, or pointers to rules where sharing matters. *)
Record InboundTrafficPolicy (R : Type) := mkInbound {
  itp_Name : string;
  Hostnames : list string;
  Rules : list R;
  itp_RateLimit : option RateLimitSpec
}.
Arguments mkInbound {R} _ _ _ _.
Arguments itp_Name {R} _.
Arguments Hostnames {R} _.
Arguments Rules {R} _.
Arguments itp_RateLimit {R} _.

Record OutboundTrafficPolicy := mkOutbound {
  otp_Name : string;
  otp_Hostnames : list string;
  Routes : list RouteWeightedClusters
}.

Record EgressHTTPRoutingRule := mkEgressRule {
  ehr_Route : RouteWeightedClusters; ehr_AllowedDestinationIPRanges : list string }.

Record EgressHTTPRouteConfig := mkEgressRouteConfig {
  erc_Name : string; erc_Hostnames : list string; erc_RoutingRules : list EgressHTTPRoutingRule }.

Record EgressTrafficPolicy := mkEgressPolicy {
  etp_TrafficMatches : list TrafficMatch;
  etp_HTTPRouteConfigsPerPort : gmap Z (list EgressHTTPRouteConfig);
  etp_ClustersConfigs : list EgressClusterConfig
}.

Record InboundMeshTrafficPolicy := mkInboundMesh {
  imp_TrafficMatches : list TrafficMatch;
  imp_HTTPRouteConfigsPerPort : gmap Z (list (InboundTrafficPolicy Rule));
  imp_ClustersConfigs : list MeshClusterConfig
}.

Record OutboundMeshTrafficPolicy := mkOutboundMesh {
  omp_TrafficMatches : list TrafficMatch;
  omp_HTTPRouteConfigsPerPort : gmap Z (list OutboundTrafficPolicy);
  omp_ClustersConfigs : list MeshClusterConfig;
  omp_ServicesResolvableSet : gmap string (list string)
}.

(** ** Constructors *)

Definition perRouteRateLimit (routes : list HTTPRouteSpec) (path : string)
    : option HTTPPerRouteRateLimitSpec :=
  match list_find (λ r, hrs_Path r = path) routes with
  | Some (_, r) => hrs_RateLimit r
  | None => None
  end.

Definition NewRouteWeightedCluster (route : HTTPRouteMatch) (weightedClusters : list WeightedCluster)
    (upstreamTrafficSetting : option UpstreamTrafficSetting) : RouteWeightedClusters :=
  {| rwc_HTTPRouteMatch := route;
     rwc_WeightedClusters := NewSetFromSlice weightedClusters;
     rwc_RetryPolicy := None;
     rwc_RateLimit :=
       match upstreamTrafficSetting with
       | None => None
       | Some uts => perRouteRateLimit (slice_elems (utss_HTTPRoutes (uts_Spec uts))) (Path route)
       end |}.

Definition NewInboundTrafficPolicy {R} (name : string) (hostnames : list string)
    (upstreamTrafficSetting : option UpstreamTrafficSetting) : InboundTrafficPolicy R :=
  {| itp_Name := name; Hostnames := hostnames; Rules := [];
     itp_RateLimit := upstreamTrafficSetting ≫= λ uts, utss_RateLimit (uts_Spec uts) |}.

Definition NewOutboundTrafficPolicy (name : string) (hostnames : list string) : OutboundTrafficPolicy :=
  {| otp_Name := name; otp_Hostnames := hostnames; Routes := [] |}.

(** [TotalClustersWeight]: an [int] accumulated in the order of [Iter]. *)
Definition TotalClustersWeight (rwc : RouteWeightedClusters) : Z :=
  foldl (λ total wc, int64 (total + wc_Weight wc)) 0%Z (ToSlice (rwc_WeightedClusters rwc)).

(** ** Adding a route to an outbound policy *)

Definition rwc_setRetryPolicy (r : RouteWeightedClusters) (p : option RetryPolicySpec) :=
  {| rwc_HTTPRouteMatch := rwc_HTTPRouteMatch r; rwc_WeightedClusters := rwc_WeightedClusters r;
     rwc_RetryPolicy := p; rwc_RateLimit := rwc_RateLimit r |}.

(** The loop over the existing routes: it stops at the first route with the
    given match, which either takes the retry policy or is a conflict. *)
Inductive scanResult :=
  | scanNone
  | scanUpdated (routes : list RouteWeightedClusters)
  | scanConflict (existing : RouteWeightedClusters).

Fixpoint scanRoutes (m : HTTPRouteMatch) (wc : mset WeightedCluster)
    (retryPolicy : option RetryPolicySpec) (routes : list RouteWeightedClusters) : scanResult :=
  match routes with
  | [] => scanNone
  | r :: rest =>
      if bool_decide (rwc_HTTPRouteMatch r = m) then
        if Equal (rwc_WeightedClusters r) wc
        then scanUpdated (rwc_setRetryPolicy r retryPolicy :: rest)
        else scanConflict r
      else match scanRoutes m wc retryPolicy rest with
           | scanUpdated rest' => scanUpdated (r :: rest')
           | res => res
           end
  end.

(** The error [AddRoute] returns names the existing route. *)
Inductive addRouteError := ErrRouteExists (existing : RouteWeightedClusters).

Definition AddRoute (out : OutboundTrafficPolicy) (httpRouteMatch : HTTPRouteMatch)
    (retryPolicy : option RetryPolicySpec) (weightedClusters : list WeightedCluster)
    : OutboundTrafficPolicy * option addRouteError :=
  let wc := NewSetFromSlice weightedClusters in
  match scanRoutes httpRouteMatch wc retryPolicy (Routes out) with
  | scanUpdated routes =>
      ({| otp_Name := otp_Name out; otp_Hostnames := otp_Hostnames out; Routes := routes |}, None)
  | scanConflict r => (out, Some (ErrRouteExists r))
  | scanNone =>
      ({| otp_Name := otp_Name out; otp_Hostnames := otp_Hostnames out;
          Routes := Routes out ++
            [{| rwc_HTTPRouteMatch := httpRouteMatch; rwc_WeightedClusters := wc;
                rwc_RetryPolicy := retryPolicy; rwc_RateLimit := None |}] |}, None)
  end.

(** ** Merging rules *)

(** [reflect.DeepEqual] on two routes. *)
Definition rwc_deepeq (r1 r2 : RouteWeightedClusters) : bool :=
  bool_decide (rwc_HTTPRouteMatch r1 = rwc_HTTPRouteMatch r2) &&
  ms_deepeq (rwc_WeightedClusters r1) (rwc_WeightedClusters r2) &&
  bool_decide (rwc_RetryPolicy r1 = rwc_RetryPolicy r2) &&
  bool_decide (rwc_RateLimit r1 = rwc_RateLimit r2).

(** [original.AllowedPrincipals = original.AllowedPrincipals.Union(...)] *)
Definition rule_union (original latest : Rule) : Rule :=
  {| Route := Route original;
     AllowedPrincipals := Union (AllowedPrincipals original) (AllowedPrincipals latest) |}.

(** The inner loop on values: the first rule with the route, if any. *)
Fixpoint mergeRule (originalRules : list Rule) (latest : Rule) : option (list Rule) :=
  match originalRules with
  | [] => None
  | o :: rest =>
      if rwc_deepeq (Route latest) (Route o) then Some (rule_union o latest :: rest)
      else (λ rest', o :: rest') <$> mergeRule rest latest
  end.

Definition MergeRules (originalRules latestRules : list Rule) : list Rule :=
  foldl (λ originals latest, default (originals ++ [latest]) (mergeRule originals latest))
        originalRules latestRules.

(** The code proper: slices of pointers into a store of rule objects. *)
Definition loc : Type := nat.

Fixpoint findRule (h : gmap loc Rule) (originalRules : list loc) (latest : Rule) : go (option loc) :=
  match originalRules with
  | [] => Ret None
  | q :: rest =>
      o ← deref (h !! q);
      if rwc_deepeq (Route latest) (Route o) then Ret (Some q) else findRule h rest latest
  end.

Definition mergeRuleHeap (st : gmap loc Rule * list loc) (p : loc) : go (gmap loc Rule * list loc) :=
  let '(h, originals) := st in
  latest ← deref (h !! p);
  found ← findRule h originals latest;
  match found with
  | Some q =>
      o ← deref (h !! q);
      Ret (<[q := rule_union o latest]> h, originals)
  | None => Ret (h, originals ++ [p])
  end.

Definition MergeRulesHeap (h : gmap loc Rule) (originalRules latestRules : list loc)
    : go (gmap loc Rule * list loc) :=
  gofold mergeRuleHeap (h, originalRules) latestRules.

(** ** Merging inbound policies *)

(** [slicesUnionIfSubset]: the sorted union when one slice is a subset of the
    other, nil otherwise. *)
Definition slicesUnionIfSubset (first second : list string) : list string :=
  let firstSet := NewSetFromSlice first in
  let secondSet := NewSetFromSlice second in
  if IsSubset firstSet secondSet || IsSubset secondSet firstSet
  then sort_strings (ToSlice (Union firstSet secondSet))
  else [].

Record policyStore := mkStore {
  st_rules : gmap loc Rule;
  st_policies : gmap loc (InboundTrafficPolicy loc)
}.

(** One original policy against one latest policy. *)
Definition mergeInto (l : loc) (st : policyStore * bool) (q : loc) : go (policyStore * bool) :=
  let '(s, foundHostnames) := st in
  lp ← deref (st_policies s !! l);
  orp ← deref (st_policies s !! q);
  let hostsUnion := slicesUnionIfSubset (Hostnames orp) (Hostnames lp) in
  if bool_decide (0 < length hostsUnion) then
    '(h', rules) ← MergeRulesHeap (st_rules s) (Rules orp) (Rules lp);
    Ret ({| st_rules := h';
            st_policies := <[q := {| itp_Name := itp_Name orp; Hostnames := hostsUnion;
                                     Rules := rules; itp_RateLimit := itp_RateLimit orp |}]>
                             (st_policies s) |}, true)
  else Ret (s, foundHostnames).

Definition mergeInboundPolicy (st : policyStore * list loc) (l : loc) : go (policyStore * list loc) :=
  let '(s, original) := st in
  '(s', foundHostnames) ← gofold (mergeInto l) (s, false) original;
  Ret (s', if foundHostnames : bool then original else original ++ [l]).

Definition MergeInboundPolicies (s : policyStore) (original latest : list loc)
    : go (policyStore * list loc) :=
  gofold mergeInboundPolicy (s, original) latest.

(** [mergeRoutesWeightedClusters] on route objects that are not shared: every
    original with the match takes the union ([continue], not [break]). *)
Definition rwc_unionClusters (o l : RouteWeightedClusters) : RouteWeightedClusters :=
  {| rwc_HTTPRouteMatch := rwc_HTTPRouteMatch o;
     rwc_WeightedClusters :=
       if ms_deepeq (rwc_WeightedClusters o) (rwc_WeightedClusters l)
       then rwc_WeightedClusters o
       else Union (rwc_WeightedClusters o) (rwc_WeightedClusters l);
     rwc_RetryPolicy := rwc_RetryPolicy o; rwc_RateLimit := rwc_RateLimit o |}.

Definition mergeRoutesWeightedClusters (originalRoutes latestRoutes : list RouteWeightedClusters)
    : list RouteWeightedClusters :=
  foldl (λ originals l,
    let foundRoute :=
      existsb (λ o, bool_decide (rwc_HTTPRouteMatch o = rwc_HTTPRouteMatch l)) originals in
    let originals' :=
      map (λ o, if bool_decide (rwc_HTTPRouteMatch o = rwc_HTTPRouteMatch l)
                then rwc_unionClusters o l else o) originals in
    if foundRoute then originals' else originals ++ [l]) originalRoutes latestRoutes.

End policies.

Arguments mkInbound {R} _ _ _ _.
Arguments itp_Name {R} _.
Arguments Hostnames {R} _.
Arguments Rules {R} _.
Arguments itp_RateLimit {R} _.

(** ** Deduplication *)

Section dedup.
Context `{MR : MapRange}.
(** hashstructure.Hash (third party): the hash of a value, or an error. *)
Context {T E : Type} (hash : T → E + Z).

Definition dedupStep (acc : E + gmap Z T) (x : T) : E + gmap Z T :=
  match acc with
  | inl e => inl e
  | inr m => match hash x with
             | inl e => inl e
             | inr h => inr (<[h := x]> m)
             end
  end.

(** The body that [DeduplicateTrafficMatches] and [DeduplicateClusterConfigs]
    share: hash into a map (the last value with a hash stays), then range
    over the map. *)
Definition deduplicate (xs : list T) : E + list T :=
  match foldl dedupStep (inr ∅) xs with
  | inl e => inl e
  | inr m => inr (map_range m).*2
  end.

End dedup.

Definition DeduplicateTrafficMatches `{MR : MapRange} {E} (hash : TrafficMatch → E + Z) := deduplicate hash.
Definition DeduplicateClusterConfigs `{MR : MapRange} {E} (hash : EgressClusterConfig → E + Z) := deduplicate hash.

End TrafficPolicy.
