(* ===== verification/TrafficPolicyFacts.v ===== *)
(** * Correctness of pkg/trafficpolicy

    What the constructors and merges of [TrafficPolicy] compute: access rules
    are merged without gaining or losing a principal, the pointer version
    refines the value version, outbound routes stay unique per match,
    deduplication keeps one value per hash, and merging inbound policies never
    drops one. *)

From S2P Require Import Prelude Identity Service Api TrafficPolicy.
Import Identity.Identity Service.Service Api.Api TrafficPolicy.TrafficPolicy.

Module TrafficPolicyFacts.

Section facts.
Context {MS : MapSet} {MSS : MapSetSpec}.

(** ** Route equality *)

(** What [reflect.DeepEqual] decides on routes: equal matches, clusters with
    the same elements, equal policies. *)
Definition rwc_eqv (r1 r2 : RouteWeightedClusters) : Prop :=
  rwc_HTTPRouteMatch r1 = rwc_HTTPRouteMatch r2 ∧
  elems (rwc_WeightedClusters r1) = elems (rwc_WeightedClusters r2) ∧
  rwc_RetryPolicy r1 = rwc_RetryPolicy r2 ∧
  rwc_RateLimit r1 = rwc_RateLimit r2.

#[export] Instance rwc_eqv_equiv : Equivalence rwc_eqv.
Proof. split; repeat intro; unfold rwc_eqv in *; intuition congruence. Qed.

Lemma rwc_deepeq_spec r1 r2 : rwc_deepeq r1 r2 = true ↔ rwc_eqv r1 r2.
Proof.
  unfold rwc_deepeq, rwc_eqv. rewrite !andb_true_iff, ms_deepeq_spec, !bool_decide_eq_true. tauto.
Qed.

#[export] Instance rwc_deepeq_proper : Proper (rwc_eqv ==> rwc_eqv ==> eq) rwc_deepeq.
Proof.
  intros a a' Ha b b' Hb. apply eq_true_iff_eq. rewrite !rwc_deepeq_spec. by rewrite Ha, Hb.
Qed.

Lemma rwc_deepeq_sym r1 r2 : rwc_deepeq r1 r2 = rwc_deepeq r2 r1.
Proof. apply eq_true_iff_eq. rewrite !rwc_deepeq_spec. split; intros H; by symmetry. Qed.

(** ** The access a list of rules grants *)

(** The principals some rule for route [r] allows. *)
Fixpoint allowed (rules : list Rule) (r : RouteWeightedClusters) : gset string :=
  match rules with
  | [] => ∅
  | x :: rules =>
      (if rwc_deepeq (Route x) r then elems (AllowedPrincipals x) else ∅) ∪ allowed rules r
  end.

Lemma allowed_app l1 l2 r : allowed (l1 ++ l2) r = allowed l1 r ∪ allowed l2 r.
Proof. induction l1 as [|x l1 IH]; simpl; [set_solver|]. rewrite IH. set_solver. Qed.

Lemma mergeRule_allowed os l os' r :
  mergeRule os l = Some os' → allowed os' r = allowed os r ∪ allowed [l] r.
Proof.
  revert os'. induction os as [|o os IH]; intros os'; simpl; [done|].
  destruct (rwc_deepeq (Route l) (Route o)) eqn:E.
  - intros [= <-]. simpl. apply rwc_deepeq_spec in E. rewrite E, elems_Union.
    destruct (rwc_deepeq (Route o) r); set_solver.
  - destruct (mergeRule os l) as [rest|]; intros [= <-]. simpl.
    rewrite (IH rest) by done. simpl. set_solver.
Qed.

Lemma MergeRules_allowed os ls r :
  allowed (MergeRules os ls) r = allowed os r ∪ allowed ls r.
Proof.
  unfold MergeRules. revert os. induction ls as [|l ls IH]; intros os; simpl; [set_solver|].
  rewrite IH. destruct (mergeRule os l) as [os'|] eqn:E; simpl.
  - rewrite (mergeRule_allowed _ _ _ r E). simpl. set_solver.
  - rewrite allowed_app. simpl. set_solver.
Qed.

(** Rules with pairwise different routes. *)
Definition distinctRoutes (rules : list Rule) : Prop :=
  ForallOrdPairs (λ x y, rwc_deepeq (Route x) (Route y) = false) rules.

Lemma ForallOrdPairs_snoc {A} (R : A → A → Prop) l x :
  ForallOrdPairs R (l ++ [x]) ↔ ForallOrdPairs R l ∧ Forall (λ y, R y x) l.
Proof.
  induction l as [|y l IH]; simpl.
  - split; [intros; split; constructor|]. intros _. repeat constructor.
  - split.
    + inversion 1 as [|? ? Hy Hl]; subst. apply Forall_app in Hy as [Hy Hx].
      apply IH in Hl as [? ?]. split; constructor; try done. by inversion Hx.
    + intros [Hl Hx]. inversion Hl; inversion Hx; subst. constructor; [|by apply IH].
      apply Forall_app; auto.
Qed.

Lemma ForallOrdPairs_fmap {A B} (R : B → B → Prop) (f : A → B) l :
  ForallOrdPairs R (f <$> l) ↔ ForallOrdPairs (λ x y, R (f x) (f y)) l.
Proof.
  induction l as [|x l IH]; simpl; [split; constructor|].
  split; inversion 1; subst; constructor; try (by apply IH); by apply Forall_fmap.
Qed.

Lemma mergeRule_routes os l os' : mergeRule os l = Some os' → Route <$> os' = Route <$> os.
Proof.
  revert os'. induction os as [|o os IH]; intros os'; simpl; [done|].
  destruct (rwc_deepeq (Route l) (Route o)); [by intros [= <-]|].
  destruct (mergeRule os l); intros [= <-]. simpl. f_equal. by apply IH.
Qed.

Lemma mergeRule_None os l :
  mergeRule os l = None ↔ Forall (λ o, rwc_deepeq (Route o) (Route l) = false) os.
Proof.
  induction os as [|o os IH]; simpl; [done|].
  rewrite Forall_cons, <-IH, (rwc_deepeq_sym (Route o)).
  destruct (rwc_deepeq (Route l) (Route o)); [naive_solver|].
  rewrite fmap_None. naive_solver.
Qed.

Lemma MergeRules_distinct os ls : distinctRoutes os → distinctRoutes (MergeRules os ls).
Proof.
  intros Hos. unfold MergeRules. apply (foldl_inv (λ _ os, distinctRoutes os)); [done|].
  intros _ l _ c _ Hc. destruct (mergeRule c l) as [c'|] eqn:E; simpl.
  - apply mergeRule_routes in E. unfold distinctRoutes in *.
    rewrite <-(ForallOrdPairs_fmap (λ x y, rwc_deepeq x y = false) Route) in Hc |- *. by rewrite E.
  - apply mergeRule_None in E. by apply ForallOrdPairs_snoc.
Qed.

(** ** Pointers and values *)

(** [rs] are the rules the pointers [ps] lead to. *)
Definition pointsTo (h : gmap loc Rule) (ps : list loc) (rs : list Rule) : Prop :=
  Forall2 (λ p r, h !! p = Some r) ps rs.

Lemma pointsTo_insert_ne h ps rs q r :
  q ∉ ps → pointsTo h ps rs → pointsTo (<[q := r]> h) ps rs.
Proof.
  intros Hq H. induction H as [|p r' ps rs Hp _ IH]; [constructor|].
  apply not_elem_of_cons in Hq as [??].
  constructor; [by rewrite lookup_insert_ne|]. by apply IH.
Qed.

Lemma findRule_spec h ps os l :
  NoDup ps → pointsTo h ps os →
  match mergeRule os l with
  | None => findRule h ps l = Ret None
  | Some os' => ∃ q o, findRule h ps l = Ret (Some q) ∧ q ∈ ps ∧ h !! q = Some o ∧
                  pointsTo (<[q := rule_union o l]> h) ps os'
  end.
Proof.
  intros Hnd H. induction H as [|p o ps os Hp Hps IH]; simpl; [done|].
  apply NoDup_cons in Hnd as [Hnotin Hnd]. rewrite Hp. simpl.
  destruct (rwc_deepeq (Route l) (Route o)).
  - exists p, o. repeat split; [left|done|].
    constructor; [by rewrite lookup_insert_eq|]. by apply pointsTo_insert_ne.
  - specialize (IH Hnd). destruct (mergeRule os l) as [os'|]; simpl; [|done].
    destruct IH as (q & o' & -> & Hq & Ho' & Hpts). exists q, o'.
    repeat split; [by right|done|]. constructor; [|done].
    by rewrite lookup_insert_ne by set_solver.
Qed.

Lemma MergeRulesHeap_refines h orig latest os ls :
  NoDup (orig ++ latest) → pointsTo h orig os → pointsTo h latest ls →
  ∃ h' res, MergeRulesHeap h orig latest = Ret (h', res) ∧
    pointsTo h' res (MergeRules os ls) ∧ (∀ p, p ∉ orig ++ latest → h' !! p = h !! p).
Proof.
  unfold MergeRulesHeap, MergeRules. revert h orig os ls.
  induction latest as [|p latest IH]; intros h orig os ls Hnd Ho Hl.
  { inversion Hl; subst. exists h, orig. done. }
  inversion Hl as [|? l ? ls' Hp Hls]; subst. simpl. rewrite Hp. simpl.
  pose proof Hnd as Hnd'. apply NoDup_app in Hnd' as (Hndo & Hdisj & Hndl).
  pose proof (findRule_spec h orig os l Hndo Ho) as Hf.
  apply NoDup_cons in Hndl as [Hpl Hndl].
  destruct (mergeRule os l) as [os'|]; simpl.
  - destruct Hf as (q & o & -> & Hq & Hqo & Hpts). simpl. rewrite Hqo. simpl.
    destruct (IH (<[q := rule_union o l]> h) orig os' ls') as (h' & res & E & Hres & Hfr).
    + apply NoDup_app. set_solver.
    + done.
    + apply pointsTo_insert_ne; [set_solver|done].
    + exists h', res. split; [done|]. split; [done|]. intros x Hx.
      rewrite Hfr by set_solver. rewrite lookup_insert_ne by set_solver. done.
  - rewrite Hf. simpl.
    destruct (IH h (orig ++ [p]) (os ++ [l]) ls') as (h' & res & E & Hres & Hfr).
    + by rewrite <-app_assoc.
    + apply Forall2_app; [done|]. by repeat constructor.
    + done.
    + exists h', res. split; [done|]. split; [done|]. intros x Hx. apply Hfr.
      by rewrite <-app_assoc.
Qed.

(** ** Adding routes *)

(** Routes with pairwise different matches: what [AddRoute] maintains. *)
Definition uniqueMatches (out : OutboundTrafficPolicy) : Prop :=
  NoDup (rwc_HTTPRouteMatch <$> Routes out).

Lemma scanRoutes_spec m wc rp routes :
  match scanRoutes m wc rp routes with
  | scanNone => m ∉ rwc_HTTPRouteMatch <$> routes
  | scanConflict r => r ∈ routes ∧ rwc_HTTPRouteMatch r = m ∧
      elems (rwc_WeightedClusters r) ≠ elems wc
  | scanUpdated routes' => ∃ l1 r l2, routes = l1 ++ r :: l2 ∧
      routes' = l1 ++ rwc_setRetryPolicy r rp :: l2 ∧ rwc_HTTPRouteMatch r = m ∧
      elems (rwc_WeightedClusters r) = elems wc
  end.
Proof.
  induction routes as [|r routes IH]; simpl; [apply not_elem_of_nil|].
  case_bool_decide as Hm.
  - rewrite Equal_spec. case_bool_decide as Hw.
    + exists [], r, routes. done.
    + split; [left|done].
  - destruct (scanRoutes m wc rp routes) as [|routes'|r']; simpl.
    + set_solver.
    + destruct IH as (l1 & r0 & l2 & -> & -> & ? & ?). by exists (r :: l1), r0, l2.
    + destruct IH as (? & ? & ?). split; [by right|done].
Qed.

Lemma AddRoute_ok out m rp wcs out' :
  AddRoute out m rp wcs = (out', None) →
  (∃ r, r ∈ Routes out' ∧ rwc_HTTPRouteMatch r = m ∧ rwc_RetryPolicy r = rp ∧
     elems (rwc_WeightedClusters r) = list_to_set wcs) ∧
  (∀ r, rwc_HTTPRouteMatch r ≠ m → r ∈ Routes out' ↔ r ∈ Routes out) ∧
  (uniqueMatches out → uniqueMatches out').
Proof.
  unfold AddRoute. pose proof (scanRoutes_spec m (NewSetFromSlice wcs) rp (Routes out)) as H.
  destruct (scanRoutes _ _ _ _) as [|routes'|r']; intros [= <-].
  - unfold uniqueMatches. simpl. split; [|split].
    + eexists. rewrite elem_of_app, list_elem_of_singleton. split; [by right|]. simpl.
      by rewrite elems_FromSlice.
    + intros r Hr. rewrite elem_of_app, list_elem_of_singleton. split; [|tauto].
      intros [?| ->]; done.
    + intros Hnd. rewrite fmap_app. apply NoDup_app. split; [done|]. split; [set_solver|].
      apply NoDup_singleton.
  - destruct H as (l1 & r & l2 & Hr & -> & Hm & Hw). unfold uniqueMatches. simpl. rewrite Hr.
    rewrite elems_FromSlice in Hw. split; [|split].
    + exists (rwc_setRetryPolicy r rp). rewrite elem_of_app, elem_of_cons. simpl. auto.
    + intros x Hx. rewrite !elem_of_app, !elem_of_cons. split; intros [?|[->|?]]; auto; done.
    + by rewrite !fmap_app, !fmap_cons.
Qed.

Lemma AddRoute_err out m rp wcs out' e :
  AddRoute out m rp wcs = (out', Some e) →
  out' = out ∧ ∃ r, e = ErrRouteExists r ∧ r ∈ Routes out ∧ rwc_HTTPRouteMatch r = m ∧
    elems (rwc_WeightedClusters r) ≠ list_to_set wcs.
Proof.
  unfold AddRoute. pose proof (scanRoutes_spec m (NewSetFromSlice wcs) rp (Routes out)) as H.
  destruct (scanRoutes _ _ _ _) as [| |r']; intros [= <- <-].
  rewrite elems_FromSlice in H. split; [done|]. exists r'. tauto.
Qed.

(** ** Total weight *)

Lemma int64_add_l a b : int64 (int64 a + b) = int64 (a + b).
Proof.
  unfold int64. f_equal.
  replace ((a + 2 ^ 63) `mod` 2 ^ 64 - 2 ^ 63 + b + 2 ^ 63)%Z
    with ((a + 2 ^ 63) `mod` 2 ^ 64 + b)%Z by lia.
  rewrite Zplus_mod_idemp_l. f_equal. lia.
Qed.

Lemma foldl_int64_sum (l : list WeightedCluster) a :
  foldl (λ total wc, int64 (total + wc_Weight wc)) (int64 a) l =
  int64 (a + foldr (λ wc s, wc_Weight wc + s)%Z 0%Z l).
Proof.
  revert a. induction l as [|x l IH]; intros a; simpl; [by rewrite Z.add_0_r|].
  rewrite int64_add_l, IH. f_equal. lia.
Qed.

(** The weights of a set of clusters, summed without overflow. *)
Definition weightSum (s : gset WeightedCluster) : Z :=
  foldr (λ wc acc, wc_Weight wc + acc)%Z 0%Z (elements s).

Lemma weight_foldr_perm (l1 l2 : list WeightedCluster) :
  l1 ≡ₚ l2 →
  foldr (λ wc acc, wc_Weight wc + acc)%Z 0%Z l1 = foldr (λ wc acc, wc_Weight wc + acc)%Z 0%Z l2.
Proof. induction 1; simpl; lia. Qed.

Lemma TotalClustersWeight_sum rwc :
  TotalClustersWeight rwc = int64 (weightSum (elems (rwc_WeightedClusters rwc))).
Proof.
  unfold TotalClustersWeight, weightSum. change 0%Z with (int64 0) at 1.
  rewrite foldl_int64_sum. f_equal. rewrite Z.add_0_l. apply weight_foldr_perm.
  apply NoDup_Permutation; [apply ToSlice_NoDup|apply NoDup_elements|].
  intros x. by rewrite elem_of_ToSlice, elem_of_elements.
Qed.

(** ** Hostname unions *)

Lemma elem_of_sort_strings l x : x ∈ sort_strings l ↔ x ∈ l.
Proof. unfold sort_strings. by rewrite merge_sort_Permutation. Qed.

Lemma slicesUnionIfSubset_elem l1 l2 x :
  0 < length (slicesUnionIfSubset l1 l2) →
  x ∈ slicesUnionIfSubset l1 l2 ↔ x ∈ l1 ∨ x ∈ l2.
Proof.
  unfold slicesUnionIfSubset. destruct (_ || _); simpl; [|lia]. intros _.
  rewrite elem_of_sort_strings, elem_of_ToSlice, elems_Union, !elems_FromSlice. set_solver.
Qed.

(** ** Merging inbound policies *)

(** The store only grows under a merge: routes stay, principals are added. *)
Definition rulesGrow (h h' : gmap loc Rule) : Prop :=
  ∀ p r, h !! p = Some r → ∃ r', h' !! p = Some r' ∧ Route r' = Route r ∧
    elems (AllowedPrincipals r) ⊆ elems (AllowedPrincipals r').

#[export] Instance rulesGrow_preorder : PreOrder rulesGrow.
Proof.
  split.
  - intros h p r Hr. exists r. done.
  - intros h1 h2 h3 H12 H23 p r Hr. destruct (H12 p r Hr) as (r2 & H2 & E2 & S2).
    destruct (H23 p r2 H2) as (r3 & ? & ? & ?). exists r3. split; [done|]. split; [congruence|set_solver].
Qed.

(** Rule [r] is granted by one of the rules [ps] point to. *)
Definition grantedBy (h : gmap loc Rule) (ps : list loc) (r : Rule) : Prop :=
  ∃ q r', q ∈ ps ∧ h !! q = Some r' ∧ rwc_eqv (Route r) (Route r') ∧
    elems (AllowedPrincipals r) ⊆ elems (AllowedPrincipals r').

Lemma grantedBy_mono h h' ps ps' r :
  rulesGrow h h' → ps ⊆ ps' → grantedBy h ps r → grantedBy h' ps' r.
Proof.
  intros Hg Hps (q & r' & Hq & Hr' & Heq & Hs). destruct (Hg q r' Hr') as (r2 & ? & E & ?).
  exists q, r2. rewrite E. set_solver.
Qed.

Definition allocated (h : gmap loc Rule) (ps : list loc) : Prop := ∀ p, p ∈ ps → is_Some (h !! p).

Lemma allocated_grow h h' ps : rulesGrow h h' → allocated h ps → allocated h' ps.
Proof. intros Hg Ha p [r Hr]%Ha. destruct (Hg p r Hr) as (? & ? & _). eauto. Qed.

Lemma findRule_total h ps l :
  allocated h ps →
  (findRule h ps l = Ret None) ∨
  (∃ q o, findRule h ps l = Ret (Some q) ∧ q ∈ ps ∧ h !! q = Some o ∧ rwc_eqv (Route l) (Route o)).
Proof.
  induction ps as [|p ps IH]; intros Ha; simpl; [by left|].
  destruct (Ha p) as [o Ho]; [left|]. rewrite Ho. simpl.
  destruct (rwc_deepeq (Route l) (Route o)) eqn:E.
  - right. exists p, o. split; [done|]. split; [left|]. by apply rwc_deepeq_spec in E.
  - destruct IH as [?|(q & o' & ? & ? & ?)]; [intros x Hx; apply Ha; by right|by left|].
    right. exists q, o'. split; [done|]. split; [by right|done].
Qed.

Lemma mergeRuleHeap_spec h ps p :
  allocated h (p :: ps) →
  ∃ h' ps', mergeRuleHeap (h, ps) p = Ret (h', ps') ∧ rulesGrow h h' ∧ ps ⊆ ps' ∧
    ps' ⊆ p :: ps ∧ (∀ r, h !! p = Some r → grantedBy h' ps' r).
Proof.
  intros Ha. destruct (Ha p) as [l Hl]; [left|]. simpl. rewrite Hl. simpl.
  destruct (findRule_total h ps l) as [->|(q & o & -> & Hq & Ho & Heq)]; simpl.
  { intros x Hx. apply Ha. by right. }
  - exists h, (ps ++ [p]). split; [done|]. split; [done|]. split; [set_solver|].
    split; [set_solver|]. intros r [= <-]. exists p, l. set_solver.
  - rewrite Ho. simpl. eexists _, ps. split; [done|]. split; [|split; [done|split; [set_solver|]]].
    + intros x r Hx. destruct (decide (q = x)) as [->|Hne].
      * rewrite Ho in Hx. injection Hx as <-. exists (rule_union o l). rewrite lookup_insert_eq. simpl.
        rewrite elems_Union. set_solver.
      * exists r. by rewrite lookup_insert_ne.
    + intros r [= <-]. exists q, (rule_union o l). rewrite lookup_insert_eq. simpl.
      rewrite elems_Union. set_solver.
Qed.

(** What a loop over [p :: ls] yields, when each round adds at most its element. *)
Lemma subseteq_round {A} (ps ps1 ps2 ls : list A) p :
  ps1 ⊆ p :: ps → ps2 ⊆ ps1 ++ ls → ps2 ⊆ ps ++ p :: ls.
Proof.
  intros H1 H2 x [?%H1|?]%H2%elem_of_app; rewrite elem_of_app, elem_of_cons; [|tauto].
  rewrite elem_of_cons in *. tauto.
Qed.

Lemma MergeRulesHeap_grows h ps ls :
  allocated h (ps ++ ls) →
  ∃ h' ps', MergeRulesHeap h ps ls = Ret (h', ps') ∧ rulesGrow h h' ∧ ps ⊆ ps' ∧
    ps' ⊆ ps ++ ls ∧ (∀ p r, p ∈ ls → h !! p = Some r → grantedBy h' ps' r).
Proof.
  unfold MergeRulesHeap. revert h ps. induction ls as [|p ls IH]; intros h ps Ha; simpl.
  { exists h, ps. split; [done|]. split; [done|]. set_solver. }
  destruct (mergeRuleHeap_spec h ps p) as (h1 & ps1 & E1 & G1 & S1 & S1' & C1).
  { intros x Hx. apply Ha. set_solver. }
  simpl in E1. rewrite E1. simpl.
  destruct (IH h1 ps1) as (h2 & ps2 & E2 & G2 & S2 & S2' & C2).
  { eapply allocated_grow; [done|]. intros x Hx. apply Ha. set_solver. }
  exists h2, ps2. split; [done|]. split; [by etrans|]. split; [by etrans|].
  split; [by eapply subseteq_round|].
  intros x r [->|Hx]%elem_of_cons Hr.
  - eapply grantedBy_mono; [done..|]. by apply C1.
  - destruct (G1 x r Hr) as (r1 & Hr1 & Er & Sr).
    destruct (C2 x r1 Hx Hr1) as (q & r' & ? & ? & Heq & ?).
    exists q, r'. rewrite <-Er. set_solver.
Qed.

(** A store in which every policy and every rule pointer leads somewhere. *)
Definition wfStore (s : policyStore) (ps : list loc) : Prop :=
  (∀ p, p ∈ ps → is_Some (st_policies s !! p)) ∧
  (∀ p pol, st_policies s !! p = Some pol → allocated (st_rules s) (Rules pol)).

(** Policy [lp], as it was in store [s], is served by one of the policies of
    [res] in store [s']: for all its hostnames, with all its rules. *)
Definition served (h : gmap loc Rule) (lp : InboundTrafficPolicy loc)
    (s' : policyStore) (res : list loc) : Prop :=
  ∃ q pol, q ∈ res ∧ st_policies s' !! q = Some pol ∧ Hostnames lp ⊆ Hostnames pol ∧
    ∀ p r, p ∈ Rules lp → h !! p = Some r → grantedBy (st_rules s') (Rules pol) r.

Definition storeGrow (s s' : policyStore) : Prop :=
  rulesGrow (st_rules s) (st_rules s') ∧
  ∀ q pol, st_policies s !! q = Some pol → ∃ pol', st_policies s' !! q = Some pol' ∧
    Hostnames pol ⊆ Hostnames pol' ∧ Rules pol ⊆ Rules pol'.

#[export] Instance storeGrow_preorder : PreOrder storeGrow.
Proof.
  split.
  - intros s. split; [done|]. intros q pol Hq. exists pol. done.
  - intros s1 s2 s3 [R12 P12] [R23 P23]. split; [by etrans|]. intros q pol Hq.
    destruct (P12 q pol Hq) as (p2 & H2 & ? & ?). destruct (P23 q p2 H2) as (p3 & ? & ? & ?).
    exists p3. set_solver.
Qed.

Lemma served_mono h lp s s' res res' :
  storeGrow s s' → res ⊆ res' → served h lp s res → served h lp s' res'.
Proof.
  intros [Hr Hp] Hres (q & pol & Hq & Hpol & Hh & Hg).
  destruct (Hp q pol Hpol) as (pol' & ? & ? & ?). exists q, pol'.
  split; [set_solver|]. split; [done|]. split; [set_solver|].
  intros p r Hp1 Hr1. eapply grantedBy_mono; [done..|]. by eapply Hg.
Qed.

Lemma served_grow h s0 lp lp' s' res :
  rulesGrow h (st_rules s0) → Hostnames lp ⊆ Hostnames lp' → Rules lp ⊆ Rules lp' →
  allocated h (Rules lp) →
  served (st_rules s0) lp' s' res → served h lp s' res.
Proof.
  intros Hg Hh Hr Ha (q & pol & ? & ? & ? & Hs). exists q, pol.
  split; [done|]. split; [done|]. split; [set_solver|]. intros p r Hp Hpr.
  destruct (Hg p r Hpr) as (r1 & Hr1 & E & S1).
  destruct (Hs p r1) as (q' & r' & ? & ? & Heq & ?); [set_solver|done|].
  exists q', r'. rewrite <-E. set_solver.
Qed.

Lemma served_self s s' l lp res :
  storeGrow s s' → st_policies s !! l = Some lp → l ∈ res → served (st_rules s) lp s' res.
Proof.
  intros [Hr Hp] Hl Hin. destruct (Hp l lp Hl) as (pol & Hpol & Hh & Hrs).
  exists l, pol. split; [done|]. split; [done|]. split; [done|]. intros p r Hin' Hpr.
  destruct (Hr p r Hpr) as (r' & ? & E & ?). exists p, r'. rewrite E. set_solver.
Qed.

Lemma wfStore_grow s s' ps :
  storeGrow s s' → (∀ p pol, st_policies s' !! p = Some pol → allocated (st_rules s') (Rules pol)) →
  wfStore s ps → wfStore s' ps.
Proof.
  intros [_ Hp] Hr [Ha _]. split; [|done]. intros p [pol Hpol]%Ha.
  destruct (Hp p pol Hpol) as (? & ? & _). eauto.
Qed.

Lemma mergeInto_spec s fh l q :
  wfStore s [l; q] →
  ∃ s' fh', mergeInto l (s, fh) q = Ret (s', fh') ∧ storeGrow s s' ∧ wfStore s' [l; q] ∧
    (fh' = true → fh = true ∨ ∀ lp, st_policies s !! l = Some lp → served (st_rules s) lp s' [q]) ∧
    (fh = true → fh' = true).
Proof.
  intros [Hal Hru]. destruct (Hal l) as [lp Hl], (Hal q) as [orp Hq]; [set_solver..|].
  simpl. rewrite Hl, Hq. simpl. case_bool_decide as Hlen.
  2:{ exists s, fh. split; [done|]. split; [done|]. split; [done|]. auto. }
  destruct (MergeRulesHeap_grows (st_rules s) (Rules orp) (Rules lp))
    as (h' & rules & -> & Hg & Hsub & Hsub' & Hc).
  { intros p [Hp|Hp]%elem_of_app; [by apply (Hru q orp)|by apply (Hru l lp)]. }
  simpl. eexists _, true. split; [done|].
  assert (storeGrow s (mkStore h' (<[q := mkInbound (itp_Name orp)
    (slicesUnionIfSubset (Hostnames orp) (Hostnames lp)) rules (itp_RateLimit orp)]>
    (st_policies s)))) as Hgrow.
  { split; [done|]. intros x pol Hx. simpl. destruct (decide (q = x)) as [->|Hne].
    - rewrite Hq in Hx. injection Hx as <-. eexists. rewrite lookup_insert_eq. split; [done|].
      simpl. split; [|done]. intros y Hy. apply slicesUnionIfSubset_elem; auto.
    - exists pol. by rewrite lookup_insert_ne. }
  split; [done|]. split; [|split; [|done]].
  - eapply wfStore_grow; [done| |by split]. intros p pol. simpl.
    destruct (decide (q = p)) as [->|Hne].
    + rewrite lookup_insert_eq. intros [= <-]. simpl. eapply allocated_grow; [done|].
      intros x Hx. apply Hsub' in Hx. apply elem_of_app in Hx as [Hx|Hx];
        [by apply (Hru p orp)|by apply (Hru l lp)].
    + rewrite lookup_insert_ne by done. intros Hp. eapply allocated_grow; [done|]. by eapply Hru.
  - intros _. right. intros lp' [= <-]. eexists q, _. split; [left|]. simpl.
    rewrite lookup_insert_eq. split; [done|]. simpl. split; [|done].
    intros y Hy. apply slicesUnionIfSubset_elem; auto.
Qed.

Lemma mergeIntoAll_spec l qs s fh :
  wfStore s (l :: qs) →
  ∃ s' fh', gofold (mergeInto l) (s, fh) qs = Ret (s', fh') ∧ storeGrow s s' ∧ wfStore s' (l :: qs) ∧
    (fh' = true → fh = true ∨ ∀ lp, st_policies s !! l = Some lp → served (st_rules s) lp s' qs).
Proof.
  revert s fh. induction qs as [|q qs IH]; intros s fh Hwf; simpl.
  { exists s, fh. split; [done|]. split; [done|]. split; [done|]. by left. }
  destruct (mergeInto_spec s fh l q) as (s1 & fh1 & E1 & G1 & W1 & F1 & _).
  { destruct Hwf as [Ha Hr]. split; [|done]. intros p Hp. apply Ha. set_solver. }
  simpl in E1. rewrite E1. simpl.
  assert (wfStore s1 (l :: q :: qs)) as Hwf1.
  { eapply wfStore_grow; [done| |done]. apply W1. }
  destruct (IH s1 fh1) as (s2 & fh2 & E2 & G2 & W2 & F2).
  { destruct Hwf1 as [Ha Hr]. split; [|done]. intros p Hp. apply Ha. set_solver. }
  exists s2, fh2. split; [done|]. split; [by etrans|].
  split. { eapply wfStore_grow; [exact G2| |done]. apply W2. }
  intros H2. destruct (F2 H2) as [H1|H1].
  - destruct (F1 H1) as [|H0]; [by left|]. right. intros lp Hlp.
    eapply served_mono; [exact G2| |by apply H0]. set_solver.
  - right. intros lp Hlp. destruct G1 as [Hr Hp]. destruct (Hp l lp Hlp) as (lp1 & Hlp1 & ? & ?).
    eapply served_grow; [done..| |].
    { destruct Hwf as [_ Hru]. by eapply Hru. }
    eapply served_mono; [reflexivity| |by apply H1]. set_solver.
Qed.

Lemma mergeInboundPolicy_spec s original l :
  wfStore s (l :: original) →
  ∃ s' res, mergeInboundPolicy (s, original) l = Ret (s', res) ∧ storeGrow s s' ∧
    wfStore s' (l :: original) ∧ original ⊆ res ∧ res ⊆ l :: original ∧
    (∀ lp, st_policies s !! l = Some lp → served (st_rules s) lp s' res).
Proof.
  intros Hwf. simpl.
  destruct (mergeIntoAll_spec l original s false Hwf) as (s' & fh & -> & G & W & F). simpl.
  exists s'. eexists. split; [done|]. split; [done|]. split; [done|]. destruct fh.
  - split; [done|]. split; [set_solver|]. by destruct F.
  - split; [set_solver|]. split; [set_solver|]. intros lp Hlp. eapply served_self; [done..|set_solver].
Qed.

Lemma MergeInboundPolicies_spec s original latest :
  wfStore s (original ++ latest) →
  ∃ s' res, MergeInboundPolicies s original latest = Ret (s', res) ∧ storeGrow s s' ∧
    original ⊆ res ∧ res ⊆ original ++ latest ∧
    (∀ l lp, l ∈ original ++ latest → st_policies s !! l = Some lp → served (st_rules s) lp s' res).
Proof.
  unfold MergeInboundPolicies. revert s original.
  induction latest as [|l latest IH]; intros s original Hwf.
  { exists s, original. split; [done|]. split; [done|]. split; [done|]. split; [set_solver|].
    intros l lp Hl Hlp. rewrite app_nil_r in Hl. by eapply served_self. }
  destruct (mergeInboundPolicy_spec s original l) as (s1 & res1 & E1 & G1 & W1 & S1 & S1' & C1).
  { destruct Hwf as [Ha Hr]. split; [|done]. intros p Hp. apply Ha. set_solver. }
  simpl in E1 |- *. rewrite E1. simpl.
  destruct (IH s1 res1) as (s2 & res2 & E2 & G2 & S2 & S2' & C2).
  { assert (wfStore s1 (original ++ l :: latest)) as [Ha Hr].
    { eapply wfStore_grow; [done| |done]. apply W1. }
    split; [|done]. intros p Hp. apply Ha. set_solver. }
  exists s2, res2. split; [done|]. split; [by etrans|]. split; [by etrans|].
  split; [by eapply subseteq_round|].
  intros x lp Hx Hlp. destruct (decide (x = l)) as [->|Hne].
  - eapply served_mono; [done..|]. by apply C1.
  - destruct G1 as [Hr Hp]. destruct (Hp x lp Hlp) as (lp1 & Hlp1 & ? & ?).
    eapply served_grow; [done..| |]; [|eapply C2; [|done]; set_solver].
    destruct Hwf as [_ Hru]. by eapply Hru.
Qed.

End facts.

(** ** Deduplication *)

Section dedup.
Context `{MR : MapRange} {T E : Type} (hash : T → E + Z).

Lemma dedup_foldl_error e xs : foldl (dedupStep hash) (inl e) xs = inl e.
Proof. by induction xs. Qed.

Lemma dedup_foldl_spec xs m :
  foldl (dedupStep hash) (inr ∅) xs = inr m →
  (∀ h x, m !! h = Some x → x ∈ xs ∧ hash x = inr h) ∧
  (∀ x, x ∈ xs → ∃ h, hash x = inr h ∧ is_Some (m !! h)).
Proof.
  revert m. induction xs as [|x xs IH] using rev_ind; simpl; intros m.
  { intros [= <-]. split; [|set_solver]. intros h x. by rewrite lookup_empty. }
  rewrite foldl_app. simpl. destruct (foldl _ _ xs) as [e|m0]; simpl; [done|].
  destruct (hash x) as [e|h] eqn:Hx; [done|]. intros [= <-].
  destruct (IH m0 eq_refl) as [H1 H2]. split.
  - intros h' y. rewrite lookup_insert. case_decide; [intros [= <-]; subst; set_solver|].
    intros [? ?]%H1. set_solver.
  - intros y [Hy| ->%list_elem_of_singleton]%elem_of_app.
    + destruct (H2 y Hy) as (h' & ? & ?). exists h'. split; [done|].
      rewrite lookup_insert. case_decide; eauto.
    + exists h. split; [done|]. rewrite lookup_insert_eq. eauto.
Qed.

Lemma deduplicate_ok xs ys :
  deduplicate hash xs = inr ys →
  (∀ y, y ∈ ys → y ∈ xs) ∧ (∀ x, x ∈ xs → ∃ y, y ∈ ys ∧ hash y = hash x) ∧ NoDup (hash <$> ys).
Proof.
  unfold deduplicate. destruct (foldl _ _ xs) as [e|m] eqn:Em; [done|]. intros [= <-].
  apply dedup_foldl_spec in Em as [H1 H2]. split; [|split].
  - intros y ([h y'] & -> & Hy)%list_elem_of_fmap. apply elem_of_map_range in Hy. by destruct (H1 _ _ Hy).
  - intros x (h & Hh & [y Hy])%H2. exists y. apply elem_of_map_range in Hy as Hy'.
    split; [by apply (list_elem_of_fmap_2 snd) in Hy'|]. apply H1 in Hy as [_ ->]. done.
  - assert (hash <$> (map_range m).*2 = inr <$> (map_range m).*1) as ->.
    { rewrite <-!list_fmap_compose. apply list_fmap_ext. intros i [h y] Hi. simpl.
      apply list_elem_of_lookup_2, elem_of_map_range in Hi. by apply H1 in Hi as [_ ->]. }
    apply NoDup_fmap_2; [apply _|]. apply NoDup_map_range.
Qed.

Lemma deduplicate_total xs :
  (∀ x, x ∈ xs → ∃ h, hash x = inr h) → ∃ ys, deduplicate hash xs = inr ys.
Proof.
  intros Hh. unfold deduplicate.
  assert (∃ m, foldl (dedupStep hash) (inr ∅) xs = inr m) as [m ->]; [|eauto].
  apply (foldl_inv (λ _ acc, ∃ m, acc = inr m)); [eauto|].
  intros l1 x l2 c -> [m ->]. destruct (Hh x) as [h Hx]; [set_solver|]. simpl. rewrite Hx. eauto.
Qed.

End dedup.

(** ** Properties *)

Section properties.
Context {MS : MapSet} {MSS : MapSetSpec}.

(** C3. Merging access rules neither grants nor revokes anything: for every
    route the merged list allows exactly the principals one of the two lists
    allowed, and if the original list had one rule per route, so has the
    result. *)
Theorem merge_rules_exact_access os ls :
  (∀ r, allowed (MergeRules os ls) r = allowed os r ∪ allowed ls r) ∧
  (distinctRoutes os → distinctRoutes (MergeRules os ls)).
Proof. split; [intros; apply MergeRules_allowed|apply MergeRules_distinct]. Qed.

(** C11. The merge on pointers, which mutates rule objects in place, computes
    the merge on values when the pointers of the two slices are distinct: it
    does not panic, the returned pointers lead to [MergeRules] of the values,
    and no object outside the two slices is touched. *)
Theorem merge_rules_refinement h orig latest os ls :
  NoDup (orig ++ latest) → pointsTo h orig os → pointsTo h latest ls →
  ∃ h' res, MergeRulesHeap h orig latest = Ret (h', res) ∧
    pointsTo h' res (MergeRules os ls) ∧ (∀ p, p ∉ orig ++ latest → h' !! p = h !! p).
Proof. apply MergeRulesHeap_refines. Qed.

(** C4. [MergeInboundPolicies] never drops a policy: on a store without
    dangling pointers it returns, it keeps all the original policies, and
    every original and every latest policy is served by a policy of the
    result that has all its hostnames and, for each of its rules, a rule on
    the same route with at least its principals. *)
Theorem merge_inbound_policies_complete s original latest :
  wfStore s (original ++ latest) →
  ∃ s' res, MergeInboundPolicies s original latest = Ret (s', res) ∧
    original ⊆ res ∧ res ⊆ original ++ latest ∧
    (∀ l lp, l ∈ original ++ latest → st_policies s !! l = Some lp → served (st_rules s) lp s' res).
Proof.
  intros (s' & res & ? & _ & ? & ? & ?)%MergeInboundPolicies_spec. by exists s', res.
Qed.

(** [AddRoute] keeps one route per HTTP match.  Without an error the policy
    has a route for the match with the given clusters and retry policy and
    the routes of other matches are as before; with an error the policy is
    unchanged and already routes the match to other clusters. *)
Theorem add_route_correct out m rp wcs :
  let '(out', err) := AddRoute out m rp wcs in
  (uniqueMatches out → uniqueMatches out') ∧
  match err with
  | None =>
      (∃ r, r ∈ Routes out' ∧ rwc_HTTPRouteMatch r = m ∧ rwc_RetryPolicy r = rp ∧
         elems (rwc_WeightedClusters r) = list_to_set wcs) ∧
      (∀ r, rwc_HTTPRouteMatch r ≠ m → r ∈ Routes out' ↔ r ∈ Routes out)
  | Some e =>
      out' = out ∧ ∃ r, e = ErrRouteExists r ∧ r ∈ Routes out ∧ rwc_HTTPRouteMatch r = m ∧
        elems (rwc_WeightedClusters r) ≠ list_to_set wcs
  end.
Proof.
  destruct (AddRoute out m rp wcs) as [out' [e|]] eqn:E.
  - apply AddRoute_err in E as [-> ?]. auto.
  - apply AddRoute_ok in E as (? & ? & ?). auto.
Qed.

(** The total weight does not depend on the order in which the set is
    iterated: it is the sum of the weights of the clusters, wrapped to 64
    bits, and the plain sum when that fits. *)
Theorem total_weight_order_independent rwc :
  TotalClustersWeight rwc = int64 (weightSum (elems (rwc_WeightedClusters rwc))) ∧
  (is_int64 (weightSum (elems (rwc_WeightedClusters rwc))) →
   TotalClustersWeight rwc = weightSum (elems (rwc_WeightedClusters rwc))).
Proof. rewrite TotalClustersWeight_sum. auto with goint. Qed.

(** [slicesUnionIfSubset] returns the sorted, duplicate-free union of two
    hostname slices when one contains the other, and nothing otherwise. *)
Theorem slices_union_if_subset_correct l1 l2 :
  let res := slicesUnionIfSubset l1 l2 in
  (l1 ⊆ l2 ∨ l2 ⊆ l1 → (∀ x, x ∈ res ↔ x ∈ l1 ∨ x ∈ l2) ∧ NoDup res ∧ Sorted String.le res) ∧
  (¬ (l1 ⊆ l2 ∨ l2 ⊆ l1) → res = []).
Proof.
  unfold slicesUnionIfSubset. rewrite !IsSubset_spec, !elems_FromSlice.
  assert (∀ a b : list string, list_to_set a ⊆@{gset string} list_to_set b ↔ a ⊆ b) as Hs.
  { intros a b. set_solver. }
  destruct (_ || _) eqn:E.
  - split; [|intros H; destruct H; apply orb_true_iff in E; rewrite !bool_decide_eq_true, !Hs in E; done].
    intros _. split; [|split].
    + intros x. rewrite elem_of_sort_strings, elem_of_ToSlice, elems_Union, !elems_FromSlice. set_solver.
    + unfold sort_strings. rewrite merge_sort_Permutation. apply ToSlice_NoDup.
    + apply Sorted_merge_sort, _.
  - apply orb_false_iff in E. rewrite !bool_decide_eq_false, !Hs in E. tauto.
Qed.

(** Deduplication by hash: it fails only if hashing fails; otherwise the
    result holds inputs only, has one value per hash, and every input's hash
    is represented, in whatever order the map is ranged over. *)
Theorem deduplicate_correct `{MR : MapRange} {E} (hash : TrafficMatch → E + Z) xs :
  ((∀ x, x ∈ xs → ∃ h, hash x = inr h) → ∃ ys, DeduplicateTrafficMatches hash xs = inr ys) ∧
  (∀ ys, DeduplicateTrafficMatches hash xs = inr ys →
    (∀ y, y ∈ ys → y ∈ xs) ∧ (∀ x, x ∈ xs → ∃ y, y ∈ ys ∧ hash y = hash x) ∧ NoDup (hash <$> ys)).
Proof. split; [apply deduplicate_total|apply deduplicate_ok]. Qed.

End properties.

(** ** Witnesses, on finite sets *)

Section witnesses.
#[local] Existing Instance gset_MapSet.
#[local] Existing Instance gset_MapSetSpec.
#[local] Existing Instance trie_range.

Definition demoMatch (path : string) : HTTPRouteMatch :=
  mkHTTPRouteMatch path PathMatchRegex (Some ["GET"]) None.
Definition demoRule (path principal : string) : Rule :=
  mkRule (NewRouteWeightedCluster (demoMatch path) [mkWC "ns/svc|80|local" 100] None) {[principal]}.

Lemma merge_rules_exact_access_witness :
  allowed (MergeRules [demoRule "/a" "p1"] [demoRule "/a" "p2"; demoRule "/b" "p3"])
    (Route (demoRule "/a" "p1")) =
  allowed [demoRule "/a" "p1"] (Route (demoRule "/a" "p1")) ∪
  allowed [demoRule "/a" "p2"; demoRule "/b" "p3"] (Route (demoRule "/a" "p1")).
Proof. apply (merge_rules_exact_access [demoRule "/a" "p1"] [demoRule "/a" "p2"; demoRule "/b" "p3"]). Defined.

Definition demoHeap : gmap loc Rule :=
  <[0 := demoRule "/a" "p1"]> (<[1 := demoRule "/a" "p2"]> (<[2 := demoRule "/b" "p3"]> ∅)).

Lemma merge_rules_refinement_witness :
  ∃ h' res, MergeRulesHeap demoHeap [0] [1; 2] = Ret (h', res) ∧
    pointsTo h' res (MergeRules [demoRule "/a" "p1"] [demoRule "/a" "p2"; demoRule "/b" "p3"]) ∧
    (∀ p, p ∉ [0] ++ [1; 2] → h' !! p = demoHeap !! p).
Proof.
  apply merge_rules_refinement.
  - apply (bool_decide_unpack _). vm_compute. exact I.
  - repeat constructor.
  - repeat constructor.
Defined.

(** Two original policies that share hostname "a", a latest policy for "a"
    and one for the hostnames of the first original. *)
Definition demoStore : policyStore := {|
  st_rules := <[0 := demoRule "/a" "p1"]> (<[1 := demoRule "/a" "p2"]> ∅);
  st_policies :=
    <[0 := mkInbound "first" ["a"; "x"] [] None]>
    (<[1 := mkInbound "second" ["a"; "y"] [] None]>
    (<[2 := mkInbound "latest1" ["a"] [0] None]>
    (<[3 := mkInbound "latest2" ["a"; "x"] [1] None]> ∅))) |}.

Lemma demoStore_wf : wfStore demoStore ([0; 1] ++ [2; 3]).
Proof.
  split.
  - intros p Hp. repeat (apply elem_of_cons in Hp as [->|Hp]; [by eexists|]). by apply not_elem_of_nil in Hp.
  - intros p pol Hp. unfold demoStore in Hp; simpl in Hp.
    repeat (rewrite lookup_insert in Hp; case_decide; [injection Hp as <-; intros q Hq; simpl in Hq;
      repeat (apply elem_of_cons in Hq as [->|Hq]; [by eexists|]); by apply not_elem_of_nil in Hq|]).
    by rewrite lookup_empty in Hp.
Defined.

Lemma merge_inbound_policies_complete_witness :
  ∃ s' res, MergeInboundPolicies demoStore [0; 1] [2; 3] = Ret (s', res) ∧
    [0; 1] ⊆ res ∧ res ⊆ [0; 1] ++ [2; 3] ∧
    (∀ l lp, l ∈ [0; 1] ++ [2; 3] → st_policies demoStore !! l = Some lp →
      served (st_rules demoStore) lp s' res).
Proof. apply merge_inbound_policies_complete, demoStore_wf. Defined.

(** Sharing leaks access: a latest policy that matches two originals puts
    the same rule object in both, so a later merge into one of them also
    widens the other.  Here principal "p2" comes with a policy for the
    hostnames "a" and "x" only, and ends up allowed on the policy of "a" and
    "y", where the value-level merge would allow "p1" alone. *)
Example shared_rule_leaks_access :
  ∃ s' res pol q rule,
    MergeInboundPolicies demoStore [0; 1] [2; 3] = Ret (s', res) ∧
    st_policies s' !! 1 = Some pol ∧ Hostnames pol = ["a"; "y"] ∧
    Rules pol = [q] ∧ st_rules s' !! q = Some rule ∧
    elems (AllowedPrincipals rule) = {["p1"; "p2"]}.
Proof. eexists _, _, _, _, _. repeat split; vm_compute; reflexivity. Qed.

Lemma add_route_correct_witness :
  let out := NewOutboundTrafficPolicy "svc.ns" ["svc"] in
  let wcs := [mkWC "ns/v1|80" 90; mkWC "ns/v2|80" 10] in
  let '(out', err) := AddRoute out (demoMatch "/a") None wcs in
  (uniqueMatches out → uniqueMatches out') ∧
  match err with
  | None =>
      (∃ r, r ∈ Routes out' ∧ rwc_HTTPRouteMatch r = demoMatch "/a" ∧ rwc_RetryPolicy r = None ∧
         elems (rwc_WeightedClusters r) = list_to_set wcs) ∧
      (∀ r, rwc_HTTPRouteMatch r ≠ demoMatch "/a" → r ∈ Routes out' ↔ r ∈ Routes out)
  | Some e =>
      out' = out ∧ ∃ r, e = ErrRouteExists r ∧ r ∈ Routes out ∧ rwc_HTTPRouteMatch r = demoMatch "/a" ∧
        elems (rwc_WeightedClusters r) ≠ list_to_set wcs
  end.
Proof. intros out wcs. exact (add_route_correct out (demoMatch "/a") None wcs). Defined.

Lemma total_weight_order_independent_witness :
  let rwc := NewRouteWeightedCluster (demoMatch "/a") [mkWC "v1" 90; mkWC "v2" 10] None in
  TotalClustersWeight rwc = weightSum (elems (rwc_WeightedClusters rwc)).
Proof.
  intros rwc. apply (total_weight_order_independent rwc). vm_compute. split; congruence.
Defined.

Lemma slices_union_if_subset_correct_witness :
  slicesUnionIfSubset ["b"; "a"] ["c"; "b"] = [].
Proof.
  apply (slices_union_if_subset_correct ["b"; "a"] ["c"; "b"]).
  intros H. apply (bool_decide_pack _) in H. by vm_compute in H.
Defined.

Definition demoTM (port : Z) : TrafficMatch := mkTrafficMatch port "tcp" [] [] "" "" [] None None.

Lemma deduplicate_correct_witness :
  ∃ ys, DeduplicateTrafficMatches (E:=unit) (λ t, inr (tm_DestinationPort t))
          [demoTM 80; demoTM 81; demoTM 80] = inr ys.
Proof.
  apply (deduplicate_correct (E:=unit) (λ t, inr (tm_DestinationPort t)) [demoTM 80; demoTM 81; demoTM 80]).
  eauto.
Defined.

End witnesses.
End TrafficPolicyFacts.
