(* ===== verification/K8s.v ===== *)
(** * Kubernetes helpers: pkg/k8s/util.go, pkg/k8s/types.go (interface),
      pkg/k8s/informers (lookups)

    The names under which a service is reachable and how a hostname is read
    back, the interface of the Kubernetes controller that the other
    components use, and lookups in informer stores. *)

From S2P Require Import Prelude Identity Service Api.
Import Identity.Identity Service.Service Api.Api.

Module K8s.

(** ** Informers *)

(** client-go's cache.Store: the objects, and the object with a key together
    with whether the lookup failed. *)
Record Store (A : Type) := mkStore {
  store_List : list A;
  store_GetByKey : string → option A * bool
}.
Arguments mkStore {A} _ _.
Arguments store_List {A} _.
Arguments store_GetByKey {A} _ _.

(** What client-go documents of a store with the namespaced-name key
    function: lookups do not fail and find the listed objects by key. *)
Record StoreLaws {A} (key : A → string) (s : Store A) : Prop := {
  store_no_error : ∀ k, (store_GetByKey s k).2 = false;
  store_lookup : ∀ k a, (store_GetByKey s k).1 = Some a ↔ a ∈ store_List s ∧ key a = k
}.

(** The store of a list of objects with distinct keys. *)
Definition listStore {A} (key : A → string) (l : list A) : Store A :=
  mkStore l (λ k, (snd <$> list_find (λ a, key a = k) l, false)).

(** [InformerCollection.List] and [GetByKey] for one key of the collection:
    an informer that was not set up lists nothing and finds nothing. *)
Definition informers_List {A} (informer : option (Store A)) : list A :=
  match informer with Some s => store_List s | None => [] end.

Definition informers_GetByKey {A} (informer : option (Store A)) (key : string) : option A * bool :=
  match informer with Some s => store_GetByKey s key | None => (None, false) end.

(** The pattern [if exists && err == nil]. *)
Definition getIfExists {A} (informer : option (Store A)) (key : string) : option A :=
  match informers_GetByKey informer key with
  | (Some a, false) => Some a
  | _ => None
  end.

(** ** The controller interface, as far as it is used *)

Record Controller := mkController {
  IsMonitoredNamespace : string → bool;
  GetNamespace : string → option K8sNamespace;
  GetService : MeshService → option K8sService;
  kc_ListServices : bool → bool → list K8sService;
  kc_ListPods : list Pod;
  kc_ListVms : list VirtualMachine;
  kc_GetEndpoints : MeshService → string + option Endpoints;
  kc_ListServiceIdentitiesForService : MeshService → string + list K8sServiceAccount;
  GetTargetPortForServicePort : NamespacedName → Z → string + Z
}.

(** ** Hostnames *)

(** A hostname, unless the port is mandatory, and the hostname with port. *)
Definition withPort (mustWithPort : bool) (host : string) (port : Z) : list string :=
  (if mustWithPort then [] else [host]) ++ [host +:+ ":" +:+ pretty port].

(** The loop over the trust domain's segments: the hostname grows by each
    non-empty one. *)
Definition trustDomainNames (mustWithPort : bool) (port : Z) (hostname : string) (segs : list string)
    : string * list string :=
  foldl (λ '(hostname, names) seg,
    if bool_decide (seg = "") then (hostname, names)
    else let hostname' := hostname +:+ "." +:+ seg in
         (hostname', names ++ withPort mustWithPort hostname' port))
    (hostname, []) segs.

Definition GetHostnamesForService (trustDomain : string) (svc : MeshService)
    (san : option ServiceAccessNames) (localNamespace : bool) : go (list string) :=
  san ← deref san;
  let must := san_MustWithServicePort san in
  let hostnames :=
    if localNamespace || negb (san_MustWithNamespace san)
    then withPort must (Name svc) (Port svc) else [] in
  cloudNoNamespace ←
    (if bool_decide (CloudInheritedFrom svc = "") then Ret false
     else cloud ← deref (san_Cloud san); Ret (negb (csan_WithNamespace cloud)));
  if cloudNoNamespace : bool then Ret (hostnames ++ withPort must (Name svc) (Port svc))
  else
    let nsName := Name svc +:+ "." +:+ Namespace svc in
    let hostnames := hostnames ++ withPort must nsName (Port svc) in
    if san_WithTrustDomain san then
      let svcName := nsName +:+ ".svc" in
      Ret (hostnames ++ withPort must svcName (Port svc) ++
           (trustDomainNames must (Port svc) svcName (Split trustDomain "."%char)).2)
    else Ret hostnames.

(** [splitHostName]: service and subdomain; [c] is nil for [None]. *)
Definition splitHostName (c : option Controller) (host : string) : string * string :=
  let host := default "" (head (Split host ":"%char)) in
  match Split host "."%char with
  | [s] => (s, "")
  | [p1; p2] =>
      match c with
      | None => (p1, "")
      | Some c => match GetNamespace c p2 with
                  | None => (p2, p1)
                  | Some _ => (p1, "")
                  end
      end
  | [p1; p2; tld] =>
      match c with
      | None => if bool_decide (tld = "svc") then (p1, "") else (p2, p1)
      | Some c => match GetNamespace c tld with
                  | None => (p1, "")
                  | Some _ => (p2, p1)
                  end
      end
  | [p1; p2; _; _] => (p2, p1)
  | [p1; _; _; _; _] => (p1, "")
  | [p1; p2; _; _; _; _] => (p2, p1)
  | p1 :: _ => (p1, "")
  | [] => ("", "")
  end.

Definition GetServiceFromHostname (c : option Controller) (host : string) : string :=
  (splitHostName c host).1.
Definition GetSubdomainFromHostname (c : option Controller) (host : string) : string :=
  (splitHostName c host).2.

(** [NamespacedNameFrom]; [None] is its error. *)
Definition NamespacedNameFrom (name : string) : option NamespacedName :=
  match Split name "/"%char with
  | [ns; n] => Some (mkNN ns n)
  | _ => None
  end.

Definition ClusterIPNone : string := "None".

Definition IsHeadlessService (clusterIP : string) : bool :=
  bool_decide (clusterIP = "") || bool_decide (clusterIP = ClusterIPNone).

(** ** Lemmas *)

Lemma getIfExists_laws {A} (key : A → string) s k a :
  StoreLaws key s → getIfExists (Some s) k = Some a ↔ a ∈ store_List s ∧ key a = k.
Proof.
  intros Hs. unfold getIfExists, informers_GetByKey. rewrite <-(store_lookup key s Hs).
  pose proof (store_no_error key s Hs k) as He.
  destruct (store_GetByKey s k) as [[x|] []]; simpl in *; naive_solver.
Qed.

Lemma listStore_laws {A} (key : A → string) a : StoreLaws key (listStore key [a]).
Proof.
  split; [done|]. intros k x. simpl. rewrite list_elem_of_singleton.
  case_decide; simpl; naive_solver.
Qed.

Lemma elem_of_withPort h must host port :
  h ∈ withPort must host port ↔ (must = false ∧ h = host) ∨ h = host +:+ ":" +:+ pretty port.
Proof. unfold withPort. destruct must; set_solver. Qed.

(** Cutting the port off. *)
Lemma host_of_withPort h must host port :
  h ∈ withPort must host port → str_in ":" host = false → default "" (head (Split h ":"%char)) = host.
Proof.
  intros [[_ ->]| ->]%elem_of_withPort Hh; [by rewrite Split_none|].
  rewrite str_app_cons, str_app_nil_l, Split_app by done. done.
Qed.

Lemma Split_dots2 a b : str_in "." a = false → str_in "." b = false → Split (a +:+ "." +:+ b) "." = [a; b].
Proof. intros Ha Hb. rewrite str_app_cons, str_app_nil_l, Split_app, Split_none by done. done. Qed.

Lemma Split_dots3 a b c :
  str_in "." a = false → str_in "." b = false → Split ((a +:+ "." +:+ b) +:+ "." +:+ c) "." = a :: b :: Split c ".".
Proof.
  intros Ha Hb. rewrite !str_app_assoc. rewrite (str_app_cons "." ""), str_app_nil_l, Split_app by done.
  rewrite str_app_cons, str_app_nil_l, Split_app by done. done.
Qed.

(** The names a service is known under, from the shortest to the full one. *)
Definition baseNames (svc : MeshService) : list string :=
  let nsName := Name svc +:+ "." +:+ Namespace svc in
  [Name svc; nsName; nsName +:+ "." +:+ "svc"; nsName +:+ "." +:+ "svc.cluster";
   nsName +:+ "." +:+ "svc.cluster.local"].

(** A DNS label: no dot, no colon. *)
Definition isLabel (s : string) : Prop := str_in "." s = false ∧ str_in ":" s = false.

Lemma baseNames_no_colon svc base :
  isLabel (Name svc) → isLabel (Namespace svc) → base ∈ baseNames svc → str_in ":" base = false.
Proof.
  intros [_ Hn] [_ Hns]. unfold baseNames. rewrite !elem_of_cons, elem_of_nil.
  intros Hb. destruct_or! Hb; subst; rewrite ?str_in_app, ?Hn, ?Hns; done.
Qed.

Lemma withPort_weaken must base port h : h ∈ withPort must base port → h ∈ withPort false base port.
Proof. rewrite !elem_of_withPort. tauto. Qed.

(** Every hostname is a base name, with or without port. *)
Lemma hostnames_base svc san local hs h :
  GetHostnamesForService trustDomain_init svc san local = Ret hs → h ∈ hs →
  ∃ base, base ∈ baseNames svc ∧ h ∈ withPort false base (Port svc).
Proof.
  unfold GetHostnamesForService. destruct san as [san|]; [|done].
  intros (san' & [= <-] & (b & _ & Hhs)%go_bind_Ret)%go_bind_Ret Hh.
  set (must := san_MustWithServicePort san) in *.
  assert (∀ i base, baseNames svc !! i = Some base → h ∈ withPort must base (Port svc) →
    ∃ base, base ∈ baseNames svc ∧ h ∈ withPort false base (Port svc)) as Hin.
  { intros i base Hi Hw. exists base. split; [by eapply list_elem_of_lookup_2|by eapply withPort_weaken]. }
  assert (∀ d : bool, h ∈ (if d then withPort must (Name svc) (Port svc) else []) →
    ∃ base, base ∈ baseNames svc ∧ h ∈ withPort false base (Port svc)) as Hd.
  { intros [] Hx; [by apply (Hin 0 (Name svc))|by apply not_elem_of_nil in Hx]. }
  destruct b; [|destruct (san_WithTrustDomain san)]; injection Hhs as <-; rewrite !elem_of_app in Hh.
  - destruct Hh as [Hh|Hh]; [by eapply Hd|by apply (Hin 0 (Name svc))].
  - destruct Hh as [[Hh|Hh]|[Hh|Hh]]; [by eapply Hd|by eapply (Hin 1)|by eapply (Hin 2)|].
    destruct Hh as [Hh|Hh]; [eapply (Hin 3)|eapply (Hin 4)]; try done; by rewrite !str_app_assoc in *.
  - destruct Hh as [Hh|Hh]; [by eapply Hd|by eapply (Hin 1)].
Qed.

(** Reading back the base names. *)
Lemma split_base svc c base h :
  isLabel (Name svc) → isLabel (Namespace svc) →
  is_Some (GetNamespace c (Namespace svc)) → GetNamespace c "svc" = None →
  base ∈ baseNames svc → h ∈ withPort false base (Port svc) →
  splitHostName (Some c) h = (Name svc, "") ∨
  base = (Name svc +:+ "." +:+ Namespace svc) +:+ "." +:+ "svc.cluster" ∧
  splitHostName (Some c) h = (Namespace svc, Name svc).
Proof.
  intros Hn Hns [n Hin] Hsvc Hb Hh. pose proof (baseNames_no_colon _ _ Hn Hns Hb) as Hc.
  destruct Hn as [Hn _], Hns as [Hns _]. unfold splitHostName. rewrite (host_of_withPort _ _ _ _ Hh Hc).
  unfold baseNames in Hb. rewrite !elem_of_cons, elem_of_nil in Hb. destruct_or! Hb; subst; try done.
  - left. by rewrite Split_none.
  - left. by rewrite Split_dots2, Hin.
  - left. rewrite Split_dots3 by done. simpl. by rewrite Hsvc.
  - right. by rewrite Split_dots3.
  - left. by rewrite Split_dots3.
Qed.

(** ** Properties *)

(** Reading a hostname back: under the default trust domain, of a service
    whose name and namespace are DNS labels, with the namespace in the cache
    and no namespace called svc, every hostname the service is accessible
    under is read back as the service, without subdomain, with one exception:
    the intermediate form [<name>.<namespace>.svc.cluster] is taken for a
    subdomain of a service named like the namespace. *)
Theorem hostnames_read_back svc san local c h hs :
  isLabel (Name svc) → isLabel (Namespace svc) →
  is_Some (GetNamespace c (Namespace svc)) → GetNamespace c "svc" = None →
  GetHostnamesForService trustDomain_init svc san local = Ret hs → h ∈ hs →
  splitHostName (Some c) h = (Name svc, "") ∨
  h ∈ withPort false ((Name svc +:+ "." +:+ Namespace svc) +:+ "." +:+ "svc.cluster") (Port svc) ∧
  splitHostName (Some c) h = (Namespace svc, Name svc).
Proof.
  intros Hn Hns Hin Hsvc Hhs Hh. destruct (hostnames_base _ _ _ _ _ Hhs Hh) as (base & Hb & Hw).
  destruct (split_base svc c base h Hn Hns Hin Hsvc Hb Hw) as [?|[-> ?]]; auto.
Qed.

Definition demoController : Controller := {|
  IsMonitoredNamespace := λ ns, bool_decide (ns = "shop");
  GetNamespace := λ ns, if bool_decide (ns = "shop") then Some (mkNamespace "shop" ∅) else None;
  GetService := λ _, None;
  kc_ListServices := λ _ _, []; kc_ListPods := []; kc_ListVms := [];
  kc_GetEndpoints := λ _, inr None;
  kc_ListServiceIdentitiesForService := λ _, inl "service not found";
  GetTargetPortForServicePort := λ _ _, inl "service not found in cache"
|}.

Lemma hostnames_read_back_witness :
  let svc := mkMeshService "shop" "cart" 80 8080 "http" "" "" "" in
  splitHostName (Some demoController) "cart.shop.svc.cluster.local:80" = (Name svc, "") ∨
  "cart.shop.svc.cluster.local:80" ∈
    withPort false ((Name svc +:+ "." +:+ Namespace svc) +:+ "." +:+ "svc.cluster") (Port svc) ∧
  splitHostName (Some demoController) "cart.shop.svc.cluster.local:80" = (Namespace svc, Name svc).
Proof.
  intros svc.
  apply (hostnames_read_back svc (Some (mkSAN false true true None)) false demoController _
    ["cart.shop"; "cart.shop:80"; "cart.shop.svc"; "cart.shop.svc:80"; "cart.shop.svc.cluster";
     "cart.shop.svc.cluster:80"; "cart.shop.svc.cluster.local"; "cart.shop.svc.cluster.local:80"]);
    try (vm_compute; eauto; fail).
  apply (bool_decide_unpack _). vm_compute. exact I.
Defined.

End K8s.
