(* ===== verification/K8sClient.v ===== *)
(** * The Kubernetes client: pkg/k8s/client.go

    The implementation of the controller interface over the informers'
    stores, and the translation of a Kubernetes service to mesh services.
    A nil dereference is a [Panic].  [connector.Decode] is an argument; the
    metadata it returns has no nil endpoints.  Names are ASCII, as Kubernetes
    requires, so folding and trimming are those of ASCII. *)

From S2P Require Import Prelude Identity Service Core Api K8s.
Import Identity.Identity Service.Service Api.Api K8s.K8s.
#[local] Open Scope Z_scope.

Module K8sClient.

(** pkg/constants, pkg/connector/annotation.go *)
Definition ServiceExclusionAnnotation : string := "flomesh.io/service-exclusion".
Definition ServiceExclusionListAnnotation : string := "flomesh.io/service-exclusion-list".
Definition PrometheusScrapeAnnotation : string := "prometheus.io/scrape".
Definition SidecarUniqueIDLabelName : string := "fsm-proxy-uuid".
Definition ProtocolHTTP : string := "http".
Definition SupportedProtocolsInMesh : list string := ["tcp-server-first"; "http"; "tcp"; "grpc"].
Definition AnnotationCloudServiceInheritedFrom : string := "flomesh.io/cloud-service-inherited-from".
Definition AnnotationCloudServiceAttachedTo : string := "flomesh.io/cloud-service-attached-to".
Definition AnnotationMeshEndpointAddr : string := "flomesh.io/cloud-endpoint-addr".

Definition HasPrefix (s prefix : string) : bool :=
  bool_decide (str_take (String.length prefix) s = prefix).

(** [strings.TrimSpace] *)
Definition isSpace (a : ascii) : bool :=
  bool_decide (nat_of_ascii a = 32%nat) || bool_decide (9 ≤ nat_of_ascii a ≤ 13)%nat.

Fixpoint trimLeft (s : string) : string :=
  match s with String a s' => if isSpace a then trimLeft s' else s | EmptyString => s end.

Fixpoint trimRight (s : string) : string :=
  match s with
  | EmptyString => s
  | String a s' =>
      let t := trimRight s' in
      if isSpace a && bool_decide (t = "") then "" else String a t
  end.

Definition TrimSpace (s : string) : string := trimRight (trimLeft s).

(** The informers the client reads.  The one of the monitored namespaces is
    always set up. *)
Record client := mkClient {
  inf_Namespace : Store K8sNamespace;
  inf_Service : option (Store K8sService);
  inf_ServiceAccount : option (Store K8sServiceAccountObj);
  inf_Pod : option (Store Pod);
  inf_VirtualMachine : option (Store VirtualMachine);
  inf_Endpoints : option (Store Endpoints)
}.

Section client.
Context {MS : MapSet} {LM : LabelMatch} (c : client).

(** ** Namespaces *)

(** The error of the lookup is ignored. *)
Definition kube_IsMonitoredNamespace (namespace : string) : bool :=
  bool_decide (is_Some (store_GetByKey (inf_Namespace c) namespace).1).

Definition ListMonitoredNamespaces : list string := map ns_Name (store_List (inf_Namespace c)).

Definition kube_GetNamespace (ns : string) : option K8sNamespace := getIfExists (Some (inf_Namespace c)) ns.

(** ** Services *)

Definition isExclusionService (svc : K8sService) : bool :=
  match k8s_Annotations svc !! ServiceExclusionAnnotation with
  | Some exclude => bool_decide (ToLower exclude ∈ ["enabled"; "yes"; "true"])
  | None =>
      match kube_GetNamespace (k8s_Namespace svc) with
      | None => false
      | Some ns =>
          match ns_Annotations ns !! ServiceExclusionListAnnotation with
          | None => false
          | Some svcsToExclude =>
              existsb (λ svcStr, EqualFold (ToLower (TrimSpace svcStr)) (k8s_Name svc))
                (Split svcsToExclude ","%char)
          end
      end
  end.

Definition kube_GetService (svc : MeshService) : option K8sService :=
  getIfExists (inf_Service c) (NamespacedKey svc).

Definition ListServices (onlyMonitored filterExclusion : bool) : list K8sService :=
  foldl (λ services svc,
    if onlyMonitored && negb (kube_IsMonitoredNamespace (k8s_Namespace svc)) then services
    else if filterExclusion && isExclusionService svc then services
    else services ++ [svc]) [] (informers_List (inf_Service c)).

Definition ListServiceAccounts (onlyMonitored : bool) : list K8sServiceAccountObj :=
  foldl (λ accounts sa,
    if onlyMonitored && negb (kube_IsMonitoredNamespace (sao_Namespace sa)) then accounts
    else accounts ++ [sa]) [] (informers_List (inf_ServiceAccount c)).

(** ** Pods, machines, endpoints *)

Definition ListPods : list Pod :=
  foldl (λ pods pod,
    if negb (kube_IsMonitoredNamespace (pod_Namespace pod)) then pods else pods ++ [pod])
    [] (informers_List (inf_Pod c)).

Definition ListVms : list VirtualMachine := informers_List (inf_VirtualMachine c).

Definition GetEndpoints (svc : MeshService) : string + option Endpoints :=
  match informers_GetByKey (inf_Endpoints c) (NamespacedKey svc) with
  | (_, true) => inl "error"
  | (ep, false) => inr ep
  end.

Definition ListServiceIdentitiesForService (svc : MeshService) : string + list K8sServiceAccount :=
  match kube_GetService svc with
  | None => inl "Error fetching service"
  | Some k8sSvc =>
      inr (ToSlice (foldl (λ accounts pod,
        if bool_decide (k8s_Selector k8sSvc = ∅) then accounts
        else if Matches (k8s_Selector k8sSvc) (pod_Labels pod)
        then (Add (mkSA (pod_Namespace pod) (pod_ServiceAccountName pod)) accounts).1
        else accounts) NewSet ListPods))
  end.

(** [strconv.ParseBool], false on an error. *)
Definition IsMetricsEnabled (pod : Pod) : bool :=
  match pod_Annotations pod !! PrometheusScrapeAnnotation with
  | None => false
  | Some v => bool_decide (v ∈ ["1"; "t"; "T"; "true"; "TRUE"; "True"])
  end.

(** ** Proxies *)

(** models.Proxy, as far as it is read. *)
Record Proxy := mkProxy {
  px_UUID : string; px_Identity : ServiceIdentity; px_PodNamespace : string; px_PodName : string }.

Inductive proxyError :=
  | errDidNotFindPodForUUID
  | errMoreThanOnePodForUUID
  | errNamespaceDoesNotMatchProxy
  | errServiceAccountDoesNotMatchProxy.

(** [GetPodForProxy] and [GetVmForProxy] differ in the objects only: the
    informer, the list, and how labels, namespace and account are read. *)
Definition getForProxy {A} (informer : option (Store A)) (listed : list A)
    (labels : A → gmap string string) (ns account : A → string) (proxy : Proxy) : go (proxyError + A) :=
  svcAccount ← ToK8sServiceAccount (px_Identity proxy);
  let hasUUID x := bool_decide (labels x !! SidecarUniqueIDLabelName = Some (px_UUID proxy)) in
  let found :=
    if negb (bool_decide (px_PodNamespace proxy = "")) && negb (bool_decide (px_PodName proxy = "")) then
      match informers_GetByKey informer (px_PodNamespace proxy +:+ "/" +:+ px_PodName proxy) with
      | (Some x, false) => if hasUUID x then inr x else inl errDidNotFindPodForUUID
      | _ => inl errDidNotFindPodForUUID
      end
    else
      match List.filter hasUUID listed with
      | [] => inl errDidNotFindPodForUUID
      | [x] => inr x
      | _ => inl errMoreThanOnePodForUUID
      end in
  Ret (match found with
       | inl e => inl e
       | inr x =>
           if negb (bool_decide (ns x = sa_Namespace svcAccount)) then inl errNamespaceDoesNotMatchProxy
           else if negb (bool_decide (account x = sa_Name svcAccount)) then inl errServiceAccountDoesNotMatchProxy
           else inr x
       end).

Definition GetPodForProxy : Proxy → go (proxyError + Pod) :=
  getForProxy (inf_Pod c) ListPods pod_Labels pod_Namespace pod_ServiceAccountName.

Definition GetVmForProxy : Proxy → go (proxyError + VirtualMachine) :=
  getForProxy (inf_VirtualMachine c) ListVms vm_Labels vm_Namespace vm_ServiceAccountName.

(** ** Target ports *)

(** [strconv.ParseUint] in base ten: a digit that overflows ends the scan. *)
Fixpoint parseDigits (s : string) (acc : Z) : option Z :=
  match s with
  | EmptyString => Some acc
  | String a s' =>
      if is_digit a then
        let n := acc * 10 + (Z.of_nat (nat_of_ascii a) - 48) in
        if bool_decide (2 ^ 64 ≤ n) then Some (2 ^ 64 - 1) else parseDigits s' n
      else None
  end.

(** The number [strconv.Atoi] returns beside its error: zero on a syntax
    error, the nearest int64 when out of range. *)
Definition Atoi (s : string) : Z :=
  match s with
  | EmptyString | String "-" EmptyString | String "+" EmptyString => 0
  | String "-" s' => default 0 ((λ n, - Z.min n (2 ^ 63)) <$> parseDigits s' 0)
  | String "+" s' => default 0 (Z.min (2 ^ 63 - 1) <$> parseDigits s' 0)
  | _ => default 0 (Z.min (2 ^ 63 - 1) <$> parseDigits s 0)
  end.

(** [IntOrString.IntValue] *)
Definition IntValue (p : IntOrString) : Z := match p with IntVal i => i | StrVal s => Atoi s end.

(** The first match of the nested loops over subsets and ports. *)
Definition GetTargetPortFromEndpoints (endpointName : string) (endpoints : Endpoints) : Z :=
  default 0 (head (
    subset ← eps_Subsets endpoints;
    omap (λ port,
      if bool_decide (endpointName = "") || bool_decide (length (sub_Ports subset) = 1%nat) ||
         bool_decide (epp_Name port = endpointName)
      then Some (uint16 (epp_Port port)) else None) (sub_Ports subset))).

Definition kube_GetTargetPortForServicePort (namespacedSvc : NamespacedName) (port : Z) : string + Z :=
  match informers_GetByKey (inf_Service c) (nn_String namespacedSvc) with
  | (_, true) => inl "error"
  | (None, false) => inl "service not found in cache"
  | (Some svc, false) =>
      let spec := head (List.filter (λ p, bool_decide (uint16 (svp_Port p) = port)) (k8s_Ports svc)) in
      match spec, k8s_Annotations svc !! AnnotationMeshEndpointAddr with
      | Some p, Some _ => inr (uint16 (IntValue (svp_TargetPort p)))
      | _, _ =>
          let portName := default "" (svp_Name <$> spec) in
          match informers_GetByKey (inf_Endpoints c) (nn_String namespacedSvc) with
          | (_, true) => inl "error"
          | (None, false) => inl "endpoint for service not found in cache"
          | (Some ep, false) =>
              match head (List.filter (λ p, bool_decide (epp_Name p = portName))
                            (eps_Subsets ep ≫= sub_Ports)) with
              | Some p => inr (uint16 (epp_Port p))
              | None => inl "error finding port name"
              end
          end
      end
  end.

(** The client as the controller the other components use. *)
Definition client_Controller : Controller := {|
  IsMonitoredNamespace := kube_IsMonitoredNamespace;
  K8s.GetNamespace := kube_GetNamespace;
  K8s.GetService := kube_GetService;
  kc_ListServices := ListServices;
  kc_ListPods := ListPods;
  kc_ListVms := ListVms;
  kc_GetEndpoints := GetEndpoints;
  kc_ListServiceIdentitiesForService := ListServiceIdentitiesForService;
  K8s.GetTargetPortForServicePort := kube_GetTargetPortForServicePort
|}.

End client.

(** ** Mesh services *)

Section services.
Context {MR : MapRange} (decode : K8sService → string → MicroSvcMeta) (c : Controller).

(** Where a connector service comes from, the namespace it is attached to,
    and its metadata.  A namespace that is not monitored is nil. *)
Definition cloudOrigin (lb : LoadBalancer) (svc : K8sService) : go (string * string * option MicroSvcMeta) :=
  match k8s_Annotations svc !! AnnotationCloudServiceInheritedFrom with
  | None => Ret ("", "", None)
  | Some inheritedFrom =>
      let svcMeta := decode svc <$> k8s_Annotations svc !! AnnotationMeshEndpointAddr in
      if IsSlaveNamespace lb (k8s_Namespace svc) then Ret (inheritedFrom, lb_MasterNamespace lb, svcMeta)
      else
        ns ← deref (GetNamespace c (k8s_Namespace svc));
        Ret (inheritedFrom, default "" (ns_Annotations ns !! AnnotationCloudServiceAttachedTo), svcMeta)
  end.

(** The protocol a port name starts with. *)
Definition portNameProtocol (name : string) : string :=
  default ProtocolHTTP (head (List.filter (λ p, HasPrefix name (p +:+ "-")) SupportedProtocolsInMesh)).

(** The first target port of the metadata with the protocol, in map order. *)
Definition metaTargetPort (svcMeta : option MicroSvcMeta) (protocol : string) : option Z :=
  svcMeta ≫= λ m,
    (uint16 ∘ fst) <$> head (List.filter (λ kv, EqualFold protocol kv.2) (map_range (msm_TargetPorts m))).

(** The mesh services of one port. *)
Definition portMeshServices (svc : K8sService) (inheritedFrom attachedTo : string) (svcMeta : option MicroSvcMeta)
    (portSpec : K8sServicePort) : list MeshService :=
  let mk name target protocol inherited attached :=
    mkMeshService (k8s_Namespace svc) name (uint16 (svp_Port portSpec)) target protocol "" inherited attached in
  let transport := default (svp_Protocol portSpec) (svp_AppProtocol portSpec) in
  match metaTargetPort svcMeta transport with
  | Some target => [mk (k8s_Name svc) target transport inheritedFrom attachedTo]
  | None =>
      let protocol := default (portNameProtocol (svp_Name portSpec)) (svp_AppProtocol portSpec) in
      let endpoints :=
        match kc_GetEndpoints c (mk (k8s_Name svc) 0 protocol inheritedFrom attachedTo) with
        | inr e => e | inl _ => None end in
      let target := default 0 (GetTargetPortFromEndpoints (svp_Name portSpec) <$> endpoints) in
      let whole := mk (k8s_Name svc) target protocol inheritedFrom attachedTo in
      match endpoints with
      | Some e =>
          if IsHeadlessService (k8s_ClusterIP svc) then
            let hosts := List.filter (λ h, negb (bool_decide (h = "")))
                           (map epa_Hostname (eps_Subsets e ≫= sub_Addresses)) in
            if bool_decide (hosts = []) then [whole]
            else map (λ h, mk (h +:+ "." +:+ k8s_Name svc) target protocol "" "") hosts
          else [whole]
      | None => [whole]
      end
  end.

Definition ServiceToMeshServices (lb : LoadBalancer) (svc : K8sService) : go (list MeshService) :=
  '(inheritedFrom, attachedTo, svcMeta) ← cloudOrigin lb svc;
  Ret (k8s_Ports svc ≫= portMeshServices svc inheritedFrom attachedTo svcMeta).

End services.

End K8sClient.
