(* ===== verification/K8sClientFacts.v ===== *)
(** * Properties of the Kubernetes client

    Which services and identities the client lists, that a proxy is only
    given a workload that matches its certificate, and when the two ways to a
    target port agree. *)

From S2P Require Import Prelude Identity Service Core Api K8s K8sClient.
Import Identity.Identity Service.Service Api.Api K8s.K8s K8sClient.K8sClient.
#[local] Open Scope Z_scope.

Module K8sClientFacts.

Section facts.
Context {MS : MapSet} {MSS : MapSetSpec} {LM : LabelMatch} {LMS : LabelMatchSpec} (c : client).

(** A loop that skips some elements. *)
Lemma foldl_skip {A} (p : A → bool) acc l :
  foldl (λ acc x, if p x then acc else acc ++ [x]) acc l = acc ++ List.filter (λ x, negb (p x)) l.
Proof.
  revert acc. induction l as [|x l IH]; intros acc; simpl; [by rewrite app_nil_r|].
  rewrite IH. destruct (p x); simpl; [done|by rewrite <-app_assoc].
Qed.

Lemma foldl_skip2 {A} (p q : A → bool) acc l :
  foldl (λ acc x, if p x then acc else if q x then acc else acc ++ [x]) acc l =
  acc ++ List.filter (λ x, negb (p x || q x)) l.
Proof.
  revert acc. induction l as [|x l IH]; intros acc; simpl; [by rewrite app_nil_r|].
  rewrite IH. destruct (p x), (q x); simpl; try done. by rewrite <-app_assoc.
Qed.

Lemma elem_of_ListPods p :
  p ∈ ListPods c ↔ p ∈ informers_List (inf_Pod c) ∧ kube_IsMonitoredNamespace c (pod_Namespace p) = true.
Proof.
  unfold ListPods. rewrite (foldl_skip (λ p, negb (kube_IsMonitoredNamespace c (pod_Namespace p)))).
  simpl. by rewrite elem_of_lfilter, negb_involutive.
Qed.

Lemma elem_of_ListServices svc :
  svc ∈ ListServices c true true ↔
  svc ∈ informers_List (inf_Service c) ∧ kube_IsMonitoredNamespace c (k8s_Namespace svc) = true ∧
  isExclusionService c svc = false.
Proof.
  unfold ListServices. simpl.
  rewrite (foldl_skip2 (λ s, negb (kube_IsMonitoredNamespace c (k8s_Namespace s))) (isExclusionService c)).
  simpl. rewrite elem_of_lfilter, negb_true_iff, orb_false_iff, negb_false_iff. done.
Qed.

(** The accounts collected from the pods. *)
Lemma collected_accounts sel pods (s : mset K8sServiceAccount) a :
  a ∈ elems (foldl (λ accounts pod,
        if bool_decide (sel = ∅) then accounts
        else if Matches sel (pod_Labels pod)
        then (Add (mkSA (pod_Namespace pod) (pod_ServiceAccountName pod)) accounts).1
        else accounts) s pods) ↔
  a ∈ elems s ∨ sel ≠ ∅ ∧ ∃ p, p ∈ pods ∧ sel ⊆ pod_Labels p ∧ a = mkSA (pod_Namespace p) (pod_ServiceAccountName p).
Proof.
  revert s. induction pods as [|p pods IH]; intros s; simpl.
  { split; [auto|]. intros [?|(_ & p & Hp & _)]; [done|by apply not_elem_of_nil in Hp]. }
  rewrite IH. clear IH. case_bool_decide as Hsel; [naive_solver|].
  destruct (Matches sel (pod_Labels p)) eqn:Hm.
  - apply Matches_spec in Hm. rewrite elems_Add. set_solver.
  - assert (¬ sel ⊆ pod_Labels p) by (intros Hm'%Matches_spec; congruence). set_solver.
Qed.

(** The identities of a service are exactly the accounts of the monitored
    pods its selector matches, each once -- of the pods of every namespace,
    although a Kubernetes service only selects pods of its own. *)
Theorem service_identities_exact svc k8sSvc :
  kube_GetService c svc = Some k8sSvc →
  ∃ accounts, ListServiceIdentitiesForService c svc = inr accounts ∧ NoDup accounts ∧
    ∀ a, a ∈ accounts ↔ k8s_Selector k8sSvc ≠ ∅ ∧ ∃ p,
      p ∈ informers_List (inf_Pod c) ∧ kube_IsMonitoredNamespace c (pod_Namespace p) = true ∧
      k8s_Selector k8sSvc ⊆ pod_Labels p ∧ a = mkSA (pod_Namespace p) (pod_ServiceAccountName p).
Proof.
  intros Hsvc. unfold ListServiceIdentitiesForService. rewrite Hsvc. eexists. split; [done|].
  split; [apply ToSlice_NoDup|]. intros a. rewrite elem_of_ToSlice, collected_accounts, elems_NewSet.
  setoid_rewrite elem_of_ListPods. set_solver.
Qed.

(** ** Proxies *)

Lemma getForProxy_sound {A} informer (listed : list A) labels ns account proxy x :
  getForProxy informer listed labels ns account proxy = Ret (inr x) →
  labels x !! SidecarUniqueIDLabelName = Some (px_UUID proxy) ∧
  ToK8sServiceAccount (px_Identity proxy) = Ret (mkSA (ns x) (account x)) ∧
  (px_PodName proxy = "" → x ∈ listed ∧
    ∀ y, y ∈ listed → labels y !! SidecarUniqueIDLabelName = Some (px_UUID proxy) → y = x).
Proof.
  unfold getForProxy. intros ([sns sn] & Hsa & Hr)%go_bind_Ret. rewrite Hsa. injection Hr as Hr.
  set (hasUUID := λ x, bool_decide (labels x !! SidecarUniqueIDLabelName = Some (px_UUID proxy))) in Hr.
  set (found := if negb _ && negb _ then _ else _) in Hr. destruct found as [e|y] eqn:Hf; simpl in Hr; [discriminate|].
  do 2 (case_bool_decide; simpl in Hr; [|done]). injection Hr as ->. subst sns sn.
  assert (hasUUID x = true ∧ (px_PodName proxy = "" → List.filter hasUUID listed = [x])) as [Hu Hl].
  { subst found. destruct (negb _ && negb _) eqn:Hn.
    - apply andb_true_iff in Hn as [_ Hn]. rewrite negb_true_iff, bool_decide_eq_false in Hn.
      destruct (informers_GetByKey informer _) as [[z|] []]; [done| |done|done].
      unfold hasUUID in *. case_bool_decide; [|done]. injection Hf as ->. by rewrite bool_decide_eq_true_2.
    - destruct (List.filter hasUUID listed) as [|z [|? ?]] eqn:El; [done| |done]. injection Hf as ->.
      split; [|done]. assert (x ∈ List.filter hasUUID listed) as Hx by (rewrite El; by left).
      by apply elem_of_lfilter in Hx as [_ ?]. }
  split; [by apply bool_decide_eq_true in Hu|]. split; [done|]. intros He. specialize (Hl He). split.
  - assert (x ∈ List.filter hasUUID listed) as Hx by (rewrite Hl; by left). by apply elem_of_lfilter in Hx as [? _].
  - intros z Hz Hzu. assert (z ∈ List.filter hasUUID listed) as Hx
      by (apply elem_of_lfilter; split; [done|by apply bool_decide_eq_true]).
    rewrite Hl in Hx. by apply list_elem_of_singleton in Hx.
Qed.

(** C34. A proxy is only given a pod that is its own: the pod carries the UUID
    of the proxy's certificate, and its namespace and service account are
    those of the certificate's identity; when the proxy does not name its pod,
    the pod is monitored and the only monitored one with the UUID. *)
Theorem proxy_pod_authentic proxy p :
  GetPodForProxy c proxy = Ret (inr p) →
  pod_Labels p !! SidecarUniqueIDLabelName = Some (px_UUID proxy) ∧
  ToK8sServiceAccount (px_Identity proxy) = Ret (mkSA (pod_Namespace p) (pod_ServiceAccountName p)) ∧
  (px_PodName proxy = "" → kube_IsMonitoredNamespace c (pod_Namespace p) = true ∧
    ∀ q, q ∈ informers_List (inf_Pod c) → kube_IsMonitoredNamespace c (pod_Namespace q) = true →
      pod_Labels q !! SidecarUniqueIDLabelName = Some (px_UUID proxy) → q = p).
Proof.
  intros (Hu & Hsa & Hl)%getForProxy_sound. split; [done|]. split; [done|]. intros He.
  destruct (Hl He) as [Hp Hq]. split; [by apply elem_of_ListPods in Hp as [_ ?]|].
  intros q ? ? ?. apply Hq; [by apply elem_of_ListPods|done].
Qed.

End facts.

(** ** Target ports *)

Lemma omap_filter {A B} (p : A → bool) (g : A → B) l :
  omap (λ x, if p x then Some (g x) else None) l = map g (List.filter p l).
Proof. induction l as [|x l IH]; [done|]. cbn. destruct (p x); cbn; f_equal; exact IH. Qed.

Lemma bind_map_filter {A B} (p : A → bool) (g : A → B) (ports : EndpointSubset → list A) (l : list EndpointSubset) :
  (s ← l; map g (List.filter p (ports s))) = map g (List.filter p (l ≫= ports)).
Proof.
  induction l as [|s l IH]; [done|]. rewrite !bind_cons, IH, List.filter_app, map_app. done.
Qed.

Lemma endpoints_port_by_name name ep :
  name ≠ "" → (∀ s, s ∈ eps_Subsets ep → length (sub_Ports s) ≠ 1%nat) →
  GetTargetPortFromEndpoints name ep =
  default 0 ((λ p, uint16 (epp_Port p)) <$>
    head (List.filter (λ p, bool_decide (epp_Name p = name)) (eps_Subsets ep ≫= sub_Ports))).
Proof.
  intros Hname Hs. unfold GetTargetPortFromEndpoints.
  assert (∀ l, l ⊆ eps_Subsets ep → (subset ← l; omap (λ port,
      if bool_decide (name = "") || bool_decide (length (sub_Ports subset) = 1%nat) ||
         bool_decide (epp_Name port = name) then Some (uint16 (epp_Port port)) else None) (sub_Ports subset)) =
    (s ← l; map (λ p, uint16 (epp_Port p)) (List.filter (λ p, bool_decide (epp_Name p = name)) (sub_Ports s)))) as E.
  { induction l as [|s l IH]; intros Hl; [done|]. rewrite !bind_cons, IH by set_solver. f_equal.
    rewrite (bool_decide_eq_false_2 (name = "")), (bool_decide_eq_false_2 (length _ = _)) by (done || apply Hs; set_solver).
    simpl. apply omap_filter. }
  rewrite E, bind_map_filter by done. by destruct (List.filter _ _).
Qed.

(** The two ways to a target port agree: for a service without connector
    metadata, a named port, and endpoints no subset of which has a single
    port, the port that the outbound policy looks up is the one the mesh
    service carries. *)
Theorem target_ports_agree (c : client) nn svc spec ep port t :
  informers_GetByKey (inf_Service c) (nn_String nn) = (Some svc, false) →
  informers_GetByKey (inf_Endpoints c) (nn_String nn) = (Some ep, false) →
  k8s_Annotations svc !! AnnotationMeshEndpointAddr = None →
  head (List.filter (λ p, bool_decide (uint16 (svp_Port p) = port)) (k8s_Ports svc)) = Some spec →
  svp_Name spec ≠ "" → (∀ s, s ∈ eps_Subsets ep → length (sub_Ports s) ≠ 1%nat) →
  kube_GetTargetPortForServicePort c nn port = inr t →
  GetTargetPortFromEndpoints (svp_Name spec) ep = t.
Proof.
  intros Hsvc Hep Ha Hspec Hname Hs. unfold kube_GetTargetPortForServicePort.
  rewrite Hsvc, Hep, Ha, Hspec, (endpoints_port_by_name _ _ Hname Hs).
  change (default "" (svp_Name <$> Some spec)) with (svp_Name spec). cbv zeta.
  destruct (head (List.filter _ (eps_Subsets ep ≫= sub_Ports))); [intros [= <-]; done|discriminate].
Qed.

(** A subset with a single port is taken for the whole service: the target
    port of one of two ports is then that of the other. *)
Lemma single_port_subset_confused :
  let ep := mkEndpoints "shop" "cart" ∅ ∅ [mkSubset [] [mkEndpointPort "http" "TCP" None 8080]] in
  GetTargetPortFromEndpoints "metrics" ep = 8080.
Proof. done. Qed.

(** ** Mesh services *)

Section services.
Context {MS : MapSet} {LM : LabelMatch} {MR : MapRange} (decode : K8sService → string → MicroSvcMeta) (c : client).

Lemma monitored_namespace ns :
  StoreLaws ns_Name (inf_Namespace c) → kube_IsMonitoredNamespace c ns = true →
  is_Some (kube_GetNamespace c ns).
Proof.
  intros Hl. unfold kube_IsMonitoredNamespace, kube_GetNamespace, getIfExists, informers_GetByKey.
  rewrite bool_decide_eq_true. pose proof (store_no_error _ _ Hl ns) as He.
  destruct (store_GetByKey (inf_Namespace c) ns) as [[n|] []]; simpl in *; [done|by eexists|done|].
  by intros [? ?].
Qed.

(** The translation of a service panics only for a connector service of a
    namespace that is not monitored. *)
Lemma ServiceToMeshServices_total lb svc :
  StoreLaws ns_Name (inf_Namespace c) → kube_IsMonitoredNamespace c (k8s_Namespace svc) = true →
  ∃ l, ServiceToMeshServices decode (client_Controller c) lb svc = Ret l.
Proof.
  intros Hl Hm. unfold ServiceToMeshServices, cloudOrigin.
  destruct (monitored_namespace _ Hl Hm) as [n Hn].
  destruct (k8s_Annotations svc !! AnnotationCloudServiceInheritedFrom); [|by eexists].
  destruct (IsSlaveNamespace lb (k8s_Namespace svc)); [by eexists|]. simpl. rewrite Hn. by eexists.
Qed.

Lemma ServiceToMeshServices_named lb svc l m :
  ServiceToMeshServices decode (client_Controller c) lb svc = Ret l → m ∈ l →
  Namespace m = k8s_Namespace svc ∧ ServiceImportUID m = "" ∧
  ∃ p, p ∈ k8s_Ports svc ∧ Port m = uint16 (svp_Port p) ∧
  (Name m = k8s_Name svc ∨ ∃ h, h ≠ "" ∧ Name m = h +:+ "." +:+ k8s_Name svc).
Proof.
  unfold ServiceToMeshServices. intros ([[from to] meta] & _ & [= <-])%go_bind_Ret.
  rewrite list_elem_of_bind. intros (p & Hm & Hp). unfold portMeshServices in Hm.
  destruct (metaTargetPort _ _); [apply list_elem_of_singleton in Hm as ->; simpl; eauto 10|].
  destruct (match kc_GetEndpoints _ _ with inr e => e | inl _ => None end) as [e|];
    [|apply list_elem_of_singleton in Hm as ->; simpl; eauto 10].
  destruct (IsHeadlessService _); [|apply list_elem_of_singleton in Hm as ->; simpl; eauto 10].
  case_bool_decide; [apply list_elem_of_singleton in Hm as ->; simpl; eauto 10|].
  apply list_elem_of_fmap in Hm as (h & -> & Hh). apply elem_of_lfilter in Hh as [_ Hh].
  rewrite negb_true_iff, bool_decide_eq_false in Hh. simpl. eauto 10.
Qed.

End services.

(** ** Witnesses: a cart service and its pod, and a pod with the same labels
    in another monitored namespace *)

Definition demoPod (ns : string) : Pod :=
  mkPod ns "cart-0" (<["app" := "cart"]> {[SidecarUniqueIDLabelName := "uuid-" +:+ ns]}) ∅ "cart-sa" ["10.0.0.1"] None.

Definition demoService : K8sService :=
  mkK8sService "shop" "cart" "" ∅ ∅ {["app" := "cart"]} "10.96.0.1"
    [mkServicePort "http" "TCP" None 80 (IntVal 8080); mkServicePort "grpc" "TCP" None 81 (IntVal 9090)].

Definition demoEndpoints : Endpoints :=
  mkEndpoints "shop" "cart" ∅ ∅
    [mkSubset [mkEndpointAddress "10.0.0.1" ""]
      [mkEndpointPort "http" "TCP" None 8080; mkEndpointPort "grpc" "TCP" None 9090]].

Definition demoClient : client := {|
  inf_Namespace := listStore ns_Name [mkNamespace "shop" ∅; mkNamespace "other" ∅];
  inf_Service := Some (listStore (λ s, k8s_Namespace s +:+ "/" +:+ k8s_Name s) [demoService]);
  inf_ServiceAccount := None;
  inf_Pod := Some (listStore (λ p, pod_Namespace p +:+ "/" +:+ pod_Name p) [demoPod "shop"; demoPod "other"]);
  inf_VirtualMachine := None;
  inf_Endpoints := Some (listStore (λ e, eps_Namespace e +:+ "/" +:+ eps_Name e) [demoEndpoints]) |}.

Lemma service_identities_exact_witness :
  ∃ accounts, @ListServiceIdentitiesForService gset_MapSet subset_LabelMatch demoClient (named "shop" "cart")
      = inr accounts ∧ NoDup accounts ∧
    ∀ a, a ∈ accounts ↔ k8s_Selector demoService ≠ ∅ ∧ ∃ p,
      p ∈ informers_List (inf_Pod demoClient) ∧ kube_IsMonitoredNamespace demoClient (pod_Namespace p) = true ∧
      k8s_Selector demoService ⊆ pod_Labels p ∧ a = mkSA (pod_Namespace p) (pod_ServiceAccountName p).
Proof.
  apply (@service_identities_exact gset_MapSet gset_MapSetSpec subset_LabelMatch subset_LabelMatchSpec demoClient).
  reflexivity.
Defined.

Lemma proxy_pod_authentic_witness :
  pod_Labels (demoPod "shop") !! SidecarUniqueIDLabelName = Some "uuid-shop".
Proof.
  apply (proxy_pod_authentic demoClient (mkProxy "uuid-shop" "cart-sa.shop" "" "")). reflexivity.
Defined.

Lemma target_ports_agree_witness : GetTargetPortFromEndpoints "grpc" demoEndpoints = 9090.
Proof.
  apply (target_ports_agree demoClient (mkNN "shop" "cart") demoService
    (mkServicePort "grpc" "TCP" None 81 (IntVal 9090)) demoEndpoints 81); try reflexivity; [discriminate|].
  intros s [->|[]%not_elem_of_nil]%elem_of_cons. discriminate.
Defined.

End K8sClientFacts.
