(* ===== verification/Smi.v ===== *)
(** * SMI resources: pkg/smi (client.go, types.go)

    The client that lists TrafficSplits, route groups, TCP routes and
    TrafficTargets of monitored namespaces, with its list options, and the
    interface [MeshSpec] the catalog uses.  [MeshSpecLaws] is what the
    client promises to the catalog; [smi_laws] discharges it. *)

From S2P Require Import Prelude Identity Service Api K8s.
Import Identity.Identity Service.Service Api.Api K8s.K8s.

Module Smi.

(** ** List options *)

Record TrafficTargetListOpt := mkTTOpt { opt_Destination : K8sServiceAccount }.
Definition TrafficTargetListOption : Type := TrafficTargetListOpt → TrafficTargetListOpt.
Definition WithTrafficTargetDestination (d : K8sServiceAccount) : TrafficTargetListOption :=
  λ _, mkTTOpt d.

Record TrafficSplitListOpt := mkTSOpt {
  ApexService : MeshService; BackendService : MeshService; KubeController : option Controller }.
Definition TrafficSplitListOption : Type := TrafficSplitListOpt → TrafficSplitListOpt.
Definition WithTrafficSplitApexService (s : MeshService) : TrafficSplitListOption :=
  λ o, mkTSOpt s (BackendService o) (KubeController o).
Definition WithTrafficSplitBackendService (s : MeshService) : TrafficSplitListOption :=
  λ o, mkTSOpt (ApexService o) s (KubeController o).
Definition WithKubeController (c : Controller) : TrafficSplitListOption :=
  λ o, mkTSOpt (ApexService o) (BackendService o) (Some c).

Definition applyOptions {O} (o : O) (options : list (O → O)) : O := foldl (λ o opt, opt o) o options.

(** ** Filters; [None] is nil *)

Definition FilterTrafficSplit (trafficSplit : option TrafficSplit) (options : list TrafficSplitListOption)
    : option TrafficSplit :=
  ts ← trafficSplit;
  let o := applyOptions (mkTSOpt (named "" "") (named "" "") None) options in
  let apex := ApexService o in
  let backend := BackendService o in
  let serviceName := GetServiceFromHostname (KubeController o) (ts_Service ts) in
  if negb (bool_decide (Name apex = "")) &&
     (negb (bool_decide (Namespace apex = ts_Namespace ts)) ||
      negb (bool_decide (Name apex = serviceName)) && negb (bool_decide (NamespacedKey apex = serviceName)))
  then None
  else if negb (bool_decide (Name backend = "")) &&
          (negb (bool_decide (ts_Namespace ts = Namespace backend)) ||
           negb (existsb (λ b, bool_decide (tsb_Service b = Name backend)) (ts_Backends ts)))
  then None
  else Some ts.

Definition hasValidRules (rules : list TrafficTargetRule) : bool :=
  negb (bool_decide (length rules = 0)) &&
  forallb (λ r, bool_decide (ttr_Kind r = HTTPRouteGroupKind) || bool_decide (ttr_Kind r = TCPRouteKind)) rules.

Definition isValidTrafficTarget (t : TrafficTarget) : bool :=
  bool_decide (tt_Namespace t = ibs_Namespace (tt_Destination t)) && hasValidRules (tt_Rules t).

Definition FilterTrafficTarget (trafficTarget : option TrafficTarget)
    (options : list TrafficTargetListOption) : option TrafficTarget :=
  t ← trafficTarget;
  let o := applyOptions (mkTTOpt (mkSA "" "")) options in
  let d := opt_Destination o in
  if negb (bool_decide (sa_Name d = "")) &&
     (negb (bool_decide (sa_Namespace d = ibs_Namespace (tt_Destination t))) ||
      negb (bool_decide (sa_Name d = ibs_Name (tt_Destination t))))
  then None else Some t.

(** ** The client *)

Record Client := mkClient {
  inf_TrafficSplit : option (Store TrafficSplit);
  inf_HTTPRouteGroup : option (Store HTTPRouteGroup);
  inf_TCPRoute : option (Store TCPRoute);
  inf_TrafficTarget : option (Store TrafficTarget);
  smi_kubeController : Controller
}.

Section client.
Context (c : Client).

(** The options grow by the controller option in every round. *)
Definition ListTrafficSplits (options : list TrafficSplitListOption) : list TrafficSplit :=
  (foldl (λ '(options, splits) ts,
    if negb (IsMonitoredNamespace (smi_kubeController c) (ts_Namespace ts)) then (options, splits)
    else let options' := options ++ [WithKubeController (smi_kubeController c)] in
         match FilterTrafficSplit (Some ts) options' with
         | Some f => (options', splits ++ [f])
         | None => (options', splits)
         end) (options, []) (informers_List (inf_TrafficSplit c))).2.

Definition ListHTTPTrafficSpecs : list HTTPRouteGroup :=
  List.filter (λ r, IsMonitoredNamespace (smi_kubeController c) (hrg_Namespace r))
    (informers_List (inf_HTTPRouteGroup c)).

Definition GetHTTPRouteGroup (namespacedName : string) : option HTTPRouteGroup :=
  route ← getIfExists (inf_HTTPRouteGroup c) namespacedName;
  if IsMonitoredNamespace (smi_kubeController c) (hrg_Namespace route) then Some route else None.

Definition ListTCPTrafficSpecs : list TCPRoute :=
  List.filter (λ r, IsMonitoredNamespace (smi_kubeController c) (tcp_Namespace r))
    (informers_List (inf_TCPRoute c)).

Definition GetTCPRoute (namespacedName : string) : option TCPRoute :=
  route ← getIfExists (inf_TCPRoute c) namespacedName;
  if IsMonitoredNamespace (smi_kubeController c) (tcp_Namespace route) then Some route else None.

Definition ListTrafficTargets (options : list TrafficTargetListOption) : list TrafficTarget :=
  foldl (λ targets t,
    if negb (IsMonitoredNamespace (smi_kubeController c) (tt_Namespace t)) then targets
    else if negb (isValidTrafficTarget t) then targets
    else match FilterTrafficTarget (Some t) options with
         | Some _ => targets ++ [t]
         | None => targets
         end) [] (informers_List (inf_TrafficTarget c)).

Definition ListServiceAccounts : list K8sServiceAccount :=
  foldl (λ accounts t,
    if negb (IsMonitoredNamespace (smi_kubeController c) (tt_Namespace t)) then accounts
    else if negb (isValidTrafficTarget t) then accounts
    else
      foldl (λ accounts s,
        if negb (IsMonitoredNamespace (smi_kubeController c) (ibs_Namespace s)) then accounts
        else accounts ++ [mkSA (ibs_Namespace s) (ibs_Name s)]) accounts (tt_Sources t)
      ++ [mkSA (ibs_Namespace (tt_Destination t)) (ibs_Name (tt_Destination t))])
    [] (informers_List (inf_TrafficTarget c)).

End client.

(** ** The interface *)

Record MeshSpec := mkMeshSpec {
  ms_ListTrafficSplits : list TrafficSplitListOption → list TrafficSplit;
  ms_ListServiceAccounts : list K8sServiceAccount;
  ms_ListHTTPTrafficSpecs : list HTTPRouteGroup;
  ms_GetHTTPRouteGroup : string → option HTTPRouteGroup;
  ms_ListTCPTrafficSpecs : list TCPRoute;
  ms_GetTCPRoute : string → option TCPRoute;
  ms_ListTrafficTargets : list TrafficTargetListOption → list TrafficTarget
}.

Definition client_MeshSpec (c : Client) : MeshSpec := {|
  ms_ListTrafficSplits := ListTrafficSplits c;
  ms_ListServiceAccounts := ListServiceAccounts c;
  ms_ListHTTPTrafficSpecs := ListHTTPTrafficSpecs c;
  ms_GetHTTPRouteGroup := GetHTTPRouteGroup c;
  ms_ListTCPTrafficSpecs := ListTCPTrafficSpecs c;
  ms_GetTCPRoute := GetTCPRoute c;
  ms_ListTrafficTargets := ListTrafficTargets c
|}.

(** The account a binding subject names. *)
Definition subjectAccount (s : IdentityBindingSubject) : K8sServiceAccount :=
  mkSA (ibs_Namespace s) (ibs_Name s).

(** What a mesh specification promises about TrafficTargets and
    TrafficSplits. *)
Class MeshSpecLaws (spec : MeshSpec) : Prop := {
  targets_valid : ∀ opts t, t ∈ ms_ListTrafficTargets spec opts → isValidTrafficTarget t = true;
  targets_by_destination : ∀ sa t, sa_Name sa ≠ "" →
    t ∈ ms_ListTrafficTargets spec [WithTrafficTargetDestination sa] ↔
    t ∈ ms_ListTrafficTargets spec [] ∧ subjectAccount (tt_Destination t) = sa;
  splits_by_backend : ∀ svc t, Name svc ≠ "" →
    t ∈ ms_ListTrafficSplits spec [WithTrafficSplitBackendService svc] ↔
    t ∈ ms_ListTrafficSplits spec [] ∧ ts_Namespace t = Namespace svc ∧
    ∃ b, b ∈ ts_Backends t ∧ tsb_Service b = Name svc
}.

(** ** Lemmas *)

Lemma ListTrafficTargets_filter c opts :
  ListTrafficTargets c opts =
  List.filter (λ t, IsMonitoredNamespace (smi_kubeController c) (tt_Namespace t) &&
    isValidTrafficTarget t && bool_decide (is_Some (FilterTrafficTarget (Some t) opts)))
    (informers_List (inf_TrafficTarget c)).
Proof.
  unfold ListTrafficTargets. rewrite <-bind_filter. apply (foldl_collect _ _ []). intros acc t.
  destruct (IsMonitoredNamespace _ _); cbn [negb andb]; [|by rewrite app_nil_r].
  destruct (isValidTrafficTarget t); cbn [negb andb]; [|by rewrite app_nil_r].
  destruct (FilterTrafficTarget (Some t) opts).
  - by rewrite bool_decide_eq_true_2 by (by eexists).
  - rewrite bool_decide_eq_false_2 by (by intros [? ?]). by rewrite app_nil_r.
Qed.

(** Repeating the controller option changes nothing. *)
Lemma applyOptions_controller o options ctl n :
  applyOptions o (options ++ replicate (S n) (WithKubeController ctl)) =
  WithKubeController ctl (applyOptions o options).
Proof.
  unfold applyOptions. rewrite foldl_app. induction n as [|n IH]; [done|].
  rewrite (replicate_S_end (S n)), foldl_app, IH. done.
Qed.

Lemma FilterTrafficSplit_options ts opts1 opts2 :
  (∀ o, applyOptions o opts1 = applyOptions o opts2) →
  FilterTrafficSplit ts opts1 = FilterTrafficSplit ts opts2.
Proof. intros E. unfold FilterTrafficSplit. destruct ts; simpl; [|done]. by rewrite E. Qed.

Lemma FilterTrafficSplit_Some ts opts f : FilterTrafficSplit (Some ts) opts = Some f → f = ts.
Proof. unfold FilterTrafficSplit. simpl. repeat case_match; naive_solver. Qed.

Lemma ListTrafficSplits_filter c opts :
  ListTrafficSplits c opts =
  List.filter (λ ts, IsMonitoredNamespace (smi_kubeController c) (ts_Namespace ts) &&
    bool_decide (is_Some (FilterTrafficSplit (Some ts) (opts ++ [WithKubeController (smi_kubeController c)]))))
    (informers_List (inf_TrafficSplit c)).
Proof.
  unfold ListTrafficSplits. set (l := informers_List _). clearbody l.
  set (ctl := smi_kubeController c).
  assert (∀ n acc, (foldl (λ '(options, splits) ts,
    if negb (IsMonitoredNamespace ctl (ts_Namespace ts)) then (options, splits)
    else let options' := options ++ [WithKubeController ctl] in
         match FilterTrafficSplit (Some ts) options' with
         | Some f => (options', splits ++ [f])
         | None => (options', splits)
         end) (opts ++ replicate n (WithKubeController ctl), acc) l).2 =
    acc ++ List.filter (λ ts, IsMonitoredNamespace ctl (ts_Namespace ts) &&
      bool_decide (is_Some (FilterTrafficSplit (Some ts) (opts ++ [WithKubeController ctl])))) l) as H.
  { induction l as [|ts l IH]; intros n acc; cbn [foldl List.filter]; [by rewrite app_nil_r|].
    destruct (IsMonitoredNamespace _ _); cbn [negb andb]; [|apply IH].
    rewrite <-app_assoc, <-replicate_S_end.
    rewrite (FilterTrafficSplit_options _ (opts ++ replicate (S n) _) (opts ++ [WithKubeController ctl])).
    2:{ intros o. rewrite applyOptions_controller. symmetry. apply (applyOptions_controller o opts ctl 0). }
    destruct (FilterTrafficSplit _ _) as [f|] eqn:Ef; rewrite IH.
    - rewrite bool_decide_eq_true_2 by (by eexists). apply FilterTrafficSplit_Some in Ef as ->.
      by rewrite <-app_assoc.
    - by rewrite bool_decide_eq_false_2 by (by intros [? ?]). }
  specialize (H 0 []). cbn [replicate] in H. by rewrite app_nil_r in H.
Qed.

#[export] Instance smi_laws c : MeshSpecLaws (client_MeshSpec c).
Proof.
  split; cbn [client_MeshSpec ms_ListTrafficTargets ms_ListTrafficSplits].
  - intros opts t. rewrite ListTrafficTargets_filter, elem_of_lfilter, !andb_true_iff. tauto.
  - intros sa t Hsa. rewrite !ListTrafficTargets_filter, !elem_of_lfilter, !andb_true_iff, !bool_decide_eq_true.
    unfold FilterTrafficTarget. simpl. rewrite (bool_decide_eq_false_2 (sa_Name sa = "")) by done. simpl.
    assert (is_Some (if negb (bool_decide (sa_Namespace sa = ibs_Namespace (tt_Destination t)))
                        || negb (bool_decide (sa_Name sa = ibs_Name (tt_Destination t)))
                     then None else Some t) ↔ subjectAccount (tt_Destination t) = sa) as ->.
    { destruct sa as [ns n]. unfold subjectAccount. simpl. split.
      - repeat case_bool_decide; simpl; try (by intros [? ?]). by subst.
      - intros [= <- <-]. by rewrite !bool_decide_eq_true_2. }
    naive_solver eauto.
  - intros svc t Hsvc. rewrite !ListTrafficSplits_filter, !elem_of_lfilter, !andb_true_iff, !bool_decide_eq_true.
    unfold FilterTrafficSplit. simpl. rewrite (bool_decide_eq_false_2 (Name svc = "")) by done. simpl.
    assert (is_Some (if negb (bool_decide (ts_Namespace t = Namespace svc))
                        || negb (existsb (λ b, bool_decide (tsb_Service b = Name svc)) (ts_Backends t))
                     then None else Some t) ↔
            ts_Namespace t = Namespace svc ∧ ∃ b, b ∈ ts_Backends t ∧ tsb_Service b = Name svc) as ->.
    { assert (existsb (λ b, bool_decide (tsb_Service b = Name svc)) (ts_Backends t) = true ↔
              ∃ b, b ∈ ts_Backends t ∧ tsb_Service b = Name svc) as <-.
      { rewrite existsb_exists. setoid_rewrite list_elem_of_In. by setoid_rewrite bool_decide_eq_true. }
      case_bool_decide; destruct (existsb _ _); simpl; split; try naive_solver; by intros [? ?]. }
    naive_solver eauto.
Qed.

Lemma hasValidRules_spec rules :
  hasValidRules rules = true ↔
  rules ≠ [] ∧ ∀ r, r ∈ rules → ttr_Kind r = HTTPRouteGroupKind ∨ ttr_Kind r = TCPRouteKind.
Proof.
  unfold hasValidRules. rewrite andb_true_iff, negb_true_iff, bool_decide_eq_false, forallb_forall.
  setoid_rewrite <-list_elem_of_In. setoid_rewrite orb_true_iff. setoid_rewrite bool_decide_eq_true.
  destruct rules; simpl; naive_solver.
Qed.

(** ** Properties *)

(** The TrafficTargets listed for a destination are exactly those of the
    cache that live in a monitored namespace, target their own namespace,
    have rules, all of a supported kind, and name the account. *)
Theorem traffic_targets_exact c sa t :
  sa_Name sa ≠ "" →
  t ∈ ListTrafficTargets c [WithTrafficTargetDestination sa] ↔
  t ∈ informers_List (inf_TrafficTarget c) ∧
  IsMonitoredNamespace (smi_kubeController c) (tt_Namespace t) = true ∧
  tt_Namespace t = ibs_Namespace (tt_Destination t) ∧
  (tt_Rules t ≠ [] ∧ ∀ r, r ∈ tt_Rules t → ttr_Kind r = HTTPRouteGroupKind ∨ ttr_Kind r = TCPRouteKind) ∧
  subjectAccount (tt_Destination t) = sa.
Proof.
  intros Hsa. rewrite <-hasValidRules_spec. pose proof (targets_by_destination (spec:=client_MeshSpec c) sa t Hsa) as H.
  simpl in H. rewrite H, ListTrafficTargets_filter, elem_of_lfilter, !andb_true_iff.
  unfold isValidTrafficTarget. rewrite andb_true_iff, !bool_decide_eq_true. simpl. naive_solver.
Qed.

(** The TrafficSplits listed for an apex service are exactly those of the
    cache in the service's namespace, if monitored, whose root hostname
    is read as the service's name or its namespaced key. *)
Theorem traffic_splits_exact c svc t :
  Name svc ≠ "" →
  t ∈ ListTrafficSplits c [WithTrafficSplitApexService svc] ↔
  t ∈ informers_List (inf_TrafficSplit c) ∧
  IsMonitoredNamespace (smi_kubeController c) (ts_Namespace t) = true ∧
  ts_Namespace t = Namespace svc ∧
  (GetServiceFromHostname (Some (smi_kubeController c)) (ts_Service t) = Name svc ∨
   GetServiceFromHostname (Some (smi_kubeController c)) (ts_Service t) = NamespacedKey svc).
Proof.
  intros Hsvc. rewrite ListTrafficSplits_filter, elem_of_lfilter, andb_true_iff, bool_decide_eq_true.
  unfold FilterTrafficSplit. simpl. rewrite (bool_decide_eq_false_2 (Name svc = "")) by done. simpl.
  repeat case_bool_decide; simpl; split; try naive_solver; by intros (? & ? & [? ?]).
Qed.

(** Looking a route group up by key agrees with listing: on a store that
    keeps client-go's contract, [GetHTTPRouteGroup] finds exactly the listed
    group with that key, and never one of an unmonitored namespace. *)
Theorem route_group_lookup_agrees c s key k r :
  inf_HTTPRouteGroup c = Some s → StoreLaws key s →
  GetHTTPRouteGroup c k = Some r ↔ r ∈ ListHTTPTrafficSpecs c ∧ key r = k.
Proof.
  intros Es Hs. unfold GetHTTPRouteGroup, ListHTTPTrafficSpecs.
  rewrite elem_of_lfilter, Es, bind_Some. simpl.
  setoid_rewrite (getIfExists_laws key s); [|done]. split.
  - intros (r' & [? ?] & E). case_match; simplify_eq. auto.
  - intros [[? Hm] ?]. exists r. by rewrite Hm.
Qed.

(** ** Witnesses *)

Definition demoTarget : TrafficTarget :=
  mkTrafficTarget "shop" "t" (mkSubject ServiceAccountKind "cart" "shop")
    [mkSubject ServiceAccountKind "web" "shop"] [mkTTRule HTTPRouteGroupKind "routes" ["all"]].
Definition demoSplit : TrafficSplit :=
  mkTrafficSplit "shop" "s" "cart.shop" [mkSplitBackend "cart-v1" 90; mkSplitBackend "cart-v2" 10] [].
Definition demoGroup : HTTPRouteGroup :=
  mkHTTPRouteGroup "shop" "routes" (Some [mkHTTPMatch "all" None "" None]).
Definition groupKey (r : HTTPRouteGroup) : string := hrg_Namespace r +:+ "/" +:+ hrg_Name r.

Definition demoClient : Client := {|
  inf_TrafficSplit := Some (mkStore [demoSplit] (λ _, (None, false)));
  inf_HTTPRouteGroup := Some (listStore groupKey [demoGroup]);
  inf_TCPRoute := None;
  inf_TrafficTarget := Some (mkStore [demoTarget] (λ _, (None, false)));
  smi_kubeController := demoController
|}.

Lemma traffic_targets_exact_witness :
  demoTarget ∈ ListTrafficTargets demoClient [WithTrafficTargetDestination (mkSA "shop" "cart")].
Proof.
  apply (traffic_targets_exact demoClient (mkSA "shop" "cart") demoTarget); [done|].
  repeat split; try done; [by left|]. intros r ->%list_elem_of_singleton. by left.
Defined.

Lemma traffic_splits_exact_witness :
  demoSplit ∈ ListTrafficSplits demoClient [WithTrafficSplitApexService (named "shop" "cart")].
Proof.
  apply (traffic_splits_exact demoClient (named "shop" "cart") demoSplit); [done|].
  repeat split; try done; [by left|]. left. vm_compute. reflexivity.
Defined.

Lemma route_group_lookup_agrees_witness : GetHTTPRouteGroup demoClient "shop/routes" = Some demoGroup.
Proof.
  apply (route_group_lookup_agrees demoClient (listStore groupKey [demoGroup]) groupKey); [done| |].
  - apply listStore_laws.
  - split; [by left|done].
Defined.

End Smi.
