(* ===== verification/Policy.v ===== *)
(** * Policy resources: pkg/policy (client.go, conflicts.go, types.go)

    Lookups of the policy.flomesh.io resources in the informer caches, the
    interface the catalog uses, and the conflict detection of the validating
    webhook. *)

From S2P Require Import Prelude Identity Service Api K8s.
Import Identity.Identity Service.Service Api.Api K8s.K8s.

Module Policy.

Definition kindSvcAccount : string := "ServiceAccount".

Record UpstreamTrafficSettingGetOpt := mkUTSOpt {
  opt_MeshService : option MeshService;
  opt_NamespacedName : option NamespacedName;
  opt_Host : string
}.

Record Client := mkClient {
  inf_Isolation : option (Store Isolation);
  inf_EgressGateway : option (Store EgressGateway);
  inf_Egress : option (Store Egress);
  inf_IngressBackend : option (Store IngressBackend);
  inf_Retry : option (Store Retry);
  inf_AccessControl : option (Store AccessControl);
  inf_TrafficWarmup : option (Store TrafficWarmup);
  inf_UpstreamTrafficSetting : option (Store UpstreamTrafficSetting);
  pol_kubeController : Controller
}.

Section client.
Context (trustDomain : string) (c : Client).

Definition ListIsolationPolicies : list Isolation := informers_List (inf_Isolation c).
Definition ListEgressGateways : list EgressGateway := informers_List (inf_EgressGateway c).

(** A policy is appended once per matching source. *)
Definition ListEgressPoliciesForSourceIdentity (source : K8sServiceAccount) : list Egress :=
  foldl (λ policies e,
    if negb (IsMonitoredNamespace (pol_kubeController c) (eg_Namespace e)) then policies
    else foldl (λ policies s,
           if bool_decide (ess_Kind s = kindSvcAccount) && bool_decide (ess_Name s = sa_Name source) &&
              bool_decide (ess_Namespace s = sa_Namespace source)
           then policies ++ [e] else policies) policies (es_Sources (eg_Spec e)))
    [] (informers_List (inf_Egress c)).

(** A backend of a resource that is the service and its target port. *)
Definition isBackendOf (svc : MeshService) (b : BackendSpec) : bool :=
  bool_decide (be_Name b = Name svc) && bool_decide (ps_Number (be_Port b) = TargetPort svc).

Definition GetIngressBackendPolicy (svc : MeshService) : option IngressBackend :=
  snd <$> list_find (λ ib, bool_decide (ib_Namespace ib = Namespace svc) &&
                           existsb (isBackendOf svc) (ib_Backends ib) = true)
                    (informers_List (inf_IngressBackend c)).

Definition ListRetryPolicies (source : K8sServiceAccount) : list Retry :=
  List.filter (λ r, let s := rs_Source (retry_Spec r) in
    bool_decide (rsd_Kind s = kindSvcAccount) && bool_decide (rsd_Name s = sa_Name source) &&
    bool_decide (rsd_Namespace s = sa_Namespace source)) (informers_List (inf_Retry c)).

(** First the resources that name the backend, then any without backends. *)
Definition GetAccessControlPolicy (svc : MeshService) : option AccessControl :=
  let acls := informers_List (inf_AccessControl c) in
  match list_find (λ acl, bool_decide (ac_Namespace acl = Namespace svc) &&
                          existsb (isBackendOf svc) (ac_Backends acl) = true) acls with
  | Some (_, acl) => Some acl
  | None => snd <$> list_find (λ acl, length (ac_Backends acl) = 0) acls
  end.

Definition GetTrafficWarmupPolicy (svc : MeshService) : option TrafficWarmupSpec :=
  warmup ← getIfExists (inf_TrafficWarmup c) (NamespacedKey svc);
  if IsMonitoredNamespace (pol_kubeController c) (two_Namespace warmup) then Some (two_Spec warmup) else None.

(** The hosts of a setting that select the service. *)
Definition selectsService (svc : MeshService) (uts : UpstreamTrafficSetting) : bool :=
  let host := utss_Host (uts_Spec uts) in
  bool_decide (uts_Namespace uts = Namespace svc) &&
  (bool_decide (host = PolicyName svc true) || bool_decide (host = PolicyName svc false) ||
   bool_decide (host = FQDN trustDomain svc)).

(** The loop over the settings; [options.MeshService] is dereferenced unless
    the host matches. *)
Fixpoint findSetting (options : UpstreamTrafficSettingGetOpt) (l : list UpstreamTrafficSetting)
    : go (option UpstreamTrafficSetting) :=
  match l with
  | [] => Ret None
  | uts :: rest =>
      if bool_decide (utss_Host (uts_Spec uts) = opt_Host options) then Ret (Some uts)
      else svc ← deref (opt_MeshService options);
           if selectsService svc uts then Ret (Some uts) else findSetting options rest
  end.

Definition GetUpstreamTrafficSetting (options : UpstreamTrafficSettingGetOpt)
    : go (option UpstreamTrafficSetting) :=
  match opt_MeshService options, opt_NamespacedName options with
  | None, None =>
      if bool_decide (opt_Host options = "") then Ret None
      else findSetting options (informers_List (inf_UpstreamTrafficSetting c))
  | _, Some nn => Ret (getIfExists (inf_UpstreamTrafficSetting c) (nn_String nn))
  | _, None => findSetting options (informers_List (inf_UpstreamTrafficSetting c))
  end.

End client.

(** ** The interface *)

Record PolicyController := mkPolicyController {
  pc_ListIsolationPolicies : list Isolation;
  pc_ListEgressGateways : list EgressGateway;
  pc_ListEgressPoliciesForSourceIdentity : K8sServiceAccount → list Egress;
  pc_GetIngressBackendPolicy : MeshService → option IngressBackend;
  pc_ListRetryPolicies : K8sServiceAccount → list Retry;
  pc_GetAccessControlPolicy : MeshService → option AccessControl;
  pc_GetTrafficWarmupPolicy : MeshService → option TrafficWarmupSpec;
  pc_GetUpstreamTrafficSetting : UpstreamTrafficSettingGetOpt → go (option UpstreamTrafficSetting)
}.

Definition client_PolicyController (trustDomain : string) (c : Client) : PolicyController := {|
  pc_ListIsolationPolicies := ListIsolationPolicies c;
  pc_ListEgressGateways := ListEgressGateways c;
  pc_ListEgressPoliciesForSourceIdentity := ListEgressPoliciesForSourceIdentity c;
  pc_GetIngressBackendPolicy := GetIngressBackendPolicy c;
  pc_ListRetryPolicies := ListRetryPolicies c;
  pc_GetAccessControlPolicy := GetAccessControlPolicy c;
  pc_GetTrafficWarmupPolicy := GetTrafficWarmupPolicy c;
  pc_GetUpstreamTrafficSetting := GetUpstreamTrafficSetting trustDomain c
|}.

Definition byService (svc : MeshService) : UpstreamTrafficSettingGetOpt := mkUTSOpt (Some svc) None "".
Definition byName (nn : NamespacedName) : UpstreamTrafficSettingGetOpt := mkUTSOpt None (Some nn) "".
Definition byHost (host : string) : UpstreamTrafficSettingGetOpt := mkUTSOpt None None host.

(** What the catalog relies on: asking by service or by name returns, the
    ingress policy found names the service, egress policies name the
    account. *)
Class PolicyLaws (pc : PolicyController) : Prop := {
  setting_by_service : ∀ svc, ∃ r, pc_GetUpstreamTrafficSetting pc (byService svc) = Ret r;
  setting_by_name : ∀ nn, ∃ r, pc_GetUpstreamTrafficSetting pc (byName nn) = Ret r;
  ingress_names_service : ∀ svc ib, pc_GetIngressBackendPolicy pc svc = Some ib →
    ib_Namespace ib = Namespace svc ∧ ∃ b, b ∈ ib_Backends ib ∧ isBackendOf svc b = true
}.

(** ** Conflicts *)

Section conflicts.
Context `{MS : MapSet}.

Definition setKey : Type := string * Z.
Definition backendKeys (bs : list BackendSpec) : mset setKey :=
  NewSetFromSlice (map (λ b, (be_Name b, ps_Number (be_Port b))) bs).

(** The body the two functions share; an error names the backend. *)
Definition detectConflicts (xName yName : string) (xs ys : list BackendSpec) : list string :=
  let duplicates := Intersect (backendKeys xs) (backendKeys ys) in
  map (λ b : setKey, "Backend " +:+ b.1 +:+ " specified in " +:+ xName +:+ " and " +:+ yName +:+ " conflicts")
    (ToSlice duplicates).

Definition DetectIngressBackendConflicts (x y : IngressBackend) : list string :=
  detectConflicts (ib_Name x) (ib_Name y) (ib_Backends x) (ib_Backends y).

Definition DetectAccessControlConflicts (x y : AccessControl) : list string :=
  detectConflicts (ac_Name x) (ac_Name y) (ac_Backends x) (ac_Backends y).

End conflicts.

(** ** Lemmas *)

Lemma list_find_snd {A} (P : A → Prop) `{∀ x, Decision (P x)} (l : list A) x :
  snd <$> list_find P l = Some x → x ∈ l ∧ P x.
Proof.
  intros ([i y] & [? ?]%list_find_Some & ->)%fmap_Some. split; [by eapply list_elem_of_lookup_2|tauto].
Qed.

Lemma list_find_snd_None {A} (P : A → Prop) `{∀ x, Decision (P x)} (l : list A) :
  snd <$> list_find P l = None ↔ ∀ x, x ∈ l → ¬ P x.
Proof. by rewrite fmap_None, list_find_None, Forall_forall. Qed.

(** The loop with a service and no host: it returns the first setting with an
    empty host or one that selects the service. *)
Lemma findSetting_service td svc l :
  findSetting td (byService svc) l =
  Ret (snd <$> list_find (λ u, utss_Host (uts_Spec u) = "" ∨ selectsService td svc u = true) l).
Proof.
  induction l as [|u l IH]; [done|]. cbn [findSetting byService opt_Host opt_MeshService list_find].
  case_bool_decide as Hh.
  - by rewrite decide_True by auto.
  - simpl. destruct (selectsService td svc u) eqn:E.
    + by rewrite decide_True by auto.
    + rewrite decide_False by naive_solver. rewrite IH. by destruct (list_find _ l) as [[]|].
Qed.

#[export] Instance policy_laws td c : PolicyLaws (client_PolicyController td c).
Proof.
  split; simpl.
  - intros svc. unfold GetUpstreamTrafficSetting. simpl. rewrite findSetting_service. eauto.
  - intros nn. unfold GetUpstreamTrafficSetting. simpl. eauto.
  - intros svc ib [_ [?%bool_decide_eq_true Hb]%andb_true_iff]%list_find_snd. split; [done|].
    apply existsb_exists in Hb as (b & ?%list_elem_of_In & ?). eauto.
Qed.

Lemma isBackendOf_spec svc b :
  isBackendOf svc b = true ↔ be_Name b = Name svc ∧ ps_Number (be_Port b) = TargetPort svc.
Proof. unfold isBackendOf. by rewrite andb_true_iff, !bool_decide_eq_true. Qed.

(** ** Properties *)

(** The traffic setting of a service: the lookup never panics, and the
    setting found is a cached one with an empty host (which therefore
    applies to the services of every namespace) or one of the service's
    namespace whose host is the service's policy name or FQDN; nothing is
    found only if there is no such setting. *)
Theorem setting_of_service td c svc :
  let fits u := utss_Host (uts_Spec u) = "" ∨
    uts_Namespace u = Namespace svc ∧
    (utss_Host (uts_Spec u) = PolicyName svc true ∨ utss_Host (uts_Spec u) = PolicyName svc false ∨
     utss_Host (uts_Spec u) = FQDN td svc) in
  let l := informers_List (inf_UpstreamTrafficSetting c) in
  (∃ u, GetUpstreamTrafficSetting td c (byService svc) = Ret (Some u) ∧ u ∈ l ∧ fits u) ∨
  (GetUpstreamTrafficSetting td c (byService svc) = Ret None ∧ ∀ u, u ∈ l → ¬ fits u).
Proof.
  intros fits l. unfold GetUpstreamTrafficSetting. simpl. rewrite findSetting_service. fold l.
  assert (∀ u, (utss_Host (uts_Spec u) = "" ∨ selectsService td svc u = true) ↔ fits u) as Hf.
  { intros u. unfold fits, selectsService. rewrite andb_true_iff, !orb_true_iff, !bool_decide_eq_true. tauto. }
  destruct (snd <$> list_find _ l) as [u|] eqn:E.
  - left. exists u. apply list_find_snd in E as [? ?%Hf]. auto.
  - right. split; [done|]. intros u Hu ?%Hf. by eapply list_find_snd_None in E.
Qed.

(** Asking for a setting by host alone panics as soon as the first cached
    setting has another host: the loop then dereferences the service, which
    is nil. *)
Theorem setting_by_host_panics td c host u l :
  host ≠ "" → informers_List (inf_UpstreamTrafficSetting c) = u :: l →
  utss_Host (uts_Spec u) ≠ host → GetUpstreamTrafficSetting td c (byHost host) = Panic.
Proof.
  intros Hh Hl Hu. unfold GetUpstreamTrafficSetting. simpl. rewrite Hl.
  rewrite bool_decide_eq_false_2 by done. simpl. by rewrite bool_decide_eq_false_2.
Qed.

(** The access-control policy of a service: one that names the service and
    its target port in the service's namespace wins; only if there is none,
    a policy without backends, of any namespace, applies; otherwise none. *)
Theorem access_control_precedence c svc :
  let acls := informers_List (inf_AccessControl c) in
  let strict acl := ac_Namespace acl = Namespace svc ∧
    ∃ b, b ∈ ac_Backends acl ∧ be_Name b = Name svc ∧ ps_Number (be_Port b) = TargetPort svc in
  match GetAccessControlPolicy c svc with
  | Some acl => acl ∈ acls ∧ (strict acl ∨ (∀ a, a ∈ acls → ¬ strict a) ∧ ac_Backends acl = [])
  | None => ∀ a, a ∈ acls → ¬ strict a ∧ ac_Backends a ≠ []
  end.
Proof.
  intros acls strict.
  assert (∀ a, (bool_decide (ac_Namespace a = Namespace svc) &&
    existsb (isBackendOf svc) (ac_Backends a)) = true ↔ strict a) as Hs.
  { intros a. unfold strict. rewrite andb_true_iff, bool_decide_eq_true, existsb_exists.
    setoid_rewrite <-list_elem_of_In. by setoid_rewrite isBackendOf_spec. }
  unfold GetAccessControlPolicy. fold acls.
  destruct (list_find _ acls) as [[i a]|] eqn:E.
  - apply list_find_Some in E as (? & ?%Hs & _). split; [by eapply list_elem_of_lookup_2|auto].
  - apply list_find_None in E. rewrite Forall_forall in E.
    assert (∀ a, a ∈ acls → ¬ strict a) as Hn by (intros a Ha ?%Hs; by eapply E).
    destruct (snd <$> list_find _ acls) as [a|] eqn:E2.
    + apply list_find_snd in E2 as [? ?%nil_length_inv]. auto.
    + intros a Ha. split; [by apply Hn|]. intros Hz.
      apply (proj1 (list_find_snd_None _ _) E2 a Ha). by rewrite Hz.
Qed.

Section conflict_properties.
Context {MS : MapSet} {MSS : MapSetSpec}.

(** Two IngressBackends conflict exactly when some backend name and port
    occurs in both, and there is one error per such pair. *)
Theorem ingress_conflicts_exact x y :
  let shared := list_to_set (C:=gset setKey) (map (λ b, (be_Name b, ps_Number (be_Port b))) (ib_Backends x)) ∩
                list_to_set (map (λ b, (be_Name b, ps_Number (be_Port b))) (ib_Backends y)) in
  length (DetectIngressBackendConflicts x y) = size shared ∧
  (DetectIngressBackendConflicts x y = [] ↔
   ∀ b b', b ∈ ib_Backends x → b' ∈ ib_Backends y →
     be_Name b = be_Name b' → ps_Number (be_Port b) ≠ ps_Number (be_Port b')).
Proof.
  intros shared. unfold DetectIngressBackendConflicts, detectConflicts. rewrite length_map.
  set (d := Intersect _ _).
  assert (elems d = shared) as Hd.
  { unfold d, backendKeys. by rewrite elems_Intersect, !elems_FromSlice. }
  assert (ToSlice d ≡ₚ elements shared) as Hp.
  { apply NoDup_Permutation; [apply ToSlice_NoDup|apply NoDup_elements|].
    intros k. by rewrite elem_of_ToSlice, elem_of_elements, Hd. }
  split; [by rewrite Hp|].
  assert (map (λ b : setKey, "Backend " +:+ b.1 +:+ " specified in " +:+ ib_Name x +:+ " and " +:+
    ib_Name y +:+ " conflicts") (ToSlice d) = [] ↔ shared = ∅) as ->.
  { rewrite <-leibniz_equiv_iff, <-elements_empty_iff. rewrite <-(Permutation_nil_r (elements shared)), <-Hp, Permutation_nil_r.
    split; [by destruct (ToSlice d)|by intros ->]. }
  rewrite elem_of_equiv_empty_L. unfold shared. setoid_rewrite elem_of_intersection.
  setoid_rewrite elem_of_list_to_set. setoid_rewrite list_elem_of_fmap. split.
  - intros H b b' Hb Hb' En Ep. apply (H (be_Name b, ps_Number (be_Port b))).
    split; [by exists b|]. exists b'. by rewrite En, Ep.
  - intros H [n p] [(b & [= -> ->] & Hb) (b' & [= En Ep] & Hb')]. by eapply H.
Qed.

End conflict_properties.

(** ** Witnesses *)

Definition demoBackend (name : string) (port : Z) : BackendSpec := mkBackend name (mkPortSpec port "http") None.
Definition demoSetting (ns name host : string) : UpstreamTrafficSetting :=
  mkUTS ns name (mkUTSSpec host None None None).

Definition demoPolicyClient : Client := {|
  inf_Isolation := None; inf_EgressGateway := None; inf_Egress := None; inf_IngressBackend := None;
  inf_Retry := None; inf_AccessControl := None; inf_TrafficWarmup := None;
  inf_UpstreamTrafficSetting := Some (mkStore [demoSetting "shop" "s" "cart.shop.svc.cluster.local"] (λ _, (None, false)));
  pol_kubeController := demoController
|}.

Lemma setting_by_host_panics_witness :
  GetUpstreamTrafficSetting "cluster.local" demoPolicyClient (byHost "web.shop.svc.cluster.local") = Panic.
Proof. by eapply setting_by_host_panics. Defined.

Lemma ingress_conflicts_exact_witness :
  length (@DetectIngressBackendConflicts gset_MapSet
    (mkIngressBackend "shop" "x" [demoBackend "cart" 80; demoBackend "web" 80] [] (mkStatus "" ""))
    (mkIngressBackend "shop" "y" [demoBackend "cart" 80; demoBackend "web" 81] [] (mkStatus "" ""))) = 1.
Proof.
  rewrite (proj1 (@ingress_conflicts_exact gset_MapSet gset_MapSetSpec _ _)). vm_compute. reflexivity.
Defined.

End Policy.
