(* ===== verification/Catalog.v ===== *)
(** * The mesh catalog: pkg/catalog (types.go, service.go, isolation.go,
      endpoint.go, traffictarget.go, retry.go, egress_gateway.go, plugin.go)

    The catalog answers the proxies' questions from what its controllers and
    providers know.  A [MeshCatalog] is a snapshot of those: each interface
    is a record of functions.  Functions that convert an identity to a
    service account can panic and live in [go]. *)

From S2P Require Import Prelude Identity Service Api MeshConfig Net Cidr TrafficPolicy K8s Smi Policy.
Import Identity.Identity Service.Service Api.Api MeshConfig.MeshConfig Net.Net Cidr.Cidr TrafficPolicy.TrafficPolicy
  K8s.K8s Smi.Smi Policy.Policy.

Module Catalog.

(** ** Endpoints and providers *)

(** pkg/endpoint/types.go *)
Record Endpoint := mkEndpoint {
  ep_IP : IP; ep_Port : Z; ep_Weight : Z; ep_Priority : Z; ep_AppProtocol : string;
  ep_Zone : string; ep_ClusterKey : string; ep_LBType : string; ep_Path : string;
  ep_ClusterID : string; ep_WithGateway : bool; ep_WithMultiGateways : bool;
  ep_ViaGatewayHTTP : string; ep_ViaGatewayGRPC : string; ep_ViaGatewayMode : string
}.

Record EndpointProvider := mkEndpointProvider {
  prov_ListEndpointsForService : MeshService → list Endpoint;
  prov_ListEndpointsForIdentity : ServiceIdentity → list Endpoint;
  prov_GetResolvableEndpointsForService : MeshService → list Endpoint
}.

(** [service.Provider] *)
Record ServiceProvider := mkServiceProvider {
  prov_GetServicesForServiceIdentity : ServiceIdentity → list MeshService;
  prov_ListServiceIdentitiesForService : MeshService → list ServiceIdentity;
  prov_ListServices : list MeshService
}.

(** ** Configuration and the multicluster controller *)

Record Configurator := mkConfigurator {
  IsPermissiveTrafficPolicyMode : bool;
  IsEgressEnabled : bool;
  IsLocalDNSProxyEnabled : bool;
  GetServiceAccessMode : ServiceAccessMode;
  GetServiceAccessNames : option ServiceAccessNames;
  GetFeatureFlags : FeatureFlags;
  GetConnectorLb : LoadBalancer
}.

Record lbWeight := mkLbWeight { lbw_aa : bool; lbw_fo : bool; lbw_weight : Z }.

Record MultiClusterController := mkMultiCluster {
  GetLbWeightForService : MeshService → lbWeight;
  mcc_GetTargetPortForServicePort : NamespacedName → Z → gmap Z bool;
  GetExportedRule : MeshService → string + option ServiceExportRule;
  GetIngressControllerServices : list MeshService
}.

(** ** Plugins (pkg/apis/plugin/v1alpha1), opaque specifications aside *)

Record Plugin := mkPlugin { pl_Name : string; pl_Priority : option float_bits; pl_Script : string }.

Section plugins.
Context {PluginConfigSpec PluginChainSpec : Type}.

Record PluginObject (Spec : Type) := mkPluginObject {
  po_Namespace : string; po_Name : string; po_Spec : Spec }.

Record PluginController := mkPluginController {
  pctl_GetPlugins : list Plugin;
  pctl_GetPluginConfigs : list (PluginObject PluginConfigSpec);
  pctl_GetPluginChains : list (PluginObject PluginChainSpec)
}.

End plugins.

(** trafficpolicy.Plugin: a missing priority is the float zero. *)
Record PluginPolicy := mkPluginPolicy {
  pp_Name : string; pp_Priority : float_bits; pp_Script : string; pp_BuildIn : bool }.

(** ** The catalog *)

Record MeshCatalog := mkMeshCatalog {
  endpointsProviders : list EndpointProvider;
  serviceProviders : list ServiceProvider;
  meshSpec : MeshSpec;
  configurator : Configurator;
  kubeController : Controller;
  policyController : PolicyController;
  multiclusterController : MultiClusterController;
  (* of the certificate manager *)
  GetTrustDomain : string;
  (* the package variable of pkg/service *)
  svcTrustDomain : string;
  (* connector.Decode of an annotation: the metadata of a connector service *)
  decodeMeta : K8sService → string → MicroSvcMeta
}.

Section catalog.
Context {MS : MapSet} (mc : MeshCatalog).

(** *** service.go *)

Definition getServicesForServiceIdentity (svcIdentity : ServiceIdentity) : list MeshService :=
  foldl (λ services p, services ++ prov_GetServicesForServiceIdentity p svcIdentity) [] (serviceProviders mc).

Definition ListServiceIdentitiesForService (svc : MeshService) : list ServiceIdentity :=
  foldl (λ ids p, ids ++ prov_ListServiceIdentitiesForService p svc) [] (serviceProviders mc).

Definition listMeshServices : list MeshService :=
  foldl (λ services p, services ++ prov_ListServices p) [] (serviceProviders mc).

(** *** isolation.go *)

Definition GetIsolationCidrs : list CIDR :=
  foldl (λ cidrs p,
    foldl (λ cidrs s, match ParseCIDR s with
                      | Some c => cidrs ++ [c]
                      | None => cidrs
                      end) cidrs (iso_CIDR p))
    [] (pc_ListIsolationPolicies (policyController mc)).

(** *** endpoint.go *)

(** The loop the three listings share, over what each provider returns. *)
Definition collectEndpoints (listing : EndpointProvider → list Endpoint) : list Endpoint :=
  let isolationCidrs := GetIsolationCidrs in
  foldl (λ endpoints provider,
    let eps := listing provider in
    if bool_decide (length eps = 0) then endpoints
    else if bool_decide (0 < length isolationCidrs) then
      foldl (λ endpoints ep,
        let isolation := existsb (λ c, Has c (ep_IP ep)) isolationCidrs in
        if isolation then endpoints else endpoints ++ [ep]) endpoints eps
    else endpoints ++ eps) [] (endpointsProviders mc).

Definition listEndpointsForService (svc : MeshService) : list Endpoint :=
  collectEndpoints (λ p, prov_ListEndpointsForService p svc).

Definition getDNSResolvableServiceEndpoints (svc : MeshService) : list Endpoint :=
  collectEndpoints (λ p, prov_GetResolvableEndpointsForService p svc).

Definition listEndpointsForServiceIdentity (serviceIdentity : ServiceIdentity) : list Endpoint :=
  collectEndpoints (λ p, prov_ListEndpointsForIdentity p serviceIdentity).

(** *** traffictarget.go *)

Inductive trafficDirection := inbound | outbound.

#[export] Instance trafficDirection_eq_dec : EqDecision trafficDirection.
Proof. solve_decision. Defined.

Definition trafficTargetIdentityToSvcAccount (s : IdentityBindingSubject) : K8sServiceAccount :=
  mkSA (ibs_Namespace s) (ibs_Name s).

Definition trafficTargetIdentityToServiceIdentity (s : IdentityBindingSubject) : ServiceIdentity :=
  ToServiceIdentity (trafficTargetIdentityToSvcAccount s).

Definition trafficTargetIdentitiesToSvcAccounts `{MR : MapRange} (identities : list IdentityBindingSubject)
    : list K8sServiceAccount :=
  let serviceAccountsMap :=
    foldl (λ m id, <[trafficTargetIdentityToSvcAccount id := true]> m) ∅ identities in
  (map_range (serviceAccountsMap : gmap K8sServiceAccount bool)).*1.

(** Is the subject the account? *)
Definition isSubject (sa : K8sServiceAccount) (s : IdentityBindingSubject) : bool :=
  bool_decide (ibs_Name s = sa_Name sa) && bool_decide (ibs_Namespace s = sa_Namespace sa).

(** One TrafficTarget: what it adds to the allowed accounts. *)
Definition allowTarget (svcAccount : K8sServiceAccount) (direction : trafficDirection)
    (allowed : mset K8sServiceAccount) (t : TrafficTarget) : mset K8sServiceAccount :=
  let dest := tt_Destination t in
  if negb (bool_decide (ibs_Kind dest = ServiceAccountKind)) then allowed
  else match direction with
  | inbound =>
      if negb (isSubject svcAccount dest) then allowed
      else foldl (λ allowed s,
             if negb (bool_decide (ibs_Kind s = ServiceAccountKind)) then allowed
             else (Add (trafficTargetIdentityToSvcAccount s) allowed).1) allowed (tt_Sources t)
  | outbound =>
      foldl (λ allowed s,
        if negb (bool_decide (ibs_Kind s = ServiceAccountKind)) then allowed
        else if negb (isSubject svcAccount s) then allowed
        else (Add (trafficTargetIdentityToSvcAccount dest) allowed).1) allowed (tt_Sources t)
  end.

Definition getAllowedDirectionalServiceAccounts (svcIdentity : ServiceIdentity)
    (direction : trafficDirection) : go (list ServiceIdentity) :=
  svcAccount ← ToK8sServiceAccount svcIdentity;
  let allowed := foldl (allowTarget svcAccount direction) NewSet (ms_ListTrafficTargets (meshSpec mc) []) in
  Ret (map ToServiceIdentity (ToSlice allowed)).

Definition ListInboundServiceIdentities (upstream : ServiceIdentity) : go (list ServiceIdentity) :=
  getAllowedDirectionalServiceAccounts upstream inbound.
Definition ListOutboundServiceIdentities (downstream : ServiceIdentity) : go (list ServiceIdentity) :=
  getAllowedDirectionalServiceAccounts downstream outbound.

Definition toUint16Slice (ports : list Z) : list Z :=
  foldl (λ ret port, ret ++ [uint16 port]) [] ports.

(** [None] is errNoTrafficSpecFoundForTrafficPolicy, returned at the first
    missing route. *)
Definition getTCPRouteMatchesFromTrafficTarget (t : TrafficTarget) : option (list TCPRouteMatch) :=
  foldl (λ acc rule,
    matches ← acc;
    if negb (bool_decide (ttr_Kind rule = TCPRouteKind)) then Some matches
    else match ms_GetTCPRoute (meshSpec mc) (tt_Namespace t +:+ "/" +:+ ttr_Name rule) with
         | None => None
         | Some tcpRoute => Some (matches ++ [mkTCPRouteMatch (toUint16Slice (tcp_Ports tcpRoute))])
         end) (Some []) (tt_Rules t).

(** The error is always nil. *)
Definition ListInboundTrafficTargetsWithRoutes (upstream : ServiceIdentity)
    : list TrafficTargetWithRoutes :=
  if IsPermissiveTrafficPolicyMode (configurator mc) then []
  else foldl (λ targets t,
    if negb (bool_decide (ToServiceIdentity (trafficTargetIdentityToSvcAccount (tt_Destination t)) = upstream))
    then targets
    else match getTCPRouteMatchesFromTrafficTarget t with
         | None => targets
         | Some tcpRouteMatches =>
             targets ++ [{| ttw_Name := tt_Namespace t +:+ "/" +:+ tt_Name t;
                            ttw_Destination := trafficTargetIdentityToServiceIdentity (tt_Destination t);
                            ttw_Sources := map trafficTargetIdentityToServiceIdentity (tt_Sources t);
                            ttw_TCPRouteMatches := tcpRouteMatches |}]
         end) [] (ms_ListTrafficTargets (meshSpec mc) []).

(** *** endpoint.go, continued *)

Definition ListAllowedUpstreamEndpointsForService (downstreamIdentity : ServiceIdentity)
    (upstreamSvc : MeshService) : go (list Endpoint) :=
  let outboundEndpoints := listEndpointsForService upstreamSvc in
  if IsPermissiveTrafficPolicyMode (configurator mc) then Ret outboundEndpoints
  else if bool_decide (length outboundEndpoints = 0) then Ret []
  else
    let outboundEndpointsSet : gmap string (list Endpoint) :=
      foldl (λ m ep, map_append (ip_String (ep_IP ep)) [ep] m) ∅ outboundEndpoints in
    destIdentities ← ListOutboundServiceIdentities downstreamIdentity;
    Ret (foldl (λ allowedEndpoints destSvcIdentity,
           foldl (λ allowedEndpoints ep,
             match outboundEndpointsSet !! ip_String (ep_IP ep) with
             | Some eps => allowedEndpoints ++ eps
             | None => allowedEndpoints
             end) allowedEndpoints (listEndpointsForServiceIdentity destSvcIdentity))
           [] destIdentities).

(** *** retry.go *)

(** The policy of the first resource with a destination that is a service and
    a sibling of the upstream. *)
Definition GetRetryPolicy (downstreamIdentity : ServiceIdentity) (upstreamSvc : MeshService)
    : go (option RetryPolicySpec) :=
  if negb (EnableRetryPolicy (GetFeatureFlags (configurator mc))) then Ret None
  else
    src ← ToK8sServiceAccount downstreamIdentity;
    Ret ((λ '(_, r), rs_RetryPolicy (retry_Spec r)) <$>
         list_find (λ r, existsb (λ dest,
             bool_decide (rsd_Kind dest = "Service") &&
             SiblingTo upstreamSvc (named (rsd_Namespace dest) (rsd_Name dest)))
           (rs_Destinations (retry_Spec r)) = true)
         (pc_ListRetryPolicies (policyController mc) src)).

(** *** egress_gateway.go *)

Record EgressGatewayConfig := mkEgressGatewayConfig {
  egc_Service : string; egc_Namespace : string; egc_Mode : string; egc_Weight : option Z;
  egc_Endpoints : list Endpoint }.

Definition EgressGatewayModeAnnotation : string := "flomesh.io/egress-gateway-mode".
Definition EgressGatewayModeHTTP2Tunnel : string := "http2tunnel".
Definition EgressGatewayModeSock5 : string := "sock5".

Definition egressGatewayMode (annotations : gmap string string) : string :=
  match annotations !! EgressGatewayModeAnnotation with
  | Some mode => if bool_decide (mode = EgressGatewayModeHTTP2Tunnel) || bool_decide (mode = EgressGatewayModeSock5)
                 then mode else EgressGatewayModeHTTP2Tunnel
  | None => EgressGatewayModeHTTP2Tunnel
  end.

(** nil without gateways; otherwise the global gateways whose service exists.
    The policy's rules are never set. *)
Definition GetEgressGatewayPolicy : option (list EgressGatewayConfig) :=
  let egressGateways := pc_ListEgressGateways (policyController mc) in
  if bool_decide (length egressGateways = 0) then None
  else Some (foldl (λ global gw,
    foldl (λ global g,
      let svc := named (gbs_Namespace g) (gbs_Service g) in
      match GetService (kubeController mc) svc with
      | None => global
      | Some k8sSvc =>
          global ++ [{| egc_Service := gbs_Service g; egc_Namespace := gbs_Namespace g;
                        egc_Mode := egressGatewayMode (k8s_Annotations k8sSvc);
                        egc_Weight := gbs_Weight g;
                        egc_Endpoints := listEndpointsForService svc |}]
      end) global (slice_elems (egw_GlobalEgressGateways gw))) [] egressGateways).

Definition getGatewayForEgress (egressPolicy : option Egress) : option string :=
  match egressPolicy with
  | None => None
  | Some _ =>
      if existsb (λ gw, bool_decide (is_Some (egw_GlobalEgressGateways gw)))
           (pc_ListEgressGateways (policyController mc))
      then Some "*" else None
  end.

(** *** plugin.go *)

Section plugins.
Context {CS HS : Type} (ctl : @PluginController CS HS).

Definition GetPlugins : list PluginPolicy :=
  if negb (EnablePluginPolicy (GetFeatureFlags (configurator mc))) then []
  else map (λ p, {| pp_Name := pl_Name p; pp_Priority := default 0%Z (pl_Priority p);
                    pp_Script := pl_Script p; pp_BuildIn := false |}) (pctl_GetPlugins ctl).

Definition GetPluginConfigs : list (PluginObject CS) :=
  if negb (EnablePluginPolicy (GetFeatureFlags (configurator mc))) then []
  else pctl_GetPluginConfigs ctl.

Definition GetPluginChains : list (PluginObject HS) :=
  if negb (EnablePluginPolicy (GetFeatureFlags (configurator mc))) then []
  else pctl_GetPluginChains ctl.

End plugins.

End catalog.

End Catalog.
