(* ===== verification/CatalogFacts.v ===== *)
(** * Properties of the catalog's listings

    Isolation removes exactly the endpoints in isolated blocks; the two
    directions of TrafficTarget authorization agree; in SMI mode the upstream
    endpoints offered to a client are those of authorized accounts. *)

From S2P Require Import Prelude Identity Service Api MeshConfig Net NetFacts Cidr CidrFacts TrafficPolicy K8s Smi Policy.
From S2P Require Import Catalog.
Import Identity.Identity Service.Service Api.Api MeshConfig.MeshConfig Net.Net Cidr.Cidr TrafficPolicy.TrafficPolicy
  K8s.K8s Smi.Smi Policy.Policy Catalog.Catalog.

Module CatalogFacts.

(** ** Isolation *)

(** The address lies in a block some isolation policy names. *)
Definition isolated (mc : MeshCatalog) (ip : IP) : Prop :=
  ∃ p s c, p ∈ pc_ListIsolationPolicies (policyController mc) ∧ s ∈ iso_CIDR p ∧
    ParseCIDR s = Some c ∧ Has c ip = true.

Lemma elem_of_GetIsolationCidrs mc c :
  c ∈ GetIsolationCidrs mc ↔
  ∃ p s, p ∈ pc_ListIsolationPolicies (policyController mc) ∧ s ∈ iso_CIDR p ∧ ParseCIDR s = Some c.
Proof.
  unfold GetIsolationCidrs.
  rewrite (foldl_collect _ (λ p, iso_CIDR p ≫= λ s, match ParseCIDR s with Some c => [c] | None => [] end)).
  - simpl. rewrite list_elem_of_bind. setoid_rewrite list_elem_of_bind. split.
    + intros (p & (s & Hc & Hs) & Hp). exists p, s. destruct (ParseCIDR s); set_solver.
    + intros (p & s & Hp & Hs & Hc). exists p. split; [|done]. exists s. rewrite Hc. set_solver.
  - intros acc p. apply foldl_collect. intros acc' s. destruct (ParseCIDR s); [done|by rewrite app_nil_r].
Qed.

Lemma existsb_isolated mc ip :
  existsb (λ c, Has c ip) (GetIsolationCidrs mc) = true ↔ isolated mc ip.
Proof.
  rewrite existsb_exists. unfold isolated. setoid_rewrite <-list_elem_of_In.
  setoid_rewrite elem_of_GetIsolationCidrs. naive_solver.
Qed.

(** The shared loop is a filter of what the providers return, in order. *)
Lemma collectEndpoints_filter mc listing :
  collectEndpoints mc listing =
  List.filter (λ ep, negb (existsb (λ c, Has c (ep_IP ep)) (GetIsolationCidrs mc)))
    (endpointsProviders mc ≫= listing).
Proof.
  unfold collectEndpoints. set (cidrs := GetIsolationCidrs mc).
  rewrite (foldl_collect _ (λ p, List.filter (λ ep, negb (existsb (λ c, Has c (ep_IP ep)) cidrs)) (listing p))).
  - simpl. induction (endpointsProviders mc) as [|p ps IH]; [done|].
    by rewrite !bind_cons, IH, List.filter_app.
  - intros acc p. destruct (listing p) as [|e eps] eqn:E; [simpl; by rewrite app_nil_r|].
    rewrite (bool_decide_eq_false_2 (length _ = 0)) by done. case_bool_decide as Hc.
    + rewrite <-bind_filter. apply foldl_collect. intros acc' ep.
      destruct (existsb _ _); simpl; [by rewrite app_nil_r|done].
    + f_equal. destruct cidrs; [|simpl in Hc; lia]. generalize (e :: eps). clear.
      intros l. induction l as [|x l IH]; [done|]. simpl in *. by f_equal.
Qed.

Lemma elem_of_collectEndpoints mc listing ep :
  ep ∈ collectEndpoints mc listing ↔
  (∃ p, p ∈ endpointsProviders mc ∧ ep ∈ listing p) ∧ ¬ isolated mc (ep_IP ep).
Proof.
  rewrite collectEndpoints_filter, elem_of_lfilter, negb_true_iff, <-existsb_isolated, not_true_iff_false.
  rewrite list_elem_of_bind. naive_solver.
Qed.

(** ** TrafficTarget authorization *)

(** TrafficTarget [t] lets account [d] reach account [u]. *)
Definition authorizes (t : TrafficTarget) (u d : K8sServiceAccount) : Prop :=
  ibs_Kind (tt_Destination t) = ServiceAccountKind ∧
  trafficTargetIdentityToSvcAccount (tt_Destination t) = u ∧
  ∃ s, s ∈ tt_Sources t ∧ ibs_Kind s = ServiceAccountKind ∧ trafficTargetIdentityToSvcAccount s = d.

Lemma isSubject_spec sa s : isSubject sa s = true ↔ trafficTargetIdentityToSvcAccount s = sa.
Proof.
  unfold isSubject, trafficTargetIdentityToSvcAccount. rewrite andb_true_iff, !bool_decide_eq_true.
  destruct sa. naive_solver.
Qed.

Section sets.
Context {MS : MapSet} {MSS : MapSetSpec}.

(** A loop that adds the images of some elements to a set. *)
Lemma elems_foldl_add {A B} `{Countable B} (keep : A → bool) (f : A → B) s l x :
  x ∈ elems (foldl (λ s a, if keep a then (Add (f a) s).1 else s) s l) ↔
  x ∈ elems s ∨ ∃ a, a ∈ l ∧ keep a = true ∧ f a = x.
Proof.
  revert s. induction l as [|a l IH]; intros s; simpl; [set_solver|]. rewrite IH.
  setoid_rewrite elem_of_cons. destruct (keep a) eqn:E.
  - rewrite elems_Add, elem_of_union, elem_of_singleton. split.
    + intros [[->|?]|(b & ? & ? & ?)]; eauto 7.
    + intros [?|(b & [->|?] & ? & ?)]; eauto 6.
  - split; [intros [?|(b & ? & ? & ?)]; eauto 6|].
    intros [?|(b & [->|?] & ? & ?)]; [auto|congruence|eauto 6].
Qed.

Lemma elems_foldl_ext {A B} `{Countable B} (f g : mset B → A → mset B) s l :
  (∀ s a, f s a = g s a) → foldl f s l = foldl g s l.
Proof. intros E. revert s. induction l as [|a l IH]; intros s; simpl; [done|]. by rewrite E. Qed.

Lemma elems_allowTarget sa dir s t x :
  x ∈ elems (allowTarget sa dir s t) ↔
  x ∈ elems s ∨ match dir with inbound => authorizes t sa x | outbound => authorizes t x sa end.
Proof.
  unfold allowTarget, authorizes. case_bool_decide as Hk; simpl; [|destruct dir; naive_solver].
  destruct dir.
  - destruct (isSubject sa (tt_Destination t)) eqn:Hd; simpl.
    + apply isSubject_spec in Hd.
      rewrite (elems_foldl_ext _ (λ s a, if bool_decide (ibs_Kind a = ServiceAccountKind)
        then (Add (trafficTargetIdentityToSvcAccount a) s).1 else s)) by (intros; by case_bool_decide).
      rewrite elems_foldl_add. setoid_rewrite bool_decide_eq_true. naive_solver.
    + apply not_true_iff_false in Hd. rewrite isSubject_spec in Hd. naive_solver.
  - rewrite (elems_foldl_ext _ (λ s a, if bool_decide (ibs_Kind a = ServiceAccountKind) && isSubject sa a
      then (Add (trafficTargetIdentityToSvcAccount (tt_Destination t)) s).1 else s))
      by (intros; case_bool_decide; simpl; [by destruct (isSubject sa a)|done]).
    rewrite elems_foldl_add. setoid_rewrite andb_true_iff. setoid_rewrite bool_decide_eq_true.
    setoid_rewrite isSubject_spec. naive_solver.
Qed.

Lemma elems_allowed sa dir ts x :
  x ∈ elems (foldl (allowTarget sa dir) NewSet ts) ↔
  ∃ t, t ∈ ts ∧ match dir with inbound => authorizes t sa x | outbound => authorizes t x sa end.
Proof.
  assert (∀ s, x ∈ elems (foldl (allowTarget sa dir) s ts) ↔
    x ∈ elems s ∨ ∃ t, t ∈ ts ∧ match dir with inbound => authorizes t sa x | outbound => authorizes t x sa end) as H.
  { induction ts as [|t ts IH]; intros s; simpl; [set_solver|].
    rewrite IH, elems_allowTarget. setoid_rewrite elem_of_cons. naive_solver. }
  rewrite H, elems_NewSet. set_solver.
Qed.

(** The identities of one direction, for an account the identity format can
    express. *)
Lemma getAllowed_ok mc sa dir :
  dotless sa →
  ∃ ids, getAllowedDirectionalServiceAccounts mc (ToServiceIdentity sa) dir = Ret ids ∧
    ∀ si, si ∈ ids ↔ ∃ t x, t ∈ ms_ListTrafficTargets (meshSpec mc) [] ∧ ToServiceIdentity x = si ∧
      match dir with inbound => authorizes t sa x | outbound => authorizes t x sa end.
Proof.
  intros Hd. unfold getAllowedDirectionalServiceAccounts. rewrite (ToK8sServiceAccount_New sa Hd). simpl.
  eexists. split; [done|]. intros si. rewrite list_elem_of_fmap.
  setoid_rewrite elem_of_ToSlice. setoid_rewrite elems_allowed. naive_solver.
Qed.

End sets.

(** ** Identities of expressible accounts *)

Lemma str_in_split c s : str_in c s = true → ∃ x y, s = x +:+ String c y ∧ str_in c x = false.
Proof.
  induction s as [|a s IH]; simpl; [done|]. destruct (decide (a = c)) as [->|Hne].
  - intros _. by exists "", s.
  - rewrite bool_decide_eq_false_2 by done. simpl. intros (x & y & -> & Hx)%IH.
    exists (String a x), y. split; [done|]. simpl. by rewrite bool_decide_eq_false_2.
Qed.

Lemma ToServiceIdentity_dotless_inj sa a :
  dotless sa → sa_Name a ≠ "" → ToServiceIdentity a = ToServiceIdentity sa → a = sa.
Proof.
  destruct sa as [ns n], a as [ns' n']. intros (Hne & Hn & Hns) Hne' E. simpl in *.
  unfold ToServiceIdentity, New in E. simpl in E.
  rewrite !bool_decide_eq_true_2 in E by (destruct n, n'; simpl; lia || done).
  rewrite !str_app_cons, !str_app_nil_l in E.
  destruct (str_in "." n') eqn:Hd.
  - apply str_in_split in Hd as (x & y & -> & Hx). rewrite str_app_assoc, str_app_cons in E.
    apply str_cut_first in E as [-> E]; [|done..]. rewrite <-E in Hns.
    rewrite str_in_app in Hns. apply orb_false_iff in Hns as [_ Hns]. done.
  - apply str_cut_first in E as [-> ->]; done.
Qed.

(** The group of an address text: the endpoints with it, in order. *)
Lemma endpointGroups eps k :
  default [] (foldl (λ m ep, map_append (ip_String (ep_IP ep)) [ep] m)
    (∅ : gmap string (list Endpoint)) eps !! k) =
  List.filter (λ ep, bool_decide (ip_String (ep_IP ep) = k)) eps.
Proof.
  apply (foldl_inv (λ l m, default [] (m !! k) =
    List.filter (λ ep, bool_decide (ip_String (ep_IP ep) = k)) l)); [by rewrite lookup_empty|].
  intros l1 ep l2 m _ IH. rewrite List.filter_app, <-IH, map_append_lookup. simpl.
  case_decide as E; case_bool_decide; simpl; rewrite ?app_nil_r; naive_solver.
Qed.

(** ** Properties *)

(** C17. Isolation is exact: the endpoints of a service, those its name
    resolves to and those of an identity are what the providers list, in
    order, without the endpoints whose address lies in a block of an
    isolation policy; texts that are not blocks are ignored. *)
Theorem isolation_exact mc svc si ep :
  (ep ∈ listEndpointsForService mc svc ↔
   (∃ p, p ∈ endpointsProviders mc ∧ ep ∈ prov_ListEndpointsForService p svc) ∧ ¬ isolated mc (ep_IP ep)) ∧
  (ep ∈ getDNSResolvableServiceEndpoints mc svc ↔
   (∃ p, p ∈ endpointsProviders mc ∧ ep ∈ prov_GetResolvableEndpointsForService p svc) ∧ ¬ isolated mc (ep_IP ep)) ∧
  (ep ∈ listEndpointsForServiceIdentity mc si ↔
   (∃ p, p ∈ endpointsProviders mc ∧ ep ∈ prov_ListEndpointsForIdentity p si) ∧ ¬ isolated mc (ep_IP ep)).
Proof. split; [|split]; apply elem_of_collectEndpoints. Qed.

Section properties.
Context {MS : MapSet} {MSS : MapSetSpec}.

(** C16. The two directions of TrafficTarget authorization agree: for accounts
    the identity format can express, the downstream is listed among the
    identities allowed to connect to the upstream exactly when the upstream is
    listed among those the downstream may connect to, and both listings
    return. *)
Theorem authorization_duality mc u d :
  dotless u → dotless d →
  (∀ t, t ∈ ms_ListTrafficTargets (meshSpec mc) [] →
     ibs_Name (tt_Destination t) ≠ "" ∧ ∀ s, s ∈ tt_Sources t → ibs_Name s ≠ "") →
  ∃ ins outs,
    ListInboundServiceIdentities mc (ToServiceIdentity u) = Ret ins ∧
    ListOutboundServiceIdentities mc (ToServiceIdentity d) = Ret outs ∧
    (ToServiceIdentity d ∈ ins ↔ ToServiceIdentity u ∈ outs).
Proof.
  intros Hu Hd Hne.
  destruct (getAllowed_ok mc u inbound Hu) as (ins & Ei & Hi).
  destruct (getAllowed_ok mc d outbound Hd) as (outs & Eo & Ho).
  exists ins, outs. split; [done|]. split; [done|]. rewrite Hi, Ho. split.
  - intros (t & x & Ht & Ex & Ha). assert (x = d) as ->.
    { apply ToServiceIdentity_dotless_inj; [done| |done]. destruct Ha as (_ & _ & s & Hs & _ & <-).
      by apply (Hne t Ht). }
    eauto.
  - intros (t & x & Ht & Ex & Ha). assert (x = u) as ->.
    { apply ToServiceIdentity_dotless_inj; [done| |done]. destruct Ha as (_ & <- & _). exact (proj1 (Hne t Ht)). }
    eauto.
Qed.

(** C19. In SMI mode a client is offered exactly the endpoints of the upstream
    service that share their address with an endpoint of some account a
    TrafficTarget lets it reach. *)
Theorem allowed_upstream_endpoints_exact mc d svc :
  dotless d → IsPermissiveTrafficPolicyMode (configurator mc) = false →
  ∃ eps, ListAllowedUpstreamEndpointsForService mc (ToServiceIdentity d) svc = Ret eps ∧
    ∀ ep, ep ∈ eps ↔
      ep ∈ listEndpointsForService mc svc ∧
      ∃ t x ep', t ∈ ms_ListTrafficTargets (meshSpec mc) [] ∧ authorizes t x d ∧
        ep' ∈ listEndpointsForServiceIdentity mc (ToServiceIdentity x) ∧
        ip_String (ep_IP ep') = ip_String (ep_IP ep).
Proof.
  intros Hd Hp. destruct (getAllowed_ok mc d outbound Hd) as (outs & Eo & Ho).
  unfold ListAllowedUpstreamEndpointsForService, ListOutboundServiceIdentities. rewrite Hp, Eo.
  case_bool_decide as Hz; simpl.
  { apply nil_length_inv in Hz. exists []. split; [done|]. rewrite Hz. set_solver. }
  eexists. split; [done|]. intros ep.
  set (m := foldl _ ∅ _).
  rewrite (foldl_collect _ (λ si, listEndpointsForServiceIdentity mc si ≫= λ ep',
    default [] (m !! ip_String (ep_IP ep')))).
  2:{ intros acc si. apply foldl_collect. intros acc' ep'. by destruct (m !! _); simpl; rewrite ?app_nil_r. }
  simpl. rewrite list_elem_of_bind. setoid_rewrite list_elem_of_bind. setoid_rewrite Ho.
  unfold m. setoid_rewrite endpointGroups. setoid_rewrite elem_of_lfilter.
  setoid_rewrite bool_decide_eq_true. split.
  - intros (si & (ep' & [? E] & ?) & (t & x & ? & <- & ?)). split; [done|]. exists t, x, ep'. auto.
  - intros (? & t & x & ep' & ? & ? & ? & ?). exists (ToServiceIdentity x). split; [|eauto].
    exists ep'. auto.
Qed.

End properties.

(** ** Witnesses *)

Definition demoEndpoint (ip : list Z) : Endpoint :=
  mkEndpoint ip 8080 0 0 "http" "" "" "" "" "" false false "" "" "".

(** All policies on, active health checks off. *)
Definition demoFlags : FeatureFlags :=
  mkFlags true false false true true false true false false true true false false false false false false false.

(** A mesh with one service, [cart], backed by account [cart] of namespace
    [shop], and the TrafficTarget that lets account [web] reach it. *)
Definition demoCatalog (permissive : bool) : MeshCatalog := {|
  endpointsProviders := [mkEndpointProvider
    (λ svc, if bool_decide (Name svc = "cart") then [demoEndpoint [10; 0; 0; 1]%Z; demoEndpoint [10; 9; 0; 1]%Z] else [])
    (λ si, if bool_decide (si = "cart.shop") then [demoEndpoint [10; 0; 0; 1]%Z] else [])
    (λ svc, if bool_decide (Name svc = "cart") then [demoEndpoint [10; 0; 0; 1]%Z] else [])];
  serviceProviders := [mkServiceProvider
    (λ si, if bool_decide (si = "cart.shop") then [mkMeshService "shop" "cart" 80 8080 "http" "" "" ""] else [])
    (λ svc, ["cart.shop"])
    [mkMeshService "shop" "cart" 80 8080 "http" "" "" ""]];
  meshSpec := client_MeshSpec demoClient;
  configurator := {| IsPermissiveTrafficPolicyMode := permissive; IsEgressEnabled := false;
    IsLocalDNSProxyEnabled := false; GetServiceAccessMode := ServiceAccessModeDomain;
    GetServiceAccessNames := Some (mkSAN false true true (Some (mkCSAN true)));
    GetFeatureFlags := demoFlags;
    GetConnectorLb := mkLB "" "" None |};
  kubeController := demoController;
  policyController := client_PolicyController "cluster.local" demoPolicyClient;
  multiclusterController := mkMultiCluster (λ _, mkLbWeight false false 0) (λ _ _, ∅) (λ _, inr None) [];
  GetTrustDomain := "cluster.local";
  svcTrustDomain := "cluster.local";
  decodeMeta := λ _ _, mkMicroSvc ∅ ∅ None
|}.

Lemma demo_dotless n : dotless (mkSA "shop" n) ↔ n ≠ "" ∧ str_in "." n = false.
Proof. unfold dotless. simpl. naive_solver. Qed.

Lemma authorization_duality_witness :
  ∃ ins outs,
    @ListInboundServiceIdentities gset_MapSet (demoCatalog false) "cart.shop" = Ret ins ∧
    @ListOutboundServiceIdentities gset_MapSet (demoCatalog false) "web.shop" = Ret outs ∧
    ("web.shop" ∈ ins ↔ "cart.shop" ∈ outs).
Proof.
  apply (@authorization_duality gset_MapSet gset_MapSetSpec (demoCatalog false) (mkSA "shop" "cart") (mkSA "shop" "web")).
  - by apply demo_dotless.
  - by apply demo_dotless.
  - intros t Ht. change (t ∈ [demoTarget]) in Ht. apply list_elem_of_singleton in Ht as ->.
    split; [done|]. intros s ->%list_elem_of_singleton. done.
Defined.

Lemma allowed_upstream_endpoints_exact_witness :
  let svc := mkMeshService "shop" "cart" 80 8080 "http" "" "" "" in
  ∃ eps, @ListAllowedUpstreamEndpointsForService gset_MapSet (demoCatalog false) "web.shop" svc = Ret eps ∧
    ∀ ep, ep ∈ eps ↔
      ep ∈ listEndpointsForService (demoCatalog false) svc ∧
      ∃ t x ep', t ∈ ms_ListTrafficTargets (meshSpec (demoCatalog false)) [] ∧ authorizes t x (mkSA "shop" "web") ∧
        ep' ∈ listEndpointsForServiceIdentity (demoCatalog false) (ToServiceIdentity x) ∧
        ip_String (ep_IP ep') = ip_String (ep_IP ep).
Proof.
  intros svc.
  apply (@allowed_upstream_endpoints_exact gset_MapSet gset_MapSetSpec (demoCatalog false) (mkSA "shop" "web") svc).
  - by apply demo_dotless.
  - done.
Defined.

End CatalogFacts.
