(* ===== verification/Multicluster.v ===== *)
(** * The multicluster client: pkg/multicluster (service_import.go,
      traffic_policy.go, service_export.go, ingress_class.go)

    Services imported from other clusters, presented as Kubernetes objects,
    and how traffic is spread over the clusters. *)

From S2P Require Import Prelude Identity Service Core Api MeshConfig K8s Catalog.
Import Identity.Identity Service.Service Api.Api K8s.K8s Catalog.Catalog.
#[local] Open Scope Z_scope.

Module Multicluster.

Definition ActiveActiveLbType : string := "ActiveActive".
Definition FailOverLbType : string := "FailOver".
Definition AnyServiceAccount : string := "*".
Definition ClusterWeightAcceptAll : Z := 100.
Definition ClusterWeightFailOver : Z := 0.

(** [fmt.Sprintf] of the annotation names. *)
Definition importAnnotation (what ip : string) (port : Z) : string :=
  "flomesh.io/ServiceImport/" +:+ what +:+ "/" +:+ ip +:+ "/" +:+ pretty port.
Definition ServiceImportClusterKeyAnnotation : string → Z → string := importAnnotation "ClusterKey".
Definition ServiceImportContextPathAnnotation : string → Z → string := importAnnotation "ContextPath".
Definition ServiceImportLBTypeAnnotation : string → Z → string := importAnnotation "LBType".
Definition ServiceImportLBWeightAnnotation : string → Z → string := importAnnotation "LBWeight".

Record Client := mkClient {
  inf_ServiceImport : option (Store ServiceImport);
  inf_ServiceExport : option (Store ServiceExport);
  inf_GlobalTrafficPolicy : option (Store GlobalTrafficPolicy);
  inf_IngressClass : option (Store IngressClass)
}.

Section client.
Context {MS : MapSet} {LM : LabelMatch} (c : Client).

(** ** traffic_policy.go *)

Definition getGlobalTrafficPolicy (svc : MeshService) : option GlobalTrafficPolicy :=
  getIfExists (inf_GlobalTrafficPolicy c) (NamespacedKey svc).

Definition isLocality (svc : MeshService) : bool :=
  match getGlobalTrafficPolicy svc with
  | Some p => bool_decide (gtp_LbType p = LocalityLbType)
  | None => true
  end.

(** A nil map is the empty one: only its length and lookups are used. *)
Definition getServiceTrafficPolicy (svc : MeshService) : string * gmap string Z :=
  match getGlobalTrafficPolicy svc with
  | Some p =>
      (gtp_LbType p,
       foldl (λ keys lbt, <[lbt_ClusterKey lbt := default 0 (lbt_Weight lbt)]> keys) ∅ (gtp_Targets p))
  | None => (LocalityLbType, ∅)
  end.

Record lbWeights := mkLbWeights {
  w_aa : bool; w_fo : bool; w_lc : bool; w_weight : Z; w_clusterKeys : gmap string Z }.

Definition LbWeightForService (svc : MeshService) : lbWeights :=
  match getGlobalTrafficPolicy svc with
  | Some p =>
      if bool_decide (gtp_LbType p = ActiveActiveLbType) then
        match gtp_Targets p with
        | [] => mkLbWeights true false false ClusterWeightAcceptAll ∅
        | targets =>
            match head (List.filter (λ t, bool_decide (ServiceImportUID svc = lbt_ClusterKey t)) targets) with
            | Some t =>
                let w := default 0 (lbt_Weight t) in
                mkLbWeights true false false w {[lbt_ClusterKey t := w]}
            | None => mkLbWeights true false false 0 ∅
            end
        end
      else if bool_decide (gtp_LbType p = FailOverLbType) then
        mkLbWeights false true false ClusterWeightFailOver
          (foldl (λ keys t, <[lbt_ClusterKey t := ClusterWeightFailOver]> keys) ∅ (gtp_Targets p))
      else mkLbWeights false false true 0 ∅
  | None => mkLbWeights false false true 0 ∅
  end.

(** ** service_import.go *)

Definition findImport (svc : MeshService) : option ServiceImport :=
  getIfExists (inf_ServiceImport c) (NamespacedKey svc).

Definition importedPort (port : ImportPort) (t : Target) : K8sServicePort :=
  mkServicePort (ipt_Name port) (ipt_Protocol port) (ipt_AppProtocol port) (ipt_Port port) (IntVal (tgt_Port t)).

(** The service stands for the first endpoint with the target port; without
    one it has neither address nor ports. *)
Definition mc_GetService (svc : MeshService) : option K8sService :=
  if isLocality svc then None
  else
    si ← findImport svc;
    port ← head (List.filter (λ p,
      EqualFold (si_Name si) (Name svc) && bool_decide (uint16 (ipt_Port p) = Port svc) &&
      bool_decide (0 < length (ipt_Endpoints p))%nat) (si_Ports si));
    let picked := head (List.filter (λ e, bool_decide (TargetPort svc = uint16 (tgt_Port (ime_Target e))))
                          (ipt_Endpoints port)) in
    Some (mkK8sService (si_Namespace si) (si_Name si) (si_UID si) ∅ ∅ {["app" := si_Name si]}
      (default "" (tgt_IP ∘ ime_Target <$> picked))
      (option_list (importedPort port ∘ ime_Target <$> picked))).

(** One service per endpoint of every port. *)
Definition mc_ListServices : list K8sService :=
  si ← informers_List (inf_ServiceImport c);
  if isLocality (named (si_Namespace si) (si_Name si)) then []
  else
    port ← si_Ports si;
    map (λ e, mkK8sService (si_Namespace si) (si_Name si) (ime_ClusterKey e) ∅ ∅ {["app" := si_Name si]}
                (tgt_IP (ime_Target e)) [importedPort port (ime_Target e)]) (ipt_Endpoints port).

(** The pods of imported services: one per endpoint. *)
Definition mc_ListPods : list Pod :=
  si ← informers_List (inf_ServiceImport c);
  port ← si_Ports si;
  map (λ e, mkPod (si_Namespace si) (tgt_Host (ime_Target e)) {["app" := si_Name si]} ∅
              (si_ServiceAccountName si) [tgt_IP (ime_Target e)] None) (ipt_Endpoints port).

(** One endpoint of an import with its annotations. *)
Definition addImportEndpoint (lbType : string) (port : ImportPort) (eps : Endpoints) (e : ImportEndpoint * Z)
    : Endpoints :=
  let '(e, weight) := e in
  let t := ime_Target e in
  let ann key v m := <[key (tgt_IP t) (tgt_Port t) := v]> m in
  mkEndpoints (eps_Namespace eps) (eps_Name eps) (eps_Labels eps)
    (ann ServiceImportLBWeightAnnotation (pretty weight)
      (ann ServiceImportLBTypeAnnotation lbType
        (ann ServiceImportContextPathAnnotation (tgt_Path t)
          (ann ServiceImportClusterKeyAnnotation (ime_ClusterKey e) (eps_Annotations eps)))))
    (eps_Subsets eps ++
      [mkSubset [mkEndpointAddress (tgt_IP t) (tgt_Host t)]
        [mkEndpointPort (ipt_Name port) (ipt_Protocol port) (ipt_AppProtocol port) (tgt_Port t)]]).

(** The endpoints the policy admits, with their weights. *)
Definition admitted (svc : MeshService) (clusterKeys : gmap string Z) (port : ImportPort)
    : list (ImportEndpoint * Z) :=
  omap (λ e,
    if bool_decide (0 < TargetPort svc) && negb (bool_decide (TargetPort svc = uint16 (tgt_Port (ime_Target e))))
    then None
    else if bool_decide (clusterKeys = ∅) then Some (e, 0)
    else pair e <$> clusterKeys !! ime_ClusterKey e) (ipt_Endpoints port).

Definition mc_GetEndpoints (svc : MeshService) : option Endpoints :=
  let '(lbType, clusterKeys) := getServiceTrafficPolicy svc in
  if bool_decide (lbType = LocalityLbType) then None
  else
    si ← findImport svc;
    port ← head (List.filter (λ p,
      EqualFold (si_Name si) (Name svc) &&
      (bool_decide (Port svc = 0) || bool_decide (Port svc = uint16 (ipt_Port p))) &&
      bool_decide (0 < length (ipt_Endpoints p))%nat) (si_Ports si));
    Some (foldl (addImportEndpoint lbType port) (mkEndpoints (si_Namespace si) (si_Name si) ∅ ∅ [])
            (admitted svc clusterKeys port)).

Definition mc_ListServiceIdentitiesForService (svc : MeshService) : string + list K8sServiceAccount :=
  match mc_GetService svc with
  | None => inl "error fetching service"
  | Some k8sSvc =>
      inr (ToSlice (foldl (λ accounts pod,
        if bool_decide (k8s_Selector k8sSvc = ∅) then accounts
        else if Matches (k8s_Selector k8sSvc) (pod_Labels pod)
        then (Add (mkSA (pod_Namespace pod) (pod_ServiceAccountName pod)) accounts).1
        else accounts) NewSet mc_ListPods))
  end.

Definition mc_GetTargetPortForServicePort (nn : NamespacedName) (port : Z) : gmap Z bool :=
  let svc := named (nn_Namespace nn) (nn_Name nn) in
  let lb := LbWeightForService svc in
  if w_lc lb then ∅
  else
    match findImport svc with
    | None => ∅
    | Some si =>
        foldl (λ ports e, <[uint16 (tgt_Port (ime_Target e)) := w_aa lb]> ports) ∅
          (p ← List.filter (λ p, EqualFold (si_Name si) (nn_Name nn) && bool_decide (uint16 (ipt_Port p) = port))
                 (si_Ports si);
           List.filter (λ e, bool_decide (w_clusterKeys lb = ∅) ||
                             bool_decide (is_Some (w_clusterKeys lb !! ime_ClusterKey e))) (ipt_Endpoints p))
    end.

(** ** service_export.go, ingress_class.go *)

Definition notExportable (cond : Condition) : bool :=
  (bool_decide (cond_Type cond = "Valid") && negb (bool_decide (cond_Status cond = "True"))) ||
  (bool_decide (cond_Type cond = "Conflict") && negb (bool_decide (cond_Status cond = "False"))).

(** [inl] is the error of the lookup. *)
Definition mc_GetExportedRule (svc : MeshService) : string + option ServiceExportRule :=
  match informers_GetByKey (inf_ServiceExport c) (NamespacedKey svc) with
  | (_, true) => inl "error"
  | (None, false) => inr None
  | (Some se, false) =>
      inr (if existsb notExportable (se_Conditions se) then None
           else head (List.filter (λ r, bool_decide (uint16 (ser_PortNumber r) = Port svc)) (se_Rules se)))
  end.

(** A present and non-empty annotation. *)
Definition annotated (ic : IngressClass) (key : string) : option string :=
  v ← igc_Annotations ic !! key; if bool_decide (v = "") then None else Some v.

Definition mc_GetIngressControllerServices : list MeshService :=
  omap (λ ic,
    ns ← match annotated ic "meta.flomesh.io/fsm-namespace" with
         | Some ns => Some ns
         | None => match annotated ic "meta.flomesh.io/erie-canal-namespace" with
                   | Some ns => Some ns
                   | None => annotated ic "meta.flomesh.io/namespace"
                   end
         end;
    svc ← annotated ic "meta.flomesh.io/ingress-pipy-svc";
    Some (named ns svc)) (informers_List (inf_IngressClass c)).

(** The client as the controller of the catalog. *)
Definition client_MultiCluster : MultiClusterController := {|
  GetLbWeightForService := λ svc, let w := LbWeightForService svc in mkLbWeight (w_aa w) (w_fo w) (w_weight w);
  mcc_GetTargetPortForServicePort := mc_GetTargetPortForServicePort;
  GetExportedRule := mc_GetExportedRule;
  GetIngressControllerServices := mc_GetIngressControllerServices
|}.

End client.

End Multicluster.
