(* ===== verification/Providers.v ===== *)
(** * Service and endpoint providers: pkg/providers/kube/client.go,
      pkg/providers/fsm/client.go

    Where the catalog's services and endpoints come from: the kube provider
    reads the cluster, the fsm provider the services imported from other
    clusters.  [connector.Decode] is an argument; conversions of an identity
    and lookups of a namespace can panic. *)

From S2P Require Import Prelude Identity Service Core Api MeshConfig Net K8s K8sClient Catalog Multicluster.
Import Identity.Identity Service.Service Api.Api Net.Net K8s.K8s K8sClient.K8sClient Catalog.Catalog.
Import Multicluster.Multicluster.
#[local] Open Scope Z_scope.

Module Providers.

Definition kubeProviderName : string := "kubernetes".
Definition fsmProviderName : string := "flomesh".
Definition AnnotationCloudHealthCheckService : string := "flomesh.io/cloud-health-check-service".

(** [endpoint.Endpoint{IP: ip, Port: port}] *)
Definition plainEndpoint (ip : IP) (port : Z) : Endpoint :=
  mkEndpoint ip port 0 0 "" "" "" "" "" "" false false "" "" "".

(** [net.ParseIP] returns nil for what it cannot parse. *)
Definition parsedIP (s : string) : option IP := if bool_decide (ParseIP s = []) then None else Some (ParseIP s).

(** Substring search, [strings.Contains]. *)
Fixpoint Contains_str (s sub : string) : bool :=
  HasPrefix s sub || match s with EmptyString => false | String _ s' => Contains_str s' sub end.

(** The addresses of an Endpoints object that stand for a service, with their
    port: a known target port and a subdomain restrict them. *)
Definition selectedAddresses (svc : MeshService) (eps : Endpoints) : list (EndpointPort * EndpointAddress) :=
  subset ← eps_Subsets eps;
  port ← List.filter (λ p, bool_decide (TargetPort svc = 0) || bool_decide (epp_Port p = TargetPort svc))
           (sub_Ports subset);
  map (pair port)
    (List.filter (λ a, bool_decide (Subdomain svc = "") || bool_decide (Subdomain svc = epa_Hostname a))
      (sub_Addresses subset)).

(** The addresses of workloads of an account, up to the first that does not
    parse. *)
Fixpoint takeParsed (ips : list string) : list Endpoint :=
  match ips with
  | [] => []
  | s :: ips => match parsedIP s with Some ip => plainEndpoint ip 0 :: takeParsed ips | None => [] end
  end.

(** ** The kube provider *)

Section kube.
Context {MS : MapSet} {LM : LabelMatch} {MR : MapRange}.
Context (decode : K8sService → string → MicroSvcMeta) (c : Controller) (cfg : Configurator).

(** The application protocol of an endpoint port without metadata. *)
Definition portAppProtocol (p : EndpointPort) : string :=
  match epp_AppProtocol p with
  | Some a => a
  | None => if Contains_str (epp_Name p) "http" then "http"
            else if Contains_str (epp_Name p) "grpc" then "grpc" else ""
  end.

Definition metaEndpoints (svcMeta : MicroSvcMeta) : list Endpoint :=
  '(addr, m) ← map_range (msm_Endpoints svcMeta);
  '(port, protocol) ← map_range (mem_Ports m);
  let external := negb (mem_InternalService m) in
  [mkEndpoint (ParseIP addr) (uint32 port) 0 0 protocol ""
     (if external then mem_ClusterSet m else "") (if external then lb_Type (GetConnectorLb cfg) else "") ""
     (mem_ClusterId m) (mem_WithGateway m) (mem_WithMultiGateways m)
     (mem_ViaGatewayHTTP m) (mem_ViaGatewayGRPC m) (mem_ViaGatewayMode m)].

Definition kube_ListEndpointsForService (svc : MeshService) : list Endpoint :=
  match GetService c svc ≫= λ s, pair s <$> k8s_Annotations s !! AnnotationMeshEndpointAddr with
  | Some (s, v) => metaEndpoints (decode s v)
  | None =>
      match kc_GetEndpoints c svc with
      | inr (Some eps) =>
          omap (λ '(port, a), (λ ip,
            mkEndpoint ip (uint32 (epp_Port port)) 0 0 (portAppProtocol port) "" "" "" "" "" false false "" "" "")
            <$> parsedIP (epa_IP a)) (selectedAddresses svc eps)
      | _ => []
      end
  end.

Definition kube_ListEndpointsForIdentity (si : ServiceIdentity) : go (list Endpoint) :=
  sa ← ToK8sServiceAccount si;
  Ret ((p ← List.filter (λ p, bool_decide (pod_Namespace p = sa_Namespace sa) &&
                              bool_decide (pod_ServiceAccountName p = sa_Name sa)) (kc_ListPods c);
        takeParsed (pod_PodIPs p)) ++
       takeParsed (map vm_MachineIP
         (List.filter (λ v, bool_decide (vm_Namespace v = sa_Namespace sa) &&
                            bool_decide (vm_ServiceAccountName v = sa_Name sa)) (kc_ListVms c)))).

(** The services of the target namespace whose selector matches. *)
Definition selects (podLabels : gmap string string) (targetNamespace : string) (svc : K8sService) : bool :=
  bool_decide (k8s_Namespace svc = targetNamespace) && negb (bool_decide (k8s_Selector svc = ∅)) &&
  Matches (k8s_Selector svc) podLabels.

Definition kube_getServicesByLabels (podLabels : gmap string string) (targetNamespace : string)
    : go (list MeshService) :=
  gofold (λ l svc, m ← ServiceToMeshServices decode c (GetConnectorLb cfg) svc; Ret (l ++ m)) []
    (List.filter (selects podLabels targetNamespace) (kc_ListServices c true true)).

(** Pods first, then machines, each service once. *)
Definition kube_GetServicesForServiceIdentity (si : ServiceIdentity) : go (list MeshService) :=
  sa ← ToK8sServiceAccount si;
  let workloads :=
    map (λ p, (pod_Namespace p, pod_ServiceAccountName p, pod_Labels p)) (kc_ListPods c) ++
    map (λ v, (vm_Namespace v, vm_ServiceAccountName v, vm_Labels v)) (kc_ListVms c) in
  services ← gofold (λ l '(ns, account, labels),
    if bool_decide (ns = sa_Namespace sa) && bool_decide (account = sa_Name sa)
    then m ← kube_getServicesByLabels labels ns; Ret (l ++ m) else Ret l) [] workloads;
  Ret (foldl addUnique (NewSet, []) services).2.

Definition kube_GetResolvableEndpointsForService (svc : MeshService) : list Endpoint :=
  match GetService c svc with
  | None => []
  | Some s =>
      if IsHeadlessService (k8s_ClusterIP s) then kube_ListEndpointsForService svc
      else match parsedIP (k8s_ClusterIP s) with
      | None => []
      | Some ip =>
          let sam := GetServiceAccessMode cfg in
          let ips := ip ::
            if bool_decide (sam = ServiceAccessModeIP) || bool_decide (sam = ServiceAccessModeMixed) then
              match kc_GetEndpoints c svc with
              | inr (Some eps) => map (ParseIP ∘ epa_IP) (eps_Subsets eps ≫= sub_Addresses)
              | _ => []
              end
            else [] in
          p ← k8s_Ports s; map (λ ip, plainEndpoint ip (uint32 (svp_Port p))) ips
      end
  end.

Definition kube_ListServices : go (list MeshService) :=
  gofold (λ l svc, m ← ServiceToMeshServices decode c (GetConnectorLb cfg) svc; Ret (l ++ m)) []
    (List.filter (λ s, negb (bool_decide (is_Some (k8s_Annotations s !! AnnotationCloudHealthCheckService))))
      (kc_ListServices c true true)).

Definition kube_ListServiceIdentitiesForService (svc : MeshService) : list ServiceIdentity :=
  match kc_ListServiceIdentitiesForService c svc with
  | inr accounts => map ToServiceIdentity accounts
  | inl _ => []
  end.

End kube.

(** ** The fsm provider *)

Section fsm.
Context {MS : MapSet} {LM : LabelMatch} (c : Multicluster.Client).

(** [strconv.ParseUint(s, 10, 32)], the number it returns beside its error. *)
Fixpoint parseUint32 (s : string) (acc : Z) : option Z :=
  match s with
  | EmptyString => Some acc
  | String a s' =>
      if is_digit a then
        let n := acc * 10 + (Z.of_nat (nat_of_ascii a) - 48) in
        if bool_decide (2 ^ 32 ≤ n) then Some (2 ^ 32 - 1) else parseUint32 s' n
      else None
  end.

Definition ParseUint32 (s : string) : Z := if bool_decide (s = "") then 0 else default 0 (parseUint32 s 0).

(** What the annotations say of an address and a port. *)
Definition importedEndpoint (eps : Endpoints) (port : EndpointPort) (a : EndpointAddress) (ip : IP) : Endpoint :=
  let ann key := default "" (eps_Annotations eps !! key (epa_IP a) (epp_Port port)) in
  mkEndpoint ip (uint32 (epp_Port port)) (ParseUint32 (ann ServiceImportLBWeightAnnotation)) 0 "" ""
    (ann ServiceImportClusterKeyAnnotation) (ann ServiceImportLBTypeAnnotation)
    (ann ServiceImportContextPathAnnotation) "" false false "" "" "".

Definition fsm_ListEndpointsForService (svc : MeshService) : list Endpoint :=
  match mc_GetEndpoints c svc with
  | None => []
  | Some eps => omap (λ '(port, a), importedEndpoint eps port a <$> parsedIP (epa_IP a)) (selectedAddresses svc eps)
  end.

(** A workload of any account stands for every account of its namespace. *)
Definition accountMatches (account : string) (sa : K8sServiceAccount) : bool :=
  bool_decide (account = sa_Name sa) || bool_decide (account = AnyServiceAccount).

Definition fsm_ListEndpointsForIdentity (si : ServiceIdentity) : go (list Endpoint) :=
  sa ← ToK8sServiceAccount si;
  Ret (p ← List.filter (λ p, bool_decide (pod_Namespace p = sa_Namespace sa) &&
                             accountMatches (pod_ServiceAccountName p) sa) (mc_ListPods c);
       takeParsed (pod_PodIPs p)).

(** One mesh service per port of the service and per endpoint port. *)
Definition fsm_ServiceToMeshServices (svc : K8sService) : list MeshService :=
  portSpec ← k8s_Ports svc;
  let protocol := default (portNameProtocol (svp_Name portSpec)) (svp_AppProtocol portSpec) in
  let mk target := mkMeshService (k8s_Namespace svc) (k8s_Name svc) (uint16 (svp_Port portSpec)) target protocol
                     (k8s_UID svc) "" "" in
  match mc_GetEndpoints c (mk 0) with
  | None => []
  | Some eps => map (λ p, mk (uint16 (epp_Port p))) (eps_Subsets eps ≫= sub_Ports)
  end.

Definition fsm_getServicesByLabels (podLabels : gmap string string) (targetNamespace : string) : list MeshService :=
  List.filter (selects podLabels targetNamespace) (mc_ListServices c) ≫= fsm_ServiceToMeshServices.

Definition fsm_GetServicesForServiceIdentity (si : ServiceIdentity) : go (list MeshService) :=
  sa ← ToK8sServiceAccount si;
  let services :=
    p ← List.filter (λ p, bool_decide (pod_Namespace p = sa_Namespace sa) &&
                          accountMatches (pod_ServiceAccountName p) sa) (mc_ListPods c);
    fsm_getServicesByLabels (pod_Labels p) (pod_Namespace p) in
  Ret (foldl addUnique (NewSet, []) services).2.

Definition fsm_GetResolvableEndpointsForService (svc : MeshService) : list Endpoint :=
  match mc_GetService c svc with
  | None => []
  | Some s =>
      if IsHeadlessService (k8s_ClusterIP s) then fsm_ListEndpointsForService svc
      else match parsedIP (k8s_ClusterIP s) with
      | None => []
      | Some ip =>
          map (λ p, mkEndpoint ip (uint32 (svp_Port p)) 0 0 "" "" fsmProviderName "" "" "" false false "" "" "")
            (k8s_Ports s)
      end
  end.

Definition fsm_ListServices : list MeshService := mc_ListServices c ≫= fsm_ServiceToMeshServices.

Definition fsm_ListServiceIdentitiesForService (svc : MeshService) : list ServiceIdentity :=
  match mc_ListServiceIdentitiesForService c svc with
  | inr accounts => map ToServiceIdentity accounts
  | inl _ => []
  end.

End fsm.

End Providers.
