(* ===== verification/ProvidersFacts.v ===== *)
(** * Properties of the providers

    Listing the services of the cluster never panics; what the multicluster
    client writes into annotations the fsm provider reads back; and which
    clusters an active-active policy really restricts. *)

From S2P Require Import Prelude Identity Service Core Api MeshConfig Net K8s K8sClient K8sClientFacts Catalog.
From S2P Require Import Multicluster Providers.
Import Identity.Identity Service.Service Api.Api Net.Net K8s.K8s K8sClient.K8sClient Catalog.Catalog.
Import K8sClientFacts.K8sClientFacts Multicluster.Multicluster Providers.Providers.
#[local] Open Scope Z_scope.

Module ProvidersFacts.

(** ** The kube provider over the Kubernetes client *)

Section kube.
Context {MS : MapSet} {LM : LabelMatch} {MR : MapRange}.
Context (decode : K8sService → string → MicroSvcMeta) (c : client) (cfg : Configurator).

(** Listing the services of the mesh never panics, although the
    translation of a connector service dereferences its namespace: whatever
    the informers hold, it returns, and every mesh service is a port of a
    service of a monitored namespace that is not excluded. *)
Theorem list_services_total :
  StoreLaws ns_Name (inf_Namespace c) →
  ∃ l, kube_ListServices decode (client_Controller c) cfg = Ret l ∧
    ∀ m, m ∈ l → ∃ svc, svc ∈ informers_List (inf_Service c) ∧ isExclusionService c svc = false ∧
      kube_IsMonitoredNamespace c (Namespace m) = true ∧ Namespace m = k8s_Namespace svc ∧
      ∃ p, p ∈ k8s_Ports svc ∧ Port m = uint16 (svp_Port p).
Proof.
  intros Hl. unfold kube_ListServices.
  set (services := List.filter _ (kc_ListServices (client_Controller c) true true)).
  assert (∀ svc, svc ∈ services → svc ∈ ListServices c true true) as Hsub
    by (intros svc Hs; by apply elem_of_lfilter in Hs as [? _]).
  clearbody services. cut (∀ acc, ∃ l,
    gofold (λ l svc, m ← ServiceToMeshServices decode (client_Controller c) (GetConnectorLb cfg) svc; Ret (l ++ m))
      acc services = Ret l ∧ ∀ m, m ∈ l → m ∈ acc ∨ ∃ svc, svc ∈ informers_List (inf_Service c) ∧
      isExclusionService c svc = false ∧ kube_IsMonitoredNamespace c (Namespace m) = true ∧
      Namespace m = k8s_Namespace svc ∧ ∃ p, p ∈ k8s_Ports svc ∧ Port m = uint16 (svp_Port p)).
  { intros Hcut. destruct (Hcut []) as (l & Hr & Hm). exists l. split; [done|].
    intros m [?%not_elem_of_nil|?]%Hm; done. }
  induction services as [|svc services IH]; intros acc; [exists acc; auto|].
  pose proof (Hsub svc ltac:(by left)) as Hsvc. apply elem_of_ListServices in Hsvc as (Hin & Hmon & Hex).
  destruct (ServiceToMeshServices_total decode c (GetConnectorLb cfg) svc Hl Hmon) as [ms Hms].
  destruct (IH ltac:(intros; apply Hsub; by right) (acc ++ ms)) as (l & Hr & Hm).
  exists l. simpl. rewrite Hms. simpl. split; [done|].
  intros m [[Hm1|Hm1]%elem_of_app|?]%Hm; [by left| |by right].
  destruct (ServiceToMeshServices_named decode c _ _ _ _ Hms Hm1) as (E & _ & p & Hp & Hport & _).
  right. exists svc. rewrite E. eauto 10.
Qed.

End kube.

(** ** Annotations of imported services *)

Lemma importAnnotation_inj w w' ip ip' port port' :
  str_in "/" w = false → str_in "/" w' = false →
  importAnnotation w ip port = importAnnotation w' ip' port' → w = w' ∧ ip = ip' ∧ port = port'.
Proof.
  intros Hw Hw' E0.
  assert (w +:+ String "/" (ip +:+ String "/" (pretty port)) =
          w' +:+ String "/" (ip' +:+ String "/" (pretty port'))) as E
    by (by apply (inj (String.append "flomesh.io/ServiceImport/"))).
  apply str_cut_first in E as [-> E]; [|done..].
  apply str_cut_last in E as [-> E]; [|by apply pretty_Z_in..].
  by apply (inj pretty) in E.
Qed.

(** ** Weights *)

Lemma digit_char (d : N) :
  (d < 10)%N → is_digit (pretty_N_char d) = true ∧ Z.of_nat (nat_of_ascii (pretty_N_char d)) - 48 = Z.of_N d.
Proof.
  intros Hd. assert (d ∈ [0; 1; 2; 3; 4; 5; 6; 7; 8; 9]%N) as H.
  { destruct (decide (d = 0 ∨ d = 1 ∨ d = 2 ∨ d = 3 ∨ d = 4 ∨ d = 5 ∨ d = 6 ∨ d = 7 ∨ d = 8 ∨ d = 9)%N);
      [set_solver|lia]. }
  rewrite !elem_of_cons, elem_of_nil in H. destruct_or! H; subst; done.
Qed.

Lemma parse_pretty_N_go (n : N) s :
  Z.of_N n < 2 ^ 32 → parseUint32 (pretty_N_go n s) 0 = parseUint32 s (Z.of_N n).
Proof.
  revert s. induction (N.lt_wf_0 n) as [n _ IH]; intros s Hn.
  destruct (decide (0 < n)%N) as [Hpos|]; [|by assert (n = 0%N) as -> by lia].
  rewrite pretty_N_go_step by done.
  assert (n `div` 10 < n)%N by (by apply N.div_lt).
  rewrite IH by (done || lia). simpl.
  destruct (digit_char (n `mod` 10)) as [-> ->]; [by apply N.mod_lt|].
  assert (Z.of_N (n `div` 10) * 10 + Z.of_N (n `mod` 10) = Z.of_N n) as ->.
  { pose proof (N.div_mod n 10 ltac:(done)). lia. }
  by rewrite bool_decide_eq_false_2 by lia.
Qed.

Lemma ParseUint32_pretty (w : Z) : 0 ≤ w < 2 ^ 32 → ParseUint32 (pretty w) = w.
Proof.
  intros Hw. unfold ParseUint32. destruct w as [|p|p]; [done| |lia].
  change (pretty (Z.pos p)) with (pretty_N (N.pos p)). unfold pretty_N. rewrite decide_False by done.
  pose proof (parse_pretty_N_go (N.pos p) "" ltac:(lia)) as E.
  case_bool_decide as He; [rewrite He in E; done|]. by rewrite E.
Qed.

(** ** What is written is read back *)

Definition address (x : ImportEndpoint * Z) : string * Z := (tgt_IP (ime_Target x.1), tgt_Port (ime_Target x.1)).

(** The annotations of one endpoint, as the fsm provider reads them. *)
Definition annotatedAs (lbType : string) (x : ImportEndpoint * Z) (m : gmap string string) : Prop :=
  let '(ip, port) := address x in
  m !! ServiceImportClusterKeyAnnotation ip port = Some (ime_ClusterKey x.1) ∧
  m !! ServiceImportContextPathAnnotation ip port = Some (tgt_Path (ime_Target x.1)) ∧
  m !! ServiceImportLBTypeAnnotation ip port = Some lbType ∧
  m !! ServiceImportLBWeightAnnotation ip port = Some (pretty x.2).

Lemma annotation_ne w w' ip ip' port port' :
  str_in "/" w = false → str_in "/" w' = false → w ≠ w' ∨ (ip, port) ≠ (ip', port') →
  importAnnotation w ip port ≠ importAnnotation w' ip' port'.
Proof. intros Hw Hw' Hne E. apply importAnnotation_inj in E as (-> & -> & ->); [|done..]. naive_solver. Qed.

Lemma annotated_new lbType port eps x :
  annotatedAs lbType x (eps_Annotations (addImportEndpoint lbType port eps x)).
Proof.
  destruct x as [e w]. unfold annotatedAs, addImportEndpoint. simpl.
  unfold ServiceImportClusterKeyAnnotation, ServiceImportContextPathAnnotation, ServiceImportLBTypeAnnotation,
    ServiceImportLBWeightAnnotation.
  split_and!; repeat (rewrite lookup_insert_ne by (apply annotation_ne; [done..|by left])); apply lookup_insert_eq.
Qed.

Lemma annotated_keep lbType port eps x y :
  address x ≠ address y → annotatedAs lbType x (eps_Annotations eps) →
  annotatedAs lbType x (eps_Annotations (addImportEndpoint lbType port eps y)).
Proof.
  destruct x as [e w], y as [e' w']. unfold annotatedAs, addImportEndpoint, address. simpl. intros Hne H.
  unfold ServiceImportClusterKeyAnnotation, ServiceImportContextPathAnnotation, ServiceImportLBTypeAnnotation,
    ServiceImportLBWeightAnnotation in *.
  rewrite !lookup_insert_ne by (apply annotation_ne; [done..|right; congruence]). done.
Qed.

(** The subset of one endpoint. *)
Definition importSubset (port : ImportPort) (x : ImportEndpoint * Z) : EndpointSubset :=
  let t := ime_Target x.1 in
  mkSubset [mkEndpointAddress (tgt_IP t) (tgt_Host t)]
    [mkEndpointPort (ipt_Name port) (ipt_Protocol port) (ipt_AppProtocol port) (tgt_Port t)].

Lemma written_endpoints lbType port l eps :
  NoDup (map address l) →
  eps_Subsets (foldl (addImportEndpoint lbType port) eps l) = eps_Subsets eps ++ map (importSubset port) l ∧
  (∀ x, x ∈ l → annotatedAs lbType x (eps_Annotations (foldl (addImportEndpoint lbType port) eps l))) ∧
  (∀ x, address x ∉ map address l → annotatedAs lbType x (eps_Annotations eps) →
    annotatedAs lbType x (eps_Annotations (foldl (addImportEndpoint lbType port) eps l))).
Proof.
  revert eps. induction l as [|y l IH]; intros eps Hnd; simpl.
  { rewrite app_nil_r. split; [done|]. split; [by intros ? ?%not_elem_of_nil|done]. }
  apply NoDup_cons in Hnd as [Hy Hnd]. destruct (IH (addImportEndpoint lbType port eps y) Hnd) as (E & Hin & Hkeep).
  split; [|split].
  - rewrite E. destruct y as [e w]. simpl. by rewrite <-app_assoc.
  - intros x [->|Hx]%elem_of_cons; [apply Hkeep; [done|apply annotated_new]|by apply Hin].
  - intros x Hx Ha. apply not_elem_of_cons in Hx as [Hne Hx]. by apply Hkeep, annotated_keep.
Qed.

(** What the provider should offer for an admitted endpoint. *)
Definition offeredEndpoint (lbType : string) (x : ImportEndpoint * Z) : option Endpoint :=
  let t := ime_Target x.1 in
  (λ ip, mkEndpoint ip (tgt_Port t) x.2 0 "" "" (ime_ClusterKey x.1) lbType (tgt_Path t) "" false false "" "" "")
    <$> parsedIP (tgt_IP t).

Section roundtrip.
Context (c : Multicluster.Client) (svc : MeshService) (lbType : string) (keys : gmap string Z).
Context (si : ServiceImport) (port : ImportPort).

Definition importMatches (p : ImportPort) : bool :=
  EqualFold (si_Name si) (Name svc) &&
  (bool_decide (Port svc = 0) || bool_decide (Port svc = uint16 (ipt_Port p))) &&
  bool_decide (0 < length (ipt_Endpoints p))%nat.

Lemma admitted_port x :
  0 ≤ TargetPort svc → 0 ≤ tgt_Port (ime_Target x.1) < 2 ^ 16 → x ∈ admitted svc keys port →
  bool_decide (TargetPort svc = 0) || bool_decide (tgt_Port (ime_Target x.1) = TargetPort svc) = true.
Proof.
  destruct x as [e w]. intros Ht Hp Hx. unfold admitted in Hx. apply list_elem_of_omap in Hx as (e' & _ & Hx).
  simpl in *. destruct (bool_decide (0 < TargetPort svc)) eqn:Hpos; simpl in Hx.
  - destruct (bool_decide (TargetPort svc = _)) eqn:He; simpl in Hx; [|done].
    apply bool_decide_eq_true in He. assert (e' = e) as ->.
    { case_bool_decide; [congruence|]. by destruct (keys !! _); simplify_eq/=. }
    rewrite uint16_id in He by done. apply orb_true_iff. right. by apply bool_decide_eq_true.
  - apply bool_decide_eq_false in Hpos. apply orb_true_iff. left. apply bool_decide_eq_true. lia.
Qed.

(** C35. Imported endpoints survive the detour through annotations: the fsm
    provider offers exactly the endpoints the traffic policy admits, in order,
    each with the port, path, cluster and weight of the import, provided no
    two of them share an address and port, and ports and weights are in their
    ranges. *)
Theorem imported_endpoints_roundtrip :
  getServiceTrafficPolicy c svc = (lbType, keys) → lbType ≠ LocalityLbType →
  findImport c svc = Some si → head (List.filter importMatches (si_Ports si)) = Some port →
  Subdomain svc = "" → 0 ≤ TargetPort svc →
  NoDup (map address (admitted svc keys port)) →
  (∀ x, x ∈ admitted svc keys port → 0 ≤ tgt_Port (ime_Target x.1) < 2 ^ 16 ∧ 0 ≤ x.2 < 2 ^ 32) →
  fsm_ListEndpointsForService c svc = omap (offeredEndpoint lbType) (admitted svc keys port).
Proof.
  intros Hpol Hlb Hsi Hport Hsub Ht Hnd Hrange. unfold fsm_ListEndpointsForService, mc_GetEndpoints.
  rewrite Hpol, bool_decide_eq_false_2, Hsi by done. cbn [mbind option_bind].
  fold importMatches. rewrite Hport. cbn [mbind option_bind].
  set (adm := admitted svc keys port) in *.
  set (eps := foldl _ _ adm).
  destruct (written_endpoints lbType port adm (mkEndpoints (si_Namespace si) (si_Name si) ∅ ∅ []) Hnd) as (E & Ha & _).
  fold eps in E, Ha. simpl in E. unfold selectedAddresses. rewrite E, Hsub.
  assert (∀ x, x ∈ adm → x ∈ admitted svc keys port) as Hadm by done. clearbody eps. clear E Hnd.
  assert (∀ l, l ⊆ adm → omap (λ '(p, a), importedEndpoint eps p a <$> parsedIP (epa_IP a))
    (subset ← map (importSubset port) l;
     p ← List.filter (λ p, bool_decide (TargetPort svc = 0) || bool_decide (epp_Port p = TargetPort svc)) (sub_Ports subset);
     map (pair p) (List.filter (λ a, bool_decide ("" = "") || bool_decide ("" = epa_Hostname a)) (sub_Addresses subset))) =
    omap (offeredEndpoint lbType) l) as Hl; [|by apply Hl].
  induction l as [|x l IH]; intros Hsubset; [done|].
  assert (x ∈ adm) as Hx by set_solver. destruct (Hrange x Hx) as [Hp Hw].
  rewrite map_cons, bind_cons, omap_app, (IH ltac:(set_solver)). simpl.
  rewrite (admitted_port x Ht Hp (Hadm x Hx)). simpl.
  destruct (Ha x Hx) as (E1 & E2 & E3 & E4). unfold address in *. simpl in *.
  unfold offeredEndpoint, importedEndpoint. simpl. rewrite E1, E2, E3, E4. simpl.
  rewrite ParseUint32_pretty, uint32_id by lia. by destruct (parsedIP _).
Qed.

End roundtrip.

(** ** Active-active policies *)

Lemma foldl_insert_ports (aa : bool) (l : list ImportEndpoint) (m : gmap Z bool) e :
  e ∈ l → foldl (λ ports e, <[uint16 (tgt_Port (ime_Target e)) := aa]> ports) m l
            !! uint16 (tgt_Port (ime_Target e)) = Some aa.
Proof.
  intros He. cut (∀ l (m : gmap Z bool), (m !! uint16 (tgt_Port (ime_Target e)) = Some aa ∨ e ∈ l) →
    foldl (λ ports e, <[uint16 (tgt_Port (ime_Target e)) := aa]> ports) m l
      !! uint16 (tgt_Port (ime_Target e)) = Some aa); [intros H; apply H; by right|].
  clear. induction l as [|x l IH]; intros m [H|H]; simpl; [done|by apply not_elem_of_nil in H|..];
    apply IH.
  - left. rewrite lookup_insert. by case_decide.
  - apply elem_of_cons in H as [<-|H]; [left; apply lookup_insert_eq|by right].
Qed.

Lemma foldl_keys_lookup (l : list LbTarget) (m : gmap string Z) k :
  (∀ t, t ∈ l → lbt_ClusterKey t ≠ k) →
  foldl (λ keys lbt, <[lbt_ClusterKey lbt := default 0 (lbt_Weight lbt)]> keys) m l !! k = m !! k.
Proof.
  revert m. induction l as [|t l IH]; intros m H; simpl; [done|].
  rewrite IH by set_solver. apply lookup_insert_ne, H. by left.
Qed.

Lemma foldl_keys_nonempty (l : list LbTarget) (m : gmap string Z) :
  m ≠ ∅ ∨ l ≠ [] → foldl (λ keys lbt, <[lbt_ClusterKey lbt := default 0 (lbt_Weight lbt)]> keys) m l ≠ ∅.
Proof.
  revert m. induction l as [|t l IH]; intros m; simpl; [naive_solver|].
  intros _. apply IH. left. apply insert_non_empty.
Qed.

Lemma active_weights (c : Multicluster.Client) svc g :
  getGlobalTrafficPolicy c svc = Some g → gtp_LbType g = ActiveActiveLbType → gtp_Targets g ≠ [] →
  ServiceImportUID svc = "" → (∀ t, t ∈ gtp_Targets g → lbt_ClusterKey t ≠ "") →
  LbWeightForService c svc = mkLbWeights true false false 0 ∅.
Proof.
  intros Hg Hlb Hne Huid Ht. unfold LbWeightForService. rewrite Hg, Hlb, Huid, bool_decide_eq_true_2 by done.
  assert (List.filter (λ t, bool_decide ("" = lbt_ClusterKey t)) (gtp_Targets g) = []) as E.
  { destruct (List.filter _ (gtp_Targets g)) as [|t l] eqn:El; [done|].
    assert (t ∈ List.filter (λ t, bool_decide ("" = lbt_ClusterKey t)) (gtp_Targets g)) as Hin by (rewrite El; by left).
    apply elem_of_lfilter in Hin as [Hin E%bool_decide_eq_true]. by destruct (Ht t Hin). }
  destruct (gtp_Targets g) as [|t0 ts]; [done|]. by rewrite E.
Qed.

(** The targets of an active-active policy do not restrict target ports:
    the lookup passes a service without cluster, no target matches it, and
    without matches every endpoint counts.  The port of an endpoint of a
    cluster that is not a target is offered, although the endpoint itself is
    not. *)
Theorem active_active_ignores_targets (c : Multicluster.Client) nn g si p e :
  getGlobalTrafficPolicy c (named (nn_Namespace nn) (nn_Name nn)) = Some g →
  gtp_LbType g = ActiveActiveLbType → gtp_Targets g ≠ [] →
  (∀ t, t ∈ gtp_Targets g → lbt_ClusterKey t ≠ "" ∧ lbt_ClusterKey t ≠ ime_ClusterKey e) →
  findImport c (named (nn_Namespace nn) (nn_Name nn)) = Some si → si_Name si = nn_Name nn →
  p ∈ si_Ports si → e ∈ ipt_Endpoints p →
  mc_GetTargetPortForServicePort c nn (uint16 (ipt_Port p)) !! uint16 (tgt_Port (ime_Target e)) = Some true ∧
  ∀ w, (e, w) ∉ admitted (named (nn_Namespace nn) (nn_Name nn))
                  (getServiceTrafficPolicy c (named (nn_Namespace nn) (nn_Name nn))).2 p.
Proof.
  intros Hg Hlb Hne Ht Hsi Hname Hp He. split.
  - unfold mc_GetTargetPortForServicePort. rewrite (active_weights c _ g Hg Hlb Hne), Hsi; [|done|by intros t [? _]%Ht].
    cbn [w_lc w_aa w_clusterKeys]. apply foldl_insert_ports, list_elem_of_bind. exists p. split.
    + apply elem_of_lfilter. by rewrite bool_decide_eq_true_2.
    + apply elem_of_lfilter. split; [done|]. unfold EqualFold. by rewrite Hname, !bool_decide_eq_true_2.
  - intros w Hin. unfold getServiceTrafficPolicy in Hin. rewrite Hg in Hin. simpl in Hin.
    unfold admitted in Hin. apply list_elem_of_omap in Hin as (e' & _ & Hin). simpl in Hin.
    rewrite bool_decide_eq_false_2 in Hin by (by apply foldl_keys_nonempty; right).
    destruct (foldl _ ∅ (gtp_Targets g) !! ime_ClusterKey e') as [w'|] eqn:Ek; [|done]. simplify_eq/=.
    rewrite foldl_keys_lookup in Ek by (intros t Hin; by apply Ht). done.
Qed.

(** ** Witnesses: a service imported from two clusters, one of them a target *)

Definition demoImported (key ip : string) : ImportEndpoint := mkImportEndpoint (mkTarget key ip 8080 "/cart") key.

Definition demoImportPort : ImportPort :=
  mkImportPort "http" "TCP" None 80 [demoImported "east" "10.1.0.1"; demoImported "west" "10.2.0.1"].

Definition demoImport : ServiceImport := mkServiceImport "shop" "cart" "uid" [demoImportPort] "*".

Definition demoPolicy : GlobalTrafficPolicy :=
  mkGlobalTrafficPolicy "shop" "cart" ActiveActiveLbType [mkLbTarget "east" (Some 30)].

Definition demoMulticluster : Multicluster.Client := {|
  inf_ServiceImport := Some (listStore (λ s, si_Namespace s +:+ "/" +:+ si_Name s) [demoImport]);
  inf_ServiceExport := None;
  inf_GlobalTrafficPolicy := Some (listStore (λ g, gtp_Namespace g +:+ "/" +:+ gtp_Name g) [demoPolicy]);
  inf_IngressClass := None |}.

Definition demoKube : client :=
  K8sClient.mkClient (listStore ns_Name [mkNamespace "shop" ∅]) (inf_Service demoClient) None None None None.

Definition demoConfigurator : Configurator :=
  mkConfigurator false false false "ip" None MeshConfig.MeshConfig.zeroFlags (mkLB "" "" None).

Lemma list_services_total_witness :
  ∃ l, @kube_ListServices trie_range (λ _ _, mkMicroSvc ∅ ∅ None)
         (@client_Controller gset_MapSet subset_LabelMatch demoKube) demoConfigurator = Ret l ∧
    ∀ m, m ∈ l → ∃ svc, svc ∈ informers_List (inf_Service demoKube) ∧ isExclusionService demoKube svc = false ∧
      kube_IsMonitoredNamespace demoKube (Namespace m) = true ∧ Namespace m = k8s_Namespace svc ∧
      ∃ p, p ∈ k8s_Ports svc ∧ Port m = uint16 (svp_Port p).
Proof. apply list_services_total. apply listStore_laws. Defined.

Definition demoRemote : MeshService := mkMeshService "shop" "cart" 80 8080 "http" "" "" "".

Lemma demo_admitted :
  admitted demoRemote {["east" := 30]} demoImportPort = [(demoImported "east" "10.1.0.1", 30)].
Proof. vm_compute. reflexivity. Qed.

Lemma imported_endpoints_roundtrip_witness :
  fsm_ListEndpointsForService demoMulticluster demoRemote =
  omap (offeredEndpoint ActiveActiveLbType) (admitted demoRemote {["east" := 30]} demoImportPort).
Proof.
  apply (imported_endpoints_roundtrip demoMulticluster demoRemote ActiveActiveLbType {["east" := 30]} demoImport
    demoImportPort); rewrite ?demo_admitted; try reflexivity; try discriminate.
  - apply NoDup_singleton.
  - intros x [->|[]%not_elem_of_nil]%elem_of_cons. simpl. lia.
Defined.

Lemma active_active_ignores_targets_witness :
  mc_GetTargetPortForServicePort demoMulticluster (mkNN "shop" "cart") 80 !! 8080 = Some true.
Proof.
  apply (active_active_ignores_targets demoMulticluster (mkNN "shop" "cart") demoPolicy demoImport demoImportPort
    (demoImported "west" "10.2.0.1")); try reflexivity; [discriminate|..].
  - intros t [->|[]%not_elem_of_nil]%elem_of_cons. split; discriminate.
  - by left.
  - right. by left.
Defined.

End ProvidersFacts.
