(* ===== verification/CatalogInbound.v ===== *)
(** * Inbound traffic policies: pkg/catalog/inbound_traffic_policies.go

    What an upstream proxy accepts: local clusters and traffic matches per
    service, and HTTP routes with the principals allowed on them, from
    TrafficTargets and route groups, or wildcards in permissive mode.  The
    rules merged here are all freshly allocated, so they are values
    (see [MergeRules] and its refinement in TrafficPolicyFacts). *)

From S2P Require Import Prelude Identity Service Api MeshConfig Net Cidr TrafficPolicy K8s Smi Policy Catalog.
Import Identity.Identity Service.Service Api.Api MeshConfig.MeshConfig Net.Net TrafficPolicy.TrafficPolicy
  K8s.K8s Smi.Smi Policy.Policy Catalog.Catalog.

Module CatalogInbound.

Definition AnnotationMeshEndpointAddr : string := "flomesh.io/cloud-endpoint-addr".

(** The route of an SMI match: empty path and methods are wildcards. *)
Definition routeOfMatch (m : HTTPMatch) : HTTPRouteMatch :=
  {| Path := if bool_decide (hm_PathRegex m = "") then RegexMatchAll else hm_PathRegex m;
     hrm_PathMatchType := PathMatchRegex;
     Methods := if bool_decide (slice_len (hm_Methods m) = 0) then Some [WildcardHTTPMethod] else hm_Methods m;
     Headers := hm_Headers m |}.

Definition getTrafficSpecName (kind namespace name : string) : string :=
  kind +:+ "/" +:+ namespace +:+ "/" +:+ name.

Section inbound.
Context {MS : MapSet} (mc : MeshCatalog).

(** ** Hostnames (outbound_traffic_policies.go) *)

(** The gRPC interface name of a connector service, if it has one. *)
Definition grpcHostname (meshSvc : MeshService) : option string :=
  if negb (bool_decide (Protocol meshSvc = ProtocolGRPC)) then None
  else k8sSvc ← GetService (kubeController mc) meshSvc;
       v ← k8s_Annotations k8sSvc !! AnnotationMeshEndpointAddr;
       interface ← msm_GRPCInterface (decodeMeta mc k8sSvc v);
       if bool_decide (interface = "") then None else Some interface.

Definition getHostnamesForService (meshSvc : MeshService) (localNamespace : bool)
    (endpoints : list Endpoint) : go (list string) :=
  match grpcHostname meshSvc with
  | Some interface => Ret [interface]
  | None =>
      let sam := GetServiceAccessMode (configurator mc) in
      let san := GetServiceAccessNames (configurator mc) in
      hostnames ←
        (if bool_decide (sam = ServiceAccessModeDomain) || bool_decide (sam = ServiceAccessModeMixed)
         then GetHostnamesForService (svcTrustDomain mc) meshSvc san localNamespace else Ret []);
      if bool_decide (sam = ServiceAccessModeIP) || bool_decide (sam = ServiceAccessModeMixed)
      then gofold (λ hostnames endp,
             san ← deref san;
             Ret (hostnames ++ withPort (san_MustWithServicePort san) (ip_String (ep_IP endp)) (Port meshSvc)))
             hostnames endpoints
      else Ret hostnames
  end.

(** ** Routes from TrafficTargets *)

(** Per route group, its matches by name; groups without matches are skipped.
    The error is always nil. *)
Definition getHTTPPathsPerRoute : gmap string (gmap string HTTPRouteMatch) :=
  foldl (λ routePolicies group,
    match hrg_Matches group with
    | None => routePolicies
    | Some matches =>
        <[getTrafficSpecName HTTPRouteGroupKind (hrg_Namespace group) (hrg_Name group) :=
            foldl (λ m x, <[hm_Name x := routeOfMatch x]> m) ∅ matches]> routePolicies
    end) ∅ (ms_ListHTTPTrafficSpecs (meshSpec mc)).

Definition routesFromRules (rules : list TrafficTargetRule) (trafficTargetNamespace : string)
    : list HTTPRouteMatch :=
  let specMatchRoute := getHTTPPathsPerRoute in
  if bool_decide (size specMatchRoute = 0) then []
  else foldl (λ routes rule,
    let trafficSpecName := getTrafficSpecName HTTPRouteGroupKind trafficTargetNamespace (ttr_Name rule) in
    foldl (λ routes match_,
      match specMatchRoute !! trafficSpecName ≫= (!!) match_ with
      | Some matchedRoute => routes ++ [matchedRoute]
      | None => routes
      end) routes (ttr_Matches rule)) [] rules.

Definition getRoutingRulesFromTrafficTarget (t : TrafficTarget) (routingCluster : WeightedCluster)
    (uts : option UpstreamTrafficSetting) : list Rule :=
  let httpRouteMatches := routesFromRules (tt_Rules t) (tt_Namespace t) in
  let trustDomain := GetTrustDomain mc in
  let allowedDownstreamPrincipals :=
    foldl (λ s source, (Add (sa_AsPrincipal (trafficTargetIdentityToSvcAccount source) trustDomain) s).1)
      NewSet (tt_Sources t) in
  foldl (λ rules m,
    rules ++ [{| Route := NewRouteWeightedCluster m [routingCluster] uts;
                 AllowedPrincipals := allowedDownstreamPrincipals |}]) [] httpRouteMatches.

Definition localCluster (upstreamSvc : MeshService) : WeightedCluster :=
  mkWC (SidecarLocalClusterName upstreamSvc) ClusterWeightAcceptAll.

Definition setRules (p : InboundTrafficPolicy Rule) (rules : list Rule) : InboundTrafficPolicy Rule :=
  mkInbound (itp_Name p) (Hostnames p) rules (itp_RateLimit p).

Definition buildInboundHTTPPolicyFromTrafficTarget (upstreamSvc : MeshService)
    (trafficTargets : list TrafficTarget) (uts : option UpstreamTrafficSetting)
    : go (InboundTrafficPolicy Rule) :=
  hostnames ← GetHostnamesForService (svcTrustDomain mc) upstreamSvc
                (GetServiceAccessNames (configurator mc)) true;
  let inboundPolicy := NewInboundTrafficPolicy (PolicyName upstreamSvc false) hostnames uts in
  let routingRules :=
    foldl (λ routingRules t,
      MergeRules routingRules (getRoutingRulesFromTrafficTarget t (localCluster upstreamSvc) uts))
      [] trafficTargets in
  Ret (setRules inboundPolicy routingRules).

Definition getInboundTrafficPoliciesForUpstream (upstreamSvc : MeshService) (permissiveMode : bool)
    (trafficTargets : list TrafficTarget) (uts : option UpstreamTrafficSetting)
    : go (InboundTrafficPolicy Rule) :=
  if permissiveMode then
    let endpoints := getDNSResolvableServiceEndpoints mc upstreamSvc in
    hostnames ← getHostnamesForService upstreamSvc true endpoints;
    Ret (setRules (NewInboundTrafficPolicy (PolicyName upstreamSvc false) hostnames uts)
           [{| Route := NewRouteWeightedCluster WildCardRouteMatch [localCluster upstreamSvc] uts;
               AllowedPrincipals := NewSetFromSlice [WildcardPrincipal] |}])
  else buildInboundHTTPPolicyFromTrafficTarget upstreamSvc trafficTargets uts.

(** ** Services with their apex services *)

Definition apexOf (svc : MeshService) (split : TrafficSplit) : MeshService :=
  let svcName := GetServiceFromHostname (Some (kubeController mc)) (ts_Service split) in
  let subdomain := GetSubdomainFromHostname (Some (kubeController mc)) (ts_Service split) in
  {| Namespace := Namespace svc;
     Name := if bool_decide (subdomain = "") then svcName else subdomain +:+ "." +:+ svcName;
     Port := Port svc; TargetPort := TargetPort svc; Protocol := Protocol svc;
     ServiceImportUID := ""; CloudInheritedFrom := ""; CloudAttachedNamespace := "" |}.

Definition splitsOf (svc : MeshService) : list TrafficSplit :=
  ms_ListTrafficSplits (meshSpec mc) [WithTrafficSplitBackendService svc].

Definition getUpstreamServicesIncludeApex (upstreamServices : list MeshService) : list MeshService :=
  (foldl (λ st svc,
     foldl (λ st split, addUnique st (apexOf svc split)) (addUnique st svc) (splitsOf svc))
     (NewSet, []) upstreamServices).2.

(** ** The policy *)

Definition isTCP (protocol : string) : bool :=
  bool_decide (protocol = ProtocolTCP) || bool_decide (protocol = ProtocolTCPServerFirst).

Definition inboundTrafficMatch (svc : MeshService) (uts : option UpstreamTrafficSetting) : TrafficMatch :=
  {| tm_Name := InboundTrafficMatchName svc;
     tm_DestinationPort := TargetPort svc;
     tm_DestinationProtocol := Protocol svc;
     tm_DestinationIPRanges := [];
     tm_ServerNames := [ServerName (svcTrustDomain mc) svc];
     tm_Cluster := SidecarLocalClusterName svc;
     tm_WeightedClusters := [];
     tm_RateLimit := uts ≫= λ u, utss_RateLimit (uts_Spec u);
     tm_EgressGateWay := None |}.

(** One upstream service: its cluster, its match if it is not an apex
    service, its HTTP policy unless it speaks TCP. *)
Definition inboundStep (permissiveMode : bool) (trafficTargets : list TrafficTarget)
    (upstreamSvcSet : mset MeshService) (p : InboundMeshTrafficPolicy) (svc : MeshService)
    : go InboundMeshTrafficPolicy :=
  let clusterConfigs := imp_ClustersConfigs p ++
    [{| mcc_Name := SidecarLocalClusterName svc; mcc_Service := svc; mcc_Address := LocalhostIPAddress;
        mcc_Port := uint32 (TargetPort svc); mcc_EnableSidecarActiveHealthChecks := false;
        mcc_UpstreamTrafficSetting := None |}] in
  uts ← pc_GetUpstreamTrafficSetting (policyController mc) (byService svc);
  let trafficMatches :=
    if Contains svc upstreamSvcSet then imp_TrafficMatches p ++ [inboundTrafficMatch svc uts]
    else imp_TrafficMatches p in
  if isTCP (Protocol svc) then
    Ret {| imp_TrafficMatches := trafficMatches;
           imp_HTTPRouteConfigsPerPort := imp_HTTPRouteConfigsPerPort p;
           imp_ClustersConfigs := clusterConfigs |}
  else
    policy ← getInboundTrafficPoliciesForUpstream svc permissiveMode trafficTargets uts;
    Ret {| imp_TrafficMatches := trafficMatches;
           imp_HTTPRouteConfigsPerPort :=
             map_append (TargetPort svc) [policy] (imp_HTTPRouteConfigsPerPort p);
           imp_ClustersConfigs := clusterConfigs |}.

Definition GetInboundMeshTrafficPolicy (upstreamIdentity : ServiceIdentity)
    (upstreamServices : list MeshService) : go InboundMeshTrafficPolicy :=
  let permissiveMode := IsPermissiveTrafficPolicyMode (configurator mc) in
  trafficTargets ←
    (if permissiveMode then Ret []
     else sa ← ToK8sServiceAccount upstreamIdentity;
          Ret (ms_ListTrafficTargets (meshSpec mc) [WithTrafficTargetDestination sa]));
  let upstreamSvcSet := NewSetFromSlice upstreamServices in
  let allUpstreamServices := getUpstreamServicesIncludeApex upstreamServices in
  gofold (inboundStep permissiveMode trafficTargets upstreamSvcSet) (mkInboundMesh [] ∅ []) allUpstreamServices.

End inbound.

End CatalogInbound.
