(* ===== verification/CatalogInboundFacts.v ===== *)
(** * Properties of inbound traffic policies

    Who may use which route of a service is exactly what the TrafficTargets
    of its account say; clusters and traffic matches correspond to the
    services; routes come from the TrafficTarget's own namespace. *)

From S2P Require Import Prelude Identity Service Api MeshConfig Net Cidr TrafficPolicy TrafficPolicyFacts K8s Smi Policy.
From S2P Require Import Catalog CatalogFacts CatalogInbound.
Import Identity.Identity Service.Service Api.Api MeshConfig.MeshConfig Net.Net TrafficPolicy.TrafficPolicy
  TrafficPolicyFacts.TrafficPolicyFacts K8s.K8s Smi.Smi Policy.Policy Catalog.Catalog
  CatalogFacts.CatalogFacts CatalogInbound.CatalogInbound.

Module CatalogInboundFacts.

(** The service access names are configured, those of cloud services too. *)
Definition namesConfigured (mc : MeshCatalog) : Prop :=
  ∃ san, GetServiceAccessNames (configurator mc) = Some san ∧ is_Some (san_Cloud san).

Lemma GetHostnamesForService_total td svc san local :
  is_Some (san_Cloud san) → ∃ hs, GetHostnamesForService td svc (Some san) local = Ret hs.
Proof.
  intros [cloud Hc]. unfold GetHostnamesForService. cbn [deref mbind go_bind]. rewrite Hc.
  destruct (bool_decide (CloudInheritedFrom svc = "")); simpl; repeat case_match; eauto.
Qed.

Lemma getHostnamesForService_total mc svc local eps :
  namesConfigured mc → ∃ hs, getHostnamesForService mc svc local eps = Ret hs.
Proof.
  intros (san & Hsan & Hc). unfold getHostnamesForService.
  destruct (grpcHostname mc svc); [eauto|]. rewrite Hsan.
  destruct (GetHostnamesForService_total (svcTrustDomain mc) svc san local Hc) as [hs Hhs].
  rewrite Hhs. match goal with |- context [(if ?b then Ret hs else Ret []) ≫= _] => destruct b end;
    cbn [mbind go_bind]; (case_match; [eexists; apply gofold_Ret|eauto]).
Qed.

(** ** Routes *)

Lemma elem_of_routesFromRules mc rules ns m :
  m ∈ routesFromRules mc rules ns ↔
  ∃ rule mn inner, rule ∈ rules ∧ mn ∈ ttr_Matches rule ∧
    getHTTPPathsPerRoute mc !! getTrafficSpecName HTTPRouteGroupKind ns (ttr_Name rule) = Some inner ∧
    inner !! mn = Some m.
Proof.
  unfold routesFromRules. set (paths := getHTTPPathsPerRoute mc). case_bool_decide as Hz.
  { apply map_size_empty_iff in Hz. rewrite Hz. setoid_rewrite lookup_empty. set_solver. }
  rewrite (foldl_collect _ (λ rule, ttr_Matches rule ≫= λ mn,
    option_list (paths !! getTrafficSpecName HTTPRouteGroupKind ns (ttr_Name rule) ≫= (!!) mn))).
  2:{ intros acc rule. apply foldl_collect. intros acc' mn.
      destruct (_ ≫= _); simpl; [done|by rewrite app_nil_r]. }
  simpl. rewrite list_elem_of_bind. setoid_rewrite list_elem_of_bind. setoid_rewrite elem_of_option.
  setoid_rewrite bind_Some. naive_solver.
Qed.

(** The paths of a spec name come from a group with that name. *)
Lemma getHTTPPathsPerRoute_lookup mc key inner mn m :
  getHTTPPathsPerRoute mc !! key = Some inner → inner !! mn = Some m →
  ∃ g ms x, g ∈ ms_ListHTTPTrafficSpecs (meshSpec mc) ∧ hrg_Matches g = Some ms ∧
    key = getTrafficSpecName HTTPRouteGroupKind (hrg_Namespace g) (hrg_Name g) ∧
    x ∈ ms ∧ hm_Name x = mn ∧ m = routeOfMatch x.
Proof.
  unfold getHTTPPathsPerRoute. revert key inner mn m.
  apply (foldl_inv (λ l (paths : gmap string (gmap string HTTPRouteMatch)), ∀ key inner mn m,
    paths !! key = Some inner → inner !! mn = Some m →
    ∃ g ms x, g ∈ l ∧ hrg_Matches g = Some ms ∧
      key = getTrafficSpecName HTTPRouteGroupKind (hrg_Namespace g) (hrg_Name g) ∧
      x ∈ ms ∧ hm_Name x = mn ∧ m = routeOfMatch x)); [by intros ???? ?%lookup_empty_Some|].
  intros l1 g l2 paths _ IH key inner mn m.
  destruct (hrg_Matches g) as [ms|] eqn:Eg.
  2:{ intros H1 H2. destruct (IH _ _ _ _ H1 H2) as (g' & ms' & x' & ? & Hr).
      exists g', ms', x'. split; [apply elem_of_app; auto|done]. }
  rewrite lookup_insert. case_decide as Hk.
  - intros [= <-] Hm. exists g, ms. subst key.
    assert (∃ x, x ∈ ms ∧ hm_Name x = mn ∧ m = routeOfMatch x) as (x & ?).
    { revert Hm. apply (foldl_inv (λ l (im : gmap string HTTPRouteMatch), im !! mn = Some m →
        ∃ x, x ∈ l ∧ hm_Name x = mn ∧ m = routeOfMatch x)); [by intros ?%lookup_empty_Some|].
      intros l3 x l4 im _ IHx. rewrite lookup_insert. case_decide.
      - intros [= <-]. exists x. split; [apply elem_of_app; right; by left|done].
      - intros (y & ? & ?)%IHx. exists y. split; [apply elem_of_app; auto|done]. }
    exists x. split; [apply elem_of_app; right; by left|done].
  - intros H1 H2. destruct (IH _ _ _ _ H1 H2) as (g' & ms' & x' & ? & Hr).
    exists g', ms', x'. split; [apply elem_of_app; auto|done].
Qed.

Section facts.
Context {MS : MapSet} {MSS : MapSetSpec} (mc : MeshCatalog).

(** The principals of a TrafficTarget's sources. *)
Definition principalsOf (t : TrafficTarget) : gset string :=
  list_to_set (map (λ s, sa_AsPrincipal (trafficTargetIdentityToSvcAccount s) (GetTrustDomain mc)) (tt_Sources t)).

Lemma route_eqv_match m m' wcs uts :
  rwc_deepeq (NewRouteWeightedCluster m wcs uts) (NewRouteWeightedCluster m' wcs uts) = bool_decide (m = m').
Proof.
  apply eq_true_iff_eq. rewrite rwc_deepeq_spec, bool_decide_eq_true. split; [by intros [? _]|]. by intros ->.
Qed.

(** A TrafficTarget's rules allow its sources on each of its routes. *)
Lemma routingRules_allowed t wc uts m :
  allowed (getRoutingRulesFromTrafficTarget mc t wc uts) (NewRouteWeightedCluster m [wc] uts) =
  if bool_decide (m ∈ routesFromRules mc (tt_Rules t) (tt_Namespace t)) then principalsOf t else ∅.
Proof.
  unfold getRoutingRulesFromTrafficTarget. set (ps := foldl _ NewSet _).
  assert (elems ps = principalsOf t) as Hps.
  { unfold ps, principalsOf. apply set_eq. intros x.
    rewrite (elems_foldl_add (λ _, true)), elems_NewSet, elem_of_list_to_set, list_elem_of_fmap. set_solver. }
  rewrite (foldl_collect _ (λ m, [{| Route := NewRouteWeightedCluster m [wc] uts; AllowedPrincipals := ps |}]))
    by done. simpl.
  induction (routesFromRules _ _ _) as [|m' ms IH]; [by rewrite bool_decide_eq_false_2 by set_solver|].
  rewrite bind_cons, allowed_app, IH. cbn [allowed Route AllowedPrincipals].
  rewrite route_eqv_match, Hps.
  destruct (decide (m' = m)) as [->|Hne].
  - rewrite !(bool_decide_eq_true_2 (m = m)), (bool_decide_eq_true_2 (m ∈ m :: ms)) by set_solver.
    case_bool_decide; set_solver.
  - rewrite (bool_decide_eq_false_2 (m' = m)) by done. case_bool_decide; case_bool_decide; set_solver.
Qed.

Lemma mergedRules_allowed ts wc uts m p :
  p ∈ allowed (foldl (λ rules t, MergeRules rules (getRoutingRulesFromTrafficTarget mc t wc uts)) [] ts)
        (NewRouteWeightedCluster m [wc] uts) ↔
  ∃ t, t ∈ ts ∧ m ∈ routesFromRules mc (tt_Rules t) (tt_Namespace t) ∧ p ∈ principalsOf t.
Proof.
  apply (foldl_inv (λ ts rules, p ∈ allowed rules (NewRouteWeightedCluster m [wc] uts) ↔
    ∃ t, t ∈ ts ∧ m ∈ routesFromRules mc (tt_Rules t) (tt_Namespace t) ∧ p ∈ principalsOf t)); [set_solver|].
  intros l1 t l2 rules _ IH. rewrite MergeRules_allowed, elem_of_union, IH, routingRules_allowed.
  setoid_rewrite elem_of_app. setoid_rewrite list_elem_of_singleton. split.
  - intros [(t' & ? & ?)|Hp]; [eauto|]. case_bool_decide; [eauto|set_solver].
  - intros (t' & [?| ->] & Hm & ?); [eauto|]. right. by rewrite bool_decide_eq_true_2.
Qed.

Lemma mergedRules_distinct ts wc uts :
  distinctRoutes (foldl (λ rules t, MergeRules rules (getRoutingRulesFromTrafficTarget mc t wc uts)) [] ts).
Proof.
  apply (foldl_inv (λ _ rules, distinctRoutes rules)); [constructor|].
  intros ????? H. by apply MergeRules_distinct.
Qed.

(** ** Services *)

Lemma getUpstreamServicesIncludeApex_uniq svcs :
  getUpstreamServicesIncludeApex mc svcs =
  uniq (svcs ≫= λ svc, svc :: (apexOf mc svc <$> splitsOf mc svc)).
Proof.
  unfold getUpstreamServicesIncludeApex.
  rewrite <-(proj1 (foldl_addUnique (svcs ≫= λ svc, svc :: (apexOf mc svc <$> splitsOf mc svc)))).
  f_equal. generalize (NewSet (A:=MeshService), @nil MeshService). induction svcs as [|s svcs IH]; intros st; [done|].
  rewrite bind_cons, foldl_app. cbn [foldl]. rewrite IH. f_equal.
  generalize (addUnique st s). induction (splitsOf mc s) as [|x xs IHx]; intros st'; simpl; [done|]. by rewrite IHx.
Qed.

(** ** The loop over the services *)

Context (permissive : bool) (ts : list TrafficTarget) (set : mset MeshService).

Definition policyFor (svc : MeshService) (pol : InboundTrafficPolicy Rule) : Prop :=
  ∃ uts, pc_GetUpstreamTrafficSetting (policyController mc) (byService svc) = Ret uts ∧
         getInboundTrafficPoliciesForUpstream mc svc permissive ts uts = Ret pol.

Definition inboundInv (svcs : list MeshService) (p : InboundMeshTrafficPolicy) : Prop :=
  mcc_Service <$> imp_ClustersConfigs p = svcs ∧
  (∀ cc, cc ∈ imp_ClustersConfigs p → mcc_Name cc = SidecarLocalClusterName (mcc_Service cc)) ∧
  tm_Name <$> imp_TrafficMatches p = InboundTrafficMatchName <$> List.filter (λ s, Contains s set) svcs ∧
  (∀ svc, svc ∈ svcs → isTCP (Protocol svc) = false → ∃ pol,
     pol ∈ default [] (imp_HTTPRouteConfigsPerPort p !! TargetPort svc) ∧ policyFor svc pol).

Lemma inboundStep_inv svcs svc p p' :
  inboundInv svcs p → inboundStep mc permissive ts set p svc = Ret p' → inboundInv (svcs ++ [svc]) p'.
Proof.
  intros (H1 & H2 & H3 & H4). unfold inboundStep. intros (uts & Hu & Hs)%go_bind_Ret.
  assert (tm_Name <$> (if Contains svc set then imp_TrafficMatches p ++ [inboundTrafficMatch mc svc uts]
            else imp_TrafficMatches p) =
          InboundTrafficMatchName <$> List.filter (λ s, Contains s set) (svcs ++ [svc])) as Hm.
  { rewrite List.filter_app. simpl. destruct (Contains svc set); rewrite ?fmap_app, H3; [done|].
    by rewrite app_nil_r. }
  destruct (isTCP (Protocol svc)) eqn:Et.
  - injection Hs as <-. split; [by rewrite <-H1; simpl; rewrite fmap_app|]. split; [set_solver|]. split; [done|].
    simpl. intros s [?| ->%list_elem_of_singleton]%elem_of_app Hs; [by apply H4|congruence].
  - apply go_bind_Ret in Hs as (pol & Hpol & [= <-]). split; [by rewrite <-H1; simpl; rewrite fmap_app|].
    split; [set_solver|]. split; [done|]. simpl. intros s Hs Ht. rewrite map_append_lookup.
    apply elem_of_app in Hs as [Hs| ->%list_elem_of_singleton].
    + destruct (H4 s Hs Ht) as (q & ? & ?). exists q. set_solver.
    + exists pol. rewrite decide_True by done. split; [set_solver|]. exists uts. auto.
Qed.

Lemma inboundLoop_inv svcs p :
  gofold (inboundStep mc permissive ts set) (mkInboundMesh [] ∅ []) svcs = Ret p → inboundInv svcs p.
Proof.
  apply gofold_inv.
  - split; [done|]. split; [set_solver|]. split; [done|]. set_solver.
  - intros l1 x l2 c c' _. apply inboundStep_inv.
Qed.

Lemma inboundStep_total p svc :
  PolicyLaws (policyController mc) → namesConfigured mc → ∃ p', inboundStep mc permissive ts set p svc = Ret p'.
Proof.
  intros Hpl Hn. unfold inboundStep. destruct (setting_by_service svc) as [uts ->]. simpl.
  destruct (isTCP _); [eauto|].
  assert (∃ pol, getInboundTrafficPoliciesForUpstream mc svc permissive ts uts = Ret pol) as [pol ->];
    [|simpl; eauto].
  unfold getInboundTrafficPoliciesForUpstream, buildInboundHTTPPolicyFromTrafficTarget. destruct permissive.
  - destruct (getHostnamesForService_total mc svc true (getDNSResolvableServiceEndpoints mc svc) Hn) as [hs ->].
    simpl. eauto.
  - destruct Hn as (san & -> & Hc).
    destruct (GetHostnamesForService_total (svcTrustDomain mc) svc san true Hc) as [hs ->]. simpl. eauto.
Qed.

End facts.

(** ** Properties *)

Section properties.
Context {MS : MapSet} {MSS : MapSetSpec} (mc : MeshCatalog).
Context {HM : MeshSpecLaws (meshSpec mc)} {HP : PolicyLaws (policyController mc)}.

(** C2. In SMI mode, access to a service over HTTP is exactly what the
    TrafficTargets for its account grant: the policy is computed without a
    panic; for every HTTP service of the proxy, apex services included, it
    holds a policy with one rule per route, in which a principal is allowed
    on the route of a match exactly when some TrafficTarget whose destination
    is the account refers to that match and has a source with that
    principal. *)
Theorem inbound_access_exact u svcs :
  dotless u → IsPermissiveTrafficPolicyMode (configurator mc) = false → namesConfigured mc →
  ∃ p, GetInboundMeshTrafficPolicy mc (ToServiceIdentity u) svcs = Ret p ∧
  ∀ svc, svc ∈ getUpstreamServicesIncludeApex mc svcs → isTCP (Protocol svc) = false →
  ∃ pol uts, pol ∈ default [] (imp_HTTPRouteConfigsPerPort p !! TargetPort svc) ∧
    itp_Name pol = PolicyName svc false ∧ distinctRoutes (Rules pol) ∧
    ∀ m principal,
      principal ∈ allowed (Rules pol) (NewRouteWeightedCluster m [localCluster svc] uts) ↔
      ∃ t s, t ∈ ms_ListTrafficTargets (meshSpec mc) [] ∧ subjectAccount (tt_Destination t) = u ∧
        m ∈ routesFromRules mc (tt_Rules t) (tt_Namespace t) ∧ s ∈ tt_Sources t ∧
        principal = sa_AsPrincipal (subjectAccount s) (GetTrustDomain mc).
Proof.
  intros Hu Hperm Hn. unfold GetInboundMeshTrafficPolicy. rewrite Hperm, (ToK8sServiceAccount_New u Hu).
  cbn [mbind go_bind]. set (ts := ms_ListTrafficTargets _ [WithTrafficTargetDestination u]).
  set (set := NewSetFromSlice svcs). set (all := getUpstreamServicesIncludeApex mc svcs).
  destruct (gofold_total (λ _, True) (inboundStep mc false ts set) (mkInboundMesh [] ∅ []) all) as (p & Hp & _).
  { done. } { intros c svc _ _. destruct (inboundStep_total mc false ts set c svc HP Hn) as [? ?]. eauto. }
  exists p. split; [done|]. intros svc Hsvc Ht.
  assert (inboundInv mc false ts set all p) as (_ & _ & _ & Hpol).
  { by eapply inboundLoop_inv. }
  destruct (Hpol svc Hsvc Ht) as (pol & Hin & uts & _ & Hg). exists pol, uts. split; [done|].
  unfold getInboundTrafficPoliciesForUpstream, buildInboundHTTPPolicyFromTrafficTarget in Hg.
  apply go_bind_Ret in Hg as (hs & _ & [= <-]). split; [done|]. split; [apply mergedRules_distinct|].
  intros m pr. simpl. rewrite mergedRules_allowed. unfold principalsOf.
  setoid_rewrite elem_of_list_to_set. setoid_rewrite list_elem_of_fmap. unfold ts.
  setoid_rewrite (targets_by_destination u); [|apply Hu]. split.
  - intros (t & [? ?] & ? & s & -> & ?). exists t, s. auto 6.
  - intros (t & s & ? & ? & ? & ? & ->). exists t. eauto 7.
Qed.

(** Clusters and traffic matches correspond to services: there is one local
    cluster per service of the proxy or apex service, no service occurs
    twice, and the traffic matches are those of the proxy's own services
    only, in the same order. *)
Theorem inbound_clusters_and_matches u svcs :
  dotless u → namesConfigured mc →
  ∃ p, GetInboundMeshTrafficPolicy mc (ToServiceIdentity u) svcs = Ret p ∧
  let all := mcc_Service <$> imp_ClustersConfigs p in
  NoDup all ∧ svcs ⊆ all ∧
  (∀ svc, svc ∈ all → svc ∈ svcs ∨ ∃ s t b, s ∈ svcs ∧ svc = apexOf mc s t ∧
     t ∈ ms_ListTrafficSplits (meshSpec mc) [WithTrafficSplitBackendService s] ∧
     (Name s ≠ "" → b ∈ ts_Backends t ∧ tsb_Service b = Name s)) ∧
  (∀ cc, cc ∈ imp_ClustersConfigs p → mcc_Name cc = SidecarLocalClusterName (mcc_Service cc)) ∧
  tm_Name <$> imp_TrafficMatches p =
    InboundTrafficMatchName <$> List.filter (λ s, bool_decide (s ∈ svcs)) all.
Proof.
  intros Hu Hn. unfold GetInboundMeshTrafficPolicy.
  set (permissive := IsPermissiveTrafficPolicyMode _).
  assert (∃ ts, (if permissive then Ret [] else sa ← ToK8sServiceAccount (ToServiceIdentity u);
    Ret (ms_ListTrafficTargets (meshSpec mc) [WithTrafficTargetDestination sa])) = Ret ts) as [ts ->].
  { rewrite (ToK8sServiceAccount_New u Hu). destruct permissive; simpl; eauto. }
  cbn [mbind go_bind]. set (set := NewSetFromSlice svcs).
  destruct (gofold_total (λ _, True) (inboundStep mc permissive ts set) (mkInboundMesh [] ∅ [])
    (getUpstreamServicesIncludeApex mc svcs)) as (p & Hp & _).
  { done. } { intros c svc _ _. destruct (inboundStep_total mc permissive ts set c svc HP Hn) as [? ?]. eauto. }
  exists p. split; [done|]. set (all := mcc_Service <$> imp_ClustersConfigs p).
  assert (inboundInv mc permissive ts set (getUpstreamServicesIncludeApex mc svcs) p) as (H1 & H2 & H3 & _)
    by (by eapply inboundLoop_inv).
  fold all in H1. rewrite <-H1 in H3. rewrite getUpstreamServicesIncludeApex_uniq in H1.
  split; [rewrite H1; apply NoDup_uniq|]. split.
  { intros s Hs. rewrite H1, elem_of_uniq, list_elem_of_bind. exists s. split; [by left|done]. }
  split.
  { intros svc. rewrite H1, elem_of_uniq, list_elem_of_bind.
    intros (s & [->|(t & -> & Ht)%list_elem_of_fmap]%elem_of_cons & Hs); [auto|right].
    destruct (decide (Name s = "")) as [|Hne].
    - exists s, t, (mkSplitBackend "" 0). do 3 (split; [done|]). by intros ?.
    - pose proof Ht as Ht'. apply (splits_by_backend s t Hne) in Ht' as (_ & _ & b & ? & ?).
      exists s, t, b. auto. }
  split; [done|]. rewrite H3. f_equal. apply filter_ext. intros s.
  rewrite Contains_spec. unfold set. rewrite elems_FromSlice. apply bool_decide_ext. set_solver.
Qed.

(** A TrafficTarget's routes come from route groups of its own namespace:
    a route of its rules is the route of a match, with the name the rule
    refers to, of a listed group with the rule's name and the TrafficTarget's
    namespace. *)
Theorem routes_from_own_namespace t m :
  str_in "/" (tt_Namespace t) = false →
  (∀ g, g ∈ ms_ListHTTPTrafficSpecs (meshSpec mc) → str_in "/" (hrg_Namespace g) = false) →
  m ∈ routesFromRules mc (tt_Rules t) (tt_Namespace t) →
  ∃ rule g ms x, rule ∈ tt_Rules t ∧ g ∈ ms_ListHTTPTrafficSpecs (meshSpec mc) ∧
    hrg_Namespace g = tt_Namespace t ∧ hrg_Name g = ttr_Name rule ∧ hrg_Matches g = Some ms ∧
    x ∈ ms ∧ hm_Name x ∈ ttr_Matches rule ∧ m = routeOfMatch x.
Proof.
  intros Hns Hgs (rule & mn & inner & Hr & Hmn & Hl & Hi)%elem_of_routesFromRules.
  destruct (getHTTPPathsPerRoute_lookup _ _ _ _ _ Hl Hi) as (g & ms & x & Hg & Hms & Hk & Hx & <- & ->).
  unfold getTrafficSpecName in Hk. apply (inj (String.app HTTPRouteGroupKind)) in Hk.
  apply (inj (String.app "/")) in Hk. rewrite !str_app_cons, !str_app_nil_l in Hk.
  apply str_cut_first in Hk as [? ?]; [|done|by apply Hgs].
  exists rule, g, ms, x. auto 10.
Qed.

End properties.

(** ** Witnesses *)

Definition demoCart : MeshService := mkMeshService "shop" "cart" 80 8080 "http" "" "" "".

#[local] Existing Instance gset_MapSet.
#[local] Existing Instance gset_MapSetSpec.

Lemma demo_names permissive : namesConfigured (demoCatalog permissive).
Proof. eexists. split; [reflexivity|]. by eexists. Qed.

Lemma inbound_access_exact_witness :
  let mc := demoCatalog false in
  ∃ p, GetInboundMeshTrafficPolicy mc "cart.shop" [demoCart] = Ret p ∧
  ∀ svc, svc ∈ getUpstreamServicesIncludeApex mc [demoCart] → isTCP (Protocol svc) = false →
  ∃ pol uts, pol ∈ default [] (imp_HTTPRouteConfigsPerPort p !! TargetPort svc) ∧
    itp_Name pol = PolicyName svc false ∧ distinctRoutes (Rules pol) ∧
    ∀ m principal,
      principal ∈ allowed (Rules pol) (NewRouteWeightedCluster m [localCluster svc] uts) ↔
      ∃ t s, t ∈ ms_ListTrafficTargets (meshSpec mc) [] ∧ subjectAccount (tt_Destination t) = mkSA "shop" "cart" ∧
        m ∈ routesFromRules mc (tt_Rules t) (tt_Namespace t) ∧ s ∈ tt_Sources t ∧
        principal = sa_AsPrincipal (subjectAccount s) (GetTrustDomain mc).
Proof.
  intros mc. apply (inbound_access_exact mc (mkSA "shop" "cart") [demoCart]).
  - by apply demo_dotless.
  - done.
  - apply demo_names.
Defined.

Lemma inbound_clusters_and_matches_witness :
  ∃ p, GetInboundMeshTrafficPolicy (demoCatalog true) "cart.shop" [demoCart] = Ret p ∧
    NoDup (mcc_Service <$> imp_ClustersConfigs p) ∧ [demoCart] ⊆ mcc_Service <$> imp_ClustersConfigs p.
Proof.
  destruct (inbound_clusters_and_matches (demoCatalog true) (mkSA "shop" "cart") [demoCart])
    as (p & Hp & Hall & Hsub & _); [by apply demo_dotless|apply demo_names|].
  exists p. split; [exact Hp|]. split; [exact Hall|exact Hsub].
Defined.

Lemma routes_from_own_namespace_witness :
  ∃ rule g ms x, rule ∈ tt_Rules demoTarget ∧ g ∈ ms_ListHTTPTrafficSpecs (meshSpec (demoCatalog false)) ∧
    hrg_Namespace g = tt_Namespace demoTarget ∧ hrg_Name g = ttr_Name rule ∧ hrg_Matches g = Some ms ∧
    x ∈ ms ∧ hm_Name x ∈ ttr_Matches rule ∧ WildCardRouteMatch = routeOfMatch x.
Proof.
  apply (routes_from_own_namespace (demoCatalog false) demoTarget WildCardRouteMatch).
  - reflexivity.
  - intros g Hg. change (g ∈ [demoGroup]) in Hg. by apply list_elem_of_singleton in Hg as ->.
  - apply (bool_decide_unpack _). vm_compute. exact I.
Defined.

End CatalogInboundFacts.
