(* ===== verification/Configurator.v ===== *)
(** * The configurator: pkg/configurator/client.go, methods.go

    Reads the MeshConfig resource from its informer and answers with
    defaults where it is absent or its values are out of range.  The
    environment of the process is an argument. *)

From S2P Require Import Prelude Identity Service Api MeshConfig GoTime Net Cidr TrafficPolicy K8s Smi Policy.
From S2P Require Import Catalog.
Import Identity.Identity Service.Service Api.Api MeshConfig.MeshConfig TrafficPolicy.TrafficPolicy K8s.K8s
  Catalog.Catalog.
#[local] Open Scope Z_scope.

Module Configurator.

Definition defaultServiceCertValidityDuration : Z := 24 * 3600 * 10 ^ 9.
Definition defaultIngressGatewayCertValidityDuration : Z := 24 * 3600 * 10 ^ 9.
Definition defaultCertKeyBitSize : Z := 2048.
Definition minCertKeyBitSize : Z := 2048.
Definition maxCertKeyBitSize : Z := 4096.

(** pkg/constants *)
Definition DefaultTracingHost : string := "jaeger".
Definition DefaultTracingEndpoint : string := "/api/v2/spans".
Definition DefaultTracingPort : Z := 9411.
Definition DefaultSidecarLogLevel : string := "error".
Definition SidecarClassPipy : string := "pipy".
Definition ProxyServerPort : Z := 6060.

Record Client := mkClient {
  fsmNamespace : string;
  inf_MeshConfig : option (Store MeshConfig);
  meshConfigName : string
}.

Section methods.
Context (getenv : string → string) (c : Client).

Definition getMeshConfigCacheKey : string := fsmNamespace c +:+ "/" +:+ meshConfigName c.

(** The zero value when the resource does not exist. *)
Definition getMeshConfig : MeshConfig :=
  default zeroMeshConfig (getIfExists (inf_MeshConfig c) getMeshConfigCacheKey).

Definition spec : MeshConfigSpec := Spec getMeshConfig.

Definition GetFSMNamespace : string := fsmNamespace c.
Definition GetTrafficInterceptionMode : string := tr_InterceptionMode (Traffic spec).

(** ** Observability *)

Definition GetTracingHost : string :=
  let tracingAddress := trc_Address (obs_Tracing (Observability spec)) in
  if bool_decide (tracingAddress ≠ "") then tracingAddress
  else DefaultTracingHost +:+ "." +:+ GetFSMNamespace +:+ ".svc.cluster.local".

(** The port is an [int16]; the conversion keeps its bits. *)
Definition GetTracingPort : Z :=
  let tracingPort := trc_Port (obs_Tracing (Observability spec)) in
  if bool_decide (tracingPort ≠ 0) then uint32 tracingPort else DefaultTracingPort.

Definition GetTracingEndpoint : string :=
  let tracingEndpoint := trc_Endpoint (obs_Tracing (Observability spec)) in
  if bool_decide (tracingEndpoint ≠ "") then tracingEndpoint else DefaultTracingEndpoint.

Definition GetRemoteLoggingPort : Z :=
  let port := rl_Port (obs_RemoteLogging (Observability spec)) in
  if bool_decide (port ≠ 0) then uint32 port else 0.

(** ** Sidecars and the repo server *)

Definition GetSidecarTimeout : Z :=
  let timeout := sc_SidecarTimeout (Sidecar spec) in
  if bool_decide (timeout ≤ 0) then 60 else timeout.

Definition GetSidecarLogLevel : string :=
  let logLevel := sc_LogLevel (Sidecar spec) in
  if bool_decide (logLevel ≠ "") then logLevel else DefaultSidecarLogLevel.

Definition GetSidecarClass : string := SidecarClassPipy.

Definition GetSidecarImage : string :=
  let image := sc_SidecarImage (Sidecar spec) in
  if bool_decide (image = "") then getenv "FSM_DEFAULT_SIDECAR_IMAGE" else image.

Definition GetInitContainerImage : string := getenv "FSM_DEFAULT_INIT_CONTAINER_IMAGE".

Definition GetProxyServerPort : Z :=
  let port := rsv_Port (RepoServer spec) in
  if bool_decide (0 < port) then uint32 port else ProxyServerPort.

Definition GetRepoServerIPAddr : string :=
  let ipAddr := getenv "FSM_REPO_SERVER_IPADDR" in
  let ipAddr := if bool_decide (ipAddr = "") then rsv_IPAddr (RepoServer spec) else ipAddr in
  if bool_decide (ipAddr = "") then "127.0.0.1" else ipAddr.

Definition TrimPrefixSlash (s : string) : string :=
  match s with String "/"%char s' => s' | _ => s end.

(** One slash is cut at the end, then one at the front. *)
Definition GetRepoServerCodebase : string :=
  let codebase := getenv "FSM_REPO_SERVER_CODEBASE" in
  let codebase := if bool_decide (codebase = "") then rsv_Codebase (RepoServer spec) else codebase in
  let codebase := TrimSuffix codebase "/" in
  TrimPrefixSlash codebase.

(** ** Certificates *)

Definition GetServiceCertValidityPeriod : Z :=
  default defaultServiceCertValidityDuration
    (GoTime.ParseDuration (cs_ServiceCertValidityDuration (Certificate spec))).

Definition GetIngressGatewayCertValidityPeriod : Z :=
  match cs_IngressGateway (Certificate spec) with
  | None => defaultIngressGatewayCertValidityDuration
  | Some cert => default defaultServiceCertValidityDuration (GoTime.ParseDuration (igc_ValidityDuration cert))
  end.

Definition GetCertKeyBitSize : Z :=
  let bitSize := cs_CertKeyBitSize (Certificate spec) in
  if bool_decide (bitSize < minCertKeyBitSize) || bool_decide (maxCertKeyBitSize < bitSize)
  then defaultCertKeyBitSize else bitSize.

Definition GetConfigResyncInterval : Z :=
  default 0 (GoTime.ParseDuration (sc_ConfigResyncInterval (Sidecar spec))).

(** ** Plugin chains *)

(** The enabled plugins of a chain, in order; a nil entry panics. *)
Definition enabledPlugins (chain : slice (option PluginChainSpec)) : go (list PluginPolicy) :=
  gofold (λ plugins p,
    plugin ← deref p;
    Ret (if pcs_Disable plugin then plugins
         else plugins ++ [mkPluginPolicy (pcs_Plugin plugin) (pcs_Priority plugin) "" true])) []
    (slice_elems chain).

Definition GetGlobalPluginChains : go (gmap string (list PluginPolicy)) :=
  inboundTCPChains ← enabledPlugins (pch_InboundTCPChains (PluginChains spec));
  inboundHTTPChains ← enabledPlugins (pch_InboundHTTPChains (PluginChains spec));
  outboundTCPChains ← enabledPlugins (pch_OutboundTCPChains (PluginChains spec));
  outboundHTTPChains ← enabledPlugins (pch_OutboundHTTPChains (PluginChains spec));
  Ret (<["outbound-http" := outboundHTTPChains]> (<["outbound-tcp" := outboundTCPChains]>
      (<["inbound-http" := inboundHTTPChains]> (<["inbound-tcp" := inboundTCPChains]> ∅)))).

(** ** Ingress and gateways *)

Definition IsGatewayAPIEnabled : bool := gw_Enabled (GatewayAPI spec) && negb (ing_Enabled (Ingress spec)).
Definition IsIngressEnabled : bool := ing_Enabled (Ingress spec) && negb (gw_Enabled (GatewayAPI spec)).
Definition IsNamespacedIngressEnabled : bool := IsIngressEnabled && ing_Namespaced (Ingress spec).

Definition IsMultiClusterControlPlane : bool :=
  let clusterSet := ClusterSet spec in
  bool_decide (cls_ControlPlaneUID clusterSet = "") ||
  bool_decide (cls_UID clusterSet = cls_ControlPlaneUID clusterSet).

Definition IsIngressTLSEnabled : bool :=
  match ing_TLS (Ingress spec) with Some tls => tls_Enabled tls | None => false end.
Definition GetIngressTLSListenPort : Z :=
  match ing_TLS (Ingress spec) with Some tls => tls_Listen tls | None => 443 end.
Definition IsIngressMTLSEnabled : bool :=
  match ing_TLS (Ingress spec) with Some tls => tls_MTLS tls | None => false end.
Definition IsIngressSSLPassthroughEnabled : bool :=
  match ing_TLS (Ingress spec) with
  | Some tls => match tls_SSLPassthrough tls with Some p => sp_Enabled p | None => false end
  | None => false
  end.
Definition GetIngressSSLPassthroughUpstreamPort : Z :=
  match ing_TLS (Ingress spec) with
  | Some tls => match tls_SSLPassthrough tls with Some p => sp_UpstreamPort p | None => 443 end
  | None => 443
  end.
Definition IsIngressHTTPEnabled : bool :=
  match ing_HTTP (Ingress spec) with Some http => http_Enabled http | None => false end.
Definition GetIngressHTTPListenPort : Z :=
  match ing_HTTP (Ingress spec) with Some http => http_Listen http | None => 80 end.

(** ** What the catalog reads *)

Definition client_Configurator : Configurator := {|
  IsPermissiveTrafficPolicyMode := tr_EnablePermissiveTrafficPolicyMode (Traffic spec);
  IsEgressEnabled := tr_EnableEgress (Traffic spec);
  IsLocalDNSProxyEnabled := ldp_Enable (sc_LocalDNSProxy (Sidecar spec));
  GetServiceAccessMode := tr_ServiceAccessMode (Traffic spec);
  GetServiceAccessNames := tr_ServiceAccessNames (Traffic spec);
  GetFeatureFlags := mcs_FeatureFlags spec;
  GetConnectorLb := con_Lb (Connector spec)
|}.

End methods.

End Configurator.
