(* ===== verification/ConfiguratorFacts.v ===== *)
(** * Properties of the configurator

    Durations that parse are those of an int64; a negative tracing port is not
    rejected; without a MeshConfig the catalog panics. *)

From S2P Require Import Prelude Identity Service Api MeshConfig GoTime Net Cidr TrafficPolicy K8s Smi Policy.
From S2P Require Import Catalog CatalogFacts CatalogInbound CatalogInboundFacts Configurator.
Import Identity.Identity Service.Service Api.Api MeshConfig.MeshConfig TrafficPolicy.TrafficPolicy K8s.K8s
  Policy.Policy
  Catalog.Catalog CatalogFacts.CatalogFacts CatalogInbound.CatalogInbound
  CatalogInboundFacts.CatalogInboundFacts Configurator.Configurator.
#[local] Open Scope Z_scope.

Module ConfiguratorFacts.

Lemma parseTerms_range n d s r : 0 ≤ d ≤ 2 ^ 63 → GoTime.parseTerms n d s = Some r → 0 ≤ r ≤ 2 ^ 63.
Proof.
  revert d s. induction n as [|n IH]; intros d s Hd; [done|]. simpl. destruct s as [|a s]; [by intros [= <-]|].
  rewrite bind_Some. intros ([v rest] & _ & H). case_decide as Hv; [done|]. eapply IH; [|exact H].
  split; [apply Z.mod_pos_bound|]; lia.
Qed.

Lemma ParseDuration_range s d : GoTime.ParseDuration s = Some d → is_int64 d.
Proof.
  unfold GoTime.ParseDuration, is_int64. destruct (match s with String _ _ => _ | _ => _ end) as [neg s'].
  case_decide; [by intros [= <-]|]. case_decide; [done|]. rewrite bind_Some.
  intros (r & Hr & H'). apply parseTerms_range in Hr; [|lia].
  destruct neg; [injection H' as <-; lia|]. case_decide; [done|]. injection H' as <-. lia.
Qed.

(** ** Hostnames need the service access names *)

Lemma gofold_Panics {A B} (f : B → A → go B) b l x :
  x ∈ l → (∀ c, f c x = Panic) → gofold f b l = Panic.
Proof.
  intros Hx Hf. revert b. induction Hx as [l|x y l Hx IH]; intros b; simpl; [by rewrite Hf|].
  destruct (f b y); simpl; [|done]. by apply IH.
Qed.

Lemma hostnames_need_names td svc local : GetHostnamesForService td svc None local = Panic.
Proof. reflexivity. Qed.

Section properties.
Context (getenv : string → string) (c : Client).

(** A negative tracing port is not rejected: the conversion of the int16
    to uint32 turns it into a number no port can have. *)
Theorem negative_tracing_port :
  - 2 ^ 15 ≤ trc_Port (obs_Tracing (Observability (spec c))) < 0 →
  2 ^ 16 ≤ GetTracingPort c ∧ GetTracingPort c = 2 ^ 32 + trc_Port (obs_Tracing (Observability (spec c))).
Proof.
  intros Hp. unfold GetTracingPort. rewrite bool_decide_eq_true_2 by lia. unfold uint32.
  rewrite <-(Z_mod_plus _ 1) by lia. rewrite Z.mod_small; lia.
Qed.

(** Without a MeshConfig the service access names are nil, and computing
    the inbound policy of a proxy with a service that is not TCP panics. *)
Theorem no_mesh_config_panics `{MS : MapSet, !MapSetSpec} (mc : MeshCatalog) si svcs svc :
  configurator mc = client_Configurator c → getIfExists (inf_MeshConfig c) (getMeshConfigCacheKey c) = None →
  svc ∈ svcs → isTCP (Protocol svc) = false →
  GetInboundMeshTrafficPolicy mc si svcs = Panic.
Proof.
  intros Hc Hm Hs Ht.
  assert (GetServiceAccessNames (configurator mc) = None ∧
          IsPermissiveTrafficPolicyMode (configurator mc) = false) as [Hn Hp].
  { rewrite Hc. unfold client_Configurator, spec, getMeshConfig. simpl. by rewrite Hm. }
  unfold GetInboundMeshTrafficPolicy. rewrite Hp.
  destruct (sa ← ToK8sServiceAccount si; _) as [ts|]; [cbn [mbind go_bind]|done].
  apply gofold_Panics with svc.
  - rewrite getUpstreamServicesIncludeApex_uniq, elem_of_uniq, list_elem_of_bind. exists svc. split; [left|done].
  - intros p. unfold inboundStep. destruct (pc_GetUpstreamTrafficSetting _ _) as [uts|]; [|done].
    cbn [mbind go_bind]. rewrite Ht. unfold getInboundTrafficPoliciesForUpstream,
      buildInboundHTTPPolicyFromTrafficTarget. by rewrite Hn, hostnames_need_names.
Qed.

End properties.

(** ** Witnesses *)

Definition withSpec (s : MeshConfigSpec) : Client :=
  let m := mkMeshConfig "fsm-system" "fsm-mesh-config" s in
  mkClient "fsm-system" (Some (listStore (λ m, mcfg_Namespace m +:+ "/" +:+ mcfg_Name m) [m])) "fsm-mesh-config".

Definition withTracingPort (p : Z) : MeshConfigSpec := {|
  ClusterSet := ClusterSet zeroSpec; Sidecar := zeroSidecar; RepoServer := RepoServer zeroSpec;
  Traffic := zeroTraffic; Warmup := Warmup zeroSpec;
  Observability := mkObservability "" (mkTracing true p "" "" None) (obs_RemoteLogging zeroObservability);
  Certificate := Certificate zeroSpec; mcs_FeatureFlags := zeroFlags; PluginChains := PluginChains zeroSpec;
  Ingress := Ingress zeroSpec; GatewayAPI := GatewayAPI zeroSpec; ServiceLB := ServiceLB zeroSpec;
  FLB := FLB zeroSpec; EgressGatewayCfg := EgressGatewayCfg zeroSpec; Image := Image zeroSpec;
  Misc := Misc zeroSpec; Connector := Connector zeroSpec |}.

Lemma negative_tracing_port_witness : 2 ^ 16 ≤ GetTracingPort (withSpec (withTracingPort (-1))).
Proof. apply (negative_tracing_port (withSpec (withTracingPort (-1)))). vm_compute. split; [intros ?; discriminate|reflexivity]. Defined.

#[local] Existing Instance gset_MapSet.
#[local] Existing Instance gset_MapSetSpec.

Definition unconfiguredCatalog : MeshCatalog := {|
  endpointsProviders := endpointsProviders (demoCatalog false);
  serviceProviders := serviceProviders (demoCatalog false);
  meshSpec := meshSpec (demoCatalog false);
  configurator := client_Configurator (mkClient "fsm-system" None "fsm-mesh-config");
  kubeController := kubeController (demoCatalog false);
  policyController := policyController (demoCatalog false);
  multiclusterController := multiclusterController (demoCatalog false);
  GetTrustDomain := "cluster.local"; svcTrustDomain := "cluster.local";
  decodeMeta := λ _ _, mkMicroSvc ∅ ∅ None
|}.

Lemma no_mesh_config_panics_witness :
  GetInboundMeshTrafficPolicy unconfiguredCatalog "cart.shop" [demoCart] = Panic.
Proof.
  apply (no_mesh_config_panics (mkClient "fsm-system" None "fsm-mesh-config") unconfiguredCatalog
    "cart.shop" [demoCart] demoCart); [done|done|by left|done].
Defined.

End ConfiguratorFacts.
