(* ===== verification/CatalogEgress.v ===== *)
(** * Egress traffic policies: pkg/catalog/egress.go

    What a client may reach outside the mesh: traffic matches and clusters per
    port, and HTTP routes per host, from the Egress resources of its
    account. *)

From S2P Require Import Prelude Identity Service Api MeshConfig Net Cidr TrafficPolicy K8s Smi Policy Catalog.
From S2P Require Import CatalogInbound.
Import Identity.Identity Service.Service Api.Api MeshConfig.MeshConfig Net.Net TrafficPolicy.TrafficPolicy
  K8s.K8s Smi.Smi Policy.Policy Catalog.Catalog CatalogInbound.CatalogInbound.

Module CatalogEgress.

Definition upstreamTrafficSettingKind : string := "UpstreamTrafficSetting".
Definition policyGroupVersion : string := "policy.flomesh.io/v1alpha1".
Definition smiSpecsGroupVersion : string := "specs.smi-spec.io/v1alpha4".

(** [match.APIGroup != nil && *match.APIGroup == group && match.Kind == kind] *)
Definition refersTo (group kind : string) (ref : TypedLocalObjectReference) : bool :=
  bool_decide (ref_APIGroup ref = Some group) && bool_decide (ref_Kind ref = kind).

Definition getHTTPRouteMatchesFromHTTPRouteGroup (g : option HTTPRouteGroup) : list HTTPRouteMatch :=
  match g with
  | None => []
  | Some g => foldl (λ matches m, matches ++ [routeOfMatch m]) [] (slice_elems (hrg_Matches g))
  end.

Definition getEgressSourceMTLS (egressPolicy : option Egress) (source : K8sServiceAccount)
    : option EgressSourceMTLSSpec :=
  e ← egressPolicy;
  '(_, s) ← list_find (λ s, ess_Name s = sa_Name source ∧ ess_Namespace s = sa_Namespace source)
              (es_Sources (eg_Spec e));
  ess_MTLS s.

Section egress.
Context {MS : MapSet} {MR : MapRange} (mc : MeshCatalog).
(** hashstructure.Hash on matches and on clusters *)
Context {E : Type} (hashMatch : TrafficMatch → E + Z) (hashCluster : EgressClusterConfig → E + Z).

(** The first reference to an UpstreamTrafficSetting decides; [inl] is the
    error that it does not exist. *)
Definition getUpstreamTrafficSettingForEgress (egressPolicy : option Egress)
    : go (string + option UpstreamTrafficSetting) :=
  match egressPolicy with
  | None => Ret (inr None)
  | Some e =>
      match list_find (λ m, refersTo policyGroupVersion upstreamTrafficSettingKind m = true)
              (es_Matches (eg_Spec e)) with
      | None => Ret (inr None)
      | Some (_, m) =>
          let nn := mkNN (eg_Namespace e) (ref_Name m) in
          uts ← pc_GetUpstreamTrafficSetting (policyController mc) (byName nn);
          match uts with
          | None => Ret (inl ("UpstreamTrafficSetting " +:+ nn_String nn +:+ " specified in Egress policy " +:+
                              eg_Namespace e +:+ "/" +:+ eg_Name e +:+ " could not be found, ignoring it"))
          | Some u => Ret (inr (Some u))
          end
      end
  end.

(** The valid IP ranges, without repetitions. *)
Definition allowedIPRanges (ipAddresses : list string) : list string :=
  (foldl (λ st ipRange,
     match Net.ParseCIDR ipRange with
     | None => st
     | Some _ => addUnique st ipRange
     end) (NewSet, []) ipAddresses).2.

(** The routes of the referenced groups, or the wildcard without reference. *)
Definition egressRouteMatches (e : Egress) : list HTTPRouteMatch :=
  let '(specified, matches) :=
    foldl (λ '(specified, matches) m,
      if refersTo smiSpecsGroupVersion HTTPRouteGroupKind m then
        match ms_GetHTTPRouteGroup (meshSpec mc) (eg_Namespace e +:+ "/" +:+ ref_Name m) with
        | None => (true, matches)
        | Some g => (true, matches ++ getHTTPRouteMatchesFromHTTPRouteGroup (Some g))
        end
      else (specified, matches)) (false, []) (es_Matches (eg_Spec e)) in
  if specified : bool then matches else matches ++ [WildCardRouteMatch].

Definition hostRouteConfig (host : string) (port : Z) (matches : list HTTPRouteMatch) (ranges : list string)
    : EgressHTTPRouteConfig :=
  let hostnameWithPort := host +:+ ":" +:+ pretty port in
  {| erc_Name := host;
     erc_Hostnames := [host; hostnameWithPort];
     erc_RoutingRules := foldl (λ rules m, rules ++
       [{| ehr_Route := {| rwc_HTTPRouteMatch := m;
             rwc_WeightedClusters := NewSetFromSlice [mkWC hostnameWithPort ClusterWeightAcceptAll];
             rwc_RetryPolicy := None; rwc_RateLimit := None |};
           ehr_AllowedDestinationIPRanges := ranges |}]) [] matches |}.

Definition buildHTTPRouteConfigs (egressPolicy : option Egress) (port : Z)
    (uts : option UpstreamTrafficSetting) (sourceMTLS : option EgressSourceMTLSSpec)
    : list EgressHTTPRouteConfig * list EgressClusterConfig :=
  match egressPolicy with
  | None => ([], [])
  | Some e =>
      let ranges := allowedIPRanges (es_IPAddresses (eg_Spec e)) in
      let matches := egressRouteMatches e in
      foldl (λ '(routeConfigs, clusterConfigs) host,
        (routeConfigs ++ [hostRouteConfig host port matches ranges],
         clusterConfigs ++ [{| ecc_Name := host +:+ ":" +:+ pretty port; ecc_Host := host; ecc_Port := port;
                               ecc_UpstreamTrafficSetting := uts; ecc_SourceMTLS := sourceMTLS |}]))
        ([], []) (es_Hosts (eg_Spec e))
  end.

(** What the loops accumulate. *)
Record egressAcc := mkEgressAcc {
  ea_matches : list TrafficMatch;
  ea_clusters : list EgressClusterConfig;
  ea_routes : gmap Z (list EgressHTTPRouteConfig)
}.

Definition egressMatch (p : PortSpec) (ranges servers : list string) (cluster : string) (gw : option string)
    : TrafficMatch :=
  {| tm_Name := GetEgressTrafficMatchName (ps_Number p) (ps_Protocol p);
     tm_DestinationPort := ps_Number p; tm_DestinationProtocol := ps_Protocol p;
     tm_DestinationIPRanges := ranges; tm_ServerNames := servers; tm_Cluster := cluster;
     tm_WeightedClusters := []; tm_RateLimit := None; tm_EgressGateWay := gw |}.

Definition portCluster (p : PortSpec) (uts : option UpstreamTrafficSetting)
    (sourceMTLS : option EgressSourceMTLSSpec) : EgressClusterConfig :=
  {| ecc_Name := pretty (ps_Number p); ecc_Host := ""; ecc_Port := ps_Number p;
     ecc_UpstreamTrafficSetting := uts; ecc_SourceMTLS := sourceMTLS |}.

(** The switch on a port's protocol; other protocols are ignored. *)
Definition egressPort (e : Egress) (uts : option UpstreamTrafficSetting)
    (sourceMTLS : option EgressSourceMTLSSpec) (gw : option string) (acc : egressAcc) (p : PortSpec) : egressAcc :=
  let protocol := ToLower (ps_Protocol p) in
  let cluster := pretty (ps_Number p) in
  if bool_decide (protocol = ProtocolHTTP) then
    let '(routeConfigs, clusters) := buildHTTPRouteConfigs (Some e) (ps_Number p) uts sourceMTLS in
    {| ea_matches := ea_matches acc ++ [egressMatch p [] [] "" gw];
       ea_clusters := ea_clusters acc ++ clusters;
       ea_routes := map_append (ps_Number p) routeConfigs (ea_routes acc) |}
  else if bool_decide (protocol = ProtocolTCP) || bool_decide (protocol = ProtocolTCPServerFirst) then
    {| ea_matches := ea_matches acc ++ [egressMatch p (es_IPAddresses (eg_Spec e)) [] cluster gw];
       ea_clusters := ea_clusters acc ++ [portCluster p uts sourceMTLS];
       ea_routes := ea_routes acc |}
  else if bool_decide (protocol = ProtocolHTTPS) then
    {| ea_matches := ea_matches acc ++
         [egressMatch p (es_IPAddresses (eg_Spec e)) (es_Hosts (eg_Spec e)) cluster gw];
       ea_clusters := ea_clusters acc ++ [portCluster p uts sourceMTLS];
       ea_routes := ea_routes acc |}
  else acc.

(** A policy whose traffic setting is missing is skipped. *)
Definition egressResource (source : K8sServiceAccount) (acc : egressAcc) (e : Egress) : go egressAcc :=
  setting ← getUpstreamTrafficSettingForEgress (Some e);
  match setting with
  | inl _ => Ret acc
  | inr uts =>
      let gw := getGatewayForEgress mc (Some e) in
      let sourceMTLS := getEgressSourceMTLS (Some e) source in
      Ret (foldl (egressPort e uts sourceMTLS gw) acc (es_Ports (eg_Spec e)))
  end.

(** nil when the feature is off; otherwise the deduplicated policy or the
    error of hashing. *)
Definition GetEgressTrafficPolicy (serviceIdentity : ServiceIdentity) : go (E + option EgressTrafficPolicy) :=
  if negb (EnableEgressPolicy (GetFeatureFlags (configurator mc))) then Ret (inr None)
  else
    source ← ToK8sServiceAccount serviceIdentity;
    acc ← gofold (egressResource source) (mkEgressAcc [] [] ∅)
            (pc_ListEgressPoliciesForSourceIdentity (policyController mc) source);
    match DeduplicateTrafficMatches hashMatch (ea_matches acc) with
    | inl err => Ret (inl err)
    | inr trafficMatches =>
        match DeduplicateClusterConfigs hashCluster (ea_clusters acc) with
        | inl err => Ret (inl err)
        | inr clusterConfigs =>
            Ret (inr (Some {| etp_TrafficMatches := trafficMatches;
                              etp_HTTPRouteConfigsPerPort := ea_routes acc;
                              etp_ClustersConfigs := clusterConfigs |}))
        end
    end.

End egress.

End CatalogEgress.
