(* ===== verification/CatalogEgressFacts.v ===== *)
(** * Properties of egress traffic policies

    The computation never panics, the HTTP routes are those of the Egress
    resources' hosts and ports, and the allowed IP ranges are the valid ones. *)

From S2P Require Import Prelude Identity Service Api MeshConfig Net Cidr TrafficPolicy TrafficPolicyFacts K8s Smi Policy.
From S2P Require Import Catalog CatalogFacts CatalogInbound CatalogEgress.
Import Identity.Identity Service.Service Api.Api MeshConfig.MeshConfig Net.Net TrafficPolicy.TrafficPolicy
  TrafficPolicyFacts.TrafficPolicyFacts K8s.K8s Smi.Smi Policy.Policy Catalog.Catalog
  CatalogFacts.CatalogFacts CatalogInbound.CatalogInbound CatalogEgress.CatalogEgress.

Module CatalogEgressFacts.

Section facts.
Context {MS : MapSet} {MSS : MapSetSpec} {MR : MapRange} (mc : MeshCatalog).

(** The valid ranges in order of first appearance. *)
Lemma allowedIPRanges_uniq l :
  allowedIPRanges l = uniq (List.filter (λ r, bool_decide (is_Some (Net.ParseCIDR r))) l).
Proof.
  unfold allowedIPRanges. rewrite <-(proj1 (foldl_addUnique _)). f_equal.
  generalize (NewSet (A:=string), @nil string). induction l as [|r l IH]; intros st; cbn [foldl List.filter]; [done|].
  destruct (Net.ParseCIDR r) eqn:E.
  - rewrite bool_decide_eq_true_2 by done. apply IH.
  - rewrite bool_decide_eq_false_2 by (by intros [? ?]). apply IH.
Qed.

Lemma buildHTTPRouteConfigs_routes e port uts mtls :
  (buildHTTPRouteConfigs mc (Some e) port uts mtls).1 =
  (λ host, hostRouteConfig host port (egressRouteMatches mc e)
     (allowedIPRanges (es_IPAddresses (eg_Spec e)))) <$> es_Hosts (eg_Spec e).
Proof.
  unfold buildHTTPRouteConfigs. set (f := λ host, hostRouteConfig _ _ _ _).
  assert (∀ hosts rs cs, (foldl (λ '(routeConfigs, clusterConfigs) host,
        (routeConfigs ++ [f host],
         clusterConfigs ++ [{| ecc_Name := host +:+ ":" +:+ pretty port; ecc_Host := host; ecc_Port := port;
                               ecc_UpstreamTrafficSetting := uts; ecc_SourceMTLS := mtls |}]))
        (rs, cs) hosts).1 = rs ++ (f <$> hosts)) as H.
  { induction hosts as [|h hosts IH]; intros rs cs; simpl; [by rewrite app_nil_r|].
    rewrite IH. by rewrite <-app_assoc. }
  apply (H _ [] []).
Qed.

(** ** Routes per port *)

(** An HTTP port of the resource. *)
Definition httpPort (e : Egress) (port : Z) : Prop :=
  ∃ p, p ∈ es_Ports (eg_Spec e) ∧ ps_Number p = port ∧ ToLower (ps_Protocol p) = ProtocolHTTP.

(** The route configuration of a host of the resource. *)
Definition configOf (e : Egress) (port : Z) (rc : EgressHTTPRouteConfig) : Prop :=
  ∃ host, host ∈ es_Hosts (eg_Spec e) ∧
    rc = hostRouteConfig host port (egressRouteMatches mc e) (allowedIPRanges (es_IPAddresses (eg_Spec e))).

Lemma egressPorts_routes e uts mtls gw acc ports port rc :
  rc ∈ default [] (ea_routes (foldl (egressPort mc e uts mtls gw) acc ports) !! port) ↔
  rc ∈ default [] (ea_routes acc !! port) ∨
  (∃ p, p ∈ ports ∧ ps_Number p = port ∧ ToLower (ps_Protocol p) = ProtocolHTTP) ∧ configOf e port rc.
Proof.
  revert acc. induction ports as [|p ports IH]; intros acc; cbn [foldl]; [set_solver|].
  rewrite IH. unfold egressPort at 1. setoid_rewrite elem_of_cons.
  pose proof (buildHTTPRouteConfigs_routes e (ps_Number p) uts mtls) as Hb.
  case_bool_decide as Hh.
  - destruct (buildHTTPRouteConfigs _ _ _ _ _) as [rcs ccs]; simpl in *. subst rcs.
    rewrite map_append_lookup, elem_of_app. case_decide as Hp.
    + subst port. rewrite list_elem_of_fmap. unfold configOf. naive_solver.
    + rewrite elem_of_nil. naive_solver.
  - repeat case_match; simpl; naive_solver.
Qed.

Lemma setting_total (HP : PolicyLaws (policyController mc)) e :
  ∃ r, getUpstreamTrafficSettingForEgress mc e = Ret r.
Proof.
  unfold getUpstreamTrafficSettingForEgress. destruct e as [e|]; [|eauto].
  destruct (list_find _ _) as [[? m]|]; [|eauto].
  destruct (setting_by_name (mkNN (eg_Namespace e) (ref_Name m))) as [[u|] ->]; simpl; eauto.
Qed.

Lemma egressResources_total (HP : PolicyLaws (policyController mc)) source acc es :
  ∃ acc', gofold (egressResource mc source) acc es = Ret acc'.
Proof.
  destruct (gofold_total (λ _, True) (egressResource mc source) acc es) as (r & ? & _); [done| |eauto].
  intros c e _ _. unfold egressResource. destruct (setting_total HP (Some e)) as [[?|?] ->]; simpl; eauto.
Qed.

(** The resource's traffic setting, if it refers to one, exists. *)
Definition settingFound (e : Egress) : Prop :=
  ∃ uts, getUpstreamTrafficSettingForEgress mc (Some e) = Ret (inr uts).

Lemma egressResources_routes source es acc' port rc :
  gofold (egressResource mc source) (mkEgressAcc [] [] ∅) es = Ret acc' →
  rc ∈ default [] (ea_routes acc' !! port) ↔
  ∃ e, e ∈ es ∧ settingFound e ∧ httpPort e port ∧ configOf e port rc.
Proof.
  apply (gofold_inv (λ es acc, rc ∈ default [] (ea_routes acc !! port) ↔
    ∃ e, e ∈ es ∧ settingFound e ∧ httpPort e port ∧ configOf e port rc)).
  { simpl. rewrite lookup_empty. set_solver. }
  intros l1 e l2 c c' _ IH. unfold egressResource. intros (r & Hr & Hs)%go_bind_Ret.
  setoid_rewrite elem_of_app. setoid_rewrite list_elem_of_singleton. destruct r as [err|uts].
  - injection Hs as <-. rewrite IH. split; [intros (e' & ? & ?); eauto|].
    intros (e' & [?| ->] & [u Hu] & ?); [|congruence]. exists e'. split; [done|]. split; [by exists u|done].
  - injection Hs as <-. rewrite egressPorts_routes, IH. split.
    + intros [(e' & ? & ?)|[? ?]]; [exists e'; auto|]. exists e. split; [auto|]. split; [by exists uts|done].
    + intros (e' & [?| ->] & ? & ? & ?); [left; by exists e'|by right].
Qed.

Context {E : Type} (hashMatch : TrafficMatch → E + Z) (hashCluster : EgressClusterConfig → E + Z).

Lemma GetEgressTrafficPolicy_total (HP : PolicyLaws (policyController mc)) d :
  dotless d → ∃ r, GetEgressTrafficPolicy mc hashMatch hashCluster (ToServiceIdentity d) = Ret r.
Proof.
  intros Hd. unfold GetEgressTrafficPolicy. destruct (negb _); [eauto|].
  rewrite (ToK8sServiceAccount_New d Hd). cbn [mbind go_bind].
  destruct (egressResources_total HP d (mkEgressAcc [] [] ∅)
    (pc_ListEgressPoliciesForSourceIdentity (policyController mc) d)) as [acc ->]. simpl.
  repeat case_match; eauto.
Qed.

(** ** Properties *)

Context {HP : PolicyLaws (policyController mc)}.

(** C22. Egress HTTP routes are exact: with the feature on and hashing that
    succeeds, the policy of an account is computed without panic or error,
    and the route configurations of a port are those of the hosts of the
    account's Egress resources that have that port with protocol HTTP and
    whose traffic setting, if any, exists; each allows the resource's valid IP
    ranges, without repetitions. *)
Theorem egress_routes_exact d :
  dotless d → EnableEgressPolicy (GetFeatureFlags (configurator mc)) = true →
  (∀ m, ∃ h, hashMatch m = inr h) → (∀ c, ∃ h, hashCluster c = inr h) →
  ∃ p, GetEgressTrafficPolicy mc hashMatch hashCluster (ToServiceIdentity d) = Ret (inr (Some p)) ∧
  ∀ port rc, rc ∈ default [] (etp_HTTPRouteConfigsPerPort p !! port) ↔
    ∃ e host, e ∈ pc_ListEgressPoliciesForSourceIdentity (policyController mc) d ∧ settingFound e ∧
      httpPort e port ∧ host ∈ es_Hosts (eg_Spec e) ∧
      rc = hostRouteConfig host port (egressRouteMatches mc e)
             (uniq (List.filter (λ r, bool_decide (is_Some (Net.ParseCIDR r))) (es_IPAddresses (eg_Spec e)))).
Proof.
  intros Hd Hf Hhm Hhc. unfold GetEgressTrafficPolicy.
  rewrite Hf, (ToK8sServiceAccount_New d Hd). cbn [negb mbind go_bind].
  set (es := pc_ListEgressPoliciesForSourceIdentity _ d).
  destruct (egressResources_total HP d (mkEgressAcc [] [] ∅) es) as [acc Ha]. rewrite Ha. cbn [mbind go_bind].
  destruct (deduplicate_total hashMatch (ea_matches acc)) as [ms Hms]; [auto|].
  destruct (deduplicate_total hashCluster (ea_clusters acc)) as [cs Hcs]; [auto|].
  unfold DeduplicateTrafficMatches, DeduplicateClusterConfigs. rewrite Hms, Hcs.
  eexists. split; [done|]. intros port rc. simpl. rewrite (egressResources_routes _ _ _ _ _ Ha).
  unfold configOf. setoid_rewrite allowedIPRanges_uniq. naive_solver.
Qed.

End facts.

(** ** Witness *)

Definition demoEgress : Egress :=
  mkEgress "shop" "ext" (mkEgressSpec [mkESource "ServiceAccount" "web" "shop" None] ["example.com"]
    ["10.0.0.0/8"; "bogus"; "10.0.0.0/8"] [mkPortSpec 80 "http"] []).

Definition demoEgressClient : Policy.Client := {|
  inf_Isolation := None; inf_EgressGateway := None;
  inf_Egress := Some (mkStore [demoEgress] (λ _, (None, false)));
  inf_IngressBackend := None; inf_Retry := None; inf_AccessControl := None; inf_TrafficWarmup := None;
  inf_UpstreamTrafficSetting := None; pol_kubeController := demoController
|}.

Definition demoEgressCatalog : MeshCatalog := {|
  endpointsProviders := endpointsProviders (demoCatalog false);
  serviceProviders := serviceProviders (demoCatalog false);
  meshSpec := meshSpec (demoCatalog false);
  configurator := configurator (demoCatalog false);
  kubeController := demoController;
  policyController := client_PolicyController "cluster.local" demoEgressClient;
  multiclusterController := multiclusterController (demoCatalog false);
  GetTrustDomain := "cluster.local"; svcTrustDomain := "cluster.local";
  decodeMeta := λ _ _, mkMicroSvc ∅ ∅ None
|}.

#[local] Existing Instance gset_MapSet.
#[local] Existing Instance gset_MapSetSpec.
#[local] Existing Instance trie_range.

Lemma egress_routes_exact_witness :
  ∃ p, GetEgressTrafficPolicy (E:=unit) demoEgressCatalog (λ m, inr (tm_DestinationPort m))
         (λ c, inr (ecc_Port c)) "web.shop" = Ret (inr (Some p)) ∧
  ∀ port rc, rc ∈ default [] (etp_HTTPRouteConfigsPerPort p !! port) ↔
    ∃ e host, e ∈ pc_ListEgressPoliciesForSourceIdentity (policyController demoEgressCatalog) (mkSA "shop" "web") ∧
      settingFound demoEgressCatalog e ∧ httpPort e port ∧ host ∈ es_Hosts (eg_Spec e) ∧
      rc = hostRouteConfig host port (egressRouteMatches demoEgressCatalog e)
             (uniq (List.filter (λ r, bool_decide (is_Some (Net.ParseCIDR r))) (es_IPAddresses (eg_Spec e)))).
Proof.
  apply (egress_routes_exact demoEgressCatalog (E:=unit) (λ m, inr (tm_DestinationPort m))
    (λ c, inr (ecc_Port c)) (mkSA "shop" "web")); [by apply demo_dotless|done|eauto|eauto].
Defined.

End CatalogEgressFacts.
