(* ===== verification/Validators.v ===== *)
(** * Admission: pkg/validator (validators.go, server.go, patch.go)

    The validators of the custom resources, the table that picks one by kind,
    the handling of an admission review and the rules the webhook is
    registered with.  What decoding the JSON of a request yields is an
    argument ([Decoders]); an error is its message; a dereference of nil
    panics. *)

From S2P Require Import Prelude Service Api Net MeshConfig K8s Policy Catalog CatalogEgress TrafficPolicy.
Import Service.Service Api.Api MeshConfig.MeshConfig K8s.K8s Policy.Policy Catalog.Catalog.

Module Validators.

Definition nl : string := String (ascii_of_nat 10) "".

(** ** Requests and responses (k8s.io/api/admission/v1) *)

Record GroupVersionKind := mkGVK { gvk_Group : string; gvk_Version : string; gvk_Kind : string }.

Record AdmissionRequest := mkRequest {
  req_UID : string; req_Kind : GroupVersionKind; req_Namespace : string; req_Object : string }.

Record AdmissionResponse := mkResponse {
  resp_UID : string; resp_Allowed : bool; resp_Message : option string }.

Record AdmissionReview := mkReview {
  rev_Kind : string; rev_Request : option AdmissionRequest; rev_Response : option AdmissionResponse }.

(** [webhook.AdmissionError] *)
Definition AdmissionError (err : string) : AdmissionResponse := mkResponse "" false (Some err).

(** What a validator returns: a response or nil, an error or nil. *)
Definition verdict : Type := option AdmissionResponse * option string.
Definition accept : verdict := (None, None).
Definition reject (err : string) : verdict := (None, Some err).

Definition validateFunc : Type := AdmissionRequest → go verdict.

(** [json.NewDecoder(raw).Decode] at the types of the resources; of an
    AccessCert, a PluginConfig and a PluginChain nothing is read. *)
Record Decoders := mkDecoders {
  dec_TrafficTarget : string → string + TrafficTarget;
  dec_AccessCert : string → string + unit;
  dec_AccessControl : string → string + AccessControl;
  dec_IngressBackend : string → string + IngressBackend;
  dec_Egress : string → string + Egress;
  dec_UpstreamTrafficSetting : string → string + UpstreamTrafficSetting;
  dec_EgressGateway : string → string + EgressGateway;
  dec_Plugin : string → string + PluginObject Plugin;
  dec_PluginConfig : string → string + unit;
  dec_PluginChain : string → string + unit
}.

(** The status codes a rate limit may answer with: the keys of the map. *)
Definition statusCodeName : list Z :=
  [0; 100; 200; 201; 202; 203; 204; 205; 206; 207; 208; 226; 300; 301; 302; 303; 304; 305; 307; 308;
   400; 401; 402; 403; 404; 405; 406; 407; 408; 409; 410; 411; 412; 413; 414; 415; 416; 417; 421; 422;
   423; 424; 426; 428; 429; 431; 500; 501; 502; 503; 504; 505; 506; 507; 508; 510; 511]%Z.

Definition int32 (z : Z) : Z := ((z + 2 ^ 31) `mod` 2 ^ 32 - 2 ^ 31)%Z.
Definition knownStatusCode (code : Z) : bool := bool_decide (int32 code ∈ statusCodeName).

(** A loop that leaves at the first error. *)
Fixpoint tryEach {A} (f : A → option string) (l : list A) : option string :=
  match l with
  | [] => None
  | x :: l => match f x with Some err => Some err | None => tryEach f l end
  end.

(** The check of the sources, the same for both resources. *)
Definition validateSource (source : SourceSpec) : option string :=
  if bool_decide (src_Kind source = KindService) then
    if bool_decide (src_Name source = "")
    then Some ("'source.name' not specified for source kind " +:+ KindService)
    else if bool_decide (src_Namespace source = "")
    then Some ("'source.namespace' not specified for source kind " +:+ KindService)
    else None
  else if bool_decide (src_Kind source = KindAuthenticatedPrincipal) then
    if bool_decide (src_Name source = "")
    then Some ("'source.name' not specified for source kind " +:+ KindAuthenticatedPrincipal)
    else None
  else if bool_decide (src_Kind source = KindIPRange) then
    if bool_decide (Net.Net.ParseCIDR (src_Name source) = None)
    then Some ("Invalid 'source.name' value specified for IPRange. Expected CIDR notation 'a.b.c.d/x', got '" +:+
               src_Name source +:+ "'")
    else None
  else Some ("Invalid 'source.kind' value specified. Must be one of: " +:+ KindService +:+ ", " +:+
             KindAuthenticatedPrincipal +:+ ", " +:+ KindIPRange).

Definition authenticatedSourceFound (sources : list SourceSpec) : bool :=
  existsb (λ s, bool_decide (src_Kind s = KindAuthenticatedPrincipal)) sources.

Definition fakeMeshSvc (backend : BackendSpec) : MeshService :=
  mkMeshService "" (be_Name backend) 0 (uint16 (ps_Number (be_Port backend)))
    (ps_Protocol (be_Port backend)) "" "" "".

(** [field.Invalid(path, value, detail)] of apimachinery, as its message. *)
Class FieldErrors := { field_Invalid : list string → string → string → string }.

Section validators.
Context `{MS : MapSet} `{FieldErrors} (dec : Decoders) (flags : FeatureFlags) (policyClient : PolicyController).

Definition trafficTargetValidator : validateFunc := λ req,
  match dec_TrafficTarget dec (req_Object req) with
  | inl err => Ret (reject err)
  | inr t =>
      if bool_decide (ibs_Namespace (tt_Destination t) = tt_Namespace t) then Ret accept
      else Ret (reject ("The traffic target namespace (" +:+ tt_Namespace t +:+
             ") must match spec.Destination.Namespace (" +:+ ibs_Namespace (tt_Destination t) +:+ ")"))
  end.

Definition accessCertValidator : validateFunc := λ req,
  match dec_AccessCert dec (req_Object req) with
  | inl err => Ret (reject err)
  | inr _ => if EnableAccessCertPolicy flags then Ret accept
             else Ret (reject "FSM is prohibited to issue certificates for external services")
  end.

(** The state of the loop over the backends: the entries seen, the resources
    found to conflict (pointers into the cache, which has one object per
    namespace and name), and the text collected. *)
Definition backendState : Type := mset (string * Z) * mset (string * string) * string.

Definition duplicateBackend (b : BackendSpec) : string :=
  "Duplicate backends detected with service name: " +:+ be_Name b +:+ " and port: " +:+
  pretty (ps_Number (be_Port b)).

Definition conflictText (what ns name other : string) (conflicts : list string) : string :=
  "[+] " +:+ what +:+ " " +:+ ns +:+ "/" +:+ name +:+ " conflicts with " +:+ ns +:+ "/" +:+ other +:+ ":" +:+ nl +:+
  String.concat "" (map (λ e, e +:+ nl) conflicts) +:+ nl.

(** The check of the TLS settings of a backend. *)
Definition checkTLS (acl : AccessControl) (backend : BackendSpec) : option string :=
  match be_TLS backend with
  | Some tls =>
      if tls_SkipClientCertValidation tls && negb (authenticatedSourceFound (ac_Sources acl))
      then Some "HTTPS acl with client certificate validation enabled must specify at least one 'AuthenticatedPrincipal` source"
      else None
  | None => None
  end.

(** The rest of a round, unless its check fails. *)
Definition checked (err : option string) (st : backendState) : string + backendState :=
  match err with Some e => inl e | None => inr st end.

Definition aclBackendStep (acl : AccessControl) (st : backendState) (backend : BackendSpec)
    : string + backendState :=
  let '(backends, conflictingAcls, text) := st in
  let '(backends, unique) := Add (be_Name backend, ps_Number (be_Port backend)) backends in
  if negb unique then inl (duplicateBackend backend)
  else
    match pc_GetAccessControlPolicy policyClient (fakeMeshSvc backend) with
    | Some matching =>
        if bool_decide (ac_Name matching = ac_Name acl) then checked (checkTLS acl backend) (backends, conflictingAcls, text)
        else
          let '(conflictingAcls, unique) := Add (ac_Namespace matching, ac_Name matching) conflictingAcls in
          if negb unique then inr (backends, conflictingAcls, text)
          else checked (checkTLS acl backend) (backends, conflictingAcls,
                 text +:+ conflictText "AccessControlBackend" (ac_Namespace acl) (ac_Name acl) (ac_Name matching)
                            (DetectAccessControlConflicts acl matching))
    | None => checked (checkTLS acl backend) (backends, conflictingAcls, text)
    end.

(** What both validators do after the loop over the backends. *)
Definition finishBackends (r : string + backendState) (sources : list SourceSpec) : verdict :=
  match r with
  | inl err => reject err
  | inr (_, _, text) =>
      if bool_decide (text = "") then
        match tryEach validateSource sources with Some err => reject err | None => accept end
      else reject ("duplicate backends detected" +:+ nl +:+ text)
  end.

Definition accessControlValidator : validateFunc := λ req,
  match dec_AccessControl dec (req_Object req) with
  | inl err => Ret (reject err)
  | inr acl => Ret (finishBackends (efold (aclBackendStep acl) (NewSet, NewSet, "") (ac_Backends acl))
                                   (ac_Sources acl))
  end.

(** The check of the port of a backend. *)
Definition checkPort (ib : IngressBackend) (backend : BackendSpec) : option string :=
  let protocol := ToLower (ps_Protocol (be_Port backend)) in
  if bool_decide (protocol = TrafficPolicy.TrafficPolicy.ProtocolHTTP ∨ protocol = TrafficPolicy.TrafficPolicy.ProtocolHTTPS)
  then None
  else if bool_decide (protocol = TrafficPolicy.TrafficPolicy.ProtocolGRPC) then
    match be_TLS backend with
    | Some tls =>
        if tls_SkipClientCertValidation tls && negb (authenticatedSourceFound (ib_Sources ib))
        then Some "HTTPS ingress with client certificate validation enabled must specify at least one 'AuthenticatedPrincipal` source"
        else None
    | None => None
    end
  else Some ("Expected 'port.protocol' to be 'http', 'https' or 'grpc', got: " +:+ ps_Protocol (be_Port backend)).

Definition ingressBackendStep (ib : IngressBackend) (st : backendState) (backend : BackendSpec)
    : string + backendState :=
  let '(backends, conflicting, text) := st in
  let '(backends, unique) := Add (be_Name backend, ps_Number (be_Port backend)) backends in
  if negb unique then inl (duplicateBackend backend)
  else
    match pc_GetIngressBackendPolicy policyClient (fakeMeshSvc backend) with
    | Some matching =>
        if bool_decide (ib_Name matching = ib_Name ib) then checked (checkPort ib backend) (backends, conflicting, text)
        else
          let '(conflicting, unique) := Add (ib_Namespace matching, ib_Name matching) conflicting in
          if negb unique then inr (backends, conflicting, text)
          else checked (checkPort ib backend) (backends, conflicting,
                 text +:+ conflictText "IngressBackend" (ib_Namespace ib) (ib_Name ib) (ib_Name matching)
                            (DetectIngressBackendConflicts ib matching))
    | None => checked (checkPort ib backend) (backends, conflicting, text)
    end.

Definition ingressBackendValidator : validateFunc := λ req,
  match dec_IngressBackend dec (req_Object req) with
  | inl err => Ret (reject err)
  | inr ib => Ret (finishBackends (efold (ingressBackendStep ib) (NewSet, NewSet, "") (ib_Backends ib))
                                  (ib_Sources ib))
  end.

(** The loop over the matches of an Egress: the number of traffic settings. *)
Fixpoint egressMatches (count : Z) (matches : list TypedLocalObjectReference) : go (string + Z) :=
  match matches with
  | [] => Ret (inr count)
  | m :: rest =>
      group ← deref (ref_APIGroup m);
      if bool_decide (group = CatalogEgress.CatalogEgress.smiSpecsGroupVersion) then
        if bool_decide (ref_Kind m = "HTTPRouteGroup") then egressMatches count rest
        else Ret (inl ("Expected 'matches.kind' for match '" +:+ ref_Name m +:+ "' to be 'HTTPRouteGroup', got: " +:+ ref_Kind m))
      else if bool_decide (group = CatalogEgress.CatalogEgress.policyGroupVersion) then
        if bool_decide (ref_Kind m = "UpstreamTrafficSetting") then egressMatches (count + 1) rest
        else Ret (inl ("Expected 'matches.kind' for match '" +:+ ref_Name m +:+ "' to be 'UpstreamTrafficSetting', got: " +:+ ref_Kind m))
      else Ret (inl ("Expected 'matches.apiGroup' to be one of [" +:+ CatalogEgress.CatalogEgress.smiSpecsGroupVersion +:+ " " +:+
                     CatalogEgress.CatalogEgress.policyGroupVersion +:+ "], got: " +:+ group))
  end.

Definition egressValidator : validateFunc := λ req,
  match dec_Egress dec (req_Object req) with
  | inl err => Ret (reject err)
  | inr egress =>
      r ← egressMatches 0 (es_Matches (eg_Spec egress));
      Ret (match r with
           | inl err => reject err
           | inr count => if bool_decide (1 < count)%Z
                          then reject "Cannot have more than 1 UpstreamTrafficSetting match" else accept
           end)
  end.

Definition badStatusCode (code : Z) : string := "invalid responseStatusCode " +:+ pretty code.

Definition validateRouteLimit (route : HTTPRouteSpec) : option string :=
  match hrs_RateLimit route ≫= prl_Local with
  | Some l => if knownStatusCode (hrl_ResponseStatusCode l) then None
              else Some (badStatusCode (hrl_ResponseStatusCode l))
  | None => None
  end.

(** The rate limits, after the host was found to be free. *)
Definition checkLimits (uts : UpstreamTrafficSetting) : verdict :=
  let routes := match tryEach validateRouteLimit (slice_elems (utss_HTTPRoutes (uts_Spec uts))) with
                | Some err => reject err
                | None => accept
                end in
  match rl ← utss_RateLimit (uts_Spec uts); l ← rl_Local rl; lrl_HTTP l with
  | Some l => if knownStatusCode (hrl_ResponseStatusCode l) then routes
              else reject (badStatusCode (hrl_ResponseStatusCode l))
  | None => routes
  end.

Definition upstreamTrafficSettingValidator : validateFunc := λ req,
  match dec_UpstreamTrafficSetting dec (req_Object req) with
  | inl err => Ret (reject err)
  | inr uts =>
      let ns := uts_Namespace uts in
      let host := utss_Host (uts_Spec uts) in
      if bool_decide (length (Split host ".") < 2)
      then Ret (reject (field_Invalid ["spec"; "host"] host "invalid FQDN specified as host"))
      else
        matching ← pc_GetUpstreamTrafficSetting policyClient (byHost host);
        match matching with
        | Some other =>
            if bool_decide (uts_Name other = uts_Name uts) then Ret (checkLimits uts)
            else Ret (reject ("UpstreamTrafficSetting " +:+ ns +:+ "/" +:+ uts_Name uts +:+ " conflicts with " +:+
                   ns +:+ "/" +:+ uts_Name other +:+ " since they have the same host " +:+
                   utss_Host (uts_Spec other)))
        | None => Ret (checkLimits uts)
        end
  end.

Definition egressGatewayValidator : validateFunc := λ req,
  match dec_EgressGateway dec (req_Object req) with
  | inl err => Ret (reject err)
  | inr gw =>
      if bool_decide (slice_len (egw_GlobalEgressGateways gw) = 0) then Ret accept
      else match tryEach (λ p,
             if EqualFold (egw_Name gw) (egw_Name p) && EqualFold (egw_Namespace gw) (egw_Namespace p) then None
             else if bool_decide (0 < slice_len (egw_GlobalEgressGateways p))
             then Some ("Redefinition of global egress gateway policy and conflict with " +:+
                        egw_Namespace p +:+ "." +:+ egw_Name p)
             else None) (pc_ListEgressGateways policyClient) with
           | Some err => Ret (reject err)
           | None => Ret accept
           end
  end.

Definition pluginPolicyProhibited : string := "FSM is prohibited to apply plugin policy".

Definition pluginValidator : validateFunc := λ req,
  if negb (EnablePluginPolicy flags) then Ret (reject pluginPolicyProhibited)
  else match dec_Plugin dec (req_Object req) with
       | inl err => Ret (reject err)
       | inr plugin =>
           if bool_decide (pl_Script (po_Spec _ plugin) = "")
           then Ret (reject ("plugin[" +:+ po_Name _ plugin +:+ "." +:+ po_Namespace _ plugin +:+ "] is missing pipy script"))
           else Ret accept
       end.

Definition pluginConfigValidator : validateFunc := λ req,
  if negb (EnablePluginPolicy flags) then Ret (reject pluginPolicyProhibited)
  else match dec_PluginConfig dec (req_Object req) with inl err => Ret (reject err) | inr _ => Ret accept end.

Definition pluginChainValidator : validateFunc := λ req,
  if negb (EnablePluginPolicy flags) then Ret (reject pluginPolicyProhibited)
  else match dec_PluginChain dec (req_Object req) with inl err => Ret (reject err) | inr _ => Ret accept end.

(** ** server.go *)

Definition policyKind (kind : string) : GroupVersionKind := mkGVK "policy.flomesh.io" "v1alpha1" kind.
Definition pluginKind (kind : string) : GroupVersionKind := mkGVK "plugin.flomesh.io" "v1alpha1" kind.

Definition validators : list (GroupVersionKind * validateFunc) :=
  [(policyKind "AccessCert", accessCertValidator);
   (policyKind "AccessControl", accessControlValidator);
   (policyKind "IngressBackend", ingressBackendValidator);
   (policyKind "Egress", egressValidator);
   (policyKind "EgressGateway", egressGatewayValidator);
   (policyKind "UpstreamTrafficSetting", upstreamTrafficSettingValidator);
   (mkGVK "access.smi-spec.io" "v1alpha3" "TrafficTarget", trafficTargetValidator);
   (pluginKind "Plugin", pluginValidator);
   (pluginKind "PluginConfig", pluginConfigValidator);
   (pluginKind "PluginChain", pluginChainValidator)].

(** [gvkString] is the String method of GroupVersionKind, the key of the map. *)
Context (gvkString : GroupVersionKind → string).

Definition lookupValidator (gvk : string) : option validateFunc :=
  (list_to_map (map (λ '(k, v), (gvkString k, v)) validators) : gmap string validateFunc) !! gvk.

(** The deferred function sets the UID of whatever is returned. *)
Definition handleValidation (req : AdmissionRequest) : go AdmissionResponse :=
  let finish (resp : option AdmissionResponse) :=
    let r := default (mkResponse "" true None) resp in
    mkResponse (req_UID req) (resp_Allowed r) (resp_Message r) in
  let gvk := gvkString (req_Kind req) in
  match lookupValidator gvk with
  | None => Ret (finish (Some (AdmissionError ("unknown gvk: " +:+ gvk))))
  | Some v =>
      '(resp, err) ← v req;
      Ret (finish (match resp, err with
                   | Some r, _ => Some r
                   | None, Some e => Some (AdmissionError e)
                   | None, None => None
                   end))
  end.

(** [decode] is the deserializer: an error and the review as far as it was
    filled. *)
Definition getAdmissionReqResp (decode : string → option string * AdmissionReview) (body : string)
    : go (string * AdmissionReview) :=
  let '(err, admissionReq) := decode body in
  resp ← match err with
         | Some e => Ret (AdmissionError e)
         | None => req ← deref (rev_Request admissionReq); handleValidation req
         end;
  req ← deref (rev_Request admissionReq);
  Ret (req_Namespace req, mkReview (rev_Kind admissionReq) None (Some resp)).

End validators.

(** ** patch.go: the rules of the webhook configuration *)

Record WebhookRule := mkWebhookRule {
  wr_APIGroups : list string; wr_APIVersions : list string; wr_Resources : list string }.

Definition webhookRules (validateTrafficTarget : bool) : list WebhookRule :=
  [mkWebhookRule ["policy.flomesh.io"] ["v1alpha1"] ["ingressbackends"; "egresses"; "egressgateways"];
   mkWebhookRule ["plugin.flomesh.io"] ["v1alpha1"] ["plugins"; "pluginchains"; "pluginconfigs"]] ++
  (if validateTrafficTarget
   then [mkWebhookRule ["access.smi-spec.io"] ["v1alpha3"] ["traffictargets"]] else []).

(** The API server calls the webhook for a resource some rule names. *)
Definition selected (rules : list WebhookRule) (group version resource : string) : bool :=
  existsb (λ r, bool_decide (group ∈ wr_APIGroups r) && bool_decide (version ∈ wr_APIVersions r) &&
                bool_decide (resource ∈ wr_Resources r)) rules.

End Validators.
