(* ===== verification/ValidatorsFacts.v ===== *)
(** * What admission accepts

    The verdicts of the validators in terms of the resources, how a verdict
    becomes a response, and what admission overlooks: conflicts between
    IngressBackends, kinds the webhook is not registered for, reviews that
    cannot be decoded. *)

From S2P Require Import Prelude Service Api MeshConfig K8s Policy Catalog CatalogEgress TrafficPolicy Validators.
Import Service.Service Api.Api MeshConfig.MeshConfig K8s.K8s Policy.Policy Catalog.Catalog Validators.Validators.

Module ValidatorsFacts.

Lemma tryEach_None {A} (f : A → option string) l : tryEach f l = None ↔ ∀ x, x ∈ l → f x = None.
Proof.
  induction l as [|x l IH]; simpl.
  - split; [intros _ x Hx; by apply elem_of_nil in Hx|done].
  - setoid_rewrite elem_of_cons. destruct (f x) eqn:E; naive_solver.
Qed.

Lemma reject_ne err : reject err ≠ accept.
Proof. done. Qed.

Section facts.
Context {MS : MapSet} {MSS : MapSetSpec} {FE : FieldErrors}.
Context (dec : Decoders) (flags : FeatureFlags) (pc : PolicyController).

(** The demands on a backend: its protocol, and a source with a principal
    when gRPC with TLS skips the validation of client certificates. *)
Definition portOk (ib : IngressBackend) (b : BackendSpec) : Prop :=
  let protocol := ToLower (ps_Protocol (be_Port b)) in
  protocol = TrafficPolicy.TrafficPolicy.ProtocolHTTP ∨ protocol = TrafficPolicy.TrafficPolicy.ProtocolHTTPS ∨
  (protocol = TrafficPolicy.TrafficPolicy.ProtocolGRPC ∧
   ∀ tls, be_TLS b = Some tls → tls_SkipClientCertValidation tls = true →
     ∃ s, s ∈ ib_Sources ib ∧ src_Kind s = KindAuthenticatedPrincipal).

Definition noConflict (ib : IngressBackend) (b : BackendSpec) : Prop :=
  ∀ other, pc_GetIngressBackendPolicy pc (fakeMeshSvc b) = Some other → ib_Name other = ib_Name ib.

Definition backendKey (b : BackendSpec) : string * Z := (be_Name b, ps_Number (be_Port b)).

Lemma authenticatedSourceFound_spec sources :
  authenticatedSourceFound sources = true ↔ ∃ s, s ∈ sources ∧ src_Kind s = KindAuthenticatedPrincipal.
Proof.
  unfold authenticatedSourceFound. rewrite existsb_exists. setoid_rewrite <-list_elem_of_In.
  by setoid_rewrite bool_decide_eq_true.
Qed.

Lemma checkPort_None ib b : checkPort ib b = None ↔ portOk ib b.
Proof.
  unfold checkPort, portOk. case_bool_decide as Hh; [tauto|]. case_bool_decide as Hg; [|by split; [|tauto]].
  destruct (be_TLS b) as [tls|]; [|split; [intros _; right; right; by split|done]].
  destruct (tls_SkipClientCertValidation tls) eqn:Es; cbn; [|split; [intros _; right; right; split; [done|]; intros ? [= <-]; congruence|done]].
  destruct (authenticatedSourceFound (ib_Sources ib)) eqn:Ea; cbn.
  - split; [|done]. intros _. right; right. split; [done|]. intros _ _ _. by apply authenticatedSourceFound_spec.
  - split; [done|]. intros [?|[?|[_ Hs]]]; [tauto..|]. specialize (Hs tls eq_refl Es).
    apply authenticatedSourceFound_spec in Hs. congruence.
Qed.

Lemma str_app_eq_nil s t : s +:+ t = "" → s = "" ∧ t = "".
Proof. by destruct s. Qed.

(** A round that finds nothing wrong. *)
Lemma ingressStep_good ib bs cf b :
  backendKey b ∉ elems bs → portOk ib b → noConflict ib b →
  ∃ bs', ingressBackendStep pc ib (bs, cf, "") b = inr (bs', cf, "") ∧ elems bs' = {[backendKey b]} ∪ elems bs.
Proof.
  intros Hk Hp%checkPort_None Hn. unfold ingressBackendStep.
  pose proof (Add_added (backendKey b) bs) as Ha. pose proof (elems_Add (backendKey b) bs) as He.
  change (be_Name b, ps_Number (be_Port b)) with (backendKey b).
  destruct (Add (backendKey b) bs) as [bs' u]; cbn in *. rewrite bool_decide_eq_true_2 in Ha by done. subst u. cbn.
  exists bs'. split; [|done]. rewrite Hp. destruct (pc_GetIngressBackendPolicy _ _) as [o|] eqn:Eo; [|done].
  rewrite bool_decide_eq_true_2 by (by apply Hn). done.
Qed.

(** A round never shortens the text; if it leaves it empty, nothing was wrong. *)
Lemma ingressStep_inv ib bs cf t b bs' cf' t' :
  ingressBackendStep pc ib (bs, cf, t) b = inr (bs', cf', t') →
  elems bs' = {[backendKey b]} ∪ elems bs ∧ (backendKey b ∉ elems bs) ∧ (t' = "" → t = "") ∧
  (t' = "" → elems cf = ∅ → portOk ib b ∧ noConflict ib b ∧ elems cf' = ∅).
Proof.
  unfold ingressBackendStep.
  pose proof (Add_added (backendKey b) bs) as Ha. pose proof (elems_Add (backendKey b) bs) as He.
  change (be_Name b, ps_Number (be_Port b)) with (backendKey b).
  destruct (Add (backendKey b) bs) as [bs1 u]; cbn in Ha, He. destruct u; [|done]. cbn [negb].
  symmetry in Ha. apply bool_decide_eq_true in Ha.
  assert (∀ t1 cf1, checked (checkPort ib b) (bs1, cf1, t1) = inr (bs', cf', t') →
            portOk ib b ∧ bs' = bs1 ∧ cf' = cf1 ∧ t' = t1) as Hck.
  { unfold checked. intros t1 cf1. destruct (checkPort ib b) eqn:E; [done|]. intros [= <- <- <-].
    split; [by apply checkPort_None|done]. }
  unfold noConflict. destruct (pc_GetIngressBackendPolicy _ _) as [o|].
  - case_bool_decide as Hn.
    + intros (? & -> & -> & ->)%Hck. split_and!; [done..|]. intros _ ?. split_and!; [done| |done]. naive_solver.
    + pose proof (Add_added (ib_Namespace o, ib_Name o) cf) as Hu.
      destruct (Add (ib_Namespace o, ib_Name o) cf) as [cf1 u]; cbn in Hu. destruct u; cbn [negb].
      * intros (? & -> & -> & ->)%Hck. split_and!; [done..|by intros [? ?]%str_app_eq_nil|].
        intros [_ ?]%str_app_eq_nil. done.
      * intros [= <- <- <-]. split_and!; [done..|]. intros _ Hcf. rewrite Hcf in Hu.
        rewrite bool_decide_eq_true_2 in Hu by set_solver. done.
  - intros (? & -> & -> & ->)%Hck. split_and!; [done..|]. intros _ ?. split_and!; [done| |done]. done.
Qed.

Lemma ingressLoop ib bs cf l :
  elems cf = ∅ →
  ((∃ bs' cf', efold (ingressBackendStep pc ib) (bs, cf, "") l = inr (bs', cf', "")) ↔
   NoDup (map backendKey l) ∧ ∀ b, b ∈ l → (backendKey b ∉ elems bs) ∧ portOk ib b ∧ noConflict ib b).
Proof.
  intros Hcf. split.
  - intros (bs' & cf' & H). revert bs cf Hcf H. induction l as [|b l IH]; intros bs cf Hcf H.
    { split; [constructor|]. intros b Hb. by apply elem_of_nil in Hb. }
    cbn [efold] in H. destruct (ingressBackendStep _ _ _ _) as [e|[[bs1 cf1] t1]] eqn:E; [done|].
    assert (t1 = "") as ->.
    { clear E Hcf IH. revert bs1 cf1 t1 H. induction l as [|x l IH]; intros bs1 cf1 t1 H; cbn [efold] in H; [naive_solver|].
      destruct (ingressBackendStep pc ib (bs1, cf1, t1) x) as [e|[[bs2 cf2] t2]] eqn:E; [done|].
      apply ingressStep_inv in E as (_ & _ & Ht & _). apply Ht. by eapply IH. }
    apply ingressStep_inv in E as (Hbs & Hk & _ & Hgood). destruct (Hgood eq_refl Hcf) as (Hp & Hn & Hcf1).
    destruct (IH bs1 cf1 Hcf1 H) as [Hnd Hl]. rewrite Hbs in Hl. split.
    + simpl. constructor; [|done]. intros (b' & Eb & Hb')%list_elem_of_fmap. destruct (Hl b' Hb') as [Hx _].
      apply Hx. rewrite <-Eb. apply elem_of_union_l. by apply elem_of_singleton.
    + intros x [->|Hx]%elem_of_cons; [done|]. destruct (Hl x Hx) as (Hn' & ? & ?).
      split_and!; [|done..]. intros ?. apply Hn'. by apply elem_of_union_r.
  - intros [Hnd Hl]. revert bs Hl. induction l as [|b l IH]; intros bs Hl; [by eexists _, _|].
    destruct (Hl b) as (Hk & Hp & Hn); [left|]. cbn [efold].
    destruct (ingressStep_good ib bs cf b Hk Hp Hn) as (bs1 & -> & Hbs). simpl in Hnd. apply NoDup_cons in Hnd as [Hb Hnd].
    apply IH; [done|]. intros x Hx. destruct (Hl x) as (? & ? & ?); [by right|]. split_and!; [|done..].
    rewrite Hbs. intros [Ex%elem_of_singleton|?]%elem_of_union; [|done]. apply Hb. rewrite <-Ex. by apply list_elem_of_fmap_2.
Qed.

(** Admission with an arbitrary policy client: [noConflict] is what it answers. *)
Lemma ingress_admission_general req :
  ingressBackendValidator dec pc req = Ret accept ↔
  ∃ ib, dec_IngressBackend dec (req_Object req) = inr ib ∧
    NoDup (map backendKey (ib_Backends ib)) ∧
    (∀ b, b ∈ ib_Backends ib → portOk ib b ∧ noConflict ib b) ∧
    (∀ s, s ∈ ib_Sources ib → validateSource s = None).
Proof.
  unfold ingressBackendValidator. destruct (dec_IngressBackend _ _) as [e|ib]; [by split; [|intros (? & ? & _)]|].
  pose proof (ingressLoop ib NewSet NewSet (ib_Backends ib) elems_NewSet) as HL. rewrite elems_NewSet in HL.
  setoid_rewrite <-tryEach_None.
  assert (finishBackends (efold (ingressBackendStep pc ib) (NewSet, NewSet, "") (ib_Backends ib)) (ib_Sources ib) = accept ↔
          (∃ bs' cf', efold (ingressBackendStep pc ib) (NewSet, NewSet, "") (ib_Backends ib) = inr (bs', cf', "")) ∧
          tryEach validateSource (ib_Sources ib) = None) as HF.
  { unfold finishBackends. destruct (efold _ _ _) as [e|[[bs cf] t]]; [naive_solver|].
    case_bool_decide; [subst|naive_solver]. destruct (tryEach _ _); naive_solver. }
  split.
  - intros [= [HL' Hs]%HF]. apply HL in HL' as [Hnd Hb]. exists ib. split_and!; [done..| |done]. intros b Hb'. naive_solver.
  - intros (ib' & [= <-] & Hnd & Hb & Hs). f_equal. apply HF. split; [|done]. apply HL. split; [done|].
    intros b Hb'. split; [apply not_elem_of_empty|by apply Hb].
Qed.

End facts.

(** ** What admission overlooks *)

Section gaps.
Context {MS : MapSet} {MSS : MapSetSpec} {FE : FieldErrors}.

Lemma fake_service_finds_nothing td c b :
  (∀ ib, ib ∈ informers_List (inf_IngressBackend c) → ib_Namespace ib ≠ "") →
  pc_GetIngressBackendPolicy (client_PolicyController td c) (fakeMeshSvc b) = None.
Proof.
  intros Hns. apply list_find_snd_None. intros ib Hib [?%bool_decide_eq_true _]%andb_true_iff. by apply (Hns ib Hib).
Qed.

(** C37. Whatever other IngressBackends exist (they are namespaced), the
    webhook admits an IngressBackend exactly when it decodes, no two of its own
    backends have the same name and port, every backend has the protocol http,
    https or grpc (the last with a principal among the sources if TLS skips
    the validation of client certificates), and every source is well formed.
    In particular a resource whose backends another resource already has is
    admitted: the check for such conflicts asks the policy client about a
    service without a namespace and never finds anything. *)
Theorem ingress_admission_exact dec td c req :
  (∀ ib, ib ∈ informers_List (inf_IngressBackend c) → ib_Namespace ib ≠ "") →
  ingressBackendValidator dec (client_PolicyController td c) req = Ret accept ↔
  ∃ ib, dec_IngressBackend dec (req_Object req) = inr ib ∧
    NoDup (map backendKey (ib_Backends ib)) ∧
    (∀ b, b ∈ ib_Backends ib → portOk ib b) ∧
    (∀ s, s ∈ ib_Sources ib → validateSource s = None).
Proof.
  intros Hns. rewrite ingress_admission_general. unfold noConflict.
  setoid_rewrite fake_service_finds_nothing; [|done..]. naive_solver.
Qed.

(** The verdict on an IngressBackend does not depend on the resources that
    exist: the validator asks the policy client about a service without a
    namespace, which no cached resource is in, so that a second resource for
    the backends of a first one is admitted like the first. *)
Theorem ingress_conflicts_overlooked dec td c c' req :
  (∀ ib, ib ∈ informers_List (inf_IngressBackend c) → ib_Namespace ib ≠ "") →
  (∀ ib, ib ∈ informers_List (inf_IngressBackend c') → ib_Namespace ib ≠ "") →
  ingressBackendValidator dec (client_PolicyController td c) req =
  ingressBackendValidator dec (client_PolicyController td c') req.
Proof.
  intros Hc Hc'. unfold ingressBackendValidator. destruct (dec_IngressBackend _ _) as [e|ib]; [done|].
  do 2 f_equal. generalize ((NewSet, NewSet, "") : backendState).
  induction (ib_Backends ib) as [|b l IH]; intros st; [done|]. cbn [efold].
  assert (ingressBackendStep (client_PolicyController td c) ib st b =
          ingressBackendStep (client_PolicyController td c') ib st b) as ->.
  { unfold ingressBackendStep. by rewrite !fake_service_finds_nothing by done. }
  by case_match.
Qed.

(** The kinds with a validator that no rule of the webhook selects. *)
Lemma validators_not_registered dec flags pc vtt :
  Forall (λ '(kind, resource), policyKind kind ∈ (validators dec flags pc).*1 ∧
            selected (webhookRules vtt) "policy.flomesh.io" "v1alpha1" resource = false)
    [("AccessCert", "accesscerts"); ("AccessControl", "accesscontrols");
     ("UpstreamTrafficSetting", "upstreamtrafficsettings")].
Proof. repeat constructor; try (by destruct vtt); set_solver. Qed.

(** A traffic setting for a host of its own panics the validator as soon as
    another setting is cached. *)
Lemma second_setting_panics dec td c req uts u l :
  dec_UpstreamTrafficSetting dec (req_Object req) = inr uts →
  2 ≤ length (Split (utss_Host (uts_Spec uts)) ".") →
  informers_List (inf_UpstreamTrafficSetting c) = u :: l →
  utss_Host (uts_Spec u) ≠ utss_Host (uts_Spec uts) →
  upstreamTrafficSettingValidator dec (client_PolicyController td c) req = Panic.
Proof.
  intros Hd Hl Hi Hu. unfold upstreamTrafficSettingValidator. rewrite Hd.
  rewrite bool_decide_eq_false_2 by lia. cbn [pc_GetUpstreamTrafficSetting client_PolicyController].
  assert (utss_Host (uts_Spec uts) ≠ "") as Hne by (intros E; rewrite E in Hl; simpl in Hl; lia).
  by rewrite (setting_by_host_panics _ _ _ _ _ Hne Hi Hu).
Qed.

(** ** Responses *)

Context (dec : Decoders) (flags : FeatureFlags) (pc : PolicyController).
Context (gvkString : GroupVersionKind → string).

(** [gvkString] tells the kinds of the table and of a request apart. *)
Definition tellsApart (gvk : GroupVersionKind) : Prop :=
  ∀ k k', k ∈ gvk :: (validators dec flags pc).*1 → k' ∈ gvk :: (validators dec flags pc).*1 →
    gvkString k = gvkString k' → k = k'.

Lemma validators_no_response k v req resp err :
  (k, v) ∈ validators dec flags pc → v req = Ret (resp, err) → resp = None.
Proof.
  intros Hv Hr. unfold validators in Hv.
  repeat (apply elem_of_cons in Hv as [[= -> ->]|Hv]);
    [..|by apply elem_of_nil in Hv];
    unfold accessCertValidator, accessControlValidator, ingressBackendValidator, egressValidator,
      egressGatewayValidator, upstreamTrafficSettingValidator, trafficTargetValidator, pluginValidator,
      pluginConfigValidator, pluginChainValidator, checkLimits, finishBackends, reject, accept in Hr;
    repeat (case_match || (apply go_bind_Ret in Hr as (? & _ & Hr))); by simplify_eq.
Qed.

Lemma lookupValidator_Some k v :
  tellsApart k → (k, v) ∈ validators dec flags pc →
  lookupValidator dec flags pc gvkString (gvkString k) = Some v.
Proof.
  intros Ht Hv. unfold lookupValidator. apply elem_of_list_to_map_1.
  - change (NoDup (map gvkString (validators dec flags pc).*1)). apply NoDup_fmap_2_strong.
    + intros x y Hx Hy. apply Ht; by right.
    + repeat constructor; set_solver.
  - apply list_elem_of_fmap. by exists (k, v).
Qed.

Lemma lookupValidator_None gvk :
  tellsApart gvk → gvk ∉ (validators dec flags pc).*1 →
  lookupValidator dec flags pc gvkString (gvkString gvk) = None.
Proof.
  intros Ht Hn. unfold lookupValidator. apply not_elem_of_list_to_map_1.
  change (gvkString gvk ∉ map gvkString (validators dec flags pc).*1).
  intros (k & E & Hk)%list_elem_of_fmap. rewrite (Ht gvk k) in Hn; [done|left|by right|done].
Qed.

(** The response to a request has the UID of the request.  A kind without
    a validator is denied with a message; otherwise the request is allowed
    exactly when the validator returns no error, and the error is the
    message; a panic of the validator is one of the handler. *)
Theorem admission_decision req :
  tellsApart (req_Kind req) →
  (req_Kind req ∉ (validators dec flags pc).*1 →
   handleValidation dec flags pc gvkString req =
     Ret (mkResponse (req_UID req) false (Some ("unknown gvk: " +:+ gvkString (req_Kind req))))) ∧
  (∀ v, (req_Kind req, v) ∈ validators dec flags pc →
   handleValidation dec flags pc gvkString req =
     match v req with
     | Ret (_, err) => Ret (mkResponse (req_UID req) (bool_decide (err = None)) err)
     | Panic => Panic
     end).
Proof.
  intros Ht. split.
  - intros Hk. unfold handleValidation. by rewrite lookupValidator_None.
  - intros v Hv. unfold handleValidation. rewrite (lookupValidator_Some _ _ Ht Hv). cbn.
    destruct (v req) as [[resp err]|] eqn:E; [|done]. cbn.
    rewrite (validators_no_response _ _ _ _ _ Hv E). by destruct err.
Qed.

(** A review that cannot be decoded, and one without a request, panic the
    handler instead of being answered with the error: the namespace of the
    missing request is read. *)
Theorem bad_review_panics decode body :
  rev_Request (decode body).2 = None →
  getAdmissionReqResp dec flags pc gvkString decode body = Panic.
Proof.
  intros Hr. unfold getAdmissionReqResp. destruct (decode body) as [[e|] review]; cbn in *; by rewrite Hr.
Qed.

(** The Egress matches that pass, and those that panic. *)
Lemma egressMatches_spec count l :
  match egressMatches count l with
  | Panic => ∃ m, m ∈ l ∧ ref_APIGroup m = None
  | Ret (inl _) => ∃ m, m ∈ l ∧
      (ref_APIGroup m, ref_Kind m) ≠ (Some CatalogEgress.CatalogEgress.smiSpecsGroupVersion, "HTTPRouteGroup") ∧
      (ref_APIGroup m, ref_Kind m) ≠ (Some CatalogEgress.CatalogEgress.policyGroupVersion, "UpstreamTrafficSetting")
  | Ret (inr n) => n = (count + Z.of_nat (length (List.filter (λ m,
      bool_decide (ref_APIGroup m = Some CatalogEgress.CatalogEgress.policyGroupVersion)) l)))%Z ∧
      ∀ m, m ∈ l → (ref_APIGroup m, ref_Kind m) = (Some CatalogEgress.CatalogEgress.smiSpecsGroupVersion, "HTTPRouteGroup") ∨
        (ref_APIGroup m, ref_Kind m) = (Some CatalogEgress.CatalogEgress.policyGroupVersion, "UpstreamTrafficSetting")
  end.
Proof.
  revert count. induction l as [|m l IH]; intros count.
  { split; [simpl; lia|]. intros m Hm. by apply elem_of_nil in Hm. }
  cbn [egressMatches List.filter]. destruct (ref_APIGroup m) as [g|] eqn:Eg; [|by exists m; split; [left|]]. cbn [deref mbind go_bind].
  case_bool_decide as Hs.
  - subst g. rewrite (bool_decide_eq_false_2 (Some _ = Some _)) by done. case_bool_decide as Hk.
    + specialize (IH count). repeat case_match; setoid_rewrite elem_of_cons; try naive_solver.
      destruct IH as [-> IH]. split; [done|]. intros x [->|?]; [left; by rewrite Eg, Hk|eauto].
    + exists m. split; [left|]. rewrite Eg. naive_solver.
  - case_bool_decide as Hp.
    + subst g. rewrite (bool_decide_eq_true_2 (Some _ = Some _)) by done. case_bool_decide as Hk.
      * specialize (IH (count + 1)%Z). repeat case_match; setoid_rewrite elem_of_cons; try naive_solver.
        destruct IH as [-> IH]. split; [simpl; lia|]. intros x [->|?]; [right; by rewrite Eg, Hk|eauto].
      * exists m. split; [left|]. rewrite Eg. naive_solver.
    + exists m. split; [left|]. rewrite Eg. naive_solver.
Qed.

End gaps.

(** ** Witnesses *)

Definition demoFieldErrors : FieldErrors :=
  {| field_Invalid path value detail := String.concat "." path +:+ ": " +:+ value +:+ ": " +:+ detail |}.

Definition demoIngress (name : string) : IngressBackend :=
  mkIngressBackend "shop" name [demoBackend "cart" 80] [mkSource KindIPRange "10.0.0.0/8" ""] (mkStatus "" "").

(** A decoder that knows one IngressBackend and one Egress. *)
Definition demoDecoders : Decoders := {|
  dec_TrafficTarget _ := inl "bad"; dec_AccessCert _ := inr tt; dec_AccessControl _ := inl "bad";
  dec_IngressBackend raw := if bool_decide (raw = "cart") then inr (demoIngress "second") else inl "bad";
  dec_Egress _ := inl "bad"; dec_UpstreamTrafficSetting _ := inl "bad"; dec_EgressGateway _ := inl "bad";
  dec_Plugin _ := inl "bad"; dec_PluginConfig _ := inr tt; dec_PluginChain _ := inr tt |}.

Definition demoClientWith (ibs : list IngressBackend) : Policy.Policy.Client := {|
  inf_Isolation := None; inf_EgressGateway := None; inf_Egress := None;
  inf_IngressBackend := Some (mkStore ibs (λ _, (None, false)));
  inf_Retry := None; inf_AccessControl := None; inf_TrafficWarmup := None;
  inf_UpstreamTrafficSetting := None; pol_kubeController := demoController |}.

Definition demoGvkString (gvk : GroupVersionKind) : string :=
  gvk_Group gvk +:+ "/" +:+ gvk_Version gvk +:+ ", Kind=" +:+ gvk_Kind gvk.

Definition demoRequest (kind : GroupVersionKind) (raw : string) : AdmissionRequest :=
  mkRequest "uid" kind "shop" raw.

Lemma ingress_admission_exact_witness :
  @ingressBackendValidator gset_MapSet demoDecoders
    (client_PolicyController "cluster.local" (demoClientWith [demoIngress "first"]))
    (demoRequest (policyKind "IngressBackend") "cart") = Ret accept.
Proof.
  apply (@ingress_admission_exact gset_MapSet gset_MapSetSpec); [by intros ib ->%list_elem_of_singleton|].
  exists (demoIngress "second"). split; [reflexivity|]. split; [repeat constructor; set_solver|]. split.
  - intros b ->%list_elem_of_singleton. by left.
  - intros s ->%list_elem_of_singleton. vm_compute. reflexivity.
Defined.

Lemma ingress_conflicts_overlooked_witness :
  @ingressBackendValidator gset_MapSet demoDecoders
    (client_PolicyController "cluster.local" (demoClientWith [demoIngress "first"]))
    (demoRequest (policyKind "IngressBackend") "cart") =
  @ingressBackendValidator gset_MapSet demoDecoders
    (client_PolicyController "cluster.local" (demoClientWith []))
    (demoRequest (policyKind "IngressBackend") "cart").
Proof.
  apply (@ingress_conflicts_overlooked gset_MapSet).
  - by intros ib ->%list_elem_of_singleton.
  - by intros ib ?%elem_of_nil.
Defined.

Lemma admission_decision_witness :
  let _ := gset_MapSet in let _ := demoFieldErrors in
  handleValidation demoDecoders zeroFlags (client_PolicyController "cluster.local" (demoClientWith []))
    demoGvkString (demoRequest (policyKind "AccessCert") "") =
  Ret (mkResponse "uid" false (Some "FSM is prohibited to issue certificates for external services")).
Proof.
  intros MS FE. etransitivity.
  - apply (@admission_decision MS FE demoDecoders zeroFlags _ demoGvkString (demoRequest (policyKind "AccessCert") "")).
    + intros k k' Hk Hk'. cbn in Hk, Hk'.
      repeat (apply elem_of_cons in Hk as [->|Hk]); try (by apply elem_of_nil in Hk);
      repeat (apply elem_of_cons in Hk' as [->|Hk']); try (by apply elem_of_nil in Hk'); vm_compute; congruence.
    + apply list_elem_of_In. left. reflexivity.
  - reflexivity.
Defined.

Lemma bad_review_panics_witness :
  let _ := gset_MapSet in let _ := demoFieldErrors in
  getAdmissionReqResp demoDecoders zeroFlags (client_PolicyController "cluster.local" (demoClientWith []))
    demoGvkString (λ _, (Some "no kind", mkReview "" None None)) "{}" = Panic.
Proof. intros MS FE. apply (@bad_review_panics MS FE). reflexivity. Defined.

End ValidatorsFacts.
