(* ===== verification/CatalogIngress.v ===== *)
(** * Ingress, access control and export policies: pkg/catalog/ingress.go,
      access_control.go, multi_cluster.go

    Who may reach a service from outside of the mesh, as the traffic matches
    and HTTP rules of its inbound side.  The rules of a policy share one set
    of principals, which later backends extend: the set is threaded through
    the loop and the rules are built from its last value.  Status updates are
    outputs, in order. *)

From S2P Require Import Prelude Identity Service Core Api MeshConfig Net Cidr TrafficPolicy K8s Smi Policy Catalog.
Import Identity.Identity Service.Service Api.Api MeshConfig.MeshConfig TrafficPolicy.TrafficPolicy.
Import K8s.K8s Policy.Policy Catalog.Catalog.

Module CatalogIngress.

Definition singeIPPrefixLen : string := "/32".
Definition acceptAll : Z := 100.

(** A call of [UpdateStatus]: an IngressBackend with its new status; an
    access control is passed as a pointer to a pointer, a type that the call
    does not support. *)
Inductive statusUpdate :=
  | UpdateIngressBackend (ib : IngressBackend) (s : Status)
  | UpdateUnsupported (ac : AccessControl) (s : Status).

Section policies.
Context {MS : MapSet} (mc : MeshCatalog).

(** IngressTrafficPolicy, AccessControlTrafficPolicy and
    ServiceExportTrafficPolicy: a nil HTTP route policy is [None]. *)
Record edgePolicy (M : Type) := mkEdgePolicy {
  edge_TrafficMatches : list M;
  edge_HTTPRoutePolicies : list (option (InboundTrafficPolicy Rule)) }.
Arguments mkEdgePolicy {M} _ _.
Arguments edge_TrafficMatches {M} _.
Arguments edge_HTTPRoutePolicies {M} _.

Definition IngressTrafficPolicy : Type := edgePolicy IngressTrafficMatch.
Definition AccessControlTrafficPolicy : Type := edgePolicy AccessControlTrafficMatch.
Definition ServiceExportTrafficPolicy : Type := edgePolicy ServiceExportTrafficMatch.

(** ** Sources *)

(** The addresses of endpoints as ranges, each once. *)
Definition addEndpointRanges (st : mset string * list string) (eps : list Endpoint) : mset string * list string :=
  foldl addUnique st (map (λ ep, Net.ip_String (ep_IP ep) +:+ singeIPPrefixLen) eps).

(** The loop over the sources: the ranges of services and blocks, and the
    principals; [inl] is the service without endpoints. *)
Fixpoint sourceLoop (principal : SourceSpec → option string) (sources : list SourceSpec)
    (st : mset string * list string) (principals : mset string)
    : SourceSpec + list string * mset string :=
  match sources with
  | [] => inr (st.2, principals)
  | s :: rest =>
      if bool_decide (src_Kind s = KindService) then
        match listEndpointsForService mc (named (src_Namespace s) (src_Name s)) with
        | [] => inl s
        | eps => sourceLoop principal rest (addEndpointRanges st eps) principals
        end
      else if bool_decide (src_Kind s = KindIPRange) then
        match Net.ParseCIDR (src_Name s) with
        | None => sourceLoop principal rest st principals
        | Some _ => sourceLoop principal rest (st.1, st.2 ++ [src_Name s]) principals
        end
      else if bool_decide (src_Kind s = KindAuthenticatedPrincipal) then
        sourceLoop principal rest st
          (match principal s with Some p => (Add p principals).1 | None => principals end)
      else sourceLoop principal rest st principals
  end.

(** The principal an authenticated source adds for a backend. *)
Definition backendPrincipal (tls : option TLSSpec) (s : SourceSpec) : option string :=
  Some (match tls with
        | Some t => if tls_SkipClientCertValidation t then WildcardServiceIdentity else src_Name s
        | None => src_Name s
        end).

(** Identities cannot be verified over plain HTTP. *)
Definition wildcardHTTP (protocol : string) (principals : mset string) : mset string :=
  if EqualFold protocol "http" then (Add WildcardPrincipal principals).1 else principals.

Definition localRule (svc : MeshService) (principals : mset string) : Rule :=
  {| Route := {| rwc_HTTPRouteMatch := WildCardRouteMatch;
                 rwc_WeightedClusters := NewSetFromSlice [mkWC (SidecarLocalClusterName svc) acceptAll];
                 rwc_RetryPolicy := None; rwc_RateLimit := None |};
     AllowedPrincipals := principals |}.

Definition httpPolicy (svc : MeshService) (from : string) (rules : list Rule) : InboundTrafficPolicy Rule :=
  mkInbound (ms_String svc +:+ "_from_" +:+ from) ["*"] rules None.

Definition isHTTPorGRPC (protocol : string) : bool :=
  bool_decide (ToLower protocol = "http") || bool_decide (ToLower protocol = "grpc").

(** The rate limit of the traffic setting of the service. *)
Definition serviceRateLimit (svc : MeshService) : go (option RateLimitSpec) :=
  uts ← pc_GetUpstreamTrafficSetting (policyController mc) (byService svc);
  Ret (uts ≫= λ u, utss_RateLimit (uts_Spec u)).

(** ** Backends *)

(** The loop over the backends: a match per backend, and how many of them have
    a rule.  [mk] builds the match, [ruled] says whether it has a rule. *)
Fixpoint backendLoop {M} (mk : BackendSpec → option RateLimitSpec → list string → M) (ruled : BackendSpec → bool)
    (svc : MeshService) (sources : list SourceSpec) (backends : list BackendSpec)
    (matches : list M) (rules : nat) (principals : mset string)
    : go (SourceSpec + list M * nat * mset string) :=
  match backends with
  | [] => Ret (inr (matches, rules, principals))
  | b :: rest =>
      if negb (isBackendOf svc b) then backendLoop mk ruled svc sources rest matches rules principals
      else
        rateLimit ← serviceRateLimit svc;
        match sourceLoop (backendPrincipal (be_TLS b)) sources (NewSet, []) principals with
        | inl s => Ret (inl s)
        | inr (ranges, principals) =>
            backendLoop mk ruled svc sources rest (matches ++ [mk b rateLimit ranges])
              (rules + if ruled b then 1 else 0)%nat (wildcardHTTP (ps_Protocol (be_Port b)) principals)
        end
  end.

(** ** Ingress *)

Definition ingressMatch (svc : MeshService) (b : BackendSpec) (rateLimit : option RateLimitSpec)
    (ranges : list string) : IngressTrafficMatch := {|
  itm_Name := IngressTrafficMatchName (Name svc) (Namespace svc) (uint16 (ps_Number (be_Port b)))
                (ps_Protocol (be_Port b));
  itm_Port := uint32 (ps_Number (be_Port b)); itm_Protocol := ps_Protocol (be_Port b);
  itm_SourceIPRanges := ranges; itm_TLS := be_TLS b;
  itm_ServerNames := default [] (tls_SNIHosts <$> be_TLS b);
  itm_SkipClientCertValidation := default false (tls_SkipClientCertValidation <$> be_TLS b);
  itm_RateLimit := rateLimit |}.

Definition missingEndpoints (s : SourceSpec) : Status :=
  mkStatus "error" ("endpoints not found for service " +:+ src_Namespace s +:+ "/" +:+ src_Name s).

Definition GetIngressTrafficPolicy (svc : MeshService)
    : go (list statusUpdate * (string + option IngressTrafficPolicy)) :=
  if negb (EnableIngressBackendPolicy (GetFeatureFlags (configurator mc))) then Ret ([], inr None)
  else match pc_GetIngressBackendPolicy (policyController mc) svc with
  | None => Ret ([], inr None)
  | Some ib =>
      res ← backendLoop (ingressMatch svc) (λ _, true) svc (ib_Sources ib) (ib_Backends ib) [] 0 NewSet;
      Ret match res with
      | inl s => ([UpdateIngressBackend ib (missingEndpoints s)], inl "Could not list endpoints of the source service")
      | inr ([], _, _) => ([], inr None)
      | inr (matches, rules, principals) =>
          ([UpdateIngressBackend ib (mkStatus "committed" "successfully committed by the system")],
           inr (Some (mkEdgePolicy matches
             [Some (httpPolicy svc (ib_Name ib) (replicate rules (localRule svc principals)))])))
      end
  end.

(** ** Access control *)

Definition aclMatch (svc : MeshService) (b : BackendSpec) (rateLimit : option RateLimitSpec)
    (ranges : list string) : AccessControlTrafficMatch := {|
  atm_Name := AccessControlTrafficMatchName (Name svc) (Namespace svc) (uint16 (ps_Number (be_Port b)))
                (ps_Protocol (be_Port b));
  atm_Port := uint32 (ps_Number (be_Port b)); atm_Protocol := ps_Protocol (be_Port b);
  atm_SourceIPRanges := ranges; atm_TLS := be_TLS b; atm_RateLimit := rateLimit |}.

(** Without backends the policy applies to the service's own port, and
    authenticated principals are ignored. *)
Definition getPermissiveAccessControlTrafficPolicy (svc : MeshService) (ac : AccessControl)
    : go (SourceSpec + list AccessControlTrafficMatch * nat * mset string) :=
  rateLimit ← serviceRateLimit svc;
  Ret match sourceLoop (λ _, None) (ac_Sources ac) (NewSet, []) NewSet with
  | inl s => inl s
  | inr (ranges, principals) =>
      inr ([{| atm_Name := AccessControlTrafficMatchName (Name svc) (Namespace svc) (Port svc) (Protocol svc);
               atm_Port := uint32 (Port svc); atm_Protocol := Protocol svc; atm_SourceIPRanges := ranges;
               atm_TLS := None; atm_RateLimit := rateLimit |}],
           if isHTTPorGRPC (Protocol svc) then 1%nat else 0%nat, wildcardHTTP (Protocol svc) principals)
  end.

Definition getStrictAccessControlTrafficPolicy (svc : MeshService) (ac : AccessControl)
    : go (SourceSpec + list AccessControlTrafficMatch * nat * mset string) :=
  backendLoop (aclMatch svc) (λ b, isHTTPorGRPC (ps_Protocol (be_Port b))) svc (ac_Sources ac) (ac_Backends ac)
    [] 0 NewSet.

Definition GetAccessControlTrafficPolicy (svc : MeshService)
    : go (list statusUpdate * (string + option AccessControlTrafficPolicy)) :=
  if negb (EnableAccessControlPolicy (GetFeatureFlags (configurator mc))) then Ret ([], inr None)
  else match pc_GetAccessControlPolicy (policyController mc) svc with
  | None => Ret ([], inr None)
  | Some ac =>
      let strict := bool_decide (0 < length (ac_Backends ac)) in
      res ← (if strict then getStrictAccessControlTrafficPolicy svc ac
             else getPermissiveAccessControlTrafficPolicy svc ac);
      Ret match res with
      | inl s => (if strict then [UpdateUnsupported ac (missingEndpoints s)] else [],
                  inl "Could not list endpoints of the source service")
      | inr ([], _, _) => ([], inr None)
      | inr (matches, rules, principals) =>
          ([], inr (Some (mkEdgePolicy matches
             [if bool_decide (rules = 0) then None
              else Some (httpPolicy svc (ac_Name ac) (replicate rules (localRule svc principals)))])))
      end
  end.

(** ** Exported services *)

Definition GetExportTrafficPolicy (svc : MeshService) : string + option ServiceExportTrafficPolicy :=
  match GetExportedRule (multiclusterController mc) svc with
  | inl e => inl e
  | inr None => inr None
  | inr (Some rule) =>
      let eps := GetIngressControllerServices (multiclusterController mc) ≫= listEndpointsForService mc in
      let m := {|
        xtm_Name := ExportedServiceTrafficMatchName (Name svc) (Namespace svc) (uint16 (ser_PortNumber rule))
                      (Protocol svc);
        xtm_Port := uint32 (ser_PortNumber rule); xtm_Protocol := Protocol svc;
        xtm_SourceIPRanges := (addEndpointRanges (NewSet, []) eps).2; xtm_TLS := None |} in
      inr (Some (mkEdgePolicy [m]
        [if isHTTPorGRPC (Protocol svc)
         then Some (httpPolicy svc "IngressController" [localRule svc (wildcardHTTP (Protocol svc) NewSet)])
         else None]))
  end.

End policies.

Arguments edgePolicy {MS} M.
Arguments mkEdgePolicy {MS M} _ _.
Arguments edge_TrafficMatches {MS M} _.
Arguments edge_HTTPRoutePolicies {MS M} _.

End CatalogIngress.
