(* ===== verification/CatalogIngressFacts.v ===== *)
(** * Properties of ingress, access control and export policies *)

From S2P Require Import Prelude Identity Service Core Api MeshConfig Net Cidr TrafficPolicy K8s Smi Policy.
From S2P Require Import Catalog CatalogFacts CatalogIngress.
Import Identity.Identity Service.Service Api.Api MeshConfig.MeshConfig TrafficPolicy.TrafficPolicy.
Import K8s.K8s Policy.Policy Catalog.Catalog CatalogIngress.CatalogIngress.

Module CatalogIngressFacts.

Section facts.
Context {MS : MapSet} {MSS : MapSetSpec} (mc : MeshCatalog).

(** ** Sources *)

(** The range of an endpoint. *)
Definition endpointRange (ep : Endpoint) : string := Net.ip_String (ep_IP ep) +:+ singeIPPrefixLen.

(** The range is one a source stands for. *)
Definition rangeOf (s : SourceSpec) (r : string) : Prop :=
  (src_Kind s = KindService ∧
   ∃ ep, ep ∈ listEndpointsForService mc (named (src_Namespace s) (src_Name s)) ∧ r = endpointRange ep) ∨
  (src_Kind s = KindIPRange ∧ is_Some (Net.ParseCIDR (src_Name s)) ∧ r = src_Name s).

(** The set only remembers ranges of the list. *)
Definition rangesOk (st : mset string * list string) : Prop := ∀ r, r ∈ elems st.1 → r ∈ st.2.

Lemma addUnique_ok (st : mset string * list string) x :
  rangesOk st → rangesOk (addUnique st x) ∧ ∀ r, r ∈ (addUnique st x).2 ↔ r ∈ st.2 ∨ r = x.
Proof.
  destruct st as [s out]. unfold rangesOk, addUnique. intros Hok.
  pose proof (elems_Add x s) as Ea. pose proof (Add_added x s) as Eb.
  destruct (Add x s) as [s' added]. simpl in *. subst added. rewrite Ea.
  case_bool_decide as Hx; simpl; set_solver.
Qed.

Lemma addEndpointRanges_ok st eps :
  rangesOk st → rangesOk (addEndpointRanges st eps) ∧
  ∀ r, r ∈ (addEndpointRanges st eps).2 ↔ r ∈ st.2 ∨ ∃ ep, ep ∈ eps ∧ r = endpointRange ep.
Proof.
  unfold addEndpointRanges. fold endpointRange. revert st. induction eps as [|ep eps IH]; intros st Hok; simpl.
  { split; [done|]. set_solver. }
  destruct (addUnique_ok st (endpointRange ep) Hok) as [Hok1 H1].
  destruct (IH _ Hok1) as [Hok2 H2]. split; [done|]. intros r. rewrite H2, H1. set_solver.
Qed.

Lemma ex_cons {A} (P : A → Prop) a l : (∃ x, x ∈ a :: l ∧ P x) ↔ P a ∨ ∃ x, x ∈ l ∧ P x.
Proof. set_solver. Qed.

(** The principal an authenticated source stands for. *)
Definition principalOf (principal : SourceSpec → option string) (s : SourceSpec) (p : string) : Prop :=
  src_Kind s = KindAuthenticatedPrincipal ∧ principal s = Some p.

Lemma kinds_differ :
  KindService ≠ KindIPRange ∧ KindService ≠ KindAuthenticatedPrincipal ∧ KindIPRange ≠ KindAuthenticatedPrincipal.
Proof. done. Qed.

Lemma sourceLoop_ok principal sources st ps :
  rangesOk st →
  match sourceLoop mc principal sources st ps with
  | inl s => s ∈ sources ∧ src_Kind s = KindService ∧
             listEndpointsForService mc (named (src_Namespace s) (src_Name s)) = []
  | inr (ranges, ps') =>
      (∀ r, r ∈ ranges ↔ r ∈ st.2 ∨ ∃ s, s ∈ sources ∧ rangeOf s r) ∧
      (∀ p, p ∈ elems ps' ↔ p ∈ elems ps ∨ ∃ s, s ∈ sources ∧ principalOf principal s p)
  end.
Proof.
  revert st ps. induction sources as [|s sources IH]; intros st ps Hok; [simpl; set_solver|].
  destruct kinds_differ as (K1 & K2 & K3).
  assert (∀ st' ps', rangesOk st' →
    (∀ r, r ∈ st'.2 ↔ r ∈ st.2 ∨ rangeOf s r) → (∀ p, p ∈ elems ps' ↔ p ∈ elems ps ∨ principalOf principal s p) →
    match sourceLoop mc principal sources st' ps' with
    | inl x => x ∈ s :: sources ∧ src_Kind x = KindService ∧
               listEndpointsForService mc (named (src_Namespace x) (src_Name x)) = []
    | inr (ranges, ps'') =>
        (∀ r, r ∈ ranges ↔ r ∈ st.2 ∨ ∃ x, x ∈ s :: sources ∧ rangeOf x r) ∧
        (∀ p, p ∈ elems ps'' ↔ p ∈ elems ps ∨ ∃ x, x ∈ s :: sources ∧ principalOf principal x p)
    end) as Hstep.
  { intros st' ps' Hok' Hr Hp. specialize (IH st' ps' Hok').
    destruct (sourceLoop mc principal sources st' ps') as [x|[ranges ps'']]; [set_solver|].
    destruct IH as [IH1 IH2]. split; intros z; rewrite ex_cons, ?IH1, ?IH2, ?Hr, ?Hp; tauto. }
  simpl. unfold rangeOf, principalOf in Hstep |- *.
  case_bool_decide as Hk1; [|case_bool_decide as Hk2; [|case_bool_decide as Hk3]].
  - destruct (listEndpointsForService mc _) as [|ep eps] eqn:He; [set_solver|].
    destruct (addEndpointRanges_ok st (ep :: eps) Hok) as [Hok' Hr]. apply Hstep; [done| |].
    + intros r. rewrite Hr, Hk1. naive_solver congruence.
    + intros p. rewrite Hk1. naive_solver congruence.
  - destruct (Net.ParseCIDR (src_Name s)) as [x|] eqn:Hc; apply Hstep; try done.
    + unfold rangesOk in *. set_solver.
    + intros r. simpl. rewrite elem_of_app, list_elem_of_singleton, Hk2. unfold is_Some. naive_solver congruence.
    + intros p. rewrite Hk2. naive_solver congruence.
    + intros r. rewrite Hk2. unfold is_Some. naive_solver congruence.
    + intros p. rewrite Hk2. naive_solver congruence.
  - apply Hstep; [done| |].
    + intros r. rewrite Hk3. naive_solver congruence.
    + intros p. rewrite Hk3. destruct (principal s) as [q|]; [rewrite elems_Add|]; set_solver.
  - apply Hstep; [done| |]; naive_solver congruence.
Qed.

(** A service without endpoints ends the loop. *)
Lemma sourceLoop_fails principal sources st ps ranges ps' s :
  sourceLoop mc principal sources st ps = inr (ranges, ps') → s ∈ sources → src_Kind s = KindService →
  listEndpointsForService mc (named (src_Namespace s) (src_Name s)) ≠ [].
Proof.
  revert st ps. induction sources as [|x sources IH]; intros st ps E Hs; [by apply not_elem_of_nil in Hs|].
  simpl in E. apply elem_of_cons in Hs as [<-|Hs].
  - intros Hk. rewrite bool_decide_eq_true_2 in E by done. by destruct (listEndpointsForService mc _).
  - repeat case_bool_decide; try by eapply IH.
    + destruct (listEndpointsForService mc (named (src_Namespace x) (src_Name x))) as [|? ?] eqn:?; [done|].
      by eapply IH.
    + destruct (Net.ParseCIDR _); by eapply IH.
Qed.

(** ** Backends *)

(** Every service among the sources has endpoints. *)
Definition sourcesListed (sources : list SourceSpec) : Prop := ∀ s, s ∈ sources → src_Kind s = KindService →
  listEndpointsForService mc (named (src_Namespace s) (src_Name s)) ≠ [].

(** Who a backend admits: its authenticated sources, and over HTTP anyone. *)
Definition admits (sources : list SourceSpec) (b : BackendSpec) (p : string) : Prop :=
  (∃ s, s ∈ sources ∧ principalOf (backendPrincipal (be_TLS b)) s p) ∨
  EqualFold (ps_Protocol (be_Port b)) "http" = true ∧ p = WildcardPrincipal.

Definition exactRanges (sources : list SourceSpec) (ranges : list string) : Prop :=
  ∀ r, r ∈ ranges ↔ ∃ s, s ∈ sources ∧ rangeOf s r.

Lemma elems_wildcardHTTP protocol (ps : mset string) p :
  p ∈ elems (wildcardHTTP protocol ps) ↔ p ∈ elems ps ∨ EqualFold protocol "http" = true ∧ p = WildcardPrincipal.
Proof. unfold wildcardHTTP. destruct (EqualFold protocol "http"); [rewrite elems_Add|]; set_solver. Qed.

Lemma rangesOk_empty : rangesOk (NewSet, []).
Proof. intros r. simpl. by rewrite elems_NewSet. Qed.

Lemma backendLoop_ok {M} (mk : BackendSpec → option RateLimitSpec → list string → M) ruled svc sources backends
    rl matches n ps :
  serviceRateLimit mc svc = Ret rl → sourcesListed sources →
  ∃ ms ps', backendLoop mc mk ruled svc sources backends matches n ps =
      Ret (inr (matches ++ ms, (n + length (List.filter ruled (List.filter (isBackendOf svc) backends)))%nat, ps')) ∧
    Forall2 (λ b m, ∃ ranges, m = mk b rl ranges ∧ exactRanges sources ranges)
      (List.filter (isBackendOf svc) backends) ms ∧
    ∀ p, p ∈ elems ps' ↔ p ∈ elems ps ∨ ∃ b, b ∈ List.filter (isBackendOf svc) backends ∧ admits sources b p.
Proof.
  intros Hrl Hs. revert matches n ps. induction backends as [|b backends IH]; intros matches n ps; simpl.
  { exists [], ps. rewrite app_nil_r, Nat.add_0_r. split; [done|]. split; [done|]. set_solver. }
  destruct (isBackendOf svc b) eqn:Hb; simpl; [|apply IH]. rewrite Hrl. simpl.
  pose proof (sourceLoop_ok (backendPrincipal (be_TLS b)) sources (NewSet, []) ps rangesOk_empty) as Hl.
  destruct (sourceLoop mc _ sources _ ps) as [s|[ranges ps1]]; [by destruct Hl as (? & ? & ?); destruct (Hs s)|].
  destruct Hl as [Hr Hp].
  destruct (IH (matches ++ [mk b rl ranges]) (n + if ruled b then 1 else 0)%nat
    (wildcardHTTP (ps_Protocol (be_Port b)) ps1)) as (ms & ps' & E & Hms & Hps).
  exists (mk b rl ranges :: ms), ps'. rewrite E, <-app_assoc. split; [|split].
  - do 4 f_equal. destruct (ruled b); simpl; lia.
  - constructor; [|done]. exists ranges. split; [done|]. intros r. rewrite Hr. simpl. set_solver.
  - intros p. rewrite Hps, elems_wildcardHTTP, Hp, ex_cons. unfold admits at 2. tauto.
Qed.

(** ** Ingress *)

Context {PL : PolicyLaws (policyController mc)}.

Lemma serviceRateLimit_total svc : ∃ rl, serviceRateLimit mc svc = Ret rl.
Proof. unfold serviceRateLimit. destruct (setting_by_service svc) as [r ->]. by eexists. Qed.

(** C21. Ingress is exact: when the services among the sources have endpoints,
    the policy of an IngressBackend is computed and committed; there is one
    match per backend of the service, with exactly the addresses of the
    sources; and a rule admits exactly the principals that some backend of the
    service admits -- the rules share one set, so each also admits those of
    the other backends. *)
Theorem ingress_policy_exact svc ib :
  EnableIngressBackendPolicy (GetFeatureFlags (configurator mc)) = true →
  pc_GetIngressBackendPolicy (policyController mc) svc = Some ib → sourcesListed (ib_Sources ib) →
  let backends := List.filter (isBackendOf svc) (ib_Backends ib) in
  ∃ pol hp, GetIngressTrafficPolicy mc svc =
      Ret ([UpdateIngressBackend ib (mkStatus "committed" "successfully committed by the system")], inr (Some pol)) ∧
    length (edge_TrafficMatches pol) = length backends ∧ backends ≠ [] ∧
    (∀ m, m ∈ edge_TrafficMatches pol → exactRanges (ib_Sources ib) (itm_SourceIPRanges m)) ∧
    edge_HTTPRoutePolicies pol = [Some hp] ∧ length (Rules hp) = length backends ∧
    ∀ rule, rule ∈ Rules hp → ∀ p,
      p ∈ elems (AllowedPrincipals rule) ↔ ∃ b, b ∈ backends ∧ admits (ib_Sources ib) b p.
Proof.
  intros Hflag Hib Hs backends. unfold GetIngressTrafficPolicy. rewrite Hflag, Hib. simpl.
  destruct (serviceRateLimit_total svc) as [rl Hrl].
  destruct (backendLoop_ok (ingressMatch svc) (λ _, true) svc (ib_Sources ib) (ib_Backends ib) rl [] 0 NewSet Hrl Hs)
    as (ms & ps & E & Hms & Hps). rewrite E. simpl. fold backends in Hms, Hps |- *.
  assert (List.filter (λ _, true) backends = backends) as -> by (clear; induction backends; simpl; congruence).
  assert (backends ≠ []) as Hne.
  { destruct (ingress_names_service svc ib Hib) as (_ & b & Hb & Hbo). intros Hnil.
    assert (b ∈ backends) as Hin by (by apply elem_of_lfilter). rewrite Hnil in Hin. by apply not_elem_of_nil in Hin. }
  pose proof (Forall2_length _ _ _ Hms) as Hlen. destruct ms as [|m0 ms]; [by destruct backends|].
  eexists _, _. split; [reflexivity|]. simpl. split; [done|]. split; [done|]. split; [|split; [done|split]].
  - intros m [i Hi]%list_elem_of_lookup_1. destruct (Forall2_lookup_r _ _ _ _ _ Hms Hi) as (b & _ & ranges & -> & ?). done.
  - cbn [httpPolicy Rules]. by rewrite length_replicate.
  - cbn [httpPolicy Rules]. intros rule [-> _]%elem_of_replicate p. simpl. rewrite Hps, elems_NewSet. set_solver.
Qed.

(** A source service without endpoints is an error, never a policy that
    admits less or more: nothing is returned and the resource gets an error
    status that names the service. *)
Theorem ingress_missing_endpoints svc ib :
  EnableIngressBackendPolicy (GetFeatureFlags (configurator mc)) = true →
  pc_GetIngressBackendPolicy (policyController mc) svc = Some ib → ¬ sourcesListed (ib_Sources ib) →
  ∃ s e, s ∈ ib_Sources ib ∧ src_Kind s = KindService ∧
    listEndpointsForService mc (named (src_Namespace s) (src_Name s)) = [] ∧
    GetIngressTrafficPolicy mc svc = Ret ([UpdateIngressBackend ib (missingEndpoints s)], inl e).
Proof.
  intros Hflag Hib Hs. unfold GetIngressTrafficPolicy. rewrite Hflag, Hib. simpl.
  destruct (serviceRateLimit_total svc) as [rl Hrl]. destruct (ingress_names_service svc ib Hib) as (_ & b & Hb & Hbo).
  cut (∀ matches n ps, ∃ s, s ∈ ib_Sources ib ∧ src_Kind s = KindService ∧
    listEndpointsForService mc (named (src_Namespace s) (src_Name s)) = [] ∧
    backendLoop mc (ingressMatch svc) (λ _, true) svc (ib_Sources ib) (ib_Backends ib) matches n ps = Ret (inl s)).
  { intros Hcut. destruct (Hcut [] 0%nat NewSet) as (s & ? & ? & ? & ->). by eexists _, _. }
  revert Hb. generalize (ib_Backends ib). intros backends Hb. induction backends as [|b' backends IH];
    [by apply not_elem_of_nil in Hb|]. intros matches n ps. simpl. destruct (isBackendOf svc b') eqn:Hb'; simpl.
  - rewrite Hrl. simpl. pose proof (sourceLoop_ok (backendPrincipal (be_TLS b')) (ib_Sources ib) (NewSet, []) ps rangesOk_empty) as Hl.
    destruct (sourceLoop mc _ (ib_Sources ib) _ ps) as [s|[ranges ps1]] eqn:El; [exists s; naive_solver|].
    exfalso. apply Hs. intros s Hin Hk He. by apply (sourceLoop_fails _ _ _ _ _ _ s) in El.
  - apply IH. apply elem_of_cons in Hb as [<-|Hb]; [congruence|done].
Qed.

End facts.

(** The prefix length of a single address is the one of IPv4: the range of an
    IPv6 endpoint is a block of 2^96 addresses. *)
Lemma ipv6_source_range_too_wide :
  let ep := mkEndpoint (Net.ParseIP "2001:db8::1") 80 0 0 "" "" "" "" "" "" false false "" "" "" in
  endpointRange ep = "2001:db8::1/32" ∧
  ∃ ip net, Net.ParseCIDR (endpointRange ep) = Some (ip, net) ∧
    Net.net_Contains net (Net.ParseIP "2001:db8:ffff::1") = true.
Proof. split; [vm_compute; reflexivity|]. eexists _, _. split; vm_compute; reflexivity. Qed.

(** ** Witnesses: an ingress to the cart from a block, an authenticated
    gateway and a service *)

Definition demoIngress (source : string) : IngressBackend :=
  mkIngressBackend "shop" "edge" [mkBackend "cart" (mkPortSpec 8080 "https") None]
    [mkSource KindIPRange "10.0.0.0/8" ""; mkSource KindAuthenticatedPrincipal "gateway" "";
     mkSource KindService source "shop"] (mkStatus "" "").

Definition demoIngressCatalog (source : string) : MeshCatalog :=
  let mc := CatalogFacts.CatalogFacts.demoCatalog false in
  let pc := client_PolicyController "cluster.local"
    {| inf_Isolation := None; inf_EgressGateway := None; inf_Egress := None;
       inf_IngressBackend := Some (listStore (λ _, "") [demoIngress source]);
       inf_Retry := None; inf_AccessControl := None; inf_TrafficWarmup := None; inf_UpstreamTrafficSetting := None;
       pol_kubeController := demoController |} in
  mkMeshCatalog (endpointsProviders mc) (serviceProviders mc) (meshSpec mc) (configurator mc) (kubeController mc)
    pc (multiclusterController mc) (GetTrustDomain mc) (svcTrustDomain mc) (decodeMeta mc).

Definition demoCart : MeshService := mkMeshService "shop" "cart" 80 8080 "http" "" "" "".

Lemma ingress_policy_exact_witness :
  ∃ pol hp, @GetIngressTrafficPolicy gset_MapSet (demoIngressCatalog "cart") demoCart =
      Ret ([UpdateIngressBackend (demoIngress "cart") (mkStatus "committed" "successfully committed by the system")],
           inr (Some pol)) ∧
    edge_HTTPRoutePolicies pol = [Some hp] ∧ length (Rules hp) = 1.
Proof.
  destruct (@ingress_policy_exact gset_MapSet gset_MapSetSpec (demoIngressCatalog "cart") _ demoCart
    (demoIngress "cart")) as (pol & hp & H1 & _ & _ & _ & H2 & H3 & _); [reflexivity|reflexivity| |eauto].
  intros s. simpl. rewrite !elem_of_cons, elem_of_nil. intros Hs. destruct_or! Hs; subst; done.
Defined.

Lemma ingress_missing_endpoints_witness :
  ∃ s e, s ∈ ib_Sources (demoIngress "ghost") ∧
    @GetIngressTrafficPolicy gset_MapSet (demoIngressCatalog "ghost") demoCart =
    Ret ([UpdateIngressBackend (demoIngress "ghost") (missingEndpoints s)], inl e).
Proof.
  destruct (@ingress_missing_endpoints gset_MapSet gset_MapSetSpec (demoIngressCatalog "ghost") _ demoCart
    (demoIngress "ghost")) as (s & e & H1 & _ & _ & H2); [reflexivity|reflexivity| |eauto].
  intros Hs. apply (Hs (mkSource KindService "ghost" "shop")); [|reflexivity|reflexivity].
  right. right. left.
Defined.

End CatalogIngressFacts.
