(* ===== verification/CatalogOutbound.v ===== *)
(** * Outbound traffic policies: pkg/catalog/outbound_traffic_policies.go

    What a client may reach inside the mesh: clusters, traffic matches, HTTP
    routes with weighted upstream clusters (TrafficSplits and multicluster
    load balancing included), and the names to resolve locally. *)

From S2P Require Import Prelude Identity Service Api MeshConfig Net Cidr TrafficPolicy K8s Smi Policy Catalog.
From S2P Require Import CatalogInbound CatalogEgress.
Import Identity.Identity Service.Service Api.Api MeshConfig.MeshConfig Net.Net TrafficPolicy.TrafficPolicy
  K8s.K8s Smi.Smi Policy.Policy Catalog.Catalog CatalogInbound.CatalogInbound CatalogEgress.CatalogEgress.

Module CatalogOutbound.

(** ** Weighted clusters *)

(** The loop of [activeUpstreamClusters]: each cluster gets the remaining
    weight divided by the number of clusters left, with Go's truncating
    division. *)
Fixpoint divideWeight (totalWeight : Z) (aas : list ClusterName) : list WeightedCluster :=
  match aas with
  | [] => []
  | cn :: rest =>
      let weight := (totalWeight `quot` Z.of_nat (length (cn :: rest)))%Z in
      mkWC cn weight :: divideWeight (totalWeight - weight) rest
  end.

Definition activeUpstreamClusters (aas : list ClusterName) (backend : TrafficSplitBackend)
    (upstreamClusters : list WeightedCluster) : list WeightedCluster :=
  upstreamClusters ++ divideWeight (tsb_Weight backend) aas.

Definition failOverUpstreamClusters (fos : list ClusterName) (upstreamClusters : list WeightedCluster)
    : list WeightedCluster :=
  upstreamClusters ++ map (λ cn, mkWC cn ClusterWeightFailOver) fos.

(** The first cluster of each name; without a wildcard split all weights are
    reset. *)
Definition getWildCardRouteUpstreamClusters (hasTrafficSplitWildCard : bool)
    (routeMatches : list HTTPRouteMatchWithWeightedClusters) : list WeightedCluster :=
  (foldl (λ st routeMatch,
     if hasTrafficSplitWildCard && HasSplitMatches routeMatch then st
     else foldl (λ '(clusters, seen) wc,
            if bool_decide (wc_ClusterName wc ∈ (seen : gset string)) then (clusters, seen)
            else (clusters ++ [mkWC (wc_ClusterName wc)
                    (if hasTrafficSplitWildCard then wc_Weight wc else ClusterWeightAcceptAll)],
                  {[wc_ClusterName wc]} ∪ seen)) st (UpstreamClusters routeMatch))
     ([], ∅) routeMatches).1.

Section outbound.
Context {MS : MapSet} {MR : MapRange} (mc : MeshCatalog).
Context {E : Type} (hashMatch : TrafficMatch → E + Z) (hashCluster : EgressClusterConfig → E + Z).

Definition mergeUpstreamClusters (meshSvc : MeshService) (upstreamClusters : list WeightedCluster)
    : list WeightedCluster :=
  let weight :=
    if IsMultiClusterService meshSvc then
      let lb := GetLbWeightForService (multiclusterController mc) meshSvc in
      if lbw_aa lb && bool_decide (0 < lbw_weight lb)%Z then lbw_weight lb
      else if lbw_fo lb then ClusterWeightFailOver else ClusterWeightAcceptAll
    else ClusterWeightAcceptAll in
  upstreamClusters ++ [mkWC (SidecarClusterName meshSvc) weight].

(** The namespaces of the slaves one after the other, until a lookup
    succeeds; the last result otherwise. *)
Fixpoint trySlaves (port : Z) (name : string) (last : string + Z) (slaves : list string) : string + Z :=
  match slaves with
  | [] => last
  | ns :: rest =>
      match GetTargetPortForServicePort (kubeController mc) (mkNN ns name) port with
      | inr p => inr p
      | inl err => trySlaves port name (inl err) rest
      end
  end.

Definition getTargetPortForServicePort (meshSvc : MeshService) (nn : NamespacedName) : string + Z :=
  match GetTargetPortForServicePort (kubeController mc) nn (Port meshSvc) with
  | inr p => inr p
  | inl err =>
      let lb := GetConnectorLb (configurator mc) in
      if IsMasterNamespace lb (nn_Namespace nn)
      then trySlaves (Port meshSvc) (nn_Name nn) (inl err) (slice_elems (lb_SlaveNamespaces lb))
      else inl err
  end.

(** The backend's namespace and name: [<namespace>/<name>], or a name in the
    apex service's namespace. *)
Definition splitBackend (meshSvc : MeshService) (backend : TrafficSplitBackend) : string * string :=
  match Split (tsb_Service backend) "/"%char with
  | [ns; name] => (ns, name)
  | _ => (Namespace meshSvc, tsb_Service backend)
  end.

Definition backendCluster (ns name : string) (targetPort : Z) : ClusterName :=
  SidecarClusterName (mkMeshService ns name 0 targetPort "" "" "" "").

(** The clusters of a backend: the local one, then those of other clusters
    that are not the local one, active or fail-over. *)
Definition splitBackendClusters (meshSvc : MeshService) (backend : TrafficSplitBackend)
    : list ClusterName * list ClusterName :=
  let '(ns, name) := splitBackend meshSvc backend in
  let nn := if negb (bool_decide (CloudAttachedNamespace meshSvc = "")) &&
               EqualFold (CloudAttachedNamespace meshSvc) ns
            then mkNN (Namespace meshSvc) name else mkNN ns name in
  let local := match getTargetPortForServicePort meshSvc nn with
               | inr targetPort => [backendCluster ns name targetPort]
               | inl _ => []
               end in
  foldl (λ '(aas, fos) '(targetPort, aa),
    let cn := backendCluster ns name targetPort in
    if bool_decide (cn ∈ local) then (aas, fos)
    else if (aa : bool) then (aas ++ [cn], fos) else (aas, fos ++ [cn]))
    (local, [])
    (map_range (mcc_GetTargetPortForServicePort (multiclusterController mc) (mkNN ns name) (Port meshSvc))).

Definition mergeSplitUpstreamClusters (meshSvc : MeshService) (backend : TrafficSplitBackend)
    (upstreamClusters : list WeightedCluster) : list WeightedCluster :=
  let '(aas, fos) := splitBackendClusters meshSvc backend in
  failOverUpstreamClusters fos (activeUpstreamClusters aas backend upstreamClusters).

(** The routes of the groups the split refers to, by name only. *)
Definition getSplitRouteMatches (split : TrafficSplit) : list HTTPRouteMatch :=
  foldl (λ routes group,
    match hrg_Matches group with
    | None => routes
    | Some matches =>
        if existsb (λ m, bool_decide (ref_Name m = hrg_Name group)) (ts_Matches split)
        then routes ++ map routeOfMatch matches else routes
    end) [] (ms_ListHTTPTrafficSpecs (meshSpec mc)).

(** ** Egress *)

Definition isEgressService (meshSvc : MeshService) (egressPolicy : EgressTrafficPolicy) : go bool :=
  hostnames ← GetHostnamesForService (svcTrustDomain mc) meshSvc (GetServiceAccessNames (configurator mc)) true;
  Ret (existsb (λ '(_, routeConfigs),
         existsb (λ routeConfig,
           existsb (λ host, bool_decide (host ∈ hostnames)) (erc_Hostnames routeConfig)) routeConfigs)
       (map_range (etp_HTTPRouteConfigsPerPort egressPolicy))).

(** The policy is fetched at most once; an error leaves nil. *)
Definition enableEgressSrviceForIdentity (downstreamIdentity : ServiceIdentity) (egressPolicyGetted : bool)
    (egressPolicy : option EgressTrafficPolicy) (meshSvc : MeshService)
    : go (bool * bool * option EgressTrafficPolicy) :=
  if IsEgressEnabled (configurator mc) then Ret (true, egressPolicyGetted, egressPolicy)
  else
    egressPolicy ←
      (if egressPolicyGetted then Ret egressPolicy
       else r ← GetEgressTrafficPolicy mc hashMatch hashCluster downstreamIdentity;
            Ret (match r with inr p => p | inl _ => None end));
    egressEnabled ← match egressPolicy with
                    | Some p => isEgressService meshSvc p
                    | None => Ret false
                    end;
    Ret (egressEnabled, true, egressPolicy).

(** ** Services *)

Definition ListOutboundServicesForIdentity (serviceIdentity : ServiceIdentity) : go (list MeshService) :=
  if IsPermissiveTrafficPolicyMode (configurator mc) then Ret (listMeshServices mc)
  else
    svcAccount ← ToK8sServiceAccount serviceIdentity;
    Ret (foldl (λ st t,
           if existsb (isSubject svcAccount) (tt_Sources t) then
             foldl addUnique st (getServicesForServiceIdentity mc
               (ToServiceIdentity (trafficTargetIdentityToSvcAccount (tt_Destination t))))
           else st) (NewSet, []) (ms_ListTrafficTargets (meshSpec mc) [])).2.

(** ** The policy of one service *)

Definition destinationRanges (endpoints : list Endpoint) : list string :=
  (foldl addUnique (NewSet, []) (map (λ e, ip_String (ep_IP e) +:+ "/32") endpoints)).2.

Definition resolvableSet (meshSvc : MeshService) (existIntraEndpoints : bool) (endpoints : list Endpoint)
    (resolvable : gmap string (list string)) : gmap string (list string) :=
  if IsLocalDNSProxyEnabled (configurator mc) && negb existIntraEndpoints then
    let resolvableIPSet := NewSetFromSlice (map (λ e, ip_String (ep_IP e)) endpoints) in
    if bool_decide (0 < Cardinality resolvableIPSet)
    then <[PolicyName meshSvc true := sort_strings (ToSlice resolvableIPSet)]> resolvable
    else resolvable
  else resolvable.

(** Clusters per route match, and whether a wildcard route takes part. *)
Definition outboundRouteMatches (meshSvc : MeshService)
    : list HTTPRouteMatchWithWeightedClusters * bool :=
  let ns := if bool_decide (CloudAttachedNamespace meshSvc = "") then Namespace meshSvc
            else CloudAttachedNamespace meshSvc in
  let trafficSplits :=
    ms_ListTrafficSplits (meshSpec mc) [WithTrafficSplitApexService (named ns (Name meshSvc))] in
  if bool_decide (0 < length trafficSplits) then
    foldl (λ '(routeMatches, wildcard) split,
      let hasMatches := bool_decide (0 < length (ts_Matches split)) in
      (routeMatches ++
       [{| UpstreamClusters := foldl (λ clusters b, mergeSplitUpstreamClusters meshSvc b clusters) [] (ts_Backends split);
           RouteMatches := if hasMatches then getSplitRouteMatches split else [];
           HasSplitMatches := hasMatches |}],
       if hasMatches then wildcard else true)) ([], false) trafficSplits
  else ([mkRouteMatchWC (mergeUpstreamClusters meshSvc []) [] false], true).

Definition outboundTrafficMatch (meshSvc : MeshService) (ranges : list string)
    (rm : HTTPRouteMatchWithWeightedClusters) : TrafficMatch :=
  {| tm_Name := OutboundTrafficMatchName meshSvc; tm_DestinationPort := Port meshSvc;
     tm_DestinationProtocol := Protocol meshSvc; tm_DestinationIPRanges := ranges;
     tm_ServerNames := []; tm_Cluster := ""; tm_WeightedClusters := UpstreamClusters rm;
     tm_RateLimit := None; tm_EgressGateWay := None |}.

(** All routes of the matches; a route that conflicts is left out. *)
Definition addMatchRoutes (retryPolicy : option RetryPolicySpec)
    (routeMatches : list HTTPRouteMatchWithWeightedClusters) (out : OutboundTrafficPolicy) : OutboundTrafficPolicy :=
  foldl (λ out rm, foldl (λ out route, (AddRoute out route retryPolicy (UpstreamClusters rm)).1)
                     out (RouteMatches rm)) out routeMatches.

Definition hasWildCardRoute (routeMatches : list HTTPRouteMatchWithWeightedClusters) : bool :=
  existsb (λ rm, existsb (λ route, bool_decide (Path route = RegexMatchAll)) (RouteMatches rm)) routeMatches.

(** The HTTP policy; [None] when the wildcard route conflicts. *)
Definition outboundHTTPPolicy (meshSvc : MeshService) (hostnames : list string)
    (retryPolicy : option RetryPolicySpec) (routeMatches : list HTTPRouteMatchWithWeightedClusters)
    (hasTrafficSplitWildCard : bool) : option OutboundTrafficPolicy :=
  let out := addMatchRoutes retryPolicy routeMatches
               (NewOutboundTrafficPolicy (PolicyName meshSvc true) hostnames) in
  if hasWildCardRoute routeMatches then Some out
  else match AddRoute out WildCardRouteMatch retryPolicy
               (getWildCardRouteUpstreamClusters hasTrafficSplitWildCard routeMatches) with
       | (out', None) => Some out'
       | (_, Some _) => None
       end.

(** The state of the loop: the policy so far and the egress policy fetched. *)
Record outboundAcc := mkOutboundAcc {
  oa_policy : OutboundMeshTrafficPolicy;
  oa_egressGetted : bool;
  oa_egress : option EgressTrafficPolicy
}.

Definition outboundStep (downstreamIdentity : ServiceIdentity) (downstreamSvcAccount : K8sServiceAccount)
    (acc : outboundAcc) (meshSvc : MeshService) : go outboundAcc :=
  if bool_decide (TargetPort meshSvc = 0)%Z then Ret acc
  else
    '(egressEnabled, getted, egress) ←
      enableEgressSrviceForIdentity downstreamIdentity (oa_egressGetted acc) (oa_egress acc) meshSvc;
    let monitoredNamespace := IsMonitoredNamespace (kubeController mc) (Namespace meshSvc) in
    let endpoints := getDNSResolvableServiceEndpoints mc meshSvc in
    let existIntraEndpoints :=
      existsb (λ e, bool_decide (ep_ClusterKey e = "") && (monitoredNamespace || egressEnabled)) endpoints in
    uts ← pc_GetUpstreamTrafficSetting (policyController mc) (byService meshSvc);
    let '(routeMatches, hasTrafficSplitWildCard) := outboundRouteMatches meshSvc in
    let p := oa_policy acc in
    let p' := {|
      omp_TrafficMatches := omp_TrafficMatches p ++
        map (outboundTrafficMatch meshSvc (destinationRanges endpoints)) routeMatches;
      omp_HTTPRouteConfigsPerPort := omp_HTTPRouteConfigsPerPort p;
      omp_ClustersConfigs := omp_ClustersConfigs p ++
        [{| mcc_Name := SidecarClusterName meshSvc; mcc_Service := meshSvc; mcc_Address := ""; mcc_Port := 0;
            mcc_EnableSidecarActiveHealthChecks :=
              EnableSidecarActiveHealthChecks (GetFeatureFlags (configurator mc));
            mcc_UpstreamTrafficSetting := uts |}];
      omp_ServicesResolvableSet :=
        resolvableSet meshSvc existIntraEndpoints endpoints (omp_ServicesResolvableSet p) |} in
    if isTCP (Protocol meshSvc) then Ret (mkOutboundAcc p' getted egress)
    else
      let localNamespace := bool_decide (sa_Namespace downstreamSvcAccount = Namespace meshSvc) ||
                            negb (bool_decide (CloudInheritedFrom meshSvc = "")) in
      hostnames ← getHostnamesForService mc meshSvc localNamespace endpoints;
      retryPolicy ← GetRetryPolicy mc downstreamIdentity meshSvc;
      match outboundHTTPPolicy meshSvc hostnames retryPolicy routeMatches hasTrafficSplitWildCard with
      | None => Ret (mkOutboundAcc p' getted egress)
      | Some out =>
          Ret (mkOutboundAcc
                 {| omp_TrafficMatches := omp_TrafficMatches p';
                    omp_HTTPRouteConfigsPerPort :=
                      map_append (Port meshSvc) [out] (omp_HTTPRouteConfigsPerPort p');
                    omp_ClustersConfigs := omp_ClustersConfigs p';
                    omp_ServicesResolvableSet := omp_ServicesResolvableSet p' |} getted egress)
      end.

Definition GetOutboundMeshTrafficPolicy (downstreamIdentity : ServiceIdentity) : go OutboundMeshTrafficPolicy :=
  downstreamSvcAccount ← ToK8sServiceAccount downstreamIdentity;
  services ← ListOutboundServicesForIdentity downstreamIdentity;
  acc ← gofold (outboundStep downstreamIdentity downstreamSvcAccount)
          (mkOutboundAcc (mkOutboundMesh [] ∅ [] ∅) false None) services;
  Ret (oa_policy acc).

End outbound.

End CatalogOutbound.
