(* ===== verification/CatalogOutboundFacts.v ===== *)
(** * Properties of outbound traffic policies

    Weights are conserved when a split backend is spread over clusters, the
    services offered are those of authorized accounts, and every service gets
    a cluster and unambiguous routes. *)

From S2P Require Import Prelude Identity Service Api MeshConfig Net Cidr TrafficPolicy TrafficPolicyFacts K8s Smi Policy.
From S2P Require Import Catalog CatalogFacts CatalogInbound CatalogInboundFacts CatalogEgress.
From S2P Require Import CatalogEgressFacts CatalogOutbound.
Import Identity.Identity Service.Service Api.Api MeshConfig.MeshConfig Net.Net TrafficPolicy.TrafficPolicy
  TrafficPolicyFacts.TrafficPolicyFacts K8s.K8s Smi.Smi Policy.Policy Catalog.Catalog
  CatalogFacts.CatalogFacts CatalogInbound.CatalogInbound CatalogInboundFacts.CatalogInboundFacts
  CatalogEgress.CatalogEgress CatalogEgressFacts.CatalogEgressFacts CatalogOutbound.CatalogOutbound.

Module CatalogOutboundFacts.

(** ** Weights *)

Definition sumZ (l : list Z) : Z := foldr Z.add 0%Z l.

Lemma divideWeight_names total aas : wc_ClusterName <$> divideWeight total aas = aas.
Proof. revert total. induction aas as [|cn aas IH]; intros total; simpl; [done|]. f_equal. apply IH. Qed.

Lemma divideWeight_sum total aas :
  aas ≠ [] → sumZ (wc_Weight <$> divideWeight total aas) = total.
Proof.
  revert total. induction aas as [|cn aas IH]; intros total Hne; [done|].
  cbn [divideWeight fmap list_fmap sumZ foldr wc_Weight]. destruct aas as [|cn' aas].
  - simpl. rewrite Z.quot_1_r. lia.
  - fold (sumZ (wc_Weight <$> divideWeight (total - total `quot` Z.of_nat (length (cn :: cn' :: aas))) (cn' :: aas))).
    rewrite IH by done. lia.
Qed.

(** The shares of a weight between [q] and [q + 1] per cluster. *)
Lemma divideWeight_even q total aas :
  (0 ≤ q → q * Z.of_nat (length aas) ≤ total ≤ (q + 1) * Z.of_nat (length aas) →
   Forall (λ wc, q ≤ wc_Weight wc ≤ q + 1) (divideWeight total aas))%Z.
Proof.
  intros Hq. revert total. induction aas as [|cn aas IH]; intros total H; [constructor|].
  cbn [divideWeight]. set (n := Z.of_nat (length (cn :: aas))) in *.
  assert (n = Z.of_nat (length aas) + 1)%Z as Hn by (unfold n; simpl; lia).
  rewrite Z.quot_div_nonneg by nia. remember (total / n)%Z as w eqn:Ew.
  assert (q ≤ w ≤ q + 1)%Z as Hw.
  { subst w. split; [apply Z.div_le_lower_bound; nia|].
    apply Z.lt_succ_r, Z.div_lt_upper_bound; nia. }
  constructor; [done|]. apply IH.
  pose proof (Z.mul_div_le total n ltac:(lia)). pose proof (Z.mul_succ_div_gt total n ltac:(lia)).
  rewrite <-Ew in *. assert (w = q ∨ w = q + 1)%Z as [->| ->] by lia; nia.
Qed.

Section facts.
Context {MS : MapSet} {MSS : MapSetSpec} {MR : MapRange} (mc : MeshCatalog).

(** ** Wildcard routes *)

Lemma AddRoute_matches out m rp wcs m' :
  m' ∈ rwc_HTTPRouteMatch <$> Routes (AddRoute out m rp wcs).1 ↔
  m' ∈ rwc_HTTPRouteMatch <$> Routes out ∨ m' = m.
Proof.
  rewrite !list_elem_of_fmap. destruct (AddRoute out m rp wcs) as [out' [e|]] eqn:E; simpl.
  - apply AddRoute_err in E as (-> & r & _ & ? & ? & _). split; [auto|]. intros [?| ->]; eauto.
  - apply AddRoute_ok in E as ((r & ? & ? & _) & Hr & _). split.
    + intros (r0 & -> & Hr0). destruct (decide (rwc_HTTPRouteMatch r0 = m)) as [|Hne]; [by right|].
      left. exists r0. split; [done|]. by apply Hr.
    + intros [(r0 & -> & Hr0)| ->]; [|eauto].
      destruct (decide (rwc_HTTPRouteMatch r0 = m)) as [->|Hne]; [eauto|].
      exists r0. split; [done|]. by apply Hr.
Qed.

Lemma AddRoute_unique out m rp wcs : uniqueMatches out → uniqueMatches (AddRoute out m rp wcs).1.
Proof.
  destruct (AddRoute out m rp wcs) as [out' [e|]] eqn:E.
  - by apply AddRoute_err in E as [-> _].
  - by apply AddRoute_ok in E as (_ & _ & ?).
Qed.

Lemma addMatchRoutes_inv rp rms out :
  uniqueMatches out →
  uniqueMatches (addMatchRoutes rp rms out) ∧
  ∀ m, m ∈ rwc_HTTPRouteMatch <$> Routes (addMatchRoutes rp rms out) ↔
    m ∈ rwc_HTTPRouteMatch <$> Routes out ∨ m ∈ (rms ≫= RouteMatches).
Proof.
  unfold addMatchRoutes. revert out.
  induction rms as [|rm rms IH]; intros out Hu; [split; [done|]; intros m; simpl; rewrite elem_of_nil; tauto|].
  cbn [foldl]. set (out1 := foldl _ out _).
  assert (uniqueMatches out1 ∧ ∀ m, m ∈ rwc_HTTPRouteMatch <$> Routes out1 ↔
    m ∈ rwc_HTTPRouteMatch <$> Routes out ∨ m ∈ RouteMatches rm) as [Hu1 H1].
  { unfold out1. apply (foldl_inv (λ ms out1, uniqueMatches out1 ∧ ∀ m,
      m ∈ rwc_HTTPRouteMatch <$> Routes out1 ↔ m ∈ rwc_HTTPRouteMatch <$> Routes out ∨ m ∈ ms)).
    - split; [done|]. intros m. rewrite elem_of_nil. tauto.
    - intros l1 m' l2 o _ [Ho Hm]. split; [by apply AddRoute_unique|]. intros m.
      rewrite AddRoute_matches, Hm, elem_of_app, list_elem_of_singleton. tauto. }
  destruct (IH out1 Hu1) as [? H2]. split; [done|]. intros m. rewrite bind_cons, elem_of_app, H2, H1. tauto.
Qed.

(** The policy always exists, has at most one route per match, and a route
    for all paths. *)
Lemma outboundHTTPPolicy_ok svc hs rp rms wildcard :
  ∃ out, outboundHTTPPolicy svc hs rp rms wildcard = Some out ∧
    uniqueMatches out ∧ ∃ r, r ∈ Routes out ∧ Path (rwc_HTTPRouteMatch r) = RegexMatchAll.
Proof.
  unfold outboundHTTPPolicy. set (out0 := addMatchRoutes _ _ _).
  destruct (addMatchRoutes_inv rp rms (NewOutboundTrafficPolicy (PolicyName svc true) hs)) as [Hu Hm];
    [constructor|]. fold out0 in Hu, Hm.
  destruct (hasWildCardRoute rms) eqn:Hw.
  - exists out0. split; [done|]. split; [done|].
    apply existsb_exists in Hw as (rm & Hrm & (m & Hin & Hp)%existsb_exists).
    apply bool_decide_eq_true in Hp. apply list_elem_of_In in Hrm, Hin.
    assert (m ∈ rwc_HTTPRouteMatch <$> Routes out0) as (r & -> & Hr)%list_elem_of_fmap; [|eauto].
    apply Hm. right. apply list_elem_of_bind. eauto.
  - destruct (AddRoute out0 _ _ _) as [out' [?|]] eqn:E.
    + exfalso. apply AddRoute_err in E as (-> & r & _ & Hr & Er & _).
      assert (WildCardRouteMatch ∈ rwc_HTTPRouteMatch <$> Routes out0) as Hin.
      { apply list_elem_of_fmap. eauto. }
      apply Hm in Hin as [[]%elem_of_nil|(rm & ? & ?)%list_elem_of_bind].
      apply not_true_iff_false in Hw. apply Hw. unfold hasWildCardRoute. apply existsb_exists.
      exists rm. rewrite <-list_elem_of_In. split; [done|]. apply existsb_exists.
      exists WildCardRouteMatch. rewrite <-list_elem_of_In. split; [done|]. by apply bool_decide_eq_true.
    + apply AddRoute_ok in E as ((r & ? & E & _) & _ & Hu'). exists out'. split; [done|]. split; [auto|].
      exists r. by rewrite E.
Qed.

(** ** Services *)

Lemma foldl_addUnique_bind {A B} `{Countable B} (g : A → list B) l :
  (foldl (λ st a, foldl addUnique st (g a)) (NewSet, []) l).2 = uniq (l ≫= g).
Proof.
  rewrite <-(proj1 (foldl_addUnique (l ≫= g))). f_equal. generalize (NewSet (A:=B), @nil B).
  induction l as [|a l IH]; intros st; [done|]. rewrite bind_cons, foldl_app. apply IH.
Qed.

(** Some source of the TrafficTarget is the account. *)
Definition sourceOf (d : K8sServiceAccount) (t : TrafficTarget) : Prop :=
  ∃ s, s ∈ tt_Sources t ∧ trafficTargetIdentityToSvcAccount s = d.

Lemma ListOutboundServicesForIdentity_smi d :
  dotless d → IsPermissiveTrafficPolicyMode (configurator mc) = false →
  ListOutboundServicesForIdentity mc (ToServiceIdentity d) = Ret (uniq
    (ms_ListTrafficTargets (meshSpec mc) [] ≫= λ t,
       if existsb (isSubject d) (tt_Sources t) then getServicesForServiceIdentity mc
         (ToServiceIdentity (trafficTargetIdentityToSvcAccount (tt_Destination t))) else [])).
Proof.
  intros Hd Hp. unfold ListOutboundServicesForIdentity. rewrite Hp, (ToK8sServiceAccount_New d Hd).
  cbn [mbind go_bind]. f_equal. rewrite <-foldl_addUnique_bind. f_equal.
  generalize (NewSet (A:=MeshService), @nil MeshService).
  induction (ms_ListTrafficTargets _ _) as [|t ts IH]; intros st; [done|]. cbn [foldl]. rewrite <-IH.
  f_equal. by destruct (existsb _ _).
Qed.

Lemma ListOutboundServicesForIdentity_total d :
  dotless d → ∃ svcs, ListOutboundServicesForIdentity mc (ToServiceIdentity d) = Ret svcs.
Proof.
  intros Hd. unfold ListOutboundServicesForIdentity. rewrite (ToK8sServiceAccount_New d Hd).
  destruct (IsPermissiveTrafficPolicyMode _); simpl; eauto.
Qed.

(** ** The loop over the services *)

Section loop.
Context {E : Type} (hashMatch : TrafficMatch → E + Z) (hashCluster : EgressClusterConfig → E + Z).
Context {HP : PolicyLaws (policyController mc)} (Hnames : namesConfigured mc).

Lemma enableEgress_total d getted egress svc :
  dotless d → ∃ r, enableEgressSrviceForIdentity mc hashMatch hashCluster (ToServiceIdentity d) getted egress svc = Ret r.
Proof.
  intros Hd. unfold enableEgressSrviceForIdentity. destruct (IsEgressEnabled _); [eauto|].
  assert (∃ p, (if getted then Ret egress else
      r ← GetEgressTrafficPolicy mc hashMatch hashCluster (ToServiceIdentity d);
      Ret (match r with inr p => p | inl _ => None end)) = Ret p) as [p ->].
  { destruct getted; [eauto|].
    destruct (GetEgressTrafficPolicy_total mc hashMatch hashCluster HP d Hd) as [r ->]. simpl. eauto. }
  cbn [mbind go_bind]. destruct p as [p|]; [|simpl; eauto]. unfold isEgressService.
  destruct Hnames as (san & -> & Hc).
  destruct (GetHostnamesForService_total (svcTrustDomain mc) svc san true Hc) as [hs ->]. simpl. eauto.
Qed.

(** Services with a target port take part. *)
Definition offered (svc : MeshService) : bool := negb (bool_decide (TargetPort svc = 0%Z)).

(** One route per match, and one for all paths. *)
Definition wellRouted (out : OutboundTrafficPolicy) : Prop :=
  uniqueMatches out ∧ ∃ r, r ∈ Routes out ∧ Path (rwc_HTTPRouteMatch r) = RegexMatchAll.

Definition outboundInv (svcs : list MeshService) (p : OutboundMeshTrafficPolicy) : Prop :=
  mcc_Service <$> omp_ClustersConfigs p = List.filter offered svcs ∧
  (∀ cc, cc ∈ omp_ClustersConfigs p → mcc_Name cc = SidecarClusterName (mcc_Service cc)) ∧
  (∀ port out, out ∈ default [] (omp_HTTPRouteConfigsPerPort p !! port) → wellRouted out) ∧
  (∀ svc, svc ∈ svcs → offered svc = true → isTCP (Protocol svc) = false → ∃ out,
     out ∈ default [] (omp_HTTPRouteConfigsPerPort p !! Port svc) ∧ otp_Name out = PolicyName svc true).

Lemma GetRetryPolicy_total d svc :
  dotless d → ∃ r, GetRetryPolicy mc (ToServiceIdentity d) svc = Ret r.
Proof.
  intros Hd. unfold GetRetryPolicy. destruct (negb _); [eauto|].
  rewrite (ToK8sServiceAccount_New d Hd). simpl. eauto.
Qed.

Lemma AddRoute_name out m rp wcs : otp_Name (AddRoute out m rp wcs).1 = otp_Name out.
Proof. unfold AddRoute. by destruct (scanRoutes _ _ _ _). Qed.

Lemma outboundHTTPPolicy_name svc hs rp rms wildcard out :
  outboundHTTPPolicy svc hs rp rms wildcard = Some out → otp_Name out = PolicyName svc true.
Proof.
  unfold outboundHTTPPolicy. set (out0 := addMatchRoutes _ _ _).
  assert (otp_Name out0 = PolicyName svc true) as H0.
  { unfold out0, addMatchRoutes. apply (foldl_inv (λ _ o, otp_Name o = PolicyName svc true)); [done|].
    intros _ rm _ o _ Ho. apply (foldl_inv (λ _ o, otp_Name o = PolicyName svc true)); [done|].
    intros _ m _ o' _ Ho'. by rewrite AddRoute_name. }
  destruct (hasWildCardRoute rms); [by intros [= <-]|].
  pose proof (AddRoute_name out0 WildCardRouteMatch rp
    (getWildCardRouteUpstreamClusters wildcard rms)) as Hn.
  destruct (AddRoute out0 _ _ _) as [o [?|]]; [done|]. intros [= <-]. simpl in Hn. congruence.
Qed.

Lemma outboundStep_ok d svcs svc acc :
  dotless d → outboundInv svcs (oa_policy acc) →
  ∃ acc', outboundStep mc hashMatch hashCluster (ToServiceIdentity d) d acc svc = Ret acc' ∧
    outboundInv (svcs ++ [svc]) (oa_policy acc').
Proof.
  intros Hd (H1 & H2 & H3 & H4). unfold outboundStep. unfold outboundInv. setoid_rewrite elem_of_app.
  setoid_rewrite list_elem_of_singleton. setoid_rewrite List.filter_app. simpl List.filter.
  unfold offered at 2. destruct (decide (TargetPort svc = 0%Z)) as [Ht|Ht].
  { rewrite bool_decide_eq_true_2 by done. eexists. split; [done|]. split; [by rewrite app_nil_r|].
    split; [done|]. split; [done|]. intros s [?| ->]; [by apply H4|]. unfold offered.
    by rewrite bool_decide_eq_true_2. }
  rewrite bool_decide_eq_false_2 by done. simpl negb. cbv iota.
  destruct (enableEgress_total d (oa_egressGetted acc) (oa_egress acc) svc Hd) as [[[ee g] eg] ->].
  cbn [mbind go_bind]. destruct (setting_by_service svc) as [uts ->]. cbn [mbind go_bind].
  destruct (outboundRouteMatches mc svc) as [rms wildcard].
  destruct (isTCP (Protocol svc)) eqn:Etcp.
  { eexists. split; [done|]. simpl. split; [by rewrite fmap_app, H1|]. split; [set_solver|]. split; [done|].
    intros s [?| ->]; [by apply H4|congruence]. }
  destruct (getHostnamesForService_total mc svc (bool_decide (sa_Namespace d = Namespace svc) ||
    negb (bool_decide (CloudInheritedFrom svc = ""))) (getDNSResolvableServiceEndpoints mc svc) Hnames) as [hs ->].
  cbn [mbind go_bind]. destruct (GetRetryPolicy_total d svc Hd) as [rp ->]. cbn [mbind go_bind].
  destruct (outboundHTTPPolicy_ok svc hs rp rms wildcard) as (out & Eout & Hout). rewrite Eout.
  eexists. split; [done|]. simpl. split; [by rewrite fmap_app, H1|]. split; [set_solver|].
  setoid_rewrite map_append_lookup. setoid_rewrite elem_of_app. split.
  - intros port o [?|Ho]; [by eapply H3|]. case_decide; [|by apply elem_of_nil in Ho].
    by apply list_elem_of_singleton in Ho as ->.
  - intros s [Hs| ->] Ho Hp; [destruct (H4 s Hs Ho Hp) as (o & ? & ?); eauto|].
    exists out. rewrite decide_True by done. split; [right; by left|]. by eapply outboundHTTPPolicy_name.
Qed.

Lemma outboundLoop_ok d svcs :
  dotless d → ∃ acc, gofold (outboundStep mc hashMatch hashCluster (ToServiceIdentity d) d)
    (mkOutboundAcc (mkOutboundMesh [] ∅ [] ∅) false None) svcs = Ret acc ∧ outboundInv svcs (oa_policy acc).
Proof.
  intros Hd. induction svcs as [|svc svcs IH] using rev_ind.
  { eexists. split; [done|]. split; [done|]. split; [set_solver|]. split; [|set_solver].
    intros port out. simpl. rewrite lookup_empty. simpl. set_solver. }
  destruct IH as (acc & Ha & Hi). rewrite gofold_app, Ha. cbn [mbind go_bind gofold].
  destruct (outboundStep_ok d svcs svc acc Hd Hi) as (acc' & -> & ?). simpl. eauto.
Qed.

End loop.

(** ** Properties *)

(** C20. The outbound policy of a client is always computed, without panic, and
    is complete: its clusters are the sidecar clusters of the client's
    outbound services that have a target port, in order; every service that
    is not TCP has an HTTP policy on its port; and every HTTP policy has at
    most one route per match and a route for all paths. *)
Theorem outbound_policy_complete {E} (hashMatch : TrafficMatch → E + Z) (hashCluster : EgressClusterConfig → E + Z)
    {HP : PolicyLaws (policyController mc)} d :
  dotless d → namesConfigured mc →
  ∃ svcs p, ListOutboundServicesForIdentity mc (ToServiceIdentity d) = Ret svcs ∧
    GetOutboundMeshTrafficPolicy mc hashMatch hashCluster (ToServiceIdentity d) = Ret p ∧
    (mcc_Service <$> omp_ClustersConfigs p) = List.filter offered svcs ∧
    (∀ cc, cc ∈ omp_ClustersConfigs p → mcc_Name cc = SidecarClusterName (mcc_Service cc)) ∧
    (∀ port out, out ∈ default [] (omp_HTTPRouteConfigsPerPort p !! port) → wellRouted out) ∧
    (∀ svc, svc ∈ svcs → offered svc = true → isTCP (Protocol svc) = false → ∃ out,
       out ∈ default [] (omp_HTTPRouteConfigsPerPort p !! Port svc) ∧ otp_Name out = PolicyName svc true).
Proof.
  intros Hd Hn. destruct (ListOutboundServicesForIdentity_total d Hd) as [svcs Hs].
  destruct (outboundLoop_ok hashMatch hashCluster Hn d svcs Hd) as (acc & Ha & Hi).
  exists svcs, (oa_policy acc). split; [done|]. split; [|exact Hi].
  unfold GetOutboundMeshTrafficPolicy. rewrite (ToK8sServiceAccount_New d Hd). cbn [mbind go_bind].
  rewrite Hs. cbn [mbind go_bind]. by rewrite Ha.
Qed.

(** In SMI mode the outbound services of an account are, without
    repetitions, the services of the destinations of the TrafficTargets that
    have the account among their sources. *)
Theorem outbound_services_exact d :
  dotless d → IsPermissiveTrafficPolicyMode (configurator mc) = false →
  ∃ svcs, ListOutboundServicesForIdentity mc (ToServiceIdentity d) = Ret svcs ∧ NoDup svcs ∧
    ∀ svc, svc ∈ svcs ↔ ∃ t, t ∈ ms_ListTrafficTargets (meshSpec mc) [] ∧ sourceOf d t ∧
      svc ∈ getServicesForServiceIdentity mc
              (ToServiceIdentity (trafficTargetIdentityToSvcAccount (tt_Destination t))).
Proof.
  intros Hd Hp. eexists. split; [by apply ListOutboundServicesForIdentity_smi|]. split; [apply NoDup_uniq|].
  intros svc. rewrite elem_of_uniq, list_elem_of_bind.
  assert (∀ t, existsb (isSubject d) (tt_Sources t) = true ↔ sourceOf d t) as Hex.
  { intros t. rewrite existsb_exists. unfold sourceOf. setoid_rewrite list_elem_of_In.
    by setoid_rewrite isSubject_spec. }
  split.
  - intros (t & Hin & Ht). exists t. rewrite <-Hex. destruct (existsb _ _); [done|by apply elem_of_nil in Hin].
  - intros (t & Ht & Hs & Hin). exists t. apply Hex in Hs. by rewrite Hs.
Qed.

(** Spreading a split backend over its active clusters conserves its
    weight: each cluster gets a share, the shares add up to the backend's
    weight, and they differ by at most one. *)
Theorem active_weights_conserved aas backend before :
  aas ≠ [] → (0 ≤ tsb_Weight backend)%Z →
  ∃ new, activeUpstreamClusters aas backend before = before ++ new ∧
    (wc_ClusterName <$> new) = aas ∧ sumZ (wc_Weight <$> new) = tsb_Weight backend ∧
    ∀ x y, x ∈ new → y ∈ new → (wc_Weight x ≤ wc_Weight y + 1)%Z.
Proof.
  intros Hne Hw. eexists. split; [done|]. split; [apply divideWeight_names|].
  split; [by apply divideWeight_sum|]. set (n := Z.of_nat (length aas)).
  assert (0 < n)%Z by (unfold n; destruct aas; simpl; [done|lia]).
  assert (Forall (λ wc, tsb_Weight backend / n ≤ wc_Weight wc ≤ tsb_Weight backend / n + 1)%Z
    (divideWeight (tsb_Weight backend) aas)) as Hf.
  { apply divideWeight_even; [by apply Z.div_pos|]. fold n.
    pose proof (Z.mul_div_le (tsb_Weight backend) n ltac:(lia)).
    pose proof (Z.mul_succ_div_gt (tsb_Weight backend) n ltac:(lia)). lia. }
  rewrite Forall_forall in Hf. intros x y Hx%Hf Hy%Hf. lia.
Qed.

(** A TrafficSplit takes the routes of every HTTPRouteGroup whose name
    it refers to, whatever the namespace of the group. *)
Theorem split_routes_of_any_namespace split m :
  m ∈ getSplitRouteMatches mc split ↔
  ∃ g ms x ref, g ∈ ms_ListHTTPTrafficSpecs (meshSpec mc) ∧ hrg_Matches g = Some ms ∧ x ∈ ms ∧
    ref ∈ ts_Matches split ∧ ref_Name ref = hrg_Name g ∧ m = routeOfMatch x.
Proof.
  unfold getSplitRouteMatches.
  rewrite (foldl_collect _ (λ g, if existsb (λ m, bool_decide (ref_Name m = hrg_Name g)) (ts_Matches split)
    then map routeOfMatch (slice_elems (hrg_Matches g)) else [])).
  2:{ intros acc g. destruct (hrg_Matches g); destruct (existsb _ _); simpl; by rewrite ?app_nil_r. }
  simpl. rewrite list_elem_of_bind. split.
  - intros (g & Hm & Hg). destruct (existsb _ _) eqn:E; [|by apply elem_of_nil in Hm].
    apply existsb_exists in E as (ref & ?%list_elem_of_In & ?%bool_decide_eq_true).
    apply list_elem_of_fmap in Hm as (x & -> & Hx). destruct (hrg_Matches g) as [ms|] eqn:Em; [|by apply elem_of_nil in Hx].
    by exists g, ms, x, ref.
  - intros (g & ms & x & ref & Hg & Hm & Hx & Hr & En & ->). exists g. split; [|done].
    assert (existsb (λ m, bool_decide (ref_Name m = hrg_Name g)) (ts_Matches split) = true) as ->.
    { apply existsb_exists. exists ref. rewrite <-list_elem_of_In. split; [done|]. by apply bool_decide_eq_true. }
    rewrite Hm. apply list_elem_of_fmap. eauto.
Qed.

End facts.

(** ** Witnesses *)

#[local] Existing Instance gset_MapSet.
#[local] Existing Instance gset_MapSetSpec.
#[local] Existing Instance trie_range.

Lemma outbound_policy_complete_witness :
  let mc := demoCatalog false in
  ∃ svcs p, ListOutboundServicesForIdentity mc "web.shop" = Ret svcs ∧
    GetOutboundMeshTrafficPolicy (E:=unit) mc (λ m, inr (tm_DestinationPort m)) (λ c, inr (ecc_Port c))
      "web.shop" = Ret p ∧
    (mcc_Service <$> omp_ClustersConfigs p) = List.filter offered svcs ∧
    (∀ cc, cc ∈ omp_ClustersConfigs p → mcc_Name cc = SidecarClusterName (mcc_Service cc)) ∧
    (∀ port out, out ∈ default [] (omp_HTTPRouteConfigsPerPort p !! port) → wellRouted out) ∧
    (∀ svc, svc ∈ svcs → offered svc = true → isTCP (Protocol svc) = false → ∃ out,
       out ∈ default [] (omp_HTTPRouteConfigsPerPort p !! Port svc) ∧ otp_Name out = PolicyName svc true).
Proof.
  intros mc. apply (outbound_policy_complete mc (E:=unit) (λ m, inr (tm_DestinationPort m))
    (λ c, inr (ecc_Port c)) (mkSA "shop" "web")); [by apply demo_dotless|apply demo_names].
Defined.

Lemma outbound_services_exact_witness :
  let mc := demoCatalog false in
  ∃ svcs, ListOutboundServicesForIdentity mc "web.shop" = Ret svcs ∧ NoDup svcs ∧
    ∀ svc, svc ∈ svcs ↔ ∃ t, t ∈ ms_ListTrafficTargets (meshSpec mc) [] ∧ sourceOf (mkSA "shop" "web") t ∧
      svc ∈ getServicesForServiceIdentity mc
              (ToServiceIdentity (trafficTargetIdentityToSvcAccount (tt_Destination t))).
Proof.
  intros mc. apply (outbound_services_exact mc (mkSA "shop" "web")); [by apply demo_dotless|done].
Defined.

Lemma active_weights_conserved_witness :
  ∃ new, activeUpstreamClusters ["a"; "b"; "c"] (mkSplitBackend "cart" 100) [] = [] ++ new ∧
    (wc_ClusterName <$> new) = ["a"; "b"; "c"] ∧ sumZ (wc_Weight <$> new) = 100%Z ∧
    ∀ x y, x ∈ new → y ∈ new → (wc_Weight x ≤ wc_Weight y + 1)%Z.
Proof. apply (active_weights_conserved ["a"; "b"; "c"] (mkSplitBackend "cart" 100) []); [done|simpl; lia]. Defined.

(** The demo mesh with a split of another namespace than its route group. *)
Example split_takes_foreign_group :
  hrg_Namespace demoGroup ≠ "other" ∧
  getSplitRouteMatches (demoCatalog false)
    (mkTrafficSplit "other" "s" "cart" [] [mkRef None "HTTPRouteGroup" (hrg_Name demoGroup)]) ≠ [].
Proof. split; [done|]. vm_compute. done. Qed.

End CatalogOutboundFacts.
