(* ===== verification/Dispatcher.v ===== *)
(** * The update dispatchers: pkg/messaging/broker.go

    A dispatcher is a goroutine that coalesces the events of a channel: it
    holds an event for a sliding window, extended by every further event up
    to a maximum window, and then publishes the last event it received.  The
    six dispatchers of the broker differ in their windows, channels and
    counters only; exported metrics and log lines are left out.

    The runtime's timers are modelled with both channel disciplines of Go: one
    element of buffer before Go 1.23 ([async = true]), none since, when Stop
    and Reset discard a value not received.  Time is in nanoseconds since the
    dispatcher started. *)

From S2P Require Import Prelude.
#[local] Open Scope Z_scope.

Module Dispatcher.

(** ** time.Timer *)

(** When the timer is armed, its deadline; whether it expired and its value
    was not received. *)
Record Timer := mkTimer { t_deadline : option Z; t_sent : bool }.

Section timers.
Context (async : bool).

(** The runtime makes a due timer expire. *)
Definition expire (now : Z) (t : Timer) : option Timer :=
  match t_deadline t with
  | Some d => if decide (d ≤ now) then Some (mkTimer None true) else None
  | None => None
  end.

(** [<-t.C]; [None] when there is no value to receive. *)
Definition receive (t : Timer) : option Timer :=
  if t_sent t then Some (mkTimer (t_deadline t) false) else None.

(** [t.Stop()]: whether the call stopped the timer. *)
Definition Stop (t : Timer) : bool * Timer :=
  let armed := bool_decide (is_Some (t_deadline t)) in
  if async then (armed, mkTimer None (t_sent t))
  else (armed || t_sent t, mkTimer None false).

(** [t.Reset(d)] *)
Definition ResetTimer (now d : Z) (t : Timer) : Timer :=
  mkTimer (Some (now + d)) (async && t_sent t).

(** [if !t.Stop() { <-t.C }]; [None] when the goroutine blocks: a stopped
    timer never sends. *)
Definition stopAndDrain (t : Timer) : option Timer :=
  let '(stopped, t) := Stop t in
  if stopped then Some t else receive t.

End timers.

(** ** The dispatcher *)

(** [87600 * time.Hour] *)
Definition noTimeout : Z := 87600 * 3600 * 10 ^ 9.

Record windows := mkWindows { slidingWindow : Z; maxWindow : Z }.

Definition second : Z := 10 ^ 9.
Definition proxyUpdate : windows := mkWindows (2 * second) (10 * second).
Definition ingressUpdate : windows := mkWindows (2 * second) (10 * second).
Definition gatewayUpdate : windows := mkWindows (2 * second) (10 * second).
Definition serviceUpdate : windows := mkWindows (2 * second) (5 * second).
Definition connectorUpdate : windows := mkWindows (2 * second) (5 * second).
Definition xnetworkUpdate : windows := mkWindows (2 * second) (5 * second).

Section dispatcher.
Context {E : Type} (zero : E) (async : bool) (w : windows).

(** The local variables of the goroutine. *)
Record dispatcher := mkDispatcher {
  slidingTimer : Timer;
  maxTimer : Timer;
  dispatchPending : bool;
  batchCount : Z;
  event : E
}.

Definition newDispatcher (now : Z) : dispatcher := {|
  slidingTimer := mkTimer (Some (now + noTimeout)) false;
  maxTimer := mkTimer (Some (now + noTimeout)) false;
  dispatchPending := false; batchCount := 0; event := zero |}.

(** [case e, ok := <-b.updateCh] with a value; [None] when it blocks. *)
Definition onEvent (now : Z) (d : dispatcher) (e : E) : option dispatcher :=
  if negb (dispatchPending d) then
    sliding ← stopAndDrain async (slidingTimer d);
    let sliding := ResetTimer async now (slidingWindow w) sliding in
    max ← stopAndDrain async (maxTimer d);
    let max := ResetTimer async now (maxWindow w) max in
    Some (mkDispatcher sliding max true (batchCount d + 1) e)
  else
    sliding ← stopAndDrain async (slidingTimer d);
    let sliding := ResetTimer async now (slidingWindow w) sliding in
    Some (mkDispatcher sliding (maxTimer d) (dispatchPending d) (batchCount d + 1) e).

(** [case <-slidingTimer.C], once its value is received: the event to publish. *)
Definition onSliding (now : Z) (d : dispatcher) : option (dispatcher * E) :=
  sliding ← receive (slidingTimer d);
  let sliding := ResetTimer async now noTimeout sliding in
  max ← stopAndDrain async (maxTimer d);
  let max := ResetTimer async now noTimeout max in
  Some (mkDispatcher sliding max false 0 (event d), event d).

(** [case <-maxTimer.C] *)
Definition onMax (now : Z) (d : dispatcher) : option (dispatcher * E) :=
  max ← receive (maxTimer d);
  let max := ResetTimer async now noTimeout max in
  sliding ← stopAndDrain async (slidingTimer d);
  let sliding := ResetTimer async now noTimeout sliding in
  Some (mkDispatcher sliding max false 0 (event d), event d).

(** ** Its executions *)

Inductive action := Received (t : Z) (e : E) | Published (t : Z) (e : E).

(** [None] is a dispatcher that returned, on a stop signal or a closed
    channel.  The log is kept for the statements. *)
Record system := mkSystem { now : Z; disp : option dispatcher; log : list action }.

Definition initial : system := mkSystem 0 (Some (newDispatcher 0)) [].

Inductive step : system → system → Prop :=
  | step_event n d l e d' :
      onEvent n d e = Some d' →
      step (mkSystem n (Some d) l) (mkSystem n (Some d') (l ++ [Received n e]))
  | step_sliding n d l d' e :
      onSliding n d = Some (d', e) →
      step (mkSystem n (Some d) l) (mkSystem n (Some d') (l ++ [Published n e]))
  | step_max n d l d' e :
      onMax n d = Some (d', e) →
      step (mkSystem n (Some d) l) (mkSystem n (Some d') (l ++ [Published n e]))
  | step_stop n d l :
      step (mkSystem n (Some d) l) (mkSystem n None l)
  | step_expire_sliding n d l t :
      expire n (slidingTimer d) = Some t →
      step (mkSystem n (Some d) l)
           (mkSystem n (Some (mkDispatcher t (maxTimer d) (dispatchPending d) (batchCount d) (event d))) l)
  | step_expire_max n d l t :
      expire n (maxTimer d) = Some t →
      step (mkSystem n (Some d) l)
           (mkSystem n (Some (mkDispatcher (slidingTimer d) t (dispatchPending d) (batchCount d) (event d))) l)
  | step_time n n' d l :
      n ≤ n' → step (mkSystem n d l) (mkSystem n' d l).

Definition reachable (s : system) : Prop := rtc step initial s.

(** Time may pass until [n'] when no timer is due before and the dispatcher
    waits. *)
Definition quiet (n' : Z) (t : Timer) : Prop :=
  t_sent t = false ∧ ∀ x, t_deadline t = Some x → n' ≤ x.

(** A step of a system whose timers expire on time and whose dispatcher is
    scheduled as soon as it can run. *)
Definition timely (s s' : system) : Prop :=
  step s s' ∧ (now s < now s' → ∀ d, disp s = Some d → quiet (now s') (slidingTimer d) ∧ quiet (now s') (maxTimer d)).

End dispatcher.

Arguments dispatcher : clear implicits.
Arguments system : clear implicits.
Arguments action : clear implicits.

(** The six dispatchers of the broker. *)
Definition runProxyUpdateDispatcher {E} (async : bool) : relation (system E) := step async proxyUpdate.
Definition runIngressUpdateDispatcher {E} (async : bool) : relation (system E) := step async ingressUpdate.
Definition runGatewayUpdateDispatcher {E} (async : bool) : relation (system E) := step async gatewayUpdate.
Definition runServiceUpdateDispatcher {E} (async : bool) : relation (system E) := step async serviceUpdate.
Definition runConnectorUpdateDispatcher {E} (async : bool) : relation (system E) := step async connectorUpdate.
Definition runXNetworkUpdateDispatcher {E} (async : bool) : relation (system E) := step async xnetworkUpdate.

(** ** What a dispatcher promises

    Batching: the events received since the last publication are pending;
    a publication carries the last of them, and only happens when the
    sliding window after the last or the maximum window after the first has
    passed; [onTime], it happens as soon as one of them has. *)

Definition mayPublish (onTime : bool) (w : windows) (first lst t : Z) : bool :=
  bool_decide (lst + slidingWindow w ≤ t ∨ first + maxWindow w ≤ t) &&
  (negb onTime || bool_decide (t ≤ lst + slidingWindow w ∧ t ≤ first + maxWindow w)).

Definition specStep {E} `{EqDecision E} (onTime : bool) (w : windows) (pending : list (Z * E)) (a : action E)
    : option (list (Z * E)) :=
  match a with
  | Received t e => Some (pending ++ [(t, e)])
  | Published t e =>
      match head pending, list.last pending with
      | Some (first, _), Some (lst, e') =>
          if bool_decide (e = e') && mayPublish onTime w first lst t then Some [] else None
      | _, _ => None
      end
  end.

Fixpoint specRun {E} `{EqDecision E} (onTime : bool) (w : windows) (pending : list (Z * E))
    (log : list (action E)) : option (list (Z * E)) :=
  match log with
  | [] => Some pending
  | a :: log => pending' ← specStep onTime w pending a; specRun onTime w pending' log
  end.

(** The moment a dispatcher that is on time publishes. *)
Definition due {E} (w : windows) (pending : list (Z * E)) : option Z :=
  match head pending, list.last pending with
  | Some (first, _), Some (lst, _) => Some (Z.min (lst + slidingWindow w) (first + maxWindow w))
  | _, _ => None
  end.

End Dispatcher.
