(* ===== verification/DispatcherFacts.v ===== *)
(** * Properties of the dispatchers

    A dispatcher never blocks on a timer, implements batching, and when it
    is scheduled on time publishes every event within the maximum window. *)

From S2P Require Import Prelude Dispatcher.
Import Dispatcher.Dispatcher.
#[local] Open Scope Z_scope.

Module DispatcherFacts.

(** ** Timers *)

(** The timer is armed for [x], or expired at [x] with its value waiting. *)
Definition timerAt (n : Z) (t : Timer) (x : Z) : Prop :=
  t = mkTimer (Some x) false ∨ (t = mkTimer None true ∧ x ≤ n).

Lemma stopAndDrain_ok async n t x : timerAt n t x → stopAndDrain async t = Some (mkTimer None false).
Proof. by intros [->|[-> _]]; destruct async. Qed.

Lemma receive_ok n t x t' : timerAt n t x → receive t = Some t' → t' = mkTimer None false ∧ x ≤ n.
Proof. by intros [->|[-> ?]]; [|intros [= <-]]. Qed.

Lemma expire_ok n t x t' : timerAt n t x → expire n t = Some t' → timerAt n t' x.
Proof.
  unfold expire. intros [->|[-> ?]]; simpl; [|done]. case_decide; [|done]. intros [= <-]. by right.
Qed.

Lemma timerAt_later n n' t x : n ≤ n' → timerAt n t x → timerAt n' t x.
Proof. intros ? [?|[? ?]]; [by left|right; split; [done|lia]]. Qed.

Lemma timerAt_new async n d : timerAt n (ResetTimer async n d (mkTimer None false)) (n + d).
Proof. left. by destruct async. Qed.

Lemma receive_sent n t x : timerAt n t x → t_sent t = true → receive t = Some (mkTimer None false).
Proof. by intros [->|[-> _]]. Qed.

Lemma specRun_app {E} `{EqDecision E} onTime w p (l1 l2 : list (action E)) :
  specRun onTime w p (l1 ++ l2) = specRun onTime w p l1 ≫= λ p', specRun onTime w p' l2.
Proof.
  revert p. induction l1 as [|a l1 IH]; intros p; simpl; [done|].
  destruct (specStep onTime w p a); simpl; [apply IH|done].
Qed.

Lemma specRun_snoc {E} `{EqDecision E} onTime w p (l : list (action E)) a p1 p2 :
  specRun onTime w p l = Some p1 → specStep onTime w p1 a = Some p2 → specRun onTime w p (l ++ [a]) = Some p2.
Proof. intros H1 H2. rewrite specRun_app, H1. simpl. by rewrite H2. Qed.

Section facts.
Context {E : Type} `{EqDecision E} (zero : E) (async onTime : bool) (w : windows).

(** ** The invariant

    The pending events of the specification determine the timers: with none
    both wait for [noTimeout], otherwise the first and the last event give
    the deadlines. *)

Definition deadlines (p : list (Z * E)) (d : dispatcher E) (xs xm : Z) : Prop :=
  match head p, list.last p with
  | Some (first, _), Some (lst, e) =>
      dispatchPending d = true ∧ event d = e ∧ batchCount d = Z.of_nat (length p) ∧
      xs = lst + slidingWindow w ∧ xm = first + maxWindow w
  | _, _ => dispatchPending d = false ∧ batchCount d = 0 ∧ noTimeout ≤ xs ∧ noTimeout ≤ xm
  end.

Definition timersOk (n : Z) (d : dispatcher E) (xs xm : Z) : Prop :=
  timerAt n (slidingTimer d) xs ∧ timerAt n (maxTimer d) xm.

(** Before [noTimeout] the log is one the specification accepts; [onTime], no
    deadline is past. *)
Definition inv (s : system E) : Prop :=
  0 ≤ now s ∧
  ∀ d, disp s = Some d → ∃ xs xm, timersOk (now s) d xs xm ∧
    (onTime = true → now s ≤ xs ∧ now s ≤ xm) ∧
    (now s < noTimeout → ∃ p, specRun onTime w [] (log s) = Some p ∧ deadlines p d xs xm).

Lemma deadlines_idle d xs xm :
  dispatchPending d = false → batchCount d = 0 → noTimeout ≤ xs → noTimeout ≤ xm → deadlines [] d xs xm.
Proof. done. Qed.

Lemma deadlines_cons p d xs xm :
  p ≠ [] → deadlines p d xs xm → ∃ first fe lst,
    head p = Some (first, fe) ∧ list.last p = Some (lst, event d) ∧ dispatchPending d = true ∧
    batchCount d = Z.of_nat (length p) ∧ xs = lst + slidingWindow w ∧ xm = first + maxWindow w.
Proof.
  intros Hne. unfold deadlines. destruct p as [|[first fe] p]; [done|].
  destruct (list.last ((first, fe) :: p)) as [[lst e]|] eqn:El.
  - simpl. intros (? & <- & ? & ? & ?). by exists first, fe, lst.
  - apply last_None in El. done.
Qed.

Lemma onEvent_ok n d e xs xm :
  0 ≤ slidingWindow w → 0 ≤ maxWindow w →
  timersOk n d xs xm → ∃ d' xs' xm', onEvent async w n d e = Some d' ∧ timersOk n d' xs' xm' ∧
    (n ≤ xm → n ≤ xs' ∧ n ≤ xm') ∧ ∀ p, deadlines p d xs xm → deadlines (p ++ [(n, e)]) d' xs' xm'.
Proof.
  intros HW HM [Hs Hm]. unfold onEvent. rewrite (stopAndDrain_ok _ _ _ _ Hs). simpl.
  destruct (dispatchPending d) eqn:Hp; simpl.
  - eexists _, _, xm. split; [done|]. split; [split; [apply timerAt_new|done]|]. split; [lia|].
    intros p Hd. destruct (decide (p = [])) as [->|Hne]; [destruct Hd; congruence|].
    destruct (deadlines_cons _ _ _ _ Hne Hd) as (first & fe & lst & Hh & Hl & _ & Hb & -> & ->).
    unfold deadlines. rewrite last_snoc. destruct p as [|? p]; [done|]. injection Hh as ->. simpl.
    rewrite length_app. simpl in *. split; [done|]. split; [done|]. split; [lia|done].
  - rewrite (stopAndDrain_ok _ _ _ _ Hm). simpl. eexists _, _, _. split; [done|].
    split; [split; apply timerAt_new|]. split; [lia|]. intros p Hd. destruct (decide (p = [])) as [->|Hne].
    + destruct Hd as (_ & Hb & _). simpl. split; [done|]. split; [done|]. split; [simpl; lia|done].
    + destruct (deadlines_cons _ _ _ _ Hne Hd) as (? & ? & ? & _ & _ & ? & _). congruence.
Qed.

(** Both timer cases: a publication of the last event, and idle timers. *)
Lemma publish_ok n d d' e xs xm :
  timersOk n d xs xm → onSliding async n d = Some (d', e) ∨ onMax async n d = Some (d', e) →
  timersOk n d' (n + noTimeout) (n + noTimeout) ∧ e = event d ∧ (xs ≤ n ∨ xm ≤ n) ∧
  dispatchPending d' = false ∧ batchCount d' = 0.
Proof.
  intros [Hs Hm]. unfold onSliding, onMax.
  intros [(t & Ht & (t' & Ht' & [= <- <-])%bind_Some)%bind_Some|(t & Ht & (t' & Ht' & [= <- <-])%bind_Some)%bind_Some].
  - apply (receive_ok n _ xs) in Ht as [-> ?]; [|done]. rewrite (stopAndDrain_ok _ _ _ _ Hm) in Ht'.
    injection Ht' as <-. split; [split; apply timerAt_new|]. auto.
  - apply (receive_ok n _ xm) in Ht as [-> ?]; [|done]. rewrite (stopAndDrain_ok _ _ _ _ Hs) in Ht'.
    injection Ht' as <-. split; [split; apply timerAt_new|]. auto.
Qed.

Lemma publish_spec n p d e xs xm :
  n < noTimeout → deadlines p d xs xm → e = event d → xs ≤ n ∨ xm ≤ n →
  (onTime = true → n ≤ xs ∧ n ≤ xm) → specStep onTime w p (Published n e) = Some [].
Proof.
  intros Hn Hd -> Hx Ht. destruct (decide (p = [])) as [->|Hne]; [destruct Hd as (_ & _ & ? & ?); lia|].
  destruct (deadlines_cons _ _ _ _ Hne Hd) as (first & fe & lst & Hh & Hl & _ & _ & -> & ->).
  simpl. rewrite Hh, Hl, bool_decide_eq_true_2 by done. unfold mayPublish.
  rewrite bool_decide_eq_true_2 by done. destruct onTime; simpl; [|done].
  by rewrite bool_decide_eq_true_2 by (by apply Ht).
Qed.

Lemma publish_inv n d d' e l :
  inv (mkSystem n (Some d) l) → onSliding async n d = Some (d', e) ∨ onMax async n d = Some (d', e) →
  inv (mkSystem n (Some d') (l ++ [Published n e])).
Proof.
  intros [Hn Hinv] He. split; [done|]. simpl in *. intros ? [= <-].
  destruct (Hinv d eq_refl) as (xs & xm & Ht & Ho & Hp).
  destruct (publish_ok n d d' e xs xm Ht He) as (Ht' & Ee & Hx & ? & ?).
  assert (0 < noTimeout) by done. eexists _, _. split; [done|]. split; [lia|].
  intros Hlt. destruct (Hp Hlt) as (p & Hr & ?). exists []. split.
  - eapply specRun_snoc; [done|]. by eapply publish_spec.
  - apply deadlines_idle; [done|done|lia|lia].
Qed.

Context (HW : 0 ≤ slidingWindow w) (HM : 0 ≤ maxWindow w).

Lemma step_inv s s' :
  step async w s s' → (onTime = true → timely async w s s') → inv s → inv s'.
Proof.
  intros Hstep Htimely Hinv0. pose proof Hinv0 as [Hn Hinv].
  destruct Hstep as [n d l e d1 He|n d l d1 e He|n d l d1 e He|n d l|n d l t Ht|n d l t Ht|n n' d l Hle].
  - split; [done|]. simpl in *. intros ? [= <-]. destruct (Hinv d eq_refl) as (xs & xm & Ht & Ho & Hp).
    destruct (onEvent_ok n d e xs xm HW HM Ht) as (d2 & xs' & xm' & E2 & ? & Ho' & Hd). simplify_eq.
    exists xs', xm'. split; [done|]. split; [intros ?; apply Ho'; by apply Ho|].
    intros Hlt. destruct (Hp Hlt) as (p & Hr & ?).
    exists (p ++ [(n, e)]). split; [by eapply specRun_snoc|auto].
  - eapply publish_inv; [done|by left].
  - eapply publish_inv; [done|by right].
  - by split.
  - split; [done|]. simpl in *. intros ? [= <-]. destruct (Hinv d eq_refl) as (xs & xm & [Hs Hm] & Ho & Hp).
    exists xs, xm. split; [split; [by eapply expire_ok|done]|done].
  - split; [done|]. simpl in *. intros ? [= <-]. destruct (Hinv d eq_refl) as (xs & xm & [Hs Hm] & Ho & Hp).
    exists xs, xm. split; [split; [done|by eapply expire_ok]|done].
  - split; [simpl in *; lia|]. simpl in *. intros d' ->. destruct (Hinv d' eq_refl) as (xs & xm & [Hs Hm] & Ho & Hp).
    exists xs, xm. split; [split; by eapply timerAt_later|]. split; [|intros Hlt; apply Hp; lia].
    intros ?. destruct (decide (n = n')) as [<-|]; [auto|].
    destruct (Htimely ltac:(done)) as [_ Hq]. destruct (Hq ltac:(simpl; lia) d' eq_refl) as [[? Hq1] [? Hq2]].
    destruct Hs as [Es|[Es _]]; [|by rewrite Es in *]. destruct Hm as [Em|[Em _]]; [|by rewrite Em in *].
    split; [apply Hq1; by rewrite Es|apply Hq2; by rewrite Em].
Qed.

Lemma initial_inv : inv (initial zero).
Proof.
  split; [done|]. intros d [= <-]. exists noTimeout, noTimeout. split; [split; by left|].
  split; [done|]. intros _. by exists [].
Qed.

End facts.

Section runs.
Context {E : Type} `{EqDecision E} (zero : E) (async : bool) (w : windows).
Context (HW : 0 ≤ slidingWindow w) (HM : 0 ≤ maxWindow w).

Lemma reachable_inv s : reachable zero async w s → inv false w s.
Proof.
  intros Hr. eapply rtc_preserved; [|apply (initial_inv zero)|exact Hr].
  intros x y Hs. by eapply step_inv.
Qed.

Lemma timely_inv s : rtc (timely async w) (initial zero) s → inv true w s.
Proof.
  intros Hr. eapply rtc_preserved; [|apply (initial_inv zero)|exact Hr].
  intros x y Hs. by eapply step_inv; [..|apply Hs|].
Qed.

(** ** Towards a publication *)

Lemma due_cons (p : list (Z * E)) d xs xm t :
  deadlines w p d xs xm → due w p = Some t → t = Z.min xs xm.
Proof.
  unfold deadlines, due. destruct (head p) as [[? ?]|]; [|done]. destruct (list.last p) as [[? ?]|]; [|done].
  intros (_ & _ & _ & -> & ->) [= <-]. done.
Qed.

(** A dispatcher one of whose timers expired publishes next. *)
Lemma publish_now n (d : dispatcher E) l xs xm :
  timersOk n d xs xm → t_sent (slidingTimer d) = true ∨ t_sent (maxTimer d) = true →
  ∃ d', timely async w (mkSystem n (Some d) l) (mkSystem n (Some d') (l ++ [Published n (event d)])).
Proof.
  intros [Hs Hm] [Hsent|Hsent].
  - pose proof (receive_sent _ _ _ Hs Hsent) as Hr. eexists. split; [|simpl; lia]. apply step_sliding.
    unfold onSliding. rewrite Hr. simpl. by rewrite (stopAndDrain_ok _ _ _ _ Hm).
  - pose proof (receive_sent _ _ _ Hm Hsent) as Hr. eexists. split; [|simpl; lia]. apply step_max.
    unfold onMax. rewrite Hr. simpl. by rewrite (stopAndDrain_ok _ _ _ _ Hs).
Qed.

(** Armed timers run until the first of them expires. *)
Lemma wait_for_timer n (d : dispatcher E) l xs xm :
  slidingTimer d = mkTimer (Some xs) false → maxTimer d = mkTimer (Some xm) false → n ≤ Z.min xs xm →
  ∃ d', rtc (timely async w) (mkSystem n (Some d) l) (mkSystem (Z.min xs xm) (Some d') l) ∧
    timersOk (Z.min xs xm) d' xs xm ∧ event d' = event d ∧
    (t_sent (slidingTimer d') = true ∨ t_sent (maxTimer d') = true).
Proof.
  intros Es Em Hn. set (t := Z.min xs xm).
  assert (timely async w (mkSystem n (Some d) l) (mkSystem t (Some d) l)) as Htick.
  { split; [by apply step_time|]. intros _ ? [= <-]. rewrite Es, Em.
    split; (split; [done|]); intros ? [= <-]; simpl; lia. }
  destruct (decide (xs ≤ xm)) as [Hle|Hle].
  - exists (mkDispatcher (mkTimer None true) (maxTimer d) (dispatchPending d) (batchCount d) (event d)).
    split; [|split; [split; [right; split; [done|lia]|by left]|auto]].
    eapply rtc_l; [exact Htick|]. apply rtc_once. split; [|simpl; lia]. apply step_expire_sliding.
    rewrite Es. unfold expire. simpl. by rewrite decide_True by lia.
  - exists (mkDispatcher (slidingTimer d) (mkTimer None true) (dispatchPending d) (batchCount d) (event d)).
    split; [|split; [split; [by left|right; split; [done|lia]]|auto]].
    eapply rtc_l; [exact Htick|]. apply rtc_once. split; [|simpl; lia]. apply step_expire_max.
    rewrite Em. unfold expire. simpl. by rewrite decide_True by lia.
Qed.

(** ** Properties *)

(** C15. A dispatcher never blocks on a timer: in every reachable state, with
    either discipline of timer channels, it can take any event, and a timer
    that expired leads to a publication. *)
Theorem dispatcher_never_blocks s d :
  reachable zero async w s → disp s = Some d →
  (∀ e, is_Some (onEvent async w (now s) d e)) ∧
  (t_sent (slidingTimer d) = true → is_Some (onSliding async (now s) d)) ∧
  (t_sent (maxTimer d) = true → is_Some (onMax async (now s) d)).
Proof.
  intros [_ Hinv]%reachable_inv Hd. destruct (Hinv d Hd) as (xs & xm & Ht & _). split.
  - intros e. destruct (onEvent_ok async w (now s) d e xs xm HW HM Ht) as (d' & ? & ? & -> & _). by eexists.
  - destruct Ht as [Hs Hm]. unfold onSliding, onMax.
    rewrite (stopAndDrain_ok _ _ _ _ Hs), (stopAndDrain_ok _ _ _ _ Hm).
    split; intros Hsent; [rewrite (receive_sent _ _ _ Hs Hsent)|rewrite (receive_sent _ _ _ Hm Hsent)];
      simpl; by eexists.
Qed.

(** C12. A dispatcher implements batching: for a decade after its start, in
    every execution, whatever the scheduling, a publication carries the last
    event received since the one before, there is one, and the sliding window
    after it or the maximum window after the first of the batch has passed;
    while events are pending the dispatcher knows it and counts them. *)
Theorem dispatcher_refines_batching s d :
  reachable zero async w s → disp s = Some d → now s < noTimeout →
  ∃ p, specRun false w [] (log s) = Some p ∧ dispatchPending d = negb (bool_decide (p = [])) ∧
    batchCount d = Z.of_nat (length p).
Proof.
  intros [_ Hinv]%reachable_inv Hd Hn. destruct (Hinv d Hd) as (xs & xm & _ & _ & Hp).
  destruct (Hp Hn) as (p & Hr & Hdl). exists p. split; [done|].
  destruct (decide (p = [])) as [->|Hne]; [by destruct Hdl as (-> & -> & _)|].
  destruct (deadlines_cons _ _ _ _ _ Hne Hdl) as (? & ? & ? & _ & _ & -> & -> & _).
  by rewrite bool_decide_eq_false_2.
Qed.

(** C13. A dispatcher that is scheduled on time publishes a pending batch at the
    moment [t] when the sliding window after its last event or the maximum
    window after its first ends: time does not pass [t] before the
    publication, without further events it happens at [t], and every
    publication so far was on time. *)
Theorem pending_events_are_published s d :
  rtc (timely async w) (initial zero) s → disp s = Some d → now s < noTimeout →
  ∃ p, specRun true w [] (log s) = Some p ∧
    ∀ t, due w p = Some t → now s ≤ t ∧
      ∃ d', rtc (timely async w) s (mkSystem t (Some d') (log s ++ [Published t (event d)])).
Proof.
  intros [_ Hinv]%timely_inv Hd Hn. destruct (Hinv d Hd) as (xs & xm & Ht & Ho & Hp).
  destruct (Hp Hn) as (p & Hr & Hdl). exists p. split; [done|]. intros t Hdue.
  pose proof (due_cons _ _ _ _ _ Hdl Hdue) as ->. destruct (Ho eq_refl) as [Hxs Hxm].
  split; [lia|]. destruct s as [n d0 l]. simpl in *. subst d0. pose proof Ht as [Hs Hm].
  assert (t_sent (slidingTimer d) = true ∨ t_sent (maxTimer d) = true → n = Z.min xs xm) as Hnow.
  { destruct Hs as [->|[_ ?]], Hm as [->|[_ ?]]; simpl; intros [?|?]; done || lia. }
  destruct (decide (t_sent (slidingTimer d) = true ∨ t_sent (maxTimer d) = true)) as [Hsent|Hsent].
  - destruct (publish_now n d l xs xm Ht Hsent) as [d' Hstep]. exists d'. rewrite <-(Hnow Hsent).
    by apply rtc_once.
  - destruct Hs as [Es|[Es _]]; [|exfalso; apply Hsent; left; by rewrite Es].
    destruct Hm as [Em|[Em _]]; [|exfalso; apply Hsent; right; by rewrite Em].
    destruct (wait_for_timer n d l xs xm Es Em ltac:(lia)) as (d1 & Hrun & Ht1 & Hev & Hsent1).
    destruct (publish_now (Z.min xs xm) d1 l xs xm Ht1 Hsent1) as [d' Hstep]. exists d'. rewrite <-Hev.
    eapply rtc_r; done.
Qed.

End runs.

(** ** Publications and events

    The steps of a dispatcher do not look at its events. *)

Section natural.
Context {E F : Type} (f : E → F) (zero : E) (async : bool) (w : windows).

Definition mapDispatcher (d : dispatcher E) : dispatcher F :=
  mkDispatcher (slidingTimer d) (maxTimer d) (dispatchPending d) (batchCount d) (f (event d)).

Definition mapAction (a : action E) : action F :=
  match a with Received t e => Received t (f e) | Published t e => Published t (f e) end.

Definition mapSystem (s : system E) : system F :=
  mkSystem (now s) (mapDispatcher <$> disp s) (map mapAction (log s)).

Lemma onEvent_natural n d e :
  onEvent async w n (mapDispatcher d) (f e) = mapDispatcher <$> onEvent async w n d e.
Proof.
  unfold onEvent. simpl. destruct (dispatchPending d), (stopAndDrain async (slidingTimer d)); simpl; try done.
  by destruct (stopAndDrain async (maxTimer d)).
Qed.

Lemma onSliding_natural n d :
  onSliding async n (mapDispatcher d) = prod_map mapDispatcher f <$> onSliding async n d.
Proof.
  unfold onSliding. simpl. destruct (receive (slidingTimer d)); simpl; [|done].
  by destruct (stopAndDrain async (maxTimer d)).
Qed.

Lemma onMax_natural n d : onMax async n (mapDispatcher d) = prod_map mapDispatcher f <$> onMax async n d.
Proof.
  unfold onMax. simpl. destruct (receive (maxTimer d)); simpl; [|done].
  by destruct (stopAndDrain async (slidingTimer d)).
Qed.

Lemma step_natural s s' : step async w s s' → step async w (mapSystem s) (mapSystem s').
Proof.
  intros [n d l e d1 He|n d l d1 e He|n d l d1 e He|n d l|n d l t Ht|n d l t Ht|n n' d l Hle];
    unfold mapSystem; simpl; rewrite ?map_app; simpl.
  - apply step_event. by rewrite onEvent_natural, He.
  - apply step_sliding. by rewrite onSliding_natural, He.
  - apply step_max. by rewrite onMax_natural, He.
  - apply step_stop.
  - by apply (step_expire_sliding _ _ n (mapDispatcher d)).
  - by apply (step_expire_max _ _ n (mapDispatcher d)).
  - by apply step_time.
Qed.

Lemma reachable_natural s : reachable zero async w s → reachable (f zero) async w (mapSystem s).
Proof.
  intros Hr. apply (rtc_preserved (step async w) (λ s, reachable (f zero) async w (mapSystem s)) (initial zero) s);
    [|apply rtc_refl|exact Hr].
  intros a b Hs Ha. eapply rtc_r; [exact Ha|by apply step_natural].
Qed.

End natural.

Definition isEvent {E} (a : action E) : Z := match a with Received _ _ => 1 | Published _ _ => 0 end.
Definition isPublication {E} (a : action E) : Z := match a with Received _ _ => 0 | Published _ _ => 1 end.
Definition total {E} (f : action E → Z) (l : list (action E)) : Z := foldr (λ a n, f a + n) 0 l.

Lemma total_app {E} f (l l' : list (action E)) : total f (l ++ l') = total f l + total f l'.
Proof. induction l as [|a l IH]; simpl; lia. Qed.

Lemma total_map {E F} (f : E → F) l :
  total isEvent (map (mapAction f) l) = total isEvent l ∧
  total isPublication (map (mapAction f) l) = total isPublication l.
Proof. induction l as [|[]? [IH1 IH2]]; simpl; [done|lia|lia]. Qed.

Lemma specRun_counts {E} `{EqDecision E} w p (l : list (action E)) p' :
  specRun false w p l = Some p' →
  total isPublication l + Z.of_nat (length p') ≤ Z.of_nat (length p) + total isEvent l.
Proof.
  revert p. induction l as [|a l IH]; intros p; [intros [= ->]; simpl; lia|].
  intros (p1 & Hs & Hr)%bind_Some. apply IH in Hr. destruct a as [t e|t e]; simpl in *.
  - injection Hs as <-. rewrite length_app in Hr. simpl in Hr. lia.
  - destruct p as [|x p]; [done|]. simpl in Hs. destruct x, (list.last _) as [[? ?]|]; [|done].
    destruct (_ && _); [|done]. injection Hs as <-. simpl in *. lia.
Qed.

(** Before the idle timers run out, every publication has an event of its own. *)
Lemma publications_le_events {E} (zero : E) async w s :
  0 ≤ slidingWindow w → 0 ≤ maxWindow w → reachable zero async w s → now s < noTimeout →
  total isPublication (log s) ≤ total isEvent (log s).
Proof.
  intros HW HM Hr. revert s Hr.
  refine (rtc_ind_r (λ s, now s < noTimeout → total isPublication (log s) ≤ total isEvent (log s)) _ _ _); [done|].
  intros s s' Hr Hs IH Hn. destruct (disp s') as [d|] eqn:Hd.
  - pose proof (rtc_r _ _ _ Hr Hs) as Hr'. apply (reachable_natural (λ _, ())) in Hr'.
    apply (reachable_inv _ _ _ HW HM) in Hr' as [_ Hinv].
    destruct (Hinv (mapDispatcher (λ _, ()) d)) as (xs & xm & _ & _ & Hp); [simpl; by rewrite Hd|].
    destruct (Hp Hn) as (p & Hrun & _). apply specRun_counts in Hrun.
    simpl in Hrun. destruct (total_map (λ _ : E, ()) (log s')) as [E1 E2]. rewrite E1, E2 in Hrun. lia.
  - destruct Hs; simpl in *; try done; apply IH; lia.
Qed.

(** ** Witnesses: a proxy update received when the dispatcher starts *)

Definition demoPending : dispatcher string :=
  mkDispatcher (mkTimer (Some (2 * second)) false) (mkTimer (Some (10 * second)) false) true 1 "a".

Definition demoSystem : system string := mkSystem 0 (Some demoPending) [Received 0 "a"].

Lemma demo_step async : timely async proxyUpdate (initial "") demoSystem.
Proof. split; [apply (step_event _ _ 0 (newDispatcher "" 0) []); by destruct async|simpl; lia]. Qed.

Lemma dispatcher_never_blocks_witness :
  is_Some (onEvent true proxyUpdate 0 demoPending "b").
Proof.
  apply (dispatcher_never_blocks "" true proxyUpdate ltac:(done) ltac:(done) demoSystem demoPending);
    [apply rtc_once, demo_step|done].
Defined.

Lemma dispatcher_refines_batching_witness :
  ∃ p, specRun false proxyUpdate [] [Received 0 "a"] = Some p ∧
    dispatchPending demoPending = negb (bool_decide (p = [])) ∧ batchCount demoPending = Z.of_nat (length p).
Proof.
  apply (dispatcher_refines_batching "" true proxyUpdate ltac:(done) ltac:(done) demoSystem demoPending);
    [apply rtc_once, demo_step|done|done].
Defined.

Lemma pending_events_are_published_witness :
  ∃ p, specRun true proxyUpdate [] [Received 0 "a"] = Some p ∧
    ∀ t, due proxyUpdate p = Some t → 0 ≤ t ∧
      ∃ d', rtc (timely true proxyUpdate) demoSystem (mkSystem t (Some d') [Received 0 "a"; Published t "a"]).
Proof.
  apply (pending_events_are_published "" true proxyUpdate ltac:(done) ltac:(done) demoSystem demoPending);
    [apply rtc_once, demo_step|done|done].
Defined.

End DispatcherFacts.
