(* ===== verification/Messaging.v ===== *)
(** * The message broker: pkg/messaging/broker.go, workqueue.go, types.go

    The processor takes messages from the work queue, decides which update
    channels they concern, and publishes them or hands them to the
    dispatcher of the channel.  The effects of a message are a list, in the
    order the code performs them; the counters wrap as [uint64].

    Objects carried by messages are the non-nil pointers of the Go
    interfaces; [lru.Get], the cache of connector metadata, is an argument. *)

From S2P Require Import Prelude Core Api Announcements MeshConfig Dispatcher.
Import Api.Api Announcements.Announcements MeshConfig.MeshConfig Dispatcher.Dispatcher.

Module Messaging.

(** ** Messages *)

(** [interface{}] values, by the type assertions of the code. *)
Inductive Obj :=
  | ONamespace (n : K8sNamespace)
  | OEndpoints (e : Endpoints)
  | OService (s : K8sService)
  | OPod (p : Pod)
  | OMeshConfig (m : MeshConfig)
  | OOther.

(** events.PubSubMessage *)
Record PubSubMessage := mkMsg { msg_Kind : Kind; OldObj : option Obj; NewObj : option Obj }.

Record updateEvent := mkEvent { ue_msg : PubSubMessage; ue_topic : string }.

Record proxyUpdateEvent := mkProxyEvent {
  pue_event : updateEvent; creationPod : option Pod; deletionPod : option Pod }.

Definition AnnotationMeshEndpointHash : string := "flomesh.io/cloud-endpoint-hash".
Definition CloudSourcedServiceLabel : string := "fsm-connector-cloud-sourced-service".
Definition ServiceExclusionListAnnotation : string := "flomesh.io/service-exclusion-list".
Definition PrometheusScrapeAnnotation : string := "prometheus.io/scrape".
Definition SidecarUniqueIDLabelName : string := "fsm-proxy-uuid".

Definition GetPubSubTopicForProxyUUID (uuid : string) : string := "proxy:" +:+ uuid.

Definition broadcast (kind : Kind) (msg : PubSubMessage) : updateEvent := mkEvent msg kind.

Definition proxyBroadcast (msg : PubSubMessage) : option proxyUpdateEvent :=
  Some (mkProxyEvent (broadcast ProxyUpdate msg) None None).

Definition has (m : gmap string string) (k : string) : bool := bool_decide (is_Some (m !! k)).

(** A missing key reads as the empty string. *)
Definition get (m : gmap string string) (k : string) : string := default "" (m !! k).

(** ** Which messages update proxies *)

Definition exclusionList (o : option Obj) : string :=
  match o with Some (ONamespace n) => get (ns_Annotations n) ServiceExclusionListAnnotation | _ => "" end.

Definition namespaceUpdated (msg : PubSubMessage) : option proxyUpdateEvent :=
  if negb (EqualFold (exclusionList (OldObj msg)) (exclusionList (NewObj msg)))
  then proxyBroadcast msg else None.

(** The fields of the specification that proxies depend on differ. *)
Definition specChanged (p n : MeshConfigSpec) : bool :=
  negb (bool_decide (tr_EnableEgress (Traffic p) = tr_EnableEgress (Traffic n))) ||
  negb (bool_decide (tr_EnablePermissiveTrafficPolicyMode (Traffic p) =
                     tr_EnablePermissiveTrafficPolicyMode (Traffic n))) ||
  negb (bool_decide (tr_HTTP1PerRequestLoadBalancing (Traffic p) = tr_HTTP1PerRequestLoadBalancing (Traffic n))) ||
  negb (bool_decide (tr_HTTP2PerRequestLoadBalancing (Traffic p) = tr_HTTP2PerRequestLoadBalancing (Traffic n))) ||
  negb (bool_decide (tr_ServiceAccessMode (Traffic p) = tr_ServiceAccessMode (Traffic n))) ||
  negb (TracingSpec_eqb (obs_Tracing (Observability p)) (obs_Tracing (Observability n))) ||
  negb (RemoteLoggingSpec_eqb (obs_RemoteLogging (Observability p)) (obs_RemoteLogging (Observability n))) ||
  negb (bool_decide (sc_LogLevel (Sidecar p) = sc_LogLevel (Sidecar n))) ||
  negb (bool_decide (sc_CompressConfig (Sidecar p) = sc_CompressConfig (Sidecar n))) ||
  negb (bool_decide (sc_SidecarTimeout (Sidecar p) = sc_SidecarTimeout (Sidecar n))) ||
  negb (bool_decide (sc_LocalDNSProxy (Sidecar p) = sc_LocalDNSProxy (Sidecar n))) ||
  negb (bool_decide (ea_Enable (tr_InboundExternalAuthorization (Traffic p)) =
                     ea_Enable (tr_InboundExternalAuthorization (Traffic n)))) ||
  (ea_Enable (tr_InboundExternalAuthorization (Traffic n)) &&
   negb (bool_decide (tr_InboundExternalAuthorization (Traffic p) = tr_InboundExternalAuthorization (Traffic n)))) ||
  negb (bool_decide (mcs_FeatureFlags p = mcs_FeatureFlags n)) ||
  negb (PluginChainsSpec_eqb (PluginChains p) (PluginChains n)) ||
  negb (bool_decide (Connector p = Connector n)) ||
  negb (bool_decide (ClusterSet p = ClusterSet n)).

Definition meshConfigUpdated (msg : PubSubMessage) : option proxyUpdateEvent :=
  match OldObj msg, NewObj msg with
  | Some (OMeshConfig p), Some (OMeshConfig n) =>
      if specChanged (Spec p) (Spec n) then proxyBroadcast msg else None
  | _, _ => None
  end.

Definition xNetDNSProxyUpdated (msg : PubSubMessage) : option updateEvent :=
  match OldObj msg, NewObj msg with
  | Some (OMeshConfig p), Some (OMeshConfig n) =>
      if bool_decide (sc_XNetDNSProxy (Sidecar (Spec p)) = sc_XNetDNSProxy (Sidecar (Spec n)))
      then None else Some (broadcast XNetworkUpdate msg)
  | _, _ => None
  end.

Definition asPod (o : option Obj) : option Pod := match o with Some (OPod p) => Some p | _ => None end.

(** The proxy identifier of a pod, if it has one. *)
Definition proxyUUID (p : Pod) : option string :=
  if bool_decide (pod_Labels p = ∅) then None
  else let uuid := get (pod_Labels p) SidecarUniqueIDLabelName in
       if bool_decide (uuid = "") then None else Some uuid.

(** The scrape annotation changed on a labelled pod: only its proxy is told. *)
Definition metricsChanged (msg : PubSubMessage) (pre new : option Pod) : option proxyUpdateEvent :=
  match pre, new with
  | Some pre, Some new =>
      if negb (bool_decide (pod_Annotations pre = ∅)) && negb (bool_decide (pod_Annotations new = ∅)) &&
         negb (bool_decide (get (pod_Annotations pre) PrometheusScrapeAnnotation =
                            get (pod_Annotations new) PrometheusScrapeAnnotation)) &&
         negb (bool_decide (pod_Labels new = ∅))
      then Some (mkProxyEvent (mkEvent msg (GetPubSubTopicForProxyUUID (get (pod_Labels new) SidecarUniqueIDLabelName)))
                   None None)
      else None
  | _, _ => None
  end.

Definition podUpdated (msg : PubSubMessage) : option proxyUpdateEvent :=
  let pre := asPod (OldObj msg) in
  let new := asPod (NewObj msg) in
  match metricsChanged msg pre new with
  | Some e => Some e
  | None =>
      match pre, new with
      | None, Some new =>
          if bool_decide (is_Some (proxyUUID new))
          then Some (mkProxyEvent (broadcast ProxyUpdate msg) (Some new) None) else None
      | Some pre, _ =>
          if bool_decide (is_Some (proxyUUID pre))
          then Some (mkProxyEvent (broadcast ProxyUpdate msg) None
                 (new ≫= λ p, if bool_decide (is_Some (pod_DeletionTimestamp p)) then Some p else None))
          else None
      | None, None => None
      end
  end.

(** [lru.MicroSvcMetaExists], given the keys of the cache. *)
Definition MicroSvcMetaExists (cached : string → bool) (svc : K8sService) : bool :=
  cached (k8s_Namespace svc +:+ "." +:+ k8s_Name svc +:+ "." +:+
          get (k8s_Annotations svc) AnnotationMeshEndpointHash).

Definition cloudSourced (o : option Obj) : option K8sService :=
  match o with
  | Some (OService s) => if has (k8s_Labels s) CloudSourcedServiceLabel then Some s else None
  | _ => None
  end.

(** Events of a kind that update every proxy. *)
Definition proxyKinds : list Kind :=
  [IngressAdded; IngressDeleted; IngressUpdated;
   IngressClassAdded; IngressClassDeleted; IngressClassUpdated;
   EgressAdded; EgressDeleted; EgressUpdated;
   EgressGatewayAdded; EgressGatewayDeleted; EgressGatewayUpdated;
   IngressBackendAdded; IngressBackendDeleted; IngressBackendUpdated;
   AccessControlAdded; AccessControlDeleted; AccessControlUpdated;
   IsolationPolicyAdded; IsolationPolicyDeleted; IsolationPolicyUpdated;
   RetryPolicyAdded; RetryPolicyDeleted; RetryPolicyUpdated;
   TrafficWarmupAdded; TrafficWarmupDeleted; TrafficWarmupUpdated;
   UpstreamTrafficSettingAdded; UpstreamTrafficSettingDeleted; UpstreamTrafficSettingUpdated;
   RouteGroupAdded; RouteGroupDeleted; RouteGroupUpdated;
   TCPRouteAdded; TCPRouteDeleted; TCPRouteUpdated;
   TrafficSplitAdded; TrafficSplitDeleted; TrafficSplitUpdated;
   TrafficTargetAdded; TrafficTargetDeleted; TrafficTargetUpdated;
   ServiceImportAdded; ServiceImportDeleted; ServiceImportUpdated;
   ServiceExportAdded; ServiceExportDeleted; ServiceExportUpdated;
   GlobalTrafficPolicyAdded; GlobalTrafficPolicyDeleted; GlobalTrafficPolicyUpdated;
   PluginAdded; PluginDeleted; PluginUpdated;
   PluginChainAdded; PluginChainDeleted; PluginChainUpdated;
   PluginConfigAdded; PluginConfigDeleted; PluginConfigUpdated;
   VirtualMachineAdded; VirtualMachineDeleted; VirtualMachineUpdated;
   ProxyUpdate].

Definition getProxyUpdateEvent (cached : string → bool) (msg : PubSubMessage) : option proxyUpdateEvent :=
  let kind := msg_Kind msg in
  if bool_decide (kind = NamespaceUpdated) then namespaceUpdated msg
  else if bool_decide (kind ∈ [EndpointAdded; EndpointDeleted; EndpointUpdated]) then
    match NewObj msg with
    | Some (OEndpoints e) =>
        if has (eps_Labels e) CloudSourcedServiceLabel then None else proxyBroadcast msg
    | _ => proxyBroadcast msg
    end
  else if bool_decide (kind ∈ [ServiceAdded; ServiceDeleted; ServiceUpdated]) then
    if match cloudSourced (NewObj msg) with Some s => negb (MicroSvcMetaExists cached s) | None => false end
    then proxyBroadcast msg
    else if bool_decide (is_Some (cloudSourced (OldObj msg))) then proxyBroadcast msg else None
  else if bool_decide (kind ∈ proxyKinds) then proxyBroadcast msg
  else if bool_decide (kind = MeshConfigUpdated) then meshConfigUpdated msg
  else if bool_decide (kind ∈ [PodAdded; PodDeleted; PodUpdated]) then podUpdated msg
  else None.

(** ** Which messages update the other channels *)

Definition ingressKinds : list Kind :=
  [EndpointAdded; EndpointDeleted; EndpointUpdated; ServiceAdded; ServiceDeleted; ServiceUpdated;
   IngressAdded; IngressDeleted; IngressUpdated; IngressClassAdded; IngressClassDeleted; IngressClassUpdated;
   ServiceImportAdded; ServiceImportDeleted; ServiceImportUpdated].

Definition getIngressUpdateEvent (msg : PubSubMessage) : option updateEvent :=
  if bool_decide (msg_Kind msg ∈ ingressKinds) then Some (broadcast IngressUpdate msg) else None.

Definition gatewayKinds : list Kind :=
  [EndpointAdded; EndpointDeleted; EndpointUpdated;
   EndpointSlicesAdded; EndpointSlicesDeleted; EndpointSlicesUpdated;
   ServiceAdded; ServiceDeleted; ServiceUpdated;
   SecretAdded; SecretUpdated; SecretDeleted;
   ConfigMapAdded; ConfigMapUpdated; ConfigMapDeleted;
   IsolationPolicyAdded; IsolationPolicyDeleted; IsolationPolicyUpdated;
   GatewayAPIGatewayAdded; GatewayAPIGatewayDeleted; GatewayAPIGatewayUpdated;
   GatewayAPIGatewayClassAdded; GatewayAPIGatewayClassDeleted; GatewayAPIGatewayClassUpdated;
   GatewayAPIHTTPRouteAdded; GatewayAPIHTTPRouteDeleted; GatewayAPIHTTPRouteUpdated;
   GatewayAPIGRPCRouteAdded; GatewayAPIGRPCRouteDeleted; GatewayAPIGRPCRouteUpdated;
   GatewayAPITLSRouteAdded; GatewayAPITLSRouteDeleted; GatewayAPITLSRouteUpdated;
   GatewayAPITCPRouteAdded; GatewayAPITCPRouteDeleted; GatewayAPITCPRouteUpdated;
   GatewayAPIUDPRouteAdded; GatewayAPIUDPRouteDeleted; GatewayAPIUDPRouteUpdated;
   GatewayAPIReferenceGrantAdded; GatewayAPIReferenceGrantDeleted; GatewayAPIReferenceGrantUpdated;
   RateLimitAdded; RateLimitDeleted; RateLimitUpdated;
   CircuitBreakerAdded; CircuitBreakerDeleted; CircuitBreakerUpdated;
   HealthCheckPolicyAdded; HealthCheckPolicyDeleted; HealthCheckPolicyUpdated;
   FaultInjectionAdded; FaultInjectionDeleted; FaultInjectionUpdated;
   BackendTLSPolicyAdded; BackendTLSPolicyDeleted; BackendTLSPolicyUpdated;
   BackendLBPolicyAdded; BackendLBPolicyDeleted; BackendLBPolicyUpdated;
   RouteRuleFilterPolicyAdded; RouteRuleFilterPolicyDeleted; RouteRuleFilterPolicyUpdated;
   FilterAdded; FilterDeleted; FilterUpdated;
   ListenerFilterAdded; ListenerFilterDeleted; ListenerFilterUpdated;
   FilterDefinitionAdded; FilterDefinitionDeleted; FilterDefinitionUpdated;
   FilterConfigAdded; FilterConfigDeleted; FilterConfigUpdated;
   GatewayHTTPLogAdded; GatewayHTTPLogDeleted; GatewayHTTPLogUpdated;
   GatewayMetricsAdded; GatewayMetricsDeleted; GatewayMetricsUpdated;
   GatewayZipkinAdded; GatewayZipkinDeleted; GatewayZipkinUpdated;
   GatewayProxyTagAdded; GatewayProxyTagDeleted; GatewayProxyTagUpdated;
   GatewayIPRestrictionAdded; GatewayIPRestrictionDeleted; GatewayIPRestrictionUpdated;
   GatewayConcurrencyLimitAdded; GatewayConcurrencyLimitDeleted; GatewayConcurrencyLimitUpdated;
   GatewayExternalRateLimitAdded; GatewayExternalRateLimitDeleted; GatewayExternalRateLimitUpdated;
   GatewayRequestTerminationAdded; GatewayRequestTerminationDeleted; GatewayRequestTerminationUpdated;
   GatewayDNSModifierAdded; GatewayDNSModifierDeleted; GatewayDNSModifierUpdated;
   ServiceImportAdded; ServiceImportDeleted; ServiceImportUpdated].

Definition getGatewayUpdateEvent (msg : PubSubMessage) : option updateEvent :=
  if bool_decide (msg_Kind msg ∈ gatewayKinds) then Some (broadcast GatewayUpdate msg) else None.

Definition getServiceUpdateEvent (msg : PubSubMessage) : option updateEvent :=
  if bool_decide (msg_Kind msg = ServiceUpdate) then Some (broadcast ServiceUpdate msg) else None.

Definition connectorKinds : list Kind :=
  [ConsulConnectorAdded; ConsulConnectorUpdated; ConsulConnectorDeleted;
   EurekaConnectorAdded; EurekaConnectorUpdated; EurekaConnectorDeleted;
   NacosConnectorAdded; NacosConnectorUpdated; NacosConnectorDeleted;
   ZookeeperConnectorAdded; ZookeeperConnectorUpdated; ZookeeperConnectorDeleted;
   MachineConnectorAdded; MachineConnectorUpdated; MachineConnectorDeleted;
   GatewayConnectorAdded; GatewayConnectorUpdated; GatewayConnectorDeleted;
   ConnectorUpdate].

Definition getConnectorUpdateEvent (msg : PubSubMessage) : option updateEvent :=
  if bool_decide (msg_Kind msg ∈ connectorKinds) then Some (broadcast ConnectorUpdate msg) else None.

Definition xnetworkKinds : list Kind :=
  [ServiceAdded; ServiceUpdated; ServiceDeleted; EndpointAdded; EndpointUpdated; EndpointDeleted;
   XAccessControlAdded; XAccessControlUpdated; XAccessControlDeleted;
   XEIPAdvertisementAdded; XEIPAdvertisementUpdated; XEIPAdvertisementDeleted;
   XNetworkUpdate].

Definition getXNetworkUpdateEvent (msg : PubSubMessage) : option updateEvent :=
  if bool_decide (msg_Kind msg ∈ xnetworkKinds) then Some (broadcast XNetworkUpdate msg)
  else if bool_decide (msg_Kind msg = MeshConfigUpdated) then xNetDNSProxyUpdated msg
  else None.

Definition getMCSUpdateEvent (msg : PubSubMessage) : option updateEvent :=
  if bool_decide (msg_Kind msg ∈ [MultiClusterServiceExportCreated; MultiClusterServiceExportDeleted;
                                  MultiClusterServiceExportAccepted; MultiClusterServiceExportRejected])
  then Some (mkEvent msg (msg_Kind msg)) else None.

(** ** The broker *)

(** The update channels, each with a dispatcher and a pub-sub instance. *)
Inductive channel := Proxy | Ingress_ | Gateway | Service_ | Connector_ | XNetwork.

#[export] Instance channel_eq_dec : EqDecision channel.
Proof. solve_decision. Defined.

Inductive pubsub := Updates (ch : channel) | MCSEvents | KubeEvents.

(** What processing a message does, one action of the code each. *)
Inductive effect :=
  | SendCreation (p : Pod)
  | SendDeletion (p : Pod)
  | CountQ (ch : channel)
  | CountDispatched (ch : channel)
  | Pub (ps : pubsub) (msg : PubSubMessage) (topic : string)
  | SendUpdate (ch : channel) (e : updateEvent)
  | MonitoredNamespaces (delta : Z).

(** The fields of [Broker] that change; the counters by channel. *)
Record Broker := mkBroker {
  proxyCreationChOn : bool;
  proxyDeletionChOn : bool;
  totalQEventCount : Z;
  totalQ : channel → Z;
  totalDispatched : channel → Z
}.

Definition NewBroker : Broker := mkBroker false false 0 (λ _, 0%Z) (λ _, 0%Z).

Definition GetProxyCreationChan (b : Broker) : Broker :=
  mkBroker true (proxyDeletionChOn b) (totalQEventCount b) (totalQ b) (totalDispatched b).
Definition GetProxyDeletionChan (b : Broker) : Broker :=
  mkBroker (proxyCreationChOn b) true (totalQEventCount b) (totalQ b) (totalDispatched b).

(** [atomic.AddUint64(&x, 1)] *)
Definition add1 (x : Z) : Z := ((x + 1) `mod` 2 ^ 64)%Z.

Definition bump (f : channel → Z) (ch : channel) : channel → Z :=
  λ c, if decide (c = ch) then add1 (f c) else f c.

(** The effects on the broker's own fields. *)
Definition count (b : Broker) (e : effect) : Broker :=
  match e with
  | CountQ ch => mkBroker (proxyCreationChOn b) (proxyDeletionChOn b) (totalQEventCount b)
                   (bump (totalQ b) ch) (totalDispatched b)
  | CountDispatched ch => mkBroker (proxyCreationChOn b) (proxyDeletionChOn b) (totalQEventCount b)
                   (totalQ b) (bump (totalDispatched b) ch)
  | _ => b
  end.

(** The XNetwork channel has no counters. *)
Definition counted (ch : channel) : bool := negb (bool_decide (ch = XNetwork)).

Definition ifCounted (ch : channel) (e : effect) : list effect := if counted ch then [e] else [].

Definition channelTopic (ch : channel) : string :=
  match ch with
  | Proxy => ProxyUpdate | Ingress_ => IngressUpdate | Gateway => GatewayUpdate
  | Service_ => ServiceUpdate | Connector_ => ConnectorUpdate | XNetwork => XNetworkUpdate
  end.

(** The block of [processEvent] for the event of a channel. *)
Definition route (ch : channel) (event : option updateEvent) : list effect :=
  match event with
  | None => []
  | Some e =>
      ifCounted ch (CountQ ch) ++
      (if bool_decide (ue_topic e = channelTopic ch) then [SendUpdate ch e]
       else Pub (Updates ch) (ue_msg e) (ue_topic e) :: ifCounted ch (CountDispatched ch))
  end.

Definition updateMetric (msg : PubSubMessage) : list effect :=
  if bool_decide (msg_Kind msg = NamespaceAdded) then [MonitoredNamespaces 1]
  else if bool_decide (msg_Kind msg = NamespaceDeleted) then [MonitoredNamespaces (-1)]
  else [].

(** The pods announced before a proxy update is counted. *)
Definition podEffects (b : Broker) (event : option proxyUpdateEvent) : list effect :=
  match event with
  | None => []
  | Some e =>
      (if proxyCreationChOn b then option_list (SendCreation <$> creationPod e) else []) ++
      (if proxyDeletionChOn b then option_list (SendDeletion <$> deletionPod e) else [])
  end.

(** The event of a channel for a message. *)
Definition getUpdateEvent (cached : string → bool) (ch : channel) (msg : PubSubMessage) : option updateEvent :=
  match ch with
  | Proxy => pue_event <$> getProxyUpdateEvent cached msg
  | Ingress_ => getIngressUpdateEvent msg
  | Gateway => getGatewayUpdateEvent msg
  | Service_ => getServiceUpdateEvent msg
  | Connector_ => getConnectorUpdateEvent msg
  | XNetwork => getXNetworkUpdateEvent msg
  end.

(** The channels in the order of the blocks of [processEvent]. *)
Definition channels : list channel := [Proxy; Ingress_; Gateway; Service_; Connector_; XNetwork].

Definition processEvent (cached : string → bool) (b : Broker) (msg : PubSubMessage) : list effect :=
  podEffects b (getProxyUpdateEvent cached msg) ++
  concat (map (λ ch, route ch (getUpdateEvent cached ch msg)) channels) ++
  match getMCSUpdateEvent msg with Some e => [Pub MCSEvents (ue_msg e) (ue_topic e)] | None => [] end ++
  [Pub KubeEvents msg (msg_Kind msg)] ++ updateMetric msg.

(** An item of the queue is a message, or a value of another type. *)
Definition processNextItem (cached : string → bool) (b : Broker) (item : option PubSubMessage)
    : Broker * list effect :=
  let b := mkBroker (proxyCreationChOn b) (proxyDeletionChOn b) (add1 (totalQEventCount b))
             (totalQ b) (totalDispatched b) in
  (b, match item with Some msg => processEvent cached b msg | None => [] end).

(** ** The broker with its dispatchers

    The processor performs its effects one by one; a send on an update
    channel is received by the dispatcher of the channel, and a publication
    of a dispatcher is counted with it.  The trace, the logs and the messages
    processed, each with the cache it found, are kept for the statements. *)

Definition channelWindows (ch : channel) : windows :=
  match ch with
  | Proxy => proxyUpdate | Ingress_ => ingressUpdate | Gateway => gatewayUpdate
  | Service_ => serviceUpdate | Connector_ => connectorUpdate | XNetwork => xnetworkUpdate
  end.

Definition runDispatcher (async : bool) (ch : channel) : relation (system updateEvent) :=
  match ch with
  | Proxy => runProxyUpdateDispatcher async | Ingress_ => runIngressUpdateDispatcher async
  | Gateway => runGatewayUpdateDispatcher async | Service_ => runServiceUpdateDispatcher async
  | Connector_ => runConnectorUpdateDispatcher async | XNetwork => runXNetworkUpdateDispatcher async
  end.

Definition zeroEvent : updateEvent := mkEvent (mkMsg "" None None) "".

Record state := mkState {
  broker : Broker;
  todo : list effect;
  clock : Z;
  disps : channel → option (dispatcher updateEvent);
  logs : channel → list (action updateEvent);
  trace : list effect;
  processed : list ((string → bool) * PubSubMessage)
}.

Definition start : state :=
  mkState NewBroker [] 0 (λ _, Some (newDispatcher zeroEvent 0)) (λ _, []) [] [].

Definition upd {A} (f : channel → A) (ch : channel) (x : A) : channel → A :=
  λ c, if decide (c = ch) then x else f c.

(** A channel's dispatcher on its own. *)
Definition proj (ch : channel) (s : state) : system updateEvent := mkSystem (clock s) (disps s ch) (logs s ch).

Definition isPublished (a : action updateEvent) : Prop := ∃ t e, a = Published t e.

Definition countPublished (ch : channel) (ps : list (action updateEvent)) (b : Broker) : Broker :=
  foldl (λ b _, foldl count b (ifCounted ch (CountDispatched ch))) b ps.

Inductive brokerStep (async : bool) : state → state → Prop :=
  | b_item b n ds ls tr pr cached item b' es :
      processNextItem cached b item = (b', es) →
      brokerStep async (mkState b [] n ds ls tr pr)
        (mkState b' es n ds ls tr (pr ++ option_list (pair cached <$> item)))
  | b_effect b e es n ds ls tr pr :
      (∀ ch ev, e ≠ SendUpdate ch ev) →
      brokerStep async (mkState b (e :: es) n ds ls tr pr) (mkState (count b e) es n ds ls (tr ++ [e]) pr)
  | b_send b ch ev es n ds ls tr pr d d' :
      ds ch = Some d → onEvent async (channelWindows ch) n d ev = Some d' →
      brokerStep async (mkState b (SendUpdate ch ev :: es) n ds ls tr pr)
        (mkState b es n (upd ds ch (Some d')) (upd ls ch (ls ch ++ [Received n ev])) (tr ++ [SendUpdate ch ev]) pr)
  | b_dispatcher b es n ds ls tr pr ch d' ps :
      runDispatcher async ch (mkSystem n (ds ch) (ls ch)) (mkSystem n d' (ls ch ++ ps)) →
      Forall isPublished ps →
      brokerStep async (mkState b es n ds ls tr pr)
        (mkState (countPublished ch ps b) es n (upd ds ch d') (upd ls ch (ls ch ++ ps)) tr pr)
  | b_time b es n n' ds ls tr pr :
      (n ≤ n')%Z → brokerStep async (mkState b es n ds ls tr pr) (mkState b es n' ds ls tr pr)
  | b_creation b es n ds ls tr pr :
      brokerStep async (mkState b es n ds ls tr pr) (mkState (GetProxyCreationChan b) es n ds ls tr pr)
  | b_deletion b es n ds ls tr pr :
      brokerStep async (mkState b es n ds ls tr pr) (mkState (GetProxyDeletionChan b) es n ds ls tr pr).

Definition brokerReachable (async : bool) (s : state) : Prop := rtc (brokerStep async) start s.

(** The broadcasts of a channel that the messages call for. *)
Definition broadcastOf (ch : channel) (x : (string → bool) * PubSubMessage) : option updateEvent :=
  getUpdateEvent x.1 ch x.2 ≫= λ e, if bool_decide (ue_topic e = channelTopic ch) then Some e else None.

(** The events a dispatcher received. *)
Definition receivedOf (l : list (action updateEvent)) : list updateEvent :=
  omap (λ a, match a with Received _ e => Some e | Published _ _ => None end) l.

(** The events sent to the dispatcher of a channel. *)
Definition sendsOf (ch : channel) (es : list effect) : list updateEvent :=
  omap (λ e, match e with SendUpdate c ev => if decide (c = ch) then Some ev else None | _ => None end) es.

End Messaging.
