(* ===== verification/MessagingFacts.v ===== *)
(** * Properties of the message broker

    Every broadcast a message calls for is handed to the dispatcher of its
    channel, once and in order; the dispatch counters stay below the queue
    counters; and which messages update proxies needlessly. *)

From S2P Require Import Prelude Core Api Announcements MeshConfig.
From S2P Require Import Dispatcher DispatcherFacts Messaging.
Import Api.Api Announcements.Announcements MeshConfig.MeshConfig Dispatcher.Dispatcher.
Import DispatcherFacts.DispatcherFacts Messaging.Messaging.
#[local] Open Scope Z_scope.

Module MessagingFacts.

(** ** Lists of effects *)

Lemma sendsOf_app ch es es' : sendsOf ch (es ++ es') = sendsOf ch es ++ sendsOf ch es'.
Proof. apply omap_app. Qed.

Lemma receivedOf_app l l' : receivedOf (l ++ l') = receivedOf l ++ receivedOf l'.
Proof. apply omap_app. Qed.

Lemma sendsOf_route ch c e :
  sendsOf ch (route c e) =
  if decide (c = ch) then option_list (e ≫= λ e, if bool_decide (ue_topic e = channelTopic c) then Some e else None)
  else [].
Proof.
  destruct e as [e|]; [|by simpl; case_decide]. unfold route, ifCounted. simpl.
  rewrite sendsOf_app.
  destruct (counted c), (bool_decide (ue_topic e = channelTopic c)); simpl; by case_decide.
Qed.

Lemma sendsOf_processEvent cached b msg ch :
  sendsOf ch (processEvent cached b msg) = option_list (broadcastOf ch (cached, msg)).
Proof.
  unfold processEvent. rewrite !sendsOf_app.
  assert (sendsOf ch (podEffects b (getProxyUpdateEvent cached msg)) = []) as ->.
  { unfold podEffects. destruct (getProxyUpdateEvent cached msg) as [[? [] []]|]; [..|done];
      by destruct (proxyCreationChOn b), (proxyDeletionChOn b). }
  assert (∀ o, sendsOf ch (match o with Some e => [Pub MCSEvents (ue_msg e) (ue_topic e)] | None => [] end) = [])
    as -> by (by intros []).
  assert (sendsOf ch (updateMetric msg) = []) as ->.
  { unfold updateMetric. by repeat case_bool_decide. }
  unfold channels. cbn [map concat]. rewrite !sendsOf_app, !sendsOf_route, !app_nil_r.
  by destruct ch; simpl; rewrite ?app_nil_r.
Qed.

Lemma receivedOf_published ps : Forall isPublished ps → receivedOf ps = [].
Proof. induction 1 as [|? ? (t & e & ->)]; [done|]. simpl. done. Qed.

(** ** Every broadcast reaches its dispatcher *)

Definition delivered (s : state) : Prop := ∀ ch,
  receivedOf (logs s ch) ++ sendsOf ch (todo s) = omap (broadcastOf ch) (processed s).

Lemma delivered_step async s s' : brokerStep async s s' → delivered s → delivered s'.
Proof.
  intros Hs Hd ch. specialize (Hd ch). destruct Hs as
    [b n ds ls tr pr cached item b' es He|b e es n ds ls tr pr Hne|b c ev es n ds ls tr pr d d' Hc He
    |b es n ds ls tr pr c d' ps Hstep Hps|b es n n' ds ls tr pr|b es n ds ls tr pr|b es n ds ls tr pr];
    simpl in *; [..|done|done|done].
  - rewrite app_nil_r in Hd. injection He as _ <-. rewrite omap_app, Hd. f_equal.
    destruct item as [msg|]; [|done]. rewrite sendsOf_processEvent. simpl. by destruct (broadcastOf ch (cached, msg)).
  - rewrite <-Hd. f_equal. destruct e; try done. by edestruct Hne.
  - unfold upd. destruct (decide (ch = c)) as [<-|Hch].
    + rewrite receivedOf_app, <-Hd, <-app_assoc. by rewrite decide_True by done.
    + rewrite <-Hd. by rewrite decide_False by congruence.
  - unfold upd. destruct (decide (ch = c)) as [<-|]; [|done]. by rewrite receivedOf_app, (receivedOf_published ps Hps), app_nil_r.
Qed.

(** C14. Every broadcast reaches its dispatcher: in every execution, for every
    channel, the events its dispatcher received, followed by those the
    processor is about to send it, are the broadcasts that the processed
    messages call for, each once and in the order of the messages. *)
Theorem broadcasts_reach_dispatchers async s ch :
  brokerReachable async s →
  receivedOf (logs s ch) ++ sendsOf ch (todo s) = omap (broadcastOf ch) (processed s).
Proof. intros Hr. by apply (rtc_preserved _ delivered start s (delivered_step async)). Qed.

(** ** A channel's dispatcher runs on its own *)

Lemma runDispatcher_step async ch : runDispatcher async ch = step async (channelWindows ch).
Proof. by destruct ch. Qed.

Lemma proj_step async s s' ch :
  brokerStep async s s' → rtc (step async (channelWindows ch)) (proj ch s) (proj ch s').
Proof.
  intros Hs. destruct Hs as
    [b n ds ls tr pr cached item b' es He|b e es n ds ls tr pr Hne|b c ev es n ds ls tr pr d d' Hc He
    |b es n ds ls tr pr c d' ps Hstep Hps|b es n n' ds ls tr pr Hn|b es n ds ls tr pr|b es n ds ls tr pr];
    unfold proj; simpl; [done|done|..|done|done].
  - unfold upd. destruct (decide (ch = c)) as [<-|]; [|done]. rewrite Hc. by apply rtc_once, step_event.
  - unfold upd. destruct (decide (ch = c)) as [<-|]; [|done]. rewrite runDispatcher_step in Hstep. by apply rtc_once.
  - by apply rtc_once, step_time.
Qed.

Lemma proj_reachable async s ch :
  brokerReachable async s → reachable zeroEvent async (channelWindows ch) (proj ch s).
Proof.
  intros Hr. apply (rtc_preserved (brokerStep async)
    (λ s, reachable zeroEvent async (channelWindows ch) (proj ch s)) start s); [|by apply rtc_refl|exact Hr].
  intros a b Hs Ha. unfold reachable in *. etrans; [exact Ha|by apply proj_step].
Qed.

(** ** Counters *)

Definition weight (f : effect → Z) (es : list effect) : Z := foldr (λ e n, f e + n) 0 es.

Definition isQ (ch : channel) (e : effect) : Z :=
  match e with CountQ c => if decide (c = ch) then 1 else 0 | _ => 0 end.
Definition isD (ch : channel) (e : effect) : Z :=
  match e with CountDispatched c => if decide (c = ch) then 1 else 0 | _ => 0 end.
Definition isS (ch : channel) (e : effect) : Z :=
  match e with SendUpdate c _ => if decide (c = ch) then 1 else 0 | _ => 0 end.

(** Dispatched or handed over, but not counted as queued. *)
Definition owed (ch : channel) (e : effect) : Z := isD ch e + isS ch e - isQ ch e.

Lemma weight_app f es es' : weight f (es ++ es') = weight f es + weight f es'.
Proof. induction es as [|e es IH]; simpl; lia. Qed.

Lemma weight_owed ch es : weight (owed ch) es = weight (isD ch) es + weight (isS ch) es - weight (isQ ch) es.
Proof. unfold owed. induction es as [|e es IH]; simpl; lia. Qed.

Lemma weight_isS ch es : weight (isS ch) es = Z.of_nat (length (sendsOf ch es)).
Proof.
  induction es as [|e es IH]; [done|]. destruct e; simpl; rewrite ?IH; try lia. case_decide; simpl; lia.
Qed.

(** No suffix counts more than it dispatches and hands over. *)
Fixpoint paidFirst (ch : channel) (es : list effect) : Prop :=
  match es with [] => True | e :: es' => 0 ≤ weight (owed ch) es ∧ paidFirst ch es' end.

Definition balanced (ch : channel) (es : list effect) : Prop := weight (owed ch) es = 0 ∧ paidFirst ch es.

Lemma balanced_app ch es es' : balanced ch es → balanced ch es' → balanced ch (es ++ es').
Proof.
  intros [E1 H1] [E2 H2]. split; [rewrite weight_app; lia|]. clear E1. induction es as [|e es IH]; [done|].
  destruct H1 as [Hw H1]. split; [|auto]. simpl in *. rewrite weight_app. lia.
Qed.

Lemma balanced_neutral ch es : Forall (λ e, owed ch e = 0) es → balanced ch es.
Proof.
  induction 1 as [|e es He _ [E1 H1]]; [done|]. split; [simpl; lia|]. split; [simpl; lia|done].
Qed.

Lemma balanced_route ch c e : counted ch = true → balanced ch (route c e).
Proof.
  intros Hc. destruct e as [e|]; [|done]. unfold route, ifCounted. destruct (decide (c = ch)) as [->|Hne].
  - rewrite Hc. case_bool_decide; unfold balanced; simpl; unfold owed; simpl; rewrite decide_True by done; lia.
  - apply balanced_neutral. destruct (counted c); case_bool_decide; repeat constructor;
      unfold owed; simpl; by rewrite ?decide_False by congruence.
Qed.

Lemma balanced_processEvent cached b msg ch :
  counted ch = true → balanced ch (processEvent cached b msg).
Proof.
  intros Hc. unfold processEvent. apply balanced_app.
  { apply balanced_neutral. unfold podEffects. destruct (getProxyUpdateEvent cached msg) as [[? [] []]|];
      [..|done]; destruct (proxyCreationChOn b), (proxyDeletionChOn b); repeat constructor. }
  apply balanced_app.
  { unfold channels. cbn [map concat]. repeat apply balanced_app; try by apply balanced_route. done. }
  apply balanced_neutral, Forall_app. split; [destruct (getMCSUpdateEvent msg); repeat constructor|].
  constructor; [done|]. unfold updateMetric. repeat case_bool_decide; repeat constructor.
Qed.

Lemma weight_isQ_route ch c e : 0 ≤ weight (isQ ch) (route c e) ≤ (if decide (c = ch) then 1 else 0).
Proof.
  destruct e as [e|]; unfold route, ifCounted; [|simpl; case_decide; lia].
  rewrite weight_app. destruct (counted c); case_bool_decide; simpl; case_decide; lia.
Qed.

Lemma weight_isQ_processEvent cached b msg ch : weight (isQ ch) (processEvent cached b msg) ≤ 1.
Proof.
  unfold processEvent. rewrite !weight_app.
  assert (weight (isQ ch) (podEffects b (getProxyUpdateEvent cached msg)) = 0) as ->.
  { unfold podEffects. destruct (getProxyUpdateEvent cached msg) as [[? [] []]|]; [..|done];
      by destruct (proxyCreationChOn b), (proxyDeletionChOn b). }
  assert (∀ o, weight (isQ ch) (match o with Some e => [Pub MCSEvents (ue_msg e) (ue_topic e)] | None => [] end) = 0)
    as -> by (by intros []).
  assert (weight (isQ ch) (updateMetric msg) = 0) as -> by (unfold updateMetric; by repeat case_bool_decide).
  unfold channels. cbn [map concat]. rewrite !weight_app.
  pose proof (λ c, weight_isQ_route ch c (getUpdateEvent cached c msg)) as H.
  pose proof (H Proxy). pose proof (H Ingress_). pose proof (H Gateway). pose proof (H Service_).
  pose proof (H Connector_). pose proof (H XNetwork). clear H.
  destruct ch; repeat case_decide; try discriminate; simpl in *; lia.
Qed.

Record counters (ch : channel) (s : state) : Prop := {
  c_queued : totalQ (broker s) ch = weight (isQ ch) (trace s) `mod` 2 ^ 64;
  c_dispatched : totalDispatched (broker s) ch =
    (weight (isD ch) (trace s) + total isPublication (logs s ch)) `mod` 2 ^ 64;
  c_sent : weight (isS ch) (trace s) = total isEvent (logs s ch);
  c_paid : weight (owed ch) (trace s) + weight (owed ch) (todo s) = 0 ∧ paidFirst ch (todo s);
  c_bound : weight (isQ ch) (trace s) + weight (isQ ch) (todo s) ≤ Z.of_nat (length (processed s))
}.

Lemma bump_mod f ch c n :
  f ch = n `mod` 2 ^ 64 → bump f c ch = (n + if decide (ch = c) then 1 else 0) `mod` 2 ^ 64.
Proof.
  intros E. unfold bump. rewrite E. case_decide; [|by rewrite Z.add_0_r].
  unfold add1. by rewrite Zplus_mod_idemp_l.
Qed.

Lemma countPublished_counters ch c ps b :
  counted ch = true → Forall isPublished ps →
  totalQ (countPublished c ps b) = totalQ b ∧
  ∀ n, totalDispatched b ch = n `mod` 2 ^ 64 →
    totalDispatched (countPublished c ps b) ch =
    (n + if decide (ch = c) then total isPublication ps else 0) `mod` 2 ^ 64.
Proof.
  intros Hc Hps. unfold countPublished. revert b. induction Hps as [|a ps (t & e & ->) _ IH]; intros b.
  { split; [done|]. simpl. intros n ->. by case_decide; rewrite Z.add_0_r. }
  simpl. unfold ifCounted in *. destruct (counted c) eqn:Hcc.
  - destruct (IH (foldl count b [CountDispatched c])) as [E1 E2]. split; [exact E1|]. intros n Hn.
    etrans; [apply (E2 (n + if decide (ch = c) then 1 else 0)); by apply bump_mod|]. f_equal. case_decide; lia.
  - destruct (IH b) as [E1 E2]. split; [exact E1|]. intros n Hn. etrans; [exact (E2 n Hn)|].
    by rewrite !decide_False by congruence.
Qed.

Lemma total_published ps :
  Forall isPublished ps → total isEvent ps = 0.
Proof. induction 1 as [|? ? (t & e & ->)]; simpl; lia. Qed.

Lemma counters_effect ch b e es n ds ls tr pr :
  (∀ c ev, e ≠ SendUpdate c ev) → counters ch (mkState b (e :: es) n ds ls tr pr) →
  counters ch (mkState (count b e) es n ds ls (tr ++ [e]) pr).
Proof.
  intros Hne [Q D S [P P'] B]. simpl in *.
  assert (isS ch e = 0) as HS by (destruct e; try done; by edestruct Hne).
  constructor; simpl; rewrite ?weight_app; simpl.
  - destruct e; simpl; rewrite ?Z.add_0_r; try done. rewrite (bump_mod _ _ _ _ Q).
    f_equal. f_equal. repeat case_decide; congruence || lia.
  - destruct e; simpl; rewrite ?Z.add_0_r; try done. rewrite (bump_mod _ _ _ _ D).
    f_equal. repeat case_decide; congruence || lia.
  - lia.
  - split; [lia|apply P'].
  - lia.
Qed.

Lemma counters_step async ch s s' :
  counted ch = true → brokerStep async s s' → counters ch s → counters ch s'.
Proof.
  intros Hcnt Hs Hc. destruct Hs as
    [b n ds ls tr pr cached item b' es He|b e es n ds ls tr pr Hne|b c ev es n ds ls tr pr d d' Hd He
    |b es n ds ls tr pr c d' ps Hstep Hps|b es n n' ds ls tr pr Hn|b es n ds ls tr pr|b es n ds ls tr pr];
    [| by apply counters_effect | | |by destruct Hc..]; destruct Hc as [Q D S [P P'] B]; simpl in *.
  - injection He as <- <-. constructor; simpl; [done..| |]; destruct item as [msg|]; simpl.
    + destruct (balanced_processEvent cached (mkBroker (proxyCreationChOn b) (proxyDeletionChOn b)
        (add1 (totalQEventCount b)) (totalQ b) (totalDispatched b)) msg ch Hcnt) as [E ?]. split; [lia|done].
    + by split.
    + rewrite length_app. simpl. pose proof (weight_isQ_processEvent cached (mkBroker (proxyCreationChOn b)
        (proxyDeletionChOn b) (add1 (totalQEventCount b)) (totalQ b) (totalDispatched b)) msg ch). lia.
    + rewrite app_nil_r. lia.
  - constructor; simpl; rewrite ?weight_app; simpl; rewrite ?Z.add_0_r; try done; try lia.
    + unfold upd. destruct (decide (ch = c)) as [<-|]; [|done]. rewrite total_app. simpl. by rewrite Z.add_0_r.
    + unfold upd. destruct (decide (ch = c)) as [<-|]; [rewrite total_app|]; simpl; repeat case_decide; congruence || lia.
    + split; [lia|apply P'].
  - destruct (countPublished_counters ch c ps b Hcnt Hps) as [E1 E2].
    constructor; simpl; [by rewrite E1| | |done|done].
    + rewrite (E2 _ D). unfold upd. f_equal. destruct (decide (ch = c)) as [<-|]; [rewrite total_app|]; lia.
    + unfold upd. destruct (decide (ch = c)) as [<-|]; [rewrite total_app, (total_published _ Hps)|]; lia.
Qed.

Lemma channelWindows_nonneg ch : 0 ≤ slidingWindow (channelWindows ch) ∧ 0 ≤ maxWindow (channelWindows ch).
Proof. by destruct ch. Qed.

Lemma paidFirst_owed ch es : paidFirst ch es → 0 ≤ weight (owed ch) es.
Proof. destruct es; simpl; [lia|tauto]. Qed.

Lemma weight_nonneg f es : (∀ e, 0 ≤ f e) → 0 ≤ weight f es.
Proof. intros Hf. induction es as [|e es IH]; simpl; [lia|]. specialize (Hf e). lia. Qed.

Lemma total_nonneg {E} (f : action E → Z) l : (∀ a, 0 ≤ f a) → 0 ≤ total f l.
Proof. intros Hf. induction l as [|a l IH]; simpl; [lia|]. specialize (Hf a). lia. Qed.

(** The counters are consistent: for a decade, in every execution that
    has processed fewer than 2^64 messages, a counted channel has dispatched
    at most as many events as were queued for it, and at most as many were
    queued as messages were processed. *)
Theorem dispatched_at_most_queued async s ch :
  brokerReachable async s → counted ch = true → clock s < noTimeout →
  Z.of_nat (length (processed s)) < 2 ^ 64 →
  totalDispatched (broker s) ch ≤ totalQ (broker s) ch ≤ Z.of_nat (length (processed s)).
Proof.
  intros Hr Hcnt Ht Hlen. assert (counters ch s) as [Q D S [P P'] B].
  { apply (rtc_preserved _ (counters ch) start s (λ a b, counters_step async ch a b Hcnt)); [|done]. by constructor. }
  destruct (channelWindows_nonneg ch) as [HW HM].
  pose proof (publications_le_events _ _ _ (proj ch s) HW HM (proj_reachable _ _ ch Hr) Ht) as HP. simpl in HP.
  apply paidFirst_owed in P'. rewrite (weight_owed ch (trace s)) in P.
  assert (∀ e, 0 ≤ isQ ch e) as HQ by (intros []; simpl; try case_decide; lia).
  assert (∀ e, 0 ≤ isD ch e) as HD by (intros []; simpl; try case_decide; lia).
  pose proof (weight_nonneg _ (todo s) HQ). pose proof (weight_nonneg _ (trace s) HD).
  assert (0 ≤ total isPublication (logs s ch)) by (apply total_nonneg; by intros []).
  rewrite Q, D, !Z.mod_small by lia. lia.
Qed.

(** ** Needless updates *)

(** The kinds of XAccessControl events are those of AccessControl events,
    so a change of an XNetwork access control updates every proxy, and a
    change of a mesh access control the XNetwork. *)
Theorem access_control_kinds_collide cached old new :
  getUpdateEvent cached Proxy (mkMsg XAccessControlUpdated old new) =
    Some (broadcast ProxyUpdate (mkMsg XAccessControlUpdated old new)) ∧
  getUpdateEvent cached XNetwork (mkMsg AccessControlUpdated old new) =
    Some (broadcast XNetworkUpdate (mkMsg AccessControlUpdated old new)).
Proof. by split. Qed.

(** A MeshConfig update with a sampled fraction updates every proxy even
    when nothing changed: the tracing specifications are compared with their
    pointers, and two decoded objects have different ones. *)
Theorem sampled_fraction_always_updates m n p q :
  trc_SampledFraction (obs_Tracing (Observability (Spec m))) = Some p →
  trc_SampledFraction (obs_Tracing (Observability (Spec n))) = Some q →
  ptr_addr p ≠ ptr_addr q →
  meshConfigUpdated (mkMsg MeshConfigUpdated (Some (OMeshConfig m)) (Some (OMeshConfig n))) =
    proxyBroadcast (mkMsg MeshConfigUpdated (Some (OMeshConfig m)) (Some (OMeshConfig n))).
Proof.
  intros Hp Hq Hne. unfold meshConfigUpdated. cbn [OldObj NewObj].
  assert (TracingSpec_eqb (obs_Tracing (Observability (Spec m))) (obs_Tracing (Observability (Spec n))) = false) as Ht.
  { unfold TracingSpec_eqb, ptr_eq. rewrite Hp, Hq. simpl. rewrite (bool_decide_eq_false_2 (Some _ = _)) by congruence.
    apply andb_false_r. }
  unfold specChanged. rewrite Ht. cbn [negb].
  by repeat (rewrite orb_true_r || rewrite orb_true_l).
Qed.

(** ** Witnesses *)

(** A broker that took a service update from the queue. *)
Definition demoMsg : PubSubMessage := mkMsg ServiceUpdate None None.

Definition demoState : state :=
  mkState (processNextItem (λ _, false) NewBroker (Some demoMsg)).1
    (processNextItem (λ _, false) NewBroker (Some demoMsg)).2 0
    (λ _, Some (newDispatcher zeroEvent 0)) (λ _, []) [] [(λ _, false, demoMsg)].

Lemma demo_reachable : brokerReachable true demoState.
Proof. apply rtc_once. by apply (b_item true NewBroker 0 _ _ [] [] (λ _, false) (Some demoMsg)). Qed.

Lemma broadcasts_reach_dispatchers_witness :
  receivedOf (logs demoState Service_) ++ sendsOf Service_ (todo demoState) = [broadcast ServiceUpdate demoMsg].
Proof.
  etrans; [apply (broadcasts_reach_dispatchers true demoState Service_), demo_reachable|reflexivity].
Defined.

Lemma dispatched_at_most_queued_witness :
  totalDispatched (broker demoState) Service_ ≤ totalQ (broker demoState) Service_ ≤ 1.
Proof.
  apply (dispatched_at_most_queued true demoState Service_); [apply demo_reachable|reflexivity..].
Defined.

Definition demoConfig (addr : positive) : MeshConfig :=
  mkMeshConfig "fsm-system" "fsm-mesh-config"
    (mkMeshConfigSpec (ClusterSet zeroSpec) (Sidecar zeroSpec) (RepoServer zeroSpec) (Traffic zeroSpec)
      (Warmup zeroSpec)
      (mkObservability "" (mkTracing true 9411 "jaeger" "/api" (Some (mkPtr addr "1.0")))
        (obs_RemoteLogging (Observability zeroSpec)))
      (Certificate zeroSpec) (mcs_FeatureFlags zeroSpec) (PluginChains zeroSpec) (Ingress zeroSpec)
      (GatewayAPI zeroSpec) (ServiceLB zeroSpec) (FLB zeroSpec) (EgressGatewayCfg zeroSpec) (Image zeroSpec)
      (Misc zeroSpec) (Connector zeroSpec)).

Lemma sampled_fraction_always_updates_witness :
  meshConfigUpdated (mkMsg MeshConfigUpdated (Some (OMeshConfig (demoConfig 1))) (Some (OMeshConfig (demoConfig 2)))) =
  proxyBroadcast (mkMsg MeshConfigUpdated (Some (OMeshConfig (demoConfig 1))) (Some (OMeshConfig (demoConfig 2)))).
Proof.
  apply (sampled_fraction_always_updates _ _ (mkPtr 1 "1.0") (mkPtr 2 "1.0")); [reflexivity..|discriminate].
Defined.

End MessagingFacts.
