(* ===== verification/Pipy.v ===== *)
(** * The configuration of a pipy sidecar:
    pkg/sidecar/v1/providers/pipy/repo (types.go, policy.go, ratelimit.go)

    A [PipyConf] is built by in-place updates of a tree of maps.  An
    operation on a part is a function on that part; a part reached through a
    pointer that has one owner is updated where it lives.  Two parts are
    shared: outbound matches are reached by port and by name, so the lists by
    port hold their names; the security specification of a source is written
    after it was stored under several addresses, so it lives in a store
    ([pc_specs]) and addresses hold its index.  Numbers of seconds, which
    the code computes as floats, are kept as the durations they come from.  A nil map and an empty one
    are the same: the code only tells them apart to allocate. *)

From S2P Require Import Prelude Identity Service Api TrafficPolicy Cidr.
Import Identity.Identity Service.Service Api.Api.

Module Pipy.

#[local] Open Scope Z_scope.

(** ** Routes *)

Record HTTPMatchRule := mkMatchRule {
  hmr_Path : string; hmr_Type : string; hmr_Headers : gmap string string; hmr_Methods : list string;
  hmr_allowedAnyService : bool; hmr_allowedAnyMethod : bool }.

#[export] Instance HTTPMatchRule_eq_dec : EqDecision HTTPMatchRule.
Proof. solve_decision. Defined.

Definition addMethodMatch (hmr : HTTPMatchRule) (method : string) : HTTPMatchRule :=
  if hmr_allowedAnyMethod hmr then hmr
  else
    let any := bool_decide (method = "*") in
    mkMatchRule (hmr_Path hmr) (hmr_Type hmr) (hmr_Headers hmr)
      (if any then [] else hmr_Methods hmr ++ [method]) (hmr_allowedAnyService hmr) any.

(** A map of clusters to weights. *)
Abbreviation WeightedClusters := (gmap string Z) (only parsing).

Record HTTPHeaderValue := mkHeaderValue { phv_Name : string; phv_Value : string }.

(** [StatTimeWindow] is a float64 that only takes the values 0, 1, 60, 3600. *)
Record TCPLocalRateLimit := mkTCPLocal {
  ptl_Connections : Z; ptl_StatTimeWindow : Z; ptl_Burst : Z }.

Record HTTPLocalRateLimit := mkHTTPLocal {
  phl_Requests : Z; phl_StatTimeWindow : Z; phl_Burst : Z; phl_ResponseStatusCode : Z;
  phl_ResponseHeadersToAdd : list HTTPHeaderValue }.

Definition statTimeWindow (unit : string) : Z :=
  if bool_decide (unit = "second") then 1
  else if bool_decide (unit = "minute") then 60
  else if bool_decide (unit = "hour") then 3600 else 0.

Definition newTCPLocalRateLimit (spec : option TCPLocalRateLimitSpec) : option TCPLocalRateLimit :=
  s ← spec; Some (mkTCPLocal (trl_Connections s) (statTimeWindow (trl_Unit s)) (trl_Burst s)).

Definition newHTTPLocalRateLimit (spec : option HTTPLocalRateLimitSpec) : option HTTPLocalRateLimit :=
  s ← spec; Some (mkHTTPLocal (hrl_Requests s) (statTimeWindow (hrl_Unit s)) (hrl_Burst s)
    (hrl_ResponseStatusCode s)
    (map (λ h, mkHeaderValue (hv_Name h) (hv_Value h)) (slice_elems (hrl_ResponseHeadersToAdd s)))).

(** [TCPRateLimit], [HTTPRateLimit] and [HTTPPerRouteRateLimit] wrap a local
    limit that may be nil. *)
Definition newTCPRateLimit (spec : option LocalRateLimitSpec) : option (option TCPLocalRateLimit) :=
  s ← spec; t ← lrl_TCP s; Some (newTCPLocalRateLimit (Some t)).

Definition newHTTPRateLimit (spec : option LocalRateLimitSpec) : option (option HTTPLocalRateLimit) :=
  s ← spec; h ← lrl_HTTP s; Some (newHTTPLocalRateLimit (Some h)).

Definition newHTTPPerRouteRateLimit (spec : option HTTPPerRouteRateLimitSpec)
    : option (option HTTPLocalRateLimit) :=
  s ← spec; Some (newHTTPLocalRateLimit (prl_Local s)).

(** [HTTPRouteRule] with the rate limit of [InboundHTTPRouteRule]; that of an
    outbound rule stays nil. *)
Record HTTPRouteRule := mkRouteRule {
  hrr_Match : HTTPMatchRule; hrr_TargetClusters : WeightedClusters; hrr_AllowedServices : list string;
  hrr_RateLimit : option (option HTTPLocalRateLimit) }.

Definition addWeightedCluster (clusterName : string) (weight : Z) (r : HTTPRouteRule) : HTTPRouteRule :=
  mkRouteRule (hrr_Match r) (<[clusterName := weight]> (hrr_TargetClusters r)) (hrr_AllowedServices r)
    (hrr_RateLimit r).

(** The flag is a field of the embedded match rule. *)
Definition addAllowedService (serviceName : string) (r : HTTPRouteRule) : HTTPRouteRule :=
  let m := hrr_Match r in
  if hmr_allowedAnyService m then r
  else
    let any := bool_decide (serviceName = "*") in
    mkRouteRule (mkMatchRule (hmr_Path m) (hmr_Type m) (hmr_Headers m) (hmr_Methods m) any (hmr_allowedAnyMethod m))
      (hrr_TargetClusters r) (if any then [] else hrr_AllowedServices r ++ [serviceName]) (hrr_RateLimit r).

Definition setRateLimit (spec : option HTTPPerRouteRateLimitSpec) (r : HTTPRouteRule) : HTTPRouteRule :=
  mkRouteRule (hrr_Match r) (hrr_TargetClusters r) (hrr_AllowedServices r) (newHTTPPerRouteRateLimit spec).

(** The configuration of a plugin: raw JSON, or nil. *)
Abbreviation Plugins := (gmap string (option string)) (only parsing).

Record InboundHTTPRouteRules := mkInRules {
  irr_RouteRules : list HTTPRouteRule; irr_Plugins : Plugins;
  irr_HTTPRateLimit : option (option HTTPLocalRateLimit); irr_AllowedEndpoints : gmap string string }.

Definition emptyInRules : InboundHTTPRouteRules := mkInRules [] ∅ None ∅.

Record OutboundHTTPRouteRules := mkOutRules {
  orr_RouteRules : list HTTPRouteRule; orr_EgressForwardGateway : option string; orr_Plugins : Plugins }.

Definition emptyOutRules : OutboundHTTPRouteRules := mkOutRules [] None ∅.

Definition onRules (f : list HTTPRouteRule → list HTTPRouteRule) (r : InboundHTTPRouteRules) : InboundHTTPRouteRules :=
  mkInRules (f (irr_RouteRules r)) (irr_Plugins r) (irr_HTTPRateLimit r) (irr_AllowedEndpoints r).

Definition onOutRules (f : list HTTPRouteRule → list HTTPRouteRule) (r : OutboundHTTPRouteRules) : OutboundHTTPRouteRules :=
  mkOutRules (f (orr_RouteRules r)) (orr_EgressForwardGateway r) (orr_Plugins r).

Definition setHTTPServiceRateLimit (rateLimit : option RateLimitSpec) (r : InboundHTTPRouteRules) : InboundHTTPRouteRules :=
  mkInRules (irr_RouteRules r) (irr_Plugins r)
    (rl ← rateLimit; l ← rl_Local rl; newHTTPRateLimit (Some l)) (irr_AllowedEndpoints r).

Definition setPlugins (plugins : Plugins) (r : InboundHTTPRouteRules) : InboundHTTPRouteRules :=
  mkInRules (irr_RouteRules r) plugins (irr_HTTPRateLimit r) (irr_AllowedEndpoints r).

Definition addAllowedEndpoint (address serviceName : string) (r : InboundHTTPRouteRules) : InboundHTTPRouteRules :=
  mkInRules (irr_RouteRules r) (irr_Plugins r) (irr_HTTPRateLimit r)
    (match irr_AllowedEndpoints r !! address with
     | Some _ => irr_AllowedEndpoints r
     | None => <[address := serviceName]> (irr_AllowedEndpoints r)
     end).

(** The position of the rule with this match, and whether it was there; the
    comparison is [reflect.DeepEqual] on all fields of the match. *)
Definition newHTTPServiceRouteRule (matchRule : HTTPMatchRule) (rules : list HTTPRouteRule)
    : list HTTPRouteRule * nat * bool :=
  match list_find (λ r, matchRule = hrr_Match r) rules with
  | Some (i, _) => (rules, i, true)
  | None => (rules ++ [mkRouteRule matchRule ∅ [] None], length rules, false)
  end.

(** ** Hosts *)

Record HTTPRouteRuleRef := mkRuleRef { ref_RuleName : string; ref_Service : string }.

Abbreviation HTTPHostPort2Service := (gmap string HTTPRouteRuleRef) (only parsing).

(** [strings.Compare(a, b) < 0] on rule names. *)
Definition nameBefore (a b : string) : bool := String.ltb a b.

Definition in_addHTTPHostPort2Service (hostPort : string) (ruleRef : HTTPRouteRuleRef)
    (m : HTTPHostPort2Service) : HTTPHostPort2Service :=
  match m !! hostPort with
  | Some pre =>
      let clen := String.length (ref_RuleName ruleRef) in
      let plen := String.length (ref_RuleName pre) in
      if bool_decide (clen < plen)%nat then <[hostPort := ruleRef]> m
      else if bool_decide (clen = plen) && nameBefore (ref_RuleName ruleRef) (ref_RuleName pre)
      then <[hostPort := ruleRef]> m else m
  | None => <[hostPort := ruleRef]> m
  end.

Definition out_addHTTPHostPort2Service (hostPort : string) (ruleRef : HTTPRouteRuleRef) (desiredSuffix : string)
    (m : HTTPHostPort2Service) : HTTPHostPort2Service :=
  match m !! hostPort with
  | Some pre =>
      let clen := String.length (ref_RuleName ruleRef) in
      let plen := String.length (ref_RuleName pre) in
      if bool_decide (0 < String.length desiredSuffix)%nat && HasSuffix (ref_RuleName ruleRef) desiredSuffix &&
         HasSuffix (ref_RuleName pre) desiredSuffix
      then if bool_decide (clen < plen)%nat then <[hostPort := ruleRef]> m else m
      else if bool_decide (clen < plen)%nat then <[hostPort := ruleRef]> m
      else if bool_decide (clen = plen) && nameBefore (ref_RuleName ruleRef) (ref_RuleName pre)
      then <[hostPort := ruleRef]> m else m
  | None => <[hostPort := ruleRef]> m
  end.

(** ** Inbound *)

Record SourceSecuritySpec := mkSourceSpec {
  sss_MTLS : bool; sss_SkipClientCertValidation : bool; sss_AuthenticatedPrincipals : list string }.

(** [InboundTCPServiceRouteRules] and [OutboundTCPServiceRouteRules]; inbound
    rules have no egress fields and leave them at their zero values. *)
Record TCPServiceRouteRules := mkTCPRules {
  tsr_TargetClusters : WeightedClusters; tsr_AllowedEgressTraffic : bool;
  tsr_EgressForwardGateway : option string; tsr_Plugins : Plugins }.

Definition emptyTCPRules : TCPServiceRouteRules := mkTCPRules ∅ false None ∅.

Definition tcp_addWeightedCluster (clusterName : string) (weight : Z) (r : TCPServiceRouteRules) : TCPServiceRouteRules :=
  mkTCPRules (<[clusterName := weight]> (tsr_TargetClusters r)) (tsr_AllowedEgressTraffic r)
    (tsr_EgressForwardGateway r) (tsr_Plugins r).

Definition tcp_setPlugins (plugins : Plugins) (r : TCPServiceRouteRules) : TCPServiceRouteRules :=
  mkTCPRules (tsr_TargetClusters r) (tsr_AllowedEgressTraffic r) (tsr_EgressForwardGateway r) plugins.

(** Addresses hold nil or an index into the store of specifications. *)
Record InboundTrafficMatch := mkInMatch {
  im_Port : Z; im_Protocol : string; im_SourceIPRanges : gmap string (option nat);
  im_HTTPHostPort2Service : HTTPHostPort2Service;
  im_HTTPServiceRouteRules : gmap string InboundHTTPRouteRules;
  im_TCPServiceRouteRules : option TCPServiceRouteRules;
  im_TCPRateLimit : option (option TCPLocalRateLimit) }.

Definition emptyInMatch : InboundTrafficMatch := mkInMatch 0 "" ∅ ∅ ∅ None None.

(** The protocol is lower case, and tcp-server-first is tcp. *)
Definition pipyProtocol (protocol : string) : string :=
  let protocol := ToLower protocol in
  if bool_decide (TrafficPolicy.TrafficPolicy.ProtocolTCPServerFirst = protocol)
  then TrafficPolicy.TrafficPolicy.ProtocolTCP else protocol.

Definition in_setProtocol (protocol : string) (m : InboundTrafficMatch) : InboundTrafficMatch :=
  mkInMatch (im_Port m) (pipyProtocol protocol) (im_SourceIPRanges m) (im_HTTPHostPort2Service m)
    (im_HTTPServiceRouteRules m) (im_TCPServiceRouteRules m) (im_TCPRateLimit m).

Definition in_setPort (port : Z) (m : InboundTrafficMatch) : InboundTrafficMatch :=
  mkInMatch port (im_Protocol m) (im_SourceIPRanges m) (im_HTTPHostPort2Service m)
    (im_HTTPServiceRouteRules m) (im_TCPServiceRouteRules m) (im_TCPRateLimit m).

Definition setTCPServiceRateLimit (rateLimit : option RateLimitSpec) (m : InboundTrafficMatch) : InboundTrafficMatch :=
  mkInMatch (im_Port m) (im_Protocol m) (im_SourceIPRanges m) (im_HTTPHostPort2Service m)
    (im_HTTPServiceRouteRules m) (im_TCPServiceRouteRules m)
    (rl ← rateLimit; l ← rl_Local rl; newTCPRateLimit (Some l)).

Definition addSourceIPRange (ipRange : string) (sourceSpec : option nat) (m : InboundTrafficMatch) : InboundTrafficMatch :=
  mkInMatch (im_Port m) (im_Protocol m)
    (match im_SourceIPRanges m !! ipRange with
     | Some _ => im_SourceIPRanges m
     | None => <[ipRange := sourceSpec]> (im_SourceIPRanges m)
     end) (im_HTTPHostPort2Service m)
    (im_HTTPServiceRouteRules m) (im_TCPServiceRouteRules m) (im_TCPRateLimit m).

Definition in_bindHost (hostPort : string) (ruleRef : HTTPRouteRuleRef) (m : InboundTrafficMatch) : InboundTrafficMatch :=
  mkInMatch (im_Port m) (im_Protocol m) (im_SourceIPRanges m)
    (in_addHTTPHostPort2Service hostPort ruleRef (im_HTTPHostPort2Service m))
    (im_HTTPServiceRouteRules m) (im_TCPServiceRouteRules m) (im_TCPRateLimit m).

(** [newHTTPServiceRouteRules] followed by an update of what it returns: nil
    for an empty name, which every update dereferences. *)
Definition in_withRules (name : string) (f : InboundHTTPRouteRules → go InboundHTTPRouteRules)
    (m : InboundTrafficMatch) : go InboundTrafficMatch :=
  if bool_decide (name = "") then Panic
  else
    rules ← f (default emptyInRules (im_HTTPServiceRouteRules m !! name));
    Ret (mkInMatch (im_Port m) (im_Protocol m) (im_SourceIPRanges m) (im_HTTPHostPort2Service m)
           (<[name := rules]> (im_HTTPServiceRouteRules m)) (im_TCPServiceRouteRules m) (im_TCPRateLimit m)).

Definition in_withTCPRules (f : TCPServiceRouteRules → TCPServiceRouteRules) (m : InboundTrafficMatch) : InboundTrafficMatch :=
  mkInMatch (im_Port m) (im_Protocol m) (im_SourceIPRanges m) (im_HTTPHostPort2Service m)
    (im_HTTPServiceRouteRules m) (Some (f (default emptyTCPRules (im_TCPServiceRouteRules m)))) (im_TCPRateLimit m).

(** A cluster of the inbound side: endpoints and their weights. *)
Abbreviation WeightedEndpoint := (gmap string Z) (only parsing).

Record InboundPolicy := mkInbound {
  ip_TrafficMatches : gmap Z InboundTrafficMatch; ip_ClustersConfigs : gmap string WeightedEndpoint }.

Definition in_newTrafficMatch (port : Z) (itp : InboundPolicy) : InboundTrafficMatch :=
  default emptyInMatch (ip_TrafficMatches itp !! port).

Definition in_setMatch (port : Z) (m : InboundTrafficMatch) (itp : InboundPolicy) : InboundPolicy :=
  mkInbound (<[port := m]> (ip_TrafficMatches itp)) (ip_ClustersConfigs itp).

(** The regular expression [:\d+$]: a colon, then digits up to the end. *)
Fixpoint allDigits (s : string) : bool :=
  match s with EmptyString => true | String a s => is_digit a && allDigits s end.

Fixpoint addrWithPort (s : string) : bool :=
  match s with
  | EmptyString => false
  | String a s' => (bool_decide (a = ":"%char) && negb (bool_decide (s' = "")) && allDigits s') || addrWithPort s'
  end.

Definition hostPort (address : string) (port : Z) : string :=
  if addrWithPort address then address else address +:+ ":" +:+ pretty port.

Definition addWeightedEndpoint (address : string) (port weight : Z) (we : WeightedEndpoint) : WeightedEndpoint :=
  <[hostPort address port := weight]> we.

(** [newClusterConfigs] of an inbound policy and [addWeightedEndpoint] on what
    it returns. *)
Definition in_addEndpoint (clusterName address : string) (port weight : Z) (itp : InboundPolicy) : InboundPolicy :=
  mkInbound (ip_TrafficMatches itp)
    (<[clusterName := addWeightedEndpoint address port weight (default ∅ (ip_ClustersConfigs itp !! clusterName))]>
       (ip_ClustersConfigs itp)).

(** ** Outbound *)

Record Certificate := mkCert {
  FsmIssued : option bool; crt_CommonName : option string; SubjectAltNames : list string;
  Expiration : string; CertChain : string; PrivateKey : string; IssuingCA : string }.

Definition emptyCertificate : Certificate := mkCert None None [] "" "" "" "".

Record DestinationSecuritySpec := mkDestinationSpec { dss_SourceCert : option Certificate }.

Record OutboundTrafficMatch := mkOutMatch {
  om_DestinationIPRanges : gmap string (option DestinationSecuritySpec);
  om_Port : Z; om_Protocol : string;
  om_HTTPHostPort2Service : HTTPHostPort2Service;
  om_HTTPServiceRouteRules : gmap string OutboundHTTPRouteRules;
  om_TCPServiceRouteRules : option TCPServiceRouteRules }.

Definition emptyOutMatch : OutboundTrafficMatch := mkOutMatch ∅ 0 "" ∅ ∅ None.

Definition out_setProtocol (protocol : string) (m : OutboundTrafficMatch) : OutboundTrafficMatch :=
  mkOutMatch (om_DestinationIPRanges m) (om_Port m) (pipyProtocol protocol) (om_HTTPHostPort2Service m)
    (om_HTTPServiceRouteRules m) (om_TCPServiceRouteRules m).

Definition out_setPort (port : Z) (m : OutboundTrafficMatch) : OutboundTrafficMatch :=
  mkOutMatch (om_DestinationIPRanges m) port (om_Protocol m) (om_HTTPHostPort2Service m)
    (om_HTTPServiceRouteRules m) (om_TCPServiceRouteRules m).

Definition addDestinationIPRange (ipRange : string) (spec : option DestinationSecuritySpec)
    (m : OutboundTrafficMatch) : OutboundTrafficMatch :=
  mkOutMatch (match om_DestinationIPRanges m !! ipRange with
              | Some _ => om_DestinationIPRanges m
              | None => <[ipRange := spec]> (om_DestinationIPRanges m)
              end) (om_Port m) (om_Protocol m) (om_HTTPHostPort2Service m)
    (om_HTTPServiceRouteRules m) (om_TCPServiceRouteRules m).

Definition out_bindHost (hostPort : string) (ruleRef : HTTPRouteRuleRef) (desiredSuffix : string)
    (m : OutboundTrafficMatch) : OutboundTrafficMatch :=
  mkOutMatch (om_DestinationIPRanges m) (om_Port m) (om_Protocol m)
    (out_addHTTPHostPort2Service hostPort ruleRef desiredSuffix (om_HTTPHostPort2Service m))
    (om_HTTPServiceRouteRules m) (om_TCPServiceRouteRules m).

Definition out_withRules (name : string) (f : OutboundHTTPRouteRules → OutboundHTTPRouteRules)
    (m : OutboundTrafficMatch) : go OutboundTrafficMatch :=
  if bool_decide (name = "") then Panic
  else Ret (mkOutMatch (om_DestinationIPRanges m) (om_Port m) (om_Protocol m) (om_HTTPHostPort2Service m)
              (<[name := f (default emptyOutRules (om_HTTPServiceRouteRules m !! name))]> (om_HTTPServiceRouteRules m))
              (om_TCPServiceRouteRules m)).

Definition out_withTCPRules (f : TCPServiceRouteRules → TCPServiceRouteRules) (m : OutboundTrafficMatch) : OutboundTrafficMatch :=
  mkOutMatch (om_DestinationIPRanges m) (om_Port m) (om_Protocol m) (om_HTTPHostPort2Service m)
    (om_HTTPServiceRouteRules m) (Some (f (default emptyTCPRules (om_TCPServiceRouteRules m)))).

Definition setAllowedEgressTraffic (allowed : bool) (r : TCPServiceRouteRules) : TCPServiceRouteRules :=
  mkTCPRules (tsr_TargetClusters r) allowed (tsr_EgressForwardGateway r) (tsr_Plugins r).

Definition tcp_setEgressForwardGateway (gateway : option string) (r : TCPServiceRouteRules) : TCPServiceRouteRules :=
  mkTCPRules (tsr_TargetClusters r) (tsr_AllowedEgressTraffic r) gateway (tsr_Plugins r).

Definition out_setEgressForwardGateway (gateway : option string) (r : OutboundHTTPRouteRules) : OutboundHTTPRouteRules :=
  mkOutRules (orr_RouteRules r) gateway (orr_Plugins r).

Definition out_setPlugins (plugins : Plugins) (r : OutboundHTTPRouteRules) : OutboundHTTPRouteRules :=
  mkOutRules (orr_RouteRules r) (orr_EgressForwardGateway r) plugins.

Record WeightedZoneEndpoint := mkZoneEndpoint {
  wze_Weight : Z; wze_Cluster : string; wze_LBType : string; wze_ContextPath : string; wze_ViaGateway : string }.

Record ClusterConfig := mkClusterConfig {
  cc_Endpoints : gmap string WeightedZoneEndpoint;
  cc_ConnectionSettings : option ConnectionSettingsSpec;
  cc_RetryPolicy : option RetryPolicySpec;
  cc_SourceCert : option Certificate }.

Definition emptyClusterConfig : ClusterConfig := mkClusterConfig ∅ None None None.

Definition addWeightedZoneEndpoint (address : string) (port weight : Z) (cluster lbType contextPath viaGw : string)
    (c : ClusterConfig) : ClusterConfig :=
  mkClusterConfig (<[hostPort address port := mkZoneEndpoint weight cluster lbType contextPath viaGw]> (cc_Endpoints c))
    (cc_ConnectionSettings c) (cc_RetryPolicy c) (cc_SourceCert c).

Definition cc_addWeightedEndpoint (address : string) (port weight : Z) (c : ClusterConfig) : ClusterConfig :=
  addWeightedZoneEndpoint address port weight "" "" "" "" c.

Definition copyCircuitBreaking (b : HTTPCircuitBreaking) : HTTPCircuitBreaking :=
  {| hcb_StatTimeWindow := hcb_StatTimeWindow b; hcb_MinRequestAmount := hcb_MinRequestAmount b;
     hcb_DegradedTimeWindow := hcb_DegradedTimeWindow b; hcb_SlowTimeThreshold := hcb_SlowTimeThreshold b;
     hcb_SlowAmountThreshold := hcb_SlowAmountThreshold b; hcb_SlowRatioThreshold := hcb_SlowRatioThreshold b;
     hcb_ErrorAmountThreshold := hcb_ErrorAmountThreshold b; hcb_ErrorRatioThreshold := hcb_ErrorRatioThreshold b;
     hcb_DegradedStatusCode := hcb_DegradedStatusCode b;
     hcb_DegradedResponseContent := hcb_DegradedResponseContent b |}.

Definition setConnectionSettings (settings : option ConnectionSettingsSpec) (c : ClusterConfig) : ClusterConfig :=
  mkClusterConfig (cc_Endpoints c)
    (s ← settings;
     Some {| cs_TCP := t ← cs_TCP s;
               Some {| tcs_MaxConnections := tcs_MaxConnections t; tcs_ConnectTimeout := tcs_ConnectTimeout t |};
             cs_HTTP := h ← cs_HTTP s;
               Some {| hcs_MaxRequests := hcs_MaxRequests h;
                       hcs_MaxRequestsPerConnection := hcs_MaxRequestsPerConnection h;
                       hcs_MaxPendingRequests := hcs_MaxPendingRequests h; hcs_MaxRetries := hcs_MaxRetries h;
                       hcs_CircuitBreaking := copyCircuitBreaking <$> hcs_CircuitBreaking h |} |})
    (cc_RetryPolicy c) (cc_SourceCert c).

(** Both durations are pointers that are dereferenced. *)
Definition setRetryPolicy (policy : option RetryPolicySpec) (c : ClusterConfig) : go ClusterConfig :=
  match policy with
  | None => Ret (mkClusterConfig (cc_Endpoints c) (cc_ConnectionSettings c) None (cc_SourceCert c))
  | Some p =>
      perTryTimeout ← deref (rp_PerTryTimeout p);
      backoff ← deref (rp_RetryBackoffBaseInterval p);
      Ret (mkClusterConfig (cc_Endpoints c) (cc_ConnectionSettings c)
             (Some (mkRetryPolicy (rp_RetryOn p) (Some perTryTimeout) (rp_NumRetries p) (Some backoff)))
             (cc_SourceCert c))
  end.

Definition setSourceCert (cert : option Certificate) (c : ClusterConfig) : ClusterConfig :=
  mkClusterConfig (cc_Endpoints c) (cc_ConnectionSettings c) (cc_RetryPolicy c) cert.

(** Matches by name; the lists by port hold names. *)
Record OutboundPolicy := mkOutbound {
  op_named : gmap string OutboundTrafficMatch;
  op_TrafficMatches : gmap Z (list string);
  op_ClustersConfigs : gmap string ClusterConfig }.

Definition namedPort (port : Z) (name : string) : string := pretty port +:+ "=" +:+ name.

(** The policy, the match and whether it was there. *)
Definition out_newTrafficMatch (port : Z) (name : string) (otp : OutboundPolicy)
    : OutboundPolicy * OutboundTrafficMatch * bool :=
  let key := namedPort port name in
  match op_named otp !! key with
  | Some m => (otp, m, true)
  | None => (mkOutbound (<[key := emptyOutMatch]> (op_named otp))
               (<[port := default [] (op_TrafficMatches otp !! port) ++ [key]]> (op_TrafficMatches otp))
               (op_ClustersConfigs otp), emptyOutMatch, false)
  end.

Definition out_setMatch (port : Z) (name : string) (m : OutboundTrafficMatch) (otp : OutboundPolicy) : OutboundPolicy :=
  mkOutbound (<[namedPort port name := m]> (op_named otp)) (op_TrafficMatches otp) (op_ClustersConfigs otp).

(** [newClusterConfigs] of an outbound policy and an update of what it returns. *)
Definition out_withCluster (clusterName : string) (f : ClusterConfig → go ClusterConfig) (otp : OutboundPolicy) : go OutboundPolicy :=
  c ← f (default emptyClusterConfig (op_ClustersConfigs otp !! clusterName));
  Ret (mkOutbound (op_named otp) (op_TrafficMatches otp) (<[clusterName := c]> (op_ClustersConfigs otp))).

(** ** Forward *)

Record EgressGatewayClusterConfigs := mkGatewayConfigs { egcc_Cluster : ClusterConfig; egcc_Mode : string }.

Record ForwardPolicy := mkForward {
  fp_ForwardMatches : gmap string WeightedClusters;
  fp_EgressGateways : gmap string EgressGatewayClusterConfigs }.

Definition newForwardMatch (rule : string) (ftp : ForwardPolicy) : ForwardPolicy :=
  mkForward (<[rule := default ∅ (fp_ForwardMatches ftp !! rule)]> (fp_ForwardMatches ftp)) (fp_EgressGateways ftp).

Definition setForward (rule clusterName : string) (weight : Z) (ftp : ForwardPolicy) : ForwardPolicy :=
  mkForward (<[rule := <[clusterName := weight]> (default ∅ (fp_ForwardMatches ftp !! rule))]> (fp_ForwardMatches ftp))
    (fp_EgressGateways ftp).

(** [newEgressGateway] and an update of what it returns. *)
Definition withEgressGateway (clusterName mode : string) (f : ClusterConfig → ClusterConfig) (ftp : ForwardPolicy) : ForwardPolicy :=
  let g := default (mkGatewayConfigs emptyClusterConfig mode) (fp_EgressGateways ftp !! clusterName) in
  mkForward (fp_ForwardMatches ftp)
    (<[clusterName := mkGatewayConfigs (f (egcc_Cluster g)) (egcc_Mode g)]> (fp_EgressGateways ftp)).

End Pipy.
