(* ===== verification/PipyConf.v ===== *)
(** * The configuration as a whole: rebalancing, sorting, plugins and packing
    (policy.go, plugin.go, jobs.go)

    [hashstructure.Hash] is third-party code and an argument.  The order of
    [range] over a map is [MapRange], that of an unstable sort [SliceSort].
    The lowering of weights while an endpoint warms up computes with floats;
    it is an argument too, the identity where no policy applies. *)

From S2P Require Import Prelude Identity Service Api TrafficPolicy Cidr Pipy.
Import Identity.Identity Service.Service Api.Api Cidr.Cidr Pipy.Pipy.

Module PipyConf.

#[local] Open Scope Z_scope.

(** ** Plugins (plugin.go)

    The mount points of a plugin are one map, shared by pointer between all
    services that configure the plugin: services hold the plugin's name. *)

Record PluginPolicies := mkPluginPolicies {
  pp_mounts : gmap string Plugins;
  pp_services : gmap string (gset string) }.

(** The segments of a match name: index 1 is the service, index 3 the
    protocol.  The cases of the switch do not fall through. *)
Definition getTrafficMatchPluginConfigs (p : PluginPolicies) (trafficMatch : string) : go Plugins :=
  let segs := Split trafficMatch "_"%char in
  meshSvc ← index segs 1;
  direct ← index segs 0;
  protocol ← index segs 3;
  let direct := if bool_decide (direct = "exp") then "inbound" else direct in
  let mountPoint := direct +:+ "-" +:+ protocol in
  Ret (match pp_services p !! meshSvc with
       | None => ∅
       | Some plugins =>
           map_imap (λ plugin mounts, if bool_decide (plugin ∈ plugins) then mounts !! mountPoint else None)
             (pp_mounts p)
       end).

(** ** The record *)

Record PipyConf := mkPipyConf {
  pc_enablePermissiveTrafficPolicyMode : bool;
  pc_Inbound : option InboundPolicy;
  pc_Outbound : option OutboundPolicy;
  pc_Forward : option ForwardPolicy;
  pc_specs : list SourceSecuritySpec;
  pc_pluginPolicies : PluginPolicies;
  pc_hashNameSet : gmap Z nat }.

Definition setInbound (itp : InboundPolicy) (p : PipyConf) : PipyConf :=
  mkPipyConf (pc_enablePermissiveTrafficPolicyMode p) (Some itp) (pc_Outbound p) (pc_Forward p) (pc_specs p)
    (pc_pluginPolicies p) (pc_hashNameSet p).

Definition setOutbound (otp : OutboundPolicy) (p : PipyConf) : PipyConf :=
  mkPipyConf (pc_enablePermissiveTrafficPolicyMode p) (pc_Inbound p) (Some otp) (pc_Forward p) (pc_specs p)
    (pc_pluginPolicies p) (pc_hashNameSet p).

Definition setForwardPolicy (ftp : ForwardPolicy) (p : PipyConf) : PipyConf :=
  mkPipyConf (pc_enablePermissiveTrafficPolicyMode p) (pc_Inbound p) (pc_Outbound p) (Some ftp) (pc_specs p)
    (pc_pluginPolicies p) (pc_hashNameSet p).

Definition setSpecs (specs : list SourceSecuritySpec) (p : PipyConf) : PipyConf :=
  mkPipyConf (pc_enablePermissiveTrafficPolicyMode p) (pc_Inbound p) (pc_Outbound p) (pc_Forward p) specs
    (pc_pluginPolicies p) (pc_hashNameSet p).

Definition setNames (names : gmap Z nat) (p : PipyConf) : PipyConf :=
  mkPipyConf (pc_enablePermissiveTrafficPolicyMode p) (pc_Inbound p) (pc_Outbound p) (pc_Forward p) (pc_specs p)
    (pc_pluginPolicies p) names.

Definition newInboundTrafficPolicy (p : PipyConf) : InboundPolicy := default (mkInbound ∅ ∅) (pc_Inbound p).
Definition newOutboundTrafficPolicy (p : PipyConf) : OutboundPolicy := default (mkOutbound ∅ ∅ ∅) (pc_Outbound p).
Definition newForwardTrafficPolicy (p : PipyConf) : ForwardPolicy := default (mkForward ∅ ∅) (pc_Forward p).

(** ** Rebalancing *)

Definition ClusterWeightAcceptAll : Z := TrafficPolicy.TrafficPolicy.ClusterWeightAcceptAll.
Definition ClusterWeightFailOver : Z := TrafficPolicy.TrafficPolicy.ClusterWeightFailOver.

(** Weights none of which is positive all become 100. *)
Definition rebalanceTargets (targets : WeightedClusters) : WeightedClusters :=
  let isAllFailover := bool_decide (map_Forall (λ _ weight, ¬ 0 < weight) targets) in
  if isAllFailover then (λ _, ClusterWeightAcceptAll) <$> targets else targets.

Definition rebalanceRule (r : HTTPRouteRule) : HTTPRouteRule :=
  mkRouteRule (hrr_Match r) (rebalanceTargets (hrr_TargetClusters r)) (hrr_AllowedServices r) (hrr_RateLimit r).

(** [newTrafficMatch] puts every match into the list of its port, so ranging
    over the lists is ranging over the named matches. *)
Definition rebalancedTargetClusters (otp : OutboundPolicy) : OutboundPolicy :=
  mkOutbound ((λ m, mkOutMatch (om_DestinationIPRanges m) (om_Port m) (om_Protocol m) (om_HTTPHostPort2Service m)
                 (onOutRules (map rebalanceRule) <$> om_HTTPServiceRouteRules m) (om_TCPServiceRouteRules m))
              <$> op_named otp) (op_TrafficMatches otp) (op_ClustersConfigs otp).

Definition setWeight (weight : Z) (e : WeightedZoneEndpoint) : WeightedZoneEndpoint :=
  mkZoneEndpoint weight (wze_Cluster e) (wze_LBType e) (wze_ContextPath e) (wze_ViaGateway e).

Definition onEndpoints (f : gmap string WeightedZoneEndpoint → gmap string WeightedZoneEndpoint) (c : ClusterConfig) : ClusterConfig :=
  mkClusterConfig (f (cc_Endpoints c)) (cc_ConnectionSettings c) (cc_RetryPolicy c) (cc_SourceCert c).

Definition hasLocalEndpoints (endpoints : gmap string WeightedZoneEndpoint) : bool :=
  negb (bool_decide (map_Forall (λ _ e, wze_Cluster e ≠ "") endpoints)).

Definition rebalanceEndpoint (hasLocal : bool) (e : WeightedZoneEndpoint) : WeightedZoneEndpoint :=
  if bool_decide (wze_Cluster e ≠ "") then
    if bool_decide (FailOverLbType = wze_LBType e)
    then setWeight (if hasLocal then ClusterWeightFailOver else ClusterWeightAcceptAll) e
    else if bool_decide (ActiveActiveLbType = wze_LBType e)
    then if bool_decide (wze_Weight e = 0) then setWeight ClusterWeightAcceptAll e else e
    else e
  else if bool_decide (wze_Weight e = 0) then setWeight ClusterWeightAcceptAll e else e.

(** *** Warm-up *)

(** What warm-up reads: the policy of the catalog for a service, the addresses
    and creation times of the pods, the clock when an endpoint is visited, and
    the integer part of [tw.Weight], which is computed in floating point. *)
Record WarmupEnv := mkWarmupEnv {
  we_GetTrafficWarmupPolicy : MeshService → option TrafficWarmupSpec;
  we_pods : list (list string * Z);
  we_now : string → string → Z;
  we_Weight : TrafficWarmupSpec → Z → Z → N }.

Definition ClusterName_MeshService (clusterName : string) : option MeshService :=
  match Split clusterName "/"%char with
  | namespace :: second :: _ =>
      match Split second "|"%char with
      | name :: _ :: _ => Some (mkMeshService namespace name 0 0 "" "" "" "")
      | _ => None
      end
  | _ => None
  end.

Definition HTTPHostPort_Host (hostPort : string) : option string :=
  match Split hostPort ":"%char with host :: _ :: _ => Some host | _ => None end.

Definition uptimes (pods : list (list string * Z)) : gmap string Z :=
  foldl (λ uptimes '(ips, created), foldl (λ uptimes ip, <[ip := created]> uptimes) uptimes ips) ∅ pods.

(** The policy of a cluster and the weight it gives to one of its endpoints. *)
Definition warming (env : WarmupEnv) (clusterName hostport : string) : option (TrafficWarmupSpec * Z) :=
  meshSvc ← ClusterName_MeshService clusterName;
  warmupPolicy ← we_GetTrafficWarmupPolicy env meshSvc;
  host ← HTTPHostPort_Host hostport;
  startTimestampSeconds ← uptimes (we_pods env) !! host;
  Some (warmupPolicy, Z.of_N (we_Weight env warmupPolicy startTimestampSeconds (we_now env clusterName hostport))).

Section rebalancing.
Context `{MR : MapRange} (env : WarmupEnv).

(** [Weight(math.Min(weight, float64(wze.Weight)))] is the minimum of the
    integer parts.  [*warmupPolicy.MaxWeight] is read until some endpoint is
    found to be warming up. *)
Definition warmUp (clusterName hostport : string) (warmUpping : bool) (wze : WeightedZoneEndpoint)
    : go (bool * WeightedZoneEndpoint) :=
  match warming env clusterName hostport with
  | Some (warmupPolicy, weight) =>
      warmUpping ← if warmUpping then Ret true
                   else maxWeight ← deref (tw_MaxWeight warmupPolicy); Ret (bool_decide (weight < maxWeight)%Z);
      Ret (warmUpping, setWeight (Z.min weight (wze_Weight wze)) wze)
  | None => Ret (warmUpping, wze)
  end.

Definition rebalancedEndpoints (clusterName : string) (warmUpping : bool) (endpoints : gmap string WeightedZoneEndpoint)
    : go (bool * gmap string WeightedZoneEndpoint) :=
  gofold (λ '(warmUpping, out) '(hostport, wze),
      '(warmUpping, wze) ← warmUp clusterName hostport warmUpping (rebalanceEndpoint (hasLocalEndpoints endpoints) wze);
      Ret (warmUpping, <[hostport := wze]> out))
    (warmUpping, endpoints) (map_range endpoints).

Definition rebalancedOutboundClusters (otp : OutboundPolicy) : go (bool * OutboundPolicy) :=
  '(warmUpping, clusters) ← gofold (λ '(warmUpping, clusters) '(clusterName, c),
      '(warmUpping, endpoints) ← rebalancedEndpoints clusterName warmUpping (cc_Endpoints c);
      Ret (warmUpping, <[clusterName := onEndpoints (λ _, endpoints) c]> clusters))
    (false, op_ClustersConfigs otp) (map_range (op_ClustersConfigs otp));
  Ret (warmUpping, mkOutbound (op_named otp) (op_TrafficMatches otp) clusters).

End rebalancing.

Definition rebalancedForwardClusters (ftp : ForwardPolicy) : ForwardPolicy :=
  mkForward ((λ weights : WeightedClusters,
       (λ weight, if bool_decide (weight = 0) then ClusterWeightAcceptAll else weight) <$> weights) <$> fp_ForwardMatches ftp)
    ((λ g, mkGatewayConfigs
       (onEndpoints (λ endpoints,
          (λ e, if bool_decide (wze_Weight e = 0) then setWeight ClusterWeightAcceptAll e else e) <$> endpoints)
          (egcc_Cluster g)) (egcc_Mode g)) <$> fp_EgressGateways ftp).

Definition balance `{MR : MapRange} (env : WarmupEnv) (p : PipyConf) : go (bool * PipyConf) :=
  '(warmUpping, otp) ← match rebalancedTargetClusters <$> pc_Outbound p with
    | Some otp => '(warmUpping, otp) ← rebalancedOutboundClusters env otp; Ret (warmUpping, Some otp)
    | None => Ret (false, None)
    end;
  Ret (warmUpping, mkPipyConf (pc_enablePermissiveTrafficPolicyMode p) (pc_Inbound p) otp
    (rebalancedForwardClusters <$> pc_Forward p) (pc_specs p) (pc_pluginPolicies p) (pc_hashNameSet p)).

(** ** Sorting *)

(** [Less] of both kinds of route rules. *)
Definition routeLess (a b : HTTPRouteRule) : bool :=
  let pa := hmr_Path (hrr_Match a) in
  let pb := hmr_Path (hrr_Match b) in
  if EqualFold pa pb then
    bool_decide (size (hmr_Headers (hrr_Match b)) < size (hmr_Headers (hrr_Match a)))%nat ||
    bool_decide (length (hmr_Methods (hrr_Match b)) < length (hmr_Methods (hrr_Match a)))%nat
  else if bool_decide (pa = TrafficPolicy.TrafficPolicy.RegexMatchAll) then false
  else if bool_decide (pb = TrafficPolicy.TrafficPolicy.RegexMatchAll) then true
  else String.ltb pa pb.

Definition sortRules `{SliceSort} (rules : list HTTPRouteRule) : list HTTPRouteRule :=
  if bool_decide (1 < length rules)%nat then sort_slice routeLess rules else rules.

Definition reorderInMatch `{SliceSort} (m : InboundTrafficMatch) : InboundTrafficMatch :=
  mkInMatch (im_Port m) (im_Protocol m) (im_SourceIPRanges m) (im_HTTPHostPort2Service m)
    (onRules sortRules <$> im_HTTPServiceRouteRules m) (im_TCPServiceRouteRules m) (im_TCPRateLimit m).

Definition reorderInbound `{SliceSort} (itp : InboundPolicy) : InboundPolicy :=
  mkInbound (reorderInMatch <$> ip_TrafficMatches itp) (ip_ClustersConfigs itp).

Definition reorderOutboundRules `{SliceSort} (otp : OutboundPolicy) : OutboundPolicy :=
  mkOutbound ((λ m, mkOutMatch (om_DestinationIPRanges m) (om_Port m) (om_Protocol m) (om_HTTPHostPort2Service m)
                (onOutRules sortRules <$> om_HTTPServiceRouteRules m) (om_TCPServiceRouteRules m))
              <$> op_named otp) (op_TrafficMatches otp) (op_ClustersConfigs otp).

(** The destinations of a match, longest prefix first; [None] if one is not a
    block. *)
Definition destinationCidrs `{SliceSort} `{MapRange} (m : OutboundTrafficMatch) : option (list CIDR) :=
  DescSortCIDRs <$> mapM (λ r, Cidr.Cidr.ParseCIDR r.1) (map_range (om_DestinationIPRanges m)).

(** [Less] of outbound matches, once their destinations are parsed: a match
    without destinations comes first. *)
Definition matchLess (a b : option (list CIDR)) : bool :=
  match a, b with
  | _, Some [] => false
  | Some [], _ => true
  | _, _ =>
      let aCidrs := default [] a in
      let bCidrs := default [] b in
      existsb (λ '(x, y), bool_decide (CompareCIDR x y = 1)) (zip aCidrs bCidrs) ||
      bool_decide (length bCidrs < length aCidrs)%nat
  end.

(** What is not a block becomes a nil pointer.  A match that has one panics
    when it is compared with another match with destinations, and a sort
    compares each element with its neighbours in the result. *)
Definition sortMatches `{SliceSort} `{MapRange} (named : gmap string OutboundTrafficMatch) (names : list string)
    : go (list string) :=
  if bool_decide (length names <= 1)%nat then Ret names
  else
    keyed ← gofold (λ keyed name, m ← deref (named !! name); Ret (keyed ++ [(name, destinationCidrs m)])) [] names;
    let destined := List.filter (λ x, match x.2 with Some [] => false | _ => true end) keyed in
    if existsb (λ x, match x.2 with None => true | Some _ => false end) keyed && bool_decide (1 < length destined)%nat then Panic
    else Ret (sort_slice (λ x y, matchLess x.2 y.2) keyed).*1.

Definition reorderOutbound `{SliceSort} `{MapRange} (otp : OutboundPolicy) : go OutboundPolicy :=
  let otp := reorderOutboundRules otp in
  matches ← gofold (λ matches '(port, names),
    names ← sortMatches (op_named otp) names; Ret (<[port := names]> matches))
    (op_TrafficMatches otp) (map_range (op_TrafficMatches otp));
  Ret (mkOutbound (op_named otp) matches (op_ClustersConfigs otp)).

(** ** Packing *)

(** [fmt.Sprintf("%05X", code)] *)
Definition hexDigit (d : N) : ascii :=
  if bool_decide (d < 10)%N then ascii_of_N (48 + d) else ascii_of_N (55 + d).

Fixpoint hexDigits (fuel : nat) (n : N) (acc : string) : string :=
  match fuel with
  | O => acc
  | S fuel =>
      let acc := String (hexDigit (n mod 16)) acc in
      if bool_decide (n / 16 = 0)%N then acc else hexDigits fuel (n / 16) acc
  end.

Fixpoint zeros (n : nat) (s : string) : string :=
  match n with O => s | S n => String "0" (zeros n s) end.

Definition hexName (code : nat) : string :=
  let s := hexDigits (S (N.size_nat (N.of_nat code))) (N.of_nat code) "" in
  zeros (5 - String.length s) s.

Definition hashName (hash : Z) (names : gmap Z nat) : gmap Z nat * string :=
  match names !! hash with
  | Some code => (names, hexName code)
  | None => let code := S (size names) in (<[hash := code]> names, hexName code)
  end.

(** [hashstructure.Hash] at the types that are packed: a [uint64], so that
    different values can have the same hash. *)
Class StructHash := {
  hash_WeightedEndpoint : WeightedEndpoint → Z;
  hash_ClusterConfig : ClusterConfig → Z;
  hash_InRules : InboundHTTPRouteRules → Z;
  hash_OutRules : OutboundHTTPRouteRules → Z;
  hash_WeightedEndpoint_range : ∀ v, (0 ≤ hash_WeightedEndpoint v < 2 ^ 64)%Z;
  hash_ClusterConfig_range : ∀ v, (0 ≤ hash_ClusterConfig v < 2 ^ 64)%Z;
  hash_InRules_range : ∀ v, (0 ≤ hash_InRules v < 2 ^ 64)%Z;
  hash_OutRules_range : ∀ v, (0 ≤ hash_OutRules v < 2 ^ 64)%Z }.

(** The first loop, on clusters or on sets of rules: entries with the hash of
    an earlier entry are dropped.  The hash of every old name, the entries
    under their new names. *)
Record packed (V : Type) := mkPacked {
  pk_names : gmap Z nat;
  pk_byHash : gmap Z V;
  pk_hashByName : gmap string Z;
  pk_new : gmap string V }.
Arguments mkPacked {V} _ _ _ _.
Arguments pk_names {V} _.
Arguments pk_byHash {V} _.
Arguments pk_hashByName {V} _.
Arguments pk_new {V} _.

Definition packEntry {V} (hash : V → Z) (st : packed V) (name : string) (v : V) : packed V :=
  let hashcode := hash v in
  match pk_byHash st !! hashcode with
  | Some _ => mkPacked (pk_names st) (pk_byHash st) (<[name := hashcode]> (pk_hashByName st)) (pk_new st)
  | None =>
      let '(names, new) := hashName hashcode (pk_names st) in
      mkPacked names (<[hashcode := v]> (pk_byHash st)) (<[name := hashcode]> (pk_hashByName st))
        (<[new := v]> (pk_new st))
  end.

Section pack.
Context `{MR : MapRange} `{SH : StructHash}.

Definition packTargets (hashByName : gmap string Z) (names : gmap Z nat) (targets : WeightedClusters)
    : gmap Z nat * WeightedClusters :=
  foldl (λ '(names, new) '(clusterName, weight),
    match hashByName !! clusterName with
    | Some hashcode => let '(names, name) := hashName hashcode names in (names, <[name := weight]> new)
    | None => (names, new)
    end) (names, ∅) (map_range targets).

Definition packRouteRules (hashByName : gmap string Z) (names : gmap Z nat) (rules : list HTTPRouteRule)
    : gmap Z nat * list HTTPRouteRule :=
  foldl (λ '(names, out) r,
    let '(names, targets) := packTargets hashByName names (hrr_TargetClusters r) in
    (names, out ++ [mkRouteRule (hrr_Match r) targets (hrr_AllowedServices r) (hrr_RateLimit r)]))
    (names, []) rules.

Definition packHosts (hashByName : gmap string Z) (names : gmap Z nat) (hosts : HTTPHostPort2Service)
    : gmap Z nat * HTTPHostPort2Service :=
  foldl (λ '(names, hosts) '(host, ruleRef),
    match hashByName !! ref_RuleName ruleRef with
    | Some hashcode =>
        let '(names, name) := hashName hashcode names in
        (names, <[host := mkRuleRef name (ref_RuleName ruleRef)]> hosts)
    | None => (names, hosts)
    end) (names, hosts) (map_range hosts).

(** The HTTP part of a match, for inbound and outbound rules alike. *)
Definition packHTTP {R} (rulesOf : R → list HTTPRouteRule) (setRules : list HTTPRouteRule → R → R) (hash : R → Z)
    (clusters : gmap string Z) (names : gmap Z nat) (rules : gmap string R) (hosts : HTTPHostPort2Service)
    : gmap Z nat * gmap string R * HTTPHostPort2Service :=
  if negb (bool_decide (size rules = 0%nat)) then
    let st := foldl (λ st '(name, r),
      let '(names, l) := packRouteRules clusters (pk_names st) (rulesOf r) in
      packEntry hash (mkPacked names (pk_byHash st) (pk_hashByName st) (pk_new st)) name (setRules l r))
      (mkPacked names ∅ ∅ ∅) (map_range rules) in
    let '(names, hosts) := packHosts (pk_hashByName st) (pk_names st) hosts in
    (names, pk_new st, hosts)
  else (names, rules, hosts).

Definition packTCP (clusters : gmap string Z) (names : gmap Z nat) (tcp : option TCPServiceRouteRules)
    : gmap Z nat * option TCPServiceRouteRules :=
  match tcp with
  | None => (names, None)
  | Some r =>
      if bool_decide (tsr_TargetClusters r = ∅) then (names, Some r)
      else let '(names, targets) := packTargets clusters names (tsr_TargetClusters r) in
           (names, Some (mkTCPRules targets (tsr_AllowedEgressTraffic r) (tsr_EgressForwardGateway r) (tsr_Plugins r)))
  end.

Definition packClusters {V} (hash : V → Z) (names : gmap Z nat) (clusters : gmap string V) : packed V :=
  foldl (λ st '(name, v), packEntry hash st name v) (mkPacked names ∅ ∅ ∅) (map_range clusters).

Definition packInMatch (clusters : gmap string Z) (names : gmap Z nat) (m : InboundTrafficMatch)
    : gmap Z nat * InboundTrafficMatch :=
  let '(names, rules, hosts) := packHTTP irr_RouteRules (λ l, onRules (λ _, l)) hash_InRules clusters names
    (im_HTTPServiceRouteRules m) (im_HTTPHostPort2Service m) in
  let '(names, tcp) := packTCP clusters names (im_TCPServiceRouteRules m) in
  (names, mkInMatch (im_Port m) (im_Protocol m) (im_SourceIPRanges m) hosts rules tcp (im_TCPRateLimit m)).

Definition packInMatches (clusters : gmap string Z) (names : gmap Z nat) (matches : gmap Z InboundTrafficMatch)
    : gmap Z nat * gmap Z InboundTrafficMatch :=
  foldl (λ '(names, out) '(port, m),
    let '(names, m) := packInMatch clusters names m in (names, <[port := m]> out)) (names, ∅) (map_range matches).

Definition packInbound (p : PipyConf) : PipyConf :=
  match pc_Inbound p with
  | None => p
  | Some itp =>
      if bool_decide (ip_TrafficMatches itp = ∅) || bool_decide (ip_ClustersConfigs itp = ∅) then p
      else
        let st := packClusters hash_WeightedEndpoint (pc_hashNameSet p) (ip_ClustersConfigs itp) in
        let '(names, matches) := packInMatches (pk_hashByName st) (pk_names st) (ip_TrafficMatches itp) in
        setNames names (setInbound (mkInbound matches (pk_new st)) p)
  end.

Definition packOutMatch (clusters : gmap string Z) (names : gmap Z nat) (m : OutboundTrafficMatch)
    : gmap Z nat * OutboundTrafficMatch :=
  let '(names, rules, hosts) := packHTTP orr_RouteRules (λ l, onOutRules (λ _, l)) hash_OutRules clusters names
    (om_HTTPServiceRouteRules m) (om_HTTPHostPort2Service m) in
  let '(names, tcp) := packTCP clusters names (om_TCPServiceRouteRules m) in
  (names, mkOutMatch (om_DestinationIPRanges m) (om_Port m) (om_Protocol m) hosts rules tcp).

(** The matches are reached through the lists of the ports. *)
Definition packOutbound (p : PipyConf) : go PipyConf :=
  match pc_Outbound p with
  | None => Ret p
  | Some otp =>
      if bool_decide (op_TrafficMatches otp = ∅) || bool_decide (op_ClustersConfigs otp = ∅) then Ret p
      else
        let st := packClusters hash_ClusterConfig (pc_hashNameSet p) (op_ClustersConfigs otp) in
        '(names, named) ←
          gofold (λ '(names, named) name,
            m ← deref (named !! name);
            let '(names, m) := packOutMatch (pk_hashByName st) names m in Ret (names, <[name := m]> named))
            (pk_names st, op_named otp) (concat (map_range (op_TrafficMatches otp)).*2);
        Ret (setNames names (setOutbound (mkOutbound named (op_TrafficMatches otp) (pk_new st)) p))
  end.

Definition Pack (p : PipyConf) : go PipyConf := packOutbound (packInbound p).

End pack.

End PipyConf.
