(* ===== verification/PipyGen.v ===== *)
(** * Generating a sidecar's configuration from its policies:
    pkg/sidecar/v1/providers/pipy/repo/util.go

    One generator per policy of the catalog.  Each updates the configuration
    in place; a nil service, rule set or policy that is dereferenced panics.
    This file has the names and the inbound side, PipyOut the outbound one. *)

From S2P Require Import Prelude Identity Service Api MeshConfig Net Cidr TrafficPolicy K8s K8sClient Catalog CatalogIngress Pipy PipyConf.
Import Identity.Identity Service.Service Api.Api Catalog.Catalog CatalogIngress.CatalogIngress.
Import MeshConfig.MeshConfig Pipy.Pipy PipyConf.PipyConf.
Module T := TrafficPolicy.TrafficPolicy.

Module PipyGen.

#[local] Open Scope Z_scope.

(** The fields of a proxy (pipy/proxy.go) that the generators read. *)
Record Proxy := mkProxy {
  px_Identity : ServiceIdentity; px_VM : bool; px_MachineIP : option string; px_ClusterID : string }.

(** ** Names *)

(** [strings.FieldsFunc]: the non-empty pieces between separators. *)
Fixpoint FieldsFunc (sep : ascii → bool) (s : string) : list string :=
  match s with
  | EmptyString => []
  | String a s' =>
      if sep a then FieldsFunc sep s'
      else match s' with
           | EmptyString => [String a ""]
           | String b _ =>
               if sep b then String a "" :: FieldsFunc sep s'
               else match FieldsFunc sep s' with
                    | [] => [String a ""]
                    | h :: t => String a h :: t
                    end
           end
  end.

(** [strconv.ParseUint(s, 10, 16)] *)
Definition ParseUint16 (s : string) : option Z :=
  if bool_decide (s = "") then None
  else n ← K8sClient.K8sClient.parseDigits s 0; if bool_decide (n < 2 ^ 16) then Some n else None.

Definition isClusterSep (a : ascii) : bool := bool_decide (a = "/"%char) || bool_decide (a = "|"%char).

Definition clusterToMeshSvc (cluster : string) : option MeshService :=
  match FieldsFunc isClusterSep cluster with
  | [ns; name; p] => port ← ParseUint16 p; Some (mkMeshService ns name 0 port "" "" "" "")
  | _ => None
  end.

Definition isHostSep (a : ascii) : bool := bool_decide (a = "."%char) || bool_decide (a = ":"%char).

(** An error is [None]. *)
Definition hostToMeshSvc (cluster : string) : go (option MeshService) :=
  let chunks := FieldsFunc isHostSep cluster in
  let misplaced := match chunks !! 3%nat with
                   | Some c => bool_decide (4 < length chunks)%nat && EqualFold "svc" c
                   | None => false
                   end in
  if misplaced then Ret None
  else
    last ← match chunks with [] => Panic | _ => index chunks (length chunks - 1) end;
    match ParseUint16 last with
    | None => Ret None
    | Some port =>
        ns ← index chunks 1;
        name ← index chunks 0;
        Ret (Some (mkMeshService ns name 0 port "" "" "" ""))
    end.

Definition trafficMatchToMeshSvc (trafficMatch : T.TrafficMatch) : option MeshService :=
  match Split (T.tm_Name trafficMatch) "_"%char with
  | [_; nn; _; _; attached] =>
      n ← K8s.K8s.NamespacedNameFrom nn;
      Some (mkMeshService (nn_Namespace n) (nn_Name n) 0 (uint16 (T.tm_DestinationPort trafficMatch))
              (ToLower (T.tm_DestinationProtocol trafficMatch)) "" "" attached)
  | _ => None
  end.

Definition matchType (t : T.PathMatchType) : string :=
  match t with T.PathMatchExact => "Exact" | T.PathMatchPrefix => "Prefix" | T.PathMatchRegex => "Regex" end.

(** The part every generator repeats: the match of a route. *)
Definition newHTTPMatch (m : T.HTTPRouteMatch) : HTTPMatchRule :=
  let type := matchType (T.hrm_PathMatchType m) in
  let r := mkMatchRule (if bool_decide (T.Path m = "") then T.RegexMatchAll else T.Path m)
             (if bool_decide (type = "") then "Regex" else type) (default ∅ (T.Headers m)) [] false false in
  match slice_elems (T.Methods m) with
  | [] => addMethodMatch r "*"
  | methods => foldl addMethodMatch r methods
  end.

Definition getMeshClusterConfigs (configs : list T.MeshClusterConfig) (clusterName : string) : list T.MeshClusterConfig :=
  foldl (λ items c,
    let items := if bool_decide (clusterName = SidecarClusterName (T.mcc_Service c)) then items ++ [c] else items in
    if bool_decide (clusterName = SidecarLocalClusterName (T.mcc_Service c)) then items ++ [c] else items) [] configs.

Definition getEgressClusterConfigs (configs : list T.EgressClusterConfig) (clusterName : string) : option T.EgressClusterConfig :=
  snd <$> list_find (λ c, clusterName = T.ecc_Name c) configs.

Section generators.
Context {MS : MapSet} (mc : MeshCatalog).

Definition getInboundHTTPRouteConfigs (perPort : gmap Z (list (T.InboundTrafficPolicy T.Rule))) (targetPort : Z)
    (upstreamPolicyName : string) : option (T.InboundTrafficPolicy T.Rule) :=
  configs ← perPort !! targetPort;
  snd <$> list_find (λ c, T.itp_Name c = upstreamPolicyName) configs.

Definition arrayEqual (a : list WeightedCluster) (set : mset WeightedCluster) : bool :=
  let b := ToSlice set in
  let covers (x y : list WeightedCluster) := forallb (λ cx, existsb (λ cy,
    bool_decide (wc_ClusterName cx = wc_ClusterName cy) && bool_decide (wc_Weight cx = wc_Weight cy)) y) x in
  bool_decide (length a = length b) && covers a b && covers b a.

Definition getOutboundHTTPRouteConfigs (perPort : gmap Z (list T.OutboundTrafficPolicy)) (targetPort : Z)
    (upstreamPolicyName : string) (weightedClusters : list WeightedCluster) : list T.OutboundTrafficPolicy :=
  match perPort !! targetPort with
  | Some policies =>
      filter (λ p, T.otp_Name p = upstreamPolicyName ∧
                   existsb (λ r, arrayEqual weightedClusters (T.rwc_WeightedClusters r)) (T.Routes p) = true) policies
  | None => []
  end.

Definition getEgressHTTPRouteConfigs (perPort : gmap Z (list T.EgressHTTPRouteConfig)) (targetPort : Z)
    : list T.EgressHTTPRouteConfig := default [] (perPort !! targetPort).

Definition getUpstreamEndpoints (proxyIdentity : ServiceIdentity) (clusterName : string) : go (list Endpoint) :=
  match clusterToMeshSvc clusterName with
  | Some dstSvc => ListAllowedUpstreamEndpointsForService mc proxyIdentity dstSvc
  | None => Ret []
  end.

(** [ListEndpointsForServiceIdentity] of the catalog. *)
Definition getEndpointsForProxyIdentity (proxyIdentity : ServiceIdentity) : list Endpoint :=
  listEndpointsForServiceIdentity mc proxyIdentity.

(** ** Inbound *)

Definition addClusters (clusters : list WeightedCluster) (r : HTTPRouteRule) : HTTPRouteRule :=
  foldl (λ r wc, addWeightedCluster (wc_ClusterName wc) (uint32 (wc_Weight wc)) r) r clusters.

(** One rule of an inbound policy. *)
Definition inboundRule (trustDomain : string) (permissive : bool) (hsrrs : InboundHTTPRouteRules) (rule : T.Rule)
    : InboundHTTPRouteRules :=
  let route := T.Route rule in
  if bool_decide (T.Path (T.rwc_HTTPRouteMatch route) = "") then hsrrs
  else
    let '(rules, i, duplicate) :=
      newHTTPServiceRouteRule (newHTTPMatch (T.rwc_HTTPRouteMatch route)) (irr_RouteRules hsrrs) in
    let rules := if duplicate then rules
      else alter (λ r, addClusters (ToSlice (T.rwc_WeightedClusters route)) (setRateLimit (T.rwc_RateLimit route) r)) i rules in
    let principals := ToSlice (T.AllowedPrincipals rule) in
    let rules := alter (λ r, foldl (λ r p, addAllowedService (FromPrincipal p trustDomain) r) r principals) i rules in
    foldl (λ hsrrs p,
      if bool_decide (WildcardPrincipal = p) || permissive then hsrrs
      else let serviceIdentity := FromPrincipal p trustDomain in
           foldl (λ hsrrs ep, addAllowedEndpoint (Net.Net.ip_String (ep_IP ep)) serviceIdentity hsrrs)
             hsrrs (getEndpointsForProxyIdentity serviceIdentity))
      (onRules (λ _, rules) hsrrs) principals.

Definition isHTTP (protocol : string) : bool :=
  bool_decide (protocol = T.ProtocolHTTP) || bool_decide (protocol = T.ProtocolGRPC).
Definition isTCP (protocol : string) : bool :=
  bool_decide (protocol = T.ProtocolTCP) || bool_decide (protocol = T.ProtocolTCPServerFirst).

(** The HTTP part of a match, once its policy is found. *)
Definition inboundHTTP (p : PipyConf) (trustDomain : string) (trafficMatch : T.TrafficMatch)
    (config : T.InboundTrafficPolicy T.Rule) (tm : InboundTrafficMatch) : go InboundTrafficMatch :=
  let ruleRef := mkRuleRef (T.itp_Name config) "" in
  in_withRules (ref_RuleName ruleRef) (λ hsrrs,
    plugins ← getTrafficMatchPluginConfigs (pc_pluginPolicies p) (T.tm_Name trafficMatch);
    Ret (foldl (inboundRule trustDomain (pc_enablePermissiveTrafficPolicyMode p))
           (setPlugins plugins (setHTTPServiceRateLimit (T.tm_RateLimit trafficMatch) hsrrs)) (T.Rules config)))
    (foldl (λ tm hostname, in_bindHost hostname ruleRef tm) tm (T.Hostnames config)).

Definition inboundCluster (p : PipyConf) (policy : T.InboundMeshTrafficPolicy) (trustDomain : string)
    (trafficMatch : T.TrafficMatch) (upstreamSvc : MeshService) (itp : InboundPolicy) (clusterConfig : T.MeshClusterConfig)
    : go InboundPolicy :=
  let destinationProtocol := ToLower (T.tm_DestinationProtocol trafficMatch) in
  let port := uint16 (Port (T.mcc_Service clusterConfig)) in
  let tm := in_newTrafficMatch port itp in
  let tm := setTCPServiceRateLimit (T.tm_RateLimit trafficMatch)
              (in_setPort (uint16 (T.tm_DestinationPort trafficMatch)) (in_setProtocol destinationProtocol tm)) in
  tm ← (if bool_decide (destinationProtocol = T.ProtocolHTTP) ||
           bool_decide (T.tm_DestinationProtocol trafficMatch = T.ProtocolGRPC) then
          match getInboundHTTPRouteConfigs (T.imp_HTTPRouteConfigsPerPort policy) (TargetPort upstreamSvc)
                  (PolicyName upstreamSvc false) with
          | None => Ret tm
          | Some config => inboundHTTP p trustDomain trafficMatch config tm
          end
        else if isTCP destinationProtocol then
          plugins ← getTrafficMatchPluginConfigs (pc_pluginPolicies p) (T.tm_Name trafficMatch);
          Ret (in_withTCPRules (λ r, tcp_setPlugins plugins
                 (tcp_addWeightedCluster (T.mcc_Name clusterConfig) ClusterWeightAcceptAll r)) tm)
        else Ret tm);
  Ret (in_setMatch port tm itp).

Definition inboundMatch (p : PipyConf) (policy : T.InboundMeshTrafficPolicy) (trustDomain : string)
    (itp : InboundPolicy) (trafficMatch : T.TrafficMatch) : go InboundPolicy :=
  upstreamSvc ← deref (trafficMatchToMeshSvc trafficMatch);
  gofold (inboundCluster p policy trustDomain trafficMatch upstreamSvc) itp
    (getMeshClusterConfigs (T.imp_ClustersConfigs policy) (SidecarLocalClusterName upstreamSvc)).

Definition generatePipyInboundTrafficPolicy (p : PipyConf) (policy : T.InboundMeshTrafficPolicy)
    (trustDomain : string) (proxy : Proxy) : go PipyConf :=
  itp ← gofold (inboundMatch p policy trustDomain) (newInboundTrafficPolicy p) (T.imp_TrafficMatches policy);
  itp ← gofold (λ itp cluster,
    address ← if px_VM proxy then deref (px_MachineIP proxy) else Ret (T.mcc_Address cluster);
    Ret (in_addEndpoint (T.mcc_Name cluster) address (uint16 (T.mcc_Port cluster)) ClusterWeightAcceptAll itp))
    itp (T.imp_ClustersConfigs policy);
  Ret (setInbound itp p).

(** ** Ingress, access control and exports

    The three generators differ in the matches they read and in the rate
    limits, which exports do not have ([em_RateLimit] is [None]). *)

Record edgeMatch := mkEdgeMatch {
  em_Name : string; em_Port : Z; em_Protocol : string; em_SourceIPRanges : list string;
  em_TLS : option TLSSpec; em_RateLimit : option (option RateLimitSpec) }.

Definition ingressEdge (m : T.IngressTrafficMatch) : edgeMatch :=
  mkEdgeMatch (T.itm_Name m) (T.itm_Port m) (T.itm_Protocol m) (T.itm_SourceIPRanges m) (T.itm_TLS m) (Some (T.itm_RateLimit m)).
Definition aclEdge (m : T.AccessControlTrafficMatch) : edgeMatch :=
  mkEdgeMatch (T.atm_Name m) (T.atm_Port m) (T.atm_Protocol m) (T.atm_SourceIPRanges m) (T.atm_TLS m) (Some (T.atm_RateLimit m)).
Definition exportEdge (m : T.ServiceExportTrafficMatch) : edgeMatch :=
  mkEdgeMatch (T.xtm_Name m) (T.xtm_Port m) (T.xtm_Protocol m) (T.xtm_SourceIPRanges m) (T.xtm_TLS m) None.

(** A rule of an edge policy: its principals do not become allowed services. *)
Definition edgeRule (limited : bool) (hsrrs : InboundHTTPRouteRules) (rule : T.Rule) : InboundHTTPRouteRules :=
  let route := T.Route rule in
  if bool_decide (T.Path (T.rwc_HTTPRouteMatch route) = "") then hsrrs
  else
    let '(rules, i, duplicate) :=
      newHTTPServiceRouteRule (newHTTPMatch (T.rwc_HTTPRouteMatch route)) (irr_RouteRules hsrrs) in
    onRules (λ _, if duplicate then rules
      else alter (λ r, addClusters (ToSlice (T.rwc_WeightedClusters route))
                         (if limited then setRateLimit (T.rwc_RateLimit route) r else r)) i rules) hsrrs.

Definition edgeHost (p : PipyConf) (m : edgeMatch) (config : T.InboundTrafficPolicy T.Rule)
    (tm : InboundTrafficMatch) (hostname : string) : go InboundTrafficMatch :=
  let ruleRef := mkRuleRef hostname "" in
  in_withRules (ref_RuleName ruleRef) (λ hsrrs,
    let hsrrs := match em_RateLimit m with Some l => setHTTPServiceRateLimit l hsrrs | None => hsrrs end in
    plugins ← getTrafficMatchPluginConfigs (pc_pluginPolicies p) (em_Name m);
    Ret (foldl (edgeRule (bool_decide (is_Some (em_RateLimit m)))) (setPlugins plugins hsrrs) (T.Rules config)))
    (in_bindHost hostname ruleRef tm).

(** The principals collected on the way: one round per hostname. *)
Definition edgePrincipals (policies : list (option (T.InboundTrafficPolicy T.Rule))) : list string :=
  c ← omap id policies;
  _ ← T.Hostnames c;
  rule ← T.Rules c;
  if bool_decide (T.Path (T.rwc_HTTPRouteMatch (T.Route rule)) = "") then [] else ToSlice (T.AllowedPrincipals rule).

Definition edgeStep (p : PipyConf) (policies : list (option (T.InboundTrafficPolicy T.Rule)))
    (st : InboundPolicy * list SourceSecuritySpec) (m : edgeMatch) : go (InboundPolicy * list SourceSecuritySpec) :=
  let '(itp, specs) := st in
  let port := uint16 (em_Port m) in
  let protocol := ToLower (em_Protocol m) in
  let tm := match ip_TrafficMatches itp !! port with
            | Some tm => tm
            | None =>
                let tm := in_setPort port (in_setProtocol protocol emptyInMatch) in
                match em_RateLimit m with Some l => setTCPServiceRateLimit l tm | None => tm end
            end in
  let spec := (λ tls, mkSourceSpec true (tls_SkipClientCertValidation tls) []) <$> em_TLS m in
  let ref := (λ _, length specs) <$> spec in
  let specs := specs ++ option_list spec in
  let tm := foldl (λ tm ipRange, addSourceIPRange ipRange ref tm) tm (em_SourceIPRanges m) in
  if isHTTP protocol || bool_decide (protocol = T.ProtocolHTTPS) then
    tm ← gofold (λ tm policy,
      config ← deref policy;
      match T.Rules config with
      | [] => Ret tm
      | _ => gofold (edgeHost p m config) tm (T.Hostnames config)
      end) tm policies;
    Ret (in_setMatch port tm itp,
         match ref with
         | Some i => alter (λ s, mkSourceSpec (sss_MTLS s) (sss_SkipClientCertValidation s) (edgePrincipals policies)) i specs
         | None => specs
         end)
  else Ret (in_setMatch port tm itp, specs).

Definition generateEdge (p : PipyConf) (matches : list edgeMatch) (policies : list (option (T.InboundTrafficPolicy T.Rule)))
    : go PipyConf :=
  match matches, pc_Inbound p with
  | [], _ | _, None => Ret p
  | _, Some itp =>
      if bool_decide (ip_ClustersConfigs itp = ∅) then Ret p
      else '(itp, specs) ← gofold (edgeStep p policies) (itp, pc_specs p) matches;
           Ret (setSpecs specs (setInbound itp p))
  end.

Definition generatePipyIngressTrafficRoutePolicy (p : PipyConf) (policy : IngressTrafficPolicy) : go PipyConf :=
  generateEdge p (map ingressEdge (edge_TrafficMatches policy)) (edge_HTTPRoutePolicies policy).
Definition generatePipyAccessControlTrafficRoutePolicy (p : PipyConf) (policy : AccessControlTrafficPolicy) : go PipyConf :=
  generateEdge p (map aclEdge (edge_TrafficMatches policy)) (edge_HTTPRoutePolicies policy).
Definition generatePipyServiceExportTrafficRoutePolicy (p : PipyConf) (policy : ServiceExportTrafficPolicy) : go PipyConf :=
  generateEdge p (map exportEdge (edge_TrafficMatches policy)) (edge_HTTPRoutePolicies policy).

End generators.

End PipyGen.
