(* ===== verification/PipyOut.v ===== *)
(** * Generating the outbound side: util.go, continued

    Routes of outbound and egress policies, the endpoints of the clusters
    they depend on, and the forwarding of egress traffic to gateways.  The
    secret of an egress source is read from the API server and is an argument. *)

From S2P Require Import Prelude Identity Service Api MeshConfig Net TrafficPolicy Catalog Pipy PipyConf PipyGen.
Import Identity.Identity Service.Service Api.Api Catalog.Catalog MeshConfig.MeshConfig.
Import Pipy.Pipy PipyConf.PipyConf PipyGen.PipyGen.
Module T := TrafficPolicy.TrafficPolicy.

Module PipyOut.

#[local] Open Scope Z_scope.

(** The clusters a policy depends on: the first weighted cluster of a name,
    with the retry policy of its route. *)
Abbreviation Depends := (gmap string (WeightedCluster * option RetryPolicySpec)) (only parsing).

Definition depend (d : Depends) (wc : WeightedCluster) (retry : option RetryPolicySpec) : Depends :=
  match d !! wc_ClusterName wc with Some _ => d | None => <[wc_ClusterName wc := (wc, retry)]> d end.

Definition dependAll (retry : option RetryPolicySpec) (d : Depends) (clusters : list WeightedCluster) : Depends :=
  foldl (λ d wc, depend d wc retry) d clusters.

Definition tcpClusters (clusters : list WeightedCluster) (r : TCPServiceRouteRules) : TCPServiceRouteRules :=
  foldl (λ r wc, tcp_addWeightedCluster (wc_ClusterName wc) (uint32 (wc_Weight wc)) r) r clusters.

Definition generatePipyWildcardIPRanges (dnsProxy : LocalDNSProxy) : go (list string) :=
  if ldp_Enable dnsProxy && wdn_Enable (ldp_Wildcard dnsProxy) then
    gofold (λ ranges addr, a ← deref addr;
      Ret (if bool_decide (ra_IPv4 a = "") then ranges else ranges ++ [ra_IPv4 a +:+ "/32"]))
      [] (slice_elems (wdn_IPs (ldp_Wildcard dnsProxy)))
  else Ret [].

Definition generatePipyOutboundDestinationIPRanges (trafficMatch : T.TrafficMatch) (wildcardIPRange : list string)
    (tm : OutboundTrafficMatch) : OutboundTrafficMatch :=
  foldl (λ tm r, addDestinationIPRange r None tm) tm (T.tm_DestinationIPRanges trafficMatch ++ wildcardIPRange).

Section generators.
Context {MS : MapSet} (mc : MeshCatalog) (GetEgressSourceSecret : Api.Api.SecretReference → string + gmap string string).

(** A route of a policy: its match and the clusters of its rule. *)
Definition outRoute (hsrrs : OutboundHTTPRouteRules) (route : T.RouteWeightedClusters) : OutboundHTTPRouteRules :=
  let '(rules, i, _) := newHTTPServiceRouteRule (newHTTPMatch (T.rwc_HTTPRouteMatch route)) (orr_RouteRules hsrrs) in
  onOutRules (λ _, alter (addClusters (ToSlice (T.rwc_WeightedClusters route))) i rules) hsrrs.

Definition routeDepends (d : Depends) (route : T.RouteWeightedClusters) : Depends :=
  dependAll (T.rwc_RetryPolicy route) d (ToSlice (T.rwc_WeightedClusters route)).

(** ** Outbound routes *)

Definition outboundHTTP (desiredSuffix : string) (plugins : Plugins) (st : OutboundTrafficMatch * Depends)
    (config : T.OutboundTrafficPolicy) : go (OutboundTrafficMatch * Depends) :=
  let '(tm, d) := st in
  let ruleRef := mkRuleRef (T.otp_Name config) "" in
  tm ← out_withRules (ref_RuleName ruleRef) (λ hsrrs,
    foldl outRoute (out_setPlugins plugins hsrrs) (T.Routes config))
    (foldl (λ tm hostname, out_bindHost hostname ruleRef desiredSuffix tm) tm (T.otp_Hostnames config));
  Ret (tm, foldl routeDepends d (T.Routes config)).

Definition outboundMatch (p : PipyConf) (policy : T.OutboundMeshTrafficPolicy) (wildcardIPRange : list string)
    (desiredSuffix : string) (st : OutboundPolicy * Depends) (trafficMatch : T.TrafficMatch)
    : go (OutboundPolicy * Depends) :=
  let '(otp, d) := st in
  let destinationProtocol := ToLower (T.tm_DestinationProtocol trafficMatch) in
  let port := uint16 (T.tm_DestinationPort trafficMatch) in
  let name := if isHTTP destinationProtocol then T.ProtocolHTTP else T.tm_Name trafficMatch in
  let '(otp, tm, existed) := out_newTrafficMatch port name otp in
  let tm := if existed then tm else out_setPort port (out_setProtocol destinationProtocol tm) in
  let tm := generatePipyOutboundDestinationIPRanges trafficMatch wildcardIPRange tm in
  let configs := upstreamSvc ← deref (trafficMatchToMeshSvc trafficMatch);
    Ret (getOutboundHTTPRouteConfigs (T.omp_HTTPRouteConfigsPerPort policy) (TargetPort upstreamSvc)
           (PolicyName upstreamSvc true) (T.tm_WeightedClusters trafficMatch)) in
  let plugins := getTrafficMatchPluginConfigs (pc_pluginPolicies p) (T.tm_Name trafficMatch) in
  '(tm, d) ← (
    if isHTTP destinationProtocol then
      configs ← configs;
      match configs with
      | [] => Ret (tm, d)
      | _ => plugins ← plugins; gofold (outboundHTTP desiredSuffix plugins) (tm, d) configs
      end
    else if isTCP destinationProtocol then
      plugins ← plugins;
      let clusters := T.tm_WeightedClusters trafficMatch in
      Ret (out_withTCPRules (λ r, tcpClusters clusters (tcp_setPlugins plugins r)) tm, dependAll None d clusters)
    else if bool_decide (destinationProtocol = T.ProtocolHTTPS) then
      configs ← configs;
      match configs with
      | [] => Ret (tm, d)
      | _ =>
          plugins ← plugins;
          let routes := configs ≫= T.Routes in
          Ret (out_withTCPRules (λ r, foldl (λ r route, tcpClusters (ToSlice (T.rwc_WeightedClusters route)) r)
                 (tcp_setPlugins plugins r) routes) tm, foldl routeDepends d routes)
      end
    else Ret (tm, d));
  Ret (out_setMatch port name tm otp, d).

(** A nil map of clusters is an empty one. *)
Definition generatePipyOutboundTrafficRoutePolicy (p : PipyConf) (policy : T.OutboundMeshTrafficPolicy)
    (dnsProxy : LocalDNSProxy) (desiredSuffix : string) : go (PipyConf * Depends) :=
  match T.omp_TrafficMatches policy with
  | [] => Ret (p, ∅)
  | matches =>
      wildcardIPRange ← generatePipyWildcardIPRanges dnsProxy;
      '(otp, d) ← gofold (outboundMatch p policy wildcardIPRange desiredSuffix) (newOutboundTrafficPolicy p, ∅) matches;
      Ret (setOutbound otp p, d)
  end.

(** ** Egress routes *)

(** The certificate a source presents, from its secret if it names one. *)
Definition sourceCert (mtls : EgressSourceMTLSSpec) : Certificate :=
  let fsmIssued := EqualFold "fsm" (esm_Issuer mtls) in
  let bare := mkCert (Some fsmIssued) None [] "" "" "" "" in
  match esm_Cert mtls with
  | Some cert =>
      if fsmIssued then bare
      else match GetEgressSourceSecret (esc_Secret cert) with
           | inl _ => bare
           | inr data => mkCert (Some fsmIssued) None (slice_elems (esc_SubjectAltNames cert)) (esc_Expiration cert)
                           (default "" (data !! "tls.crt")) (default "" (data !! "tls.key")) (default "" (data !! "ca.crt"))
           end
  | None => bare
  end.

Definition getEgressClusterDestinationSpec (policy : T.EgressTrafficPolicy) (trafficMatch : T.TrafficMatch)
    : option DestinationSecuritySpec :=
  clusterConfig ← getEgressClusterConfigs (T.etp_ClustersConfigs policy) (T.tm_Cluster trafficMatch);
  mtls ← T.ecc_SourceMTLS clusterConfig;
  Some (mkDestinationSpec (Some (sourceCert mtls))).

Definition egressHTTP (desiredSuffix : string) (trafficMatch : T.TrafficMatch) (spec : option DestinationSecuritySpec)
    (st : OutboundTrafficMatch * Depends) (config : T.EgressHTTPRouteConfig) : go (OutboundTrafficMatch * Depends) :=
  let '(tm, d) := st in
  let ruleRef := mkRuleRef (T.erc_Name config) "" in
  let routes := map T.ehr_Route (T.erc_RoutingRules config) in
  tm ← out_withRules (ref_RuleName ruleRef) (λ hsrrs,
    foldl outRoute (out_setEgressForwardGateway (T.tm_EgressGateWay trafficMatch) hsrrs) routes)
    (foldl (λ tm hostname, out_bindHost hostname ruleRef desiredSuffix tm) tm (T.erc_Hostnames config));
  Ret (foldl (λ tm r, addDestinationIPRange r spec tm) tm
         (T.erc_RoutingRules config ≫= T.ehr_AllowedDestinationIPRanges),
       foldl routeDepends d routes).

Definition egressTrafficMatch (policy : T.EgressTrafficPolicy) (desiredSuffix : string)
    (st : OutboundPolicy * Depends) (trafficMatch : T.TrafficMatch) : go (OutboundPolicy * Depends) :=
  let '(otp, d) := st in
  let destinationProtocol := ToLower (T.tm_DestinationProtocol trafficMatch) in
  let port := uint16 (T.tm_DestinationPort trafficMatch) in
  let name := T.tm_Name trafficMatch in
  let '(otp, tm, existed) := out_newTrafficMatch port name otp in
  let tm := if existed then tm else out_setPort port (out_setProtocol destinationProtocol tm) in
  let spec := getEgressClusterDestinationSpec policy trafficMatch in
  let tm := foldl (λ tm r, addDestinationIPRange r spec tm) tm (T.tm_DestinationIPRanges trafficMatch) in
  if isHTTP destinationProtocol then
    '(tm, d) ← gofold (egressHTTP desiredSuffix trafficMatch spec) (tm, d)
      (getEgressHTTPRouteConfigs (T.etp_HTTPRouteConfigsPerPort policy) (T.tm_DestinationPort trafficMatch));
    Ret (out_setMatch port name tm otp, d)
  else if bool_decide (destinationProtocol = T.ProtocolHTTPS) then
    let tm := out_withTCPRules (λ r, tcp_addWeightedCluster (T.tm_Cluster trafficMatch) ClusterWeightAcceptAll
                (tcp_setEgressForwardGateway (T.tm_EgressGateWay trafficMatch) r)) tm in
    otp ← out_withCluster (T.tm_Cluster trafficMatch) (λ c,
      Ret (foldl (λ c serverName, cc_addWeightedEndpoint serverName port ClusterWeightAcceptAll c)
             c (T.tm_ServerNames trafficMatch))) (out_setMatch port name tm otp);
    Ret (otp, d)
  else if isTCP destinationProtocol then
    let tm := out_withTCPRules (λ r, tcp_setEgressForwardGateway (T.tm_EgressGateWay trafficMatch)
                (setAllowedEgressTraffic true r)) tm in
    Ret (out_setMatch port name tm otp, d)
  else Ret (out_setMatch port name tm otp, d).

Definition generatePipyEgressTrafficRoutePolicy (p : PipyConf) (policy : T.EgressTrafficPolicy) (desiredSuffix : string)
    : go (PipyConf * Depends) :=
  match T.etp_TrafficMatches policy with
  | [] => Ret (p, ∅)
  | matches =>
      '(otp, d) ← gofold (egressTrafficMatch policy desiredSuffix) (newOutboundTrafficPolicy p, ∅) matches;
      Ret (setOutbound otp p, d)
  end.

(** ** Endpoints of the clusters *)

(** The gateway between two clusters of a cluster set. *)
Definition generatePipyViaGateway (appProtocol endpointClusterID proxyClusterID : string) (via : ConnectorGatewaySpec) : string :=
  let pick (ip : string) (httpPort grpcPort : Z) :=
    let known := bool_decide (0 < String.length ip)%nat in
    if known && bool_decide (0 < grpcPort) && EqualFold T.ProtocolGRPC appProtocol then ip +:+ ":" +:+ pretty grpcPort
    else if known && bool_decide (0 < httpPort) && EqualFold T.ProtocolHTTP appProtocol then ip +:+ ":" +:+ pretty httpPort
    else "" in
  if bool_decide (appProtocol = "") || EqualFold proxyClusterID endpointClusterID then ""
  else if bool_decide (proxyClusterID = "") then pick (cg_ClusterIP via) (cg_EgressHTTPPort via) (cg_EgressGRPCPort via)
  else if bool_decide (endpointClusterID = "") then pick (cg_IngressAddr via) (cg_IngressHTTPPort via) (cg_IngressGRPCPort via)
  else pick (cg_IngressAddr via) (cg_EgressHTTPPort via) (cg_EgressGRPCPort via).

Definition clusterSetName (c : ClusterSetSpec) : string :=
  cls_Name c +:+ "." +:+ cls_Group c +:+ "." +:+ cls_Zone c +:+ "." +:+ cls_Region c.

(** The port and the gateway of an endpoint. *)
Definition endpointRoute (via : ConnectorGatewaySpec) (clusterSet : string) (proxy : Proxy) (svc : MeshService) (ep : Endpoint)
    : Z * string :=
  let port := uint16 (Port svc) in
  let port := if bool_decide (0 < String.length (ep_ClusterKey ep))%nat && bool_decide (0 < uint16 (TargetPort svc))
              then uint16 (TargetPort svc) else port in
  let viaGw := if EqualFold T.ProtocolHTTP (ep_AppProtocol ep) then ep_ViaGatewayHTTP ep
               else if EqualFold T.ProtocolGRPC (ep_AppProtocol ep) then ep_ViaGatewayGRPC ep else "" in
  if bool_decide (ep_ViaGatewayMode ep = "") then (port, viaGw)
  else if ep_WithGateway ep then
    (port, if px_VM proxy then
             generatePipyViaGateway (ep_AppProtocol ep) (ep_ClusterID ep)
               (if EqualFold (px_ClusterID proxy) clusterSet then "" else px_ClusterID proxy) via
           else if ep_WithMultiGateways ep
           then generatePipyViaGateway (ep_AppProtocol ep) (ep_ClusterID ep) (px_ClusterID proxy) via
           else viaGw)
  else (uint16 (ep_Port ep), viaGw).

Definition addUpstreamEndpoint (via : ConnectorGatewaySpec) (clusterSet : string) (proxy : Proxy) (svc : MeshService)
    (c : ClusterConfig) (ep : Endpoint) : ClusterConfig :=
  let '(port, viaGw) := endpointRoute via clusterSet proxy svc ep in
  addWeightedZoneEndpoint (Net.Net.ip_String (ep_IP ep)) port (uint32 (ep_Weight ep)) (ep_ClusterKey ep) (ep_LBType ep)
    (ep_Path ep) viaGw c.

Definition clustersConfigsMap (configs : list T.MeshClusterConfig) : gmap string (list T.MeshClusterConfig) :=
  foldl (λ m c, map_append (SidecarLocalClusterName (T.mcc_Service c)) [c]
                  (map_append (SidecarClusterName (T.mcc_Service c)) [c] m)) ∅ configs.

Definition balanceCluster (via : ConnectorGatewaySpec) (clusterSet : string) (proxy : Proxy)
    (clusterName : string) (retry : option RetryPolicySpec) (st : bool * OutboundPolicy) (config : T.MeshClusterConfig)
    : go (bool * OutboundPolicy) :=
  let '(ready, otp) := st in
  eps ← getUpstreamEndpoints mc (px_Identity proxy) (ms_ClusterName (T.mcc_Service config));
  otp ← out_withCluster clusterName (λ c,
    match eps with
    | [] => Ret c
    | _ =>
        let c := foldl (addUpstreamEndpoint via clusterSet proxy (T.mcc_Service config)) c eps in
        let c := match uts ← T.mcc_UpstreamTrafficSetting config; utss_ConnectionSettings (uts_Spec uts) with
                 | Some s => setConnectionSettings (Some s) c
                 | None => c
                 end in
        match retry with Some r => Pipy.setRetryPolicy (Some r) c | None => Ret c end
    end) otp;
  Ret (ready && negb (bool_decide (length eps = 0%nat)), otp).

Definition generatePipyOutboundTrafficBalancePolicy `{MapRange} (via : ConnectorGatewaySpec) (clusterSet : ClusterSetSpec)
    (proxy : Proxy) (p : PipyConf) (policy : T.OutboundMeshTrafficPolicy) (dependClusters : Depends) : go (bool * PipyConf) :=
  let configs := clustersConfigsMap (T.omp_ClustersConfigs policy) in
  '(ready, otp) ← gofold (λ '(ready, otp) '(_, (cluster, retry)),
    match default [] (configs !! wc_ClusterName cluster) with
    | [] => Ret (false, otp)
    | l => gofold (balanceCluster via (clusterSetName clusterSet) proxy (wc_ClusterName cluster) retry) (ready, otp) l
    end) (true, newOutboundTrafficPolicy p) (map_range dependClusters);
  Ret (ready, setOutbound otp p).

Definition generatePipyEgressTrafficBalancePolicy `{MapRange} (proxy : Proxy) (p : PipyConf)
    (policy : T.EgressTrafficPolicy) (dependClusters : Depends) : go (bool * PipyConf) :=
  '(ready, otp) ← gofold (λ '(ready, otp) '(_, (cluster, retry)),
    match getEgressClusterConfigs (T.etp_ClustersConfigs policy) (wc_ClusterName cluster) with
    | None => Ret (false, otp)
    | Some config =>
        otp ← out_withCluster (wc_ClusterName cluster) (λ c,
          let c := cc_addWeightedEndpoint (T.ecc_Name config) (uint16 (T.ecc_Port config)) ClusterWeightAcceptAll c in
          let c := match T.ecc_UpstreamTrafficSetting config with
                   | Some uts => setConnectionSettings (utss_ConnectionSettings (uts_Spec uts)) c
                   | None => c
                   end in
          let c := match T.ecc_SourceMTLS config with Some mtls => setSourceCert (Some (sourceCert mtls)) c | None => c end in
          match retry with
          | Some r => Pipy.setRetryPolicy (Some r) c
          | None =>
              svc ← hostToMeshSvc (wc_ClusterName cluster);
              match svc with
              | None => Ret c
              | Some upstreamSvc =>
                  retryPolicy ← GetRetryPolicy mc (px_Identity proxy) upstreamSvc;
                  match retryPolicy with Some r => Pipy.setRetryPolicy (Some r) c | None => Ret c end
              end
          end) otp;
        Ret (ready, otp)
    end) (true, newOutboundTrafficPolicy p) (map_range dependClusters);
  Ret (ready, setOutbound otp p).

(** ** Gateways *)

Record EgressGatewayRule := mkGatewayRule {
  egr_Name : string; egr_Namespace : string; egr_EgressGateways : list EgressGatewayConfig }.

Record EgressGatewayPolicy := mkGatewayPolicy {
  egp_Global : slice EgressGatewayConfig; egp_Rules : slice EgressGatewayRule }.

Definition forwardGateway (rule : string) (noWeight : Z) (ftp : ForwardPolicy) (g : EgressGatewayConfig) : ForwardPolicy :=
  let clusterName := egc_Service g +:+ "." +:+ egc_Namespace g in
  let ftp := setForward rule clusterName (default noWeight (uint32 <$> egc_Weight g)) ftp in
  match egc_Endpoints g with
  | [] => ftp
  | eps => withEgressGateway clusterName (egc_Mode g) (λ c,
      foldl (λ c ep, cc_addWeightedEndpoint (Net.Net.ip_String (ep_IP ep)) (uint16 (ep_Port ep)) 0 c) c eps) ftp
  end.

Definition generatePipyEgressTrafficForwardPolicy (p : PipyConf) (policy : option EgressGatewayPolicy) : bool * PipyConf :=
  match policy with
  | None => (true, p)
  | Some pol =>
      match egp_Global pol, slice_elems (egp_Rules pol) with
      | None, [] => (true, p)
      | global, rules =>
          let ftp := newForwardTrafficPolicy p in
          let ftp := match global with
                     | Some gs => foldl (forwardGateway "*" 0) (newForwardMatch "*" ftp) gs
                     | None => ftp
                     end in
          let '(success, ftp) := foldl (λ '(success, ftp) '(index, rule),
            let ruleName := egr_Namespace rule +:+ "." +:+ egr_Name rule +:+ "." +:+ pretty (Z.of_nat index) in
            (success && forallb (λ g, negb (bool_decide (length (egc_Endpoints g) = 0%nat))) (egr_EgressGateways rule),
             foldl (forwardGateway ruleName ClusterWeightAcceptAll) (newForwardMatch ruleName ftp) (egr_EgressGateways rule)))
            (true, ftp) (imap (λ i r, (i, r)) rules) in
          (success, setForwardPolicy ftp p)
      end
  end.

End generators.

End PipyOut.
