(* ===== verification/PipyRouting.v ===== *)
(** * The routing script of a sidecar: codebase/modules/inbound-http-routing.js

    The script reads the configuration this control plane generates and picks
    the route of a request.  [RegExp] is the JavaScript engine's, an argument.
    An exception of the script is a [Panic]: a text that is no pattern throws
    when the handler of its service is made, a rule whose type is none of the
    three when the search comes to it.  An absent field of the configuration
    is an empty one (the encoder omits empty lists and maps).  A request is its
    method, path and headers. *)

From S2P Require Import Prelude Pipy PipyConf.
Import Pipy.Pipy PipyConf.PipyConf.

Module PipyRouting.

(** [new RegExp(re)], if it does not throw, as the strings it is found in. *)
Class RegExp := { compile : string → option (string → bool) }.

Record Request := mkRequest {
  rq_method : string; rq_path : string; rq_headers : gmap string string }.

Definition allMethods : list string := ["GET"; "HEAD"; "POST"; "PUT"; "DELETE"; "PATCH"; "OPTIONS"].

(** The tree: by identity, by method, the rules in order. *)
Abbreviation Tree := (gmap string (gmap string (list HTTPRouteRule))) (only parsing).

Section routing.
Context `{RE : RegExp}.

(** [matchPath] is [false] for a type it does not know. *)
Definition makeMatchPath (config : HTTPMatchRule) : go (option (string → bool)) :=
  if bool_decide (hmr_Type config = "Regex") then m ← deref (compile (hmr_Path config)); Ret (Some m)
  else if bool_decide (hmr_Type config = "Exact") then Ret (Some (λ path, bool_decide (path = hmr_Path config)))
  else if bool_decide (hmr_Type config = "Prefix") then Ret (Some (String.prefix (hmr_Path config)))
  else Ret None.

Definition makeHeaderRules (config : HTTPMatchRule) : go (list (string * (string → bool))) :=
  gomap (λ '(k, v), m ← deref (compile v); Ret (k, m)) (map_to_list (hmr_Headers config)).

(** [headers[k] || ''] *)
Definition header (headers : gmap string string) (k : string) : string := default "" (headers !! k).

(** The closure a rule becomes. *)
Definition makeRule (config : HTTPMatchRule) : go (string → gmap string string → go bool) :=
  matchPath ← makeMatchPath config;
  headerRules ← makeHeaderRules config;
  Ret (λ path headers, m ← deref matchPath;
                       Ret (m path && forallb (λ '(k, v), v (header headers k)) headerRules)).

Definition allowedIdentities (config : HTTPRouteRule) : list string :=
  match hrr_AllowedServices config with [] => [""] | services => remove_dups services end.

Definition allowedMethods (config : HTTPRouteRule) : list string :=
  match hmr_Methods (hrr_Match config) with [] => allMethods | methods => methods end.

Definition treeAt (tree : Tree) (identity method : string) : option (list HTTPRouteRule) :=
  methods ← tree !! identity; methods !! method.

Definition push (rule : HTTPRouteRule) (identity : string) (tree : Tree) (method : string) : Tree :=
  let methods := default ∅ (tree !! identity) in
  <[identity := <[method := default [] (methods !! method) ++ [rule]]> methods]> tree.

Definition addRule (tree : Tree) (config : HTTPRouteRule) : Tree :=
  foldl (λ tree identity, foldl (push config identity) tree (allowedMethods config))
    tree (allowedIdentities config).

(** [forEach] makes the closure of every rule; the tree has the rules the
    closures are of. *)
Definition makeTree (rules : list HTTPRouteRule) : go Tree :=
  gofold (λ tree config, _ ← makeRule (hrr_Match config); Ret (addRule tree config)) ∅ rules.

(** [find(rule => rule(path, headers))] *)
Fixpoint findRule (candidates : list HTTPRouteRule) (path : string) (headers : gmap string string)
    : go (option HTTPRouteRule) :=
  match candidates with
  | [] => Ret None
  | config :: rest =>
      rule ← makeRule (hrr_Match config);
      found ← rule path headers;
      if found : bool then Ret (Some config) else findRule rest path headers
  end.

(** The route of a request: the rules of the identity in the header if it has
    some for the method, else those for everyone; the first that matches. *)
Definition serviceHandler (rules : list HTTPRouteRule) (rq : Request) : go (option HTTPRouteRule) :=
  tree ← makeTree rules;
  let identity := header (rq_headers rq) "serviceidentity" in
  let own := if bool_decide (identity = "") then None else treeAt tree identity (rq_method rq) in
  match match own with Some l => Some l | None => treeAt tree "" (rq_method rq) end with
  | Some candidates => findRule candidates (rq_path rq) (rq_headers rq)
  | None => Ret None
  end.

(** [portConfig.HttpServiceRouteRules[serviceInfo.RuleName].RouteRules || []] *)
Definition rulesOfHost (portConfig : InboundTrafficMatch) (host : string) : list HTTPRouteRule :=
  match serviceInfo ← im_HTTPHostPort2Service portConfig !! host;
        im_HTTPServiceRouteRules portConfig !! ref_RuleName serviceInfo with
  | Some rules => irr_RouteRules rules
  | None => []
  end.

(** [contains] is the Netmask test of an address against a block. *)
Definition portHandler (contains : string → string → bool) (portConfig : InboundTrafficMatch)
    (remoteAddress : string) (rq : Request) : go (option HTTPRouteRule) :=
  let ranges := (map_to_list (im_SourceIPRanges portConfig)).*1 in
  let ingress := existsb (λ r, contains r remoteAddress) ranges in
  serviceHandler (rulesOfHost portConfig (if ingress then "*" else header (rq_headers rq) "host")) rq.

End routing.

End PipyRouting.
