(* ===== verification/PipyRoutingFacts.v ===== *)
(** * Facts about the routing script

    Which route a request gets, in terms of the rules alone; the decision to
    admit a request does not depend on the order of the rules.  One text that
    is no pattern keeps the script from making the handler of a service. *)

From S2P Require Import Prelude Pipy PipyConf PipyRouting.
Import Pipy.Pipy PipyConf.PipyConf PipyRouting.PipyRouting.

Module PipyRoutingFacts.

(** ** The tree *)

(** The tree of rules that all become closures. *)
Definition treeOf (rules : list HTTPRouteRule) : Tree := foldl addRule ∅ rules.

Definition entry (tree : Tree) (identity method : string) : list HTTPRouteRule := default [] (treeAt tree identity method).

Definition noEmptyEntry (tree : Tree) : Prop := ∀ identity method, treeAt tree identity method ≠ Some [].

Lemma treeAt_push r i t m i' m' :
  treeAt (push r i t m) i' m' =
    if decide (i = i' ∧ m = m') then Some (entry t i m ++ [r]) else treeAt t i' m'.
Proof.
  unfold push, entry, treeAt. cbv zeta. destruct (decide (i = i')) as [<-|Hi].
  - rewrite lookup_insert_eq. simpl. destruct (decide (m = m')) as [<-|Hm].
    + rewrite lookup_insert_eq, decide_True by done. by destruct (t !! i).
    + rewrite lookup_insert_ne, decide_False by naive_solver. by destruct (t !! i).
  - by rewrite lookup_insert_ne, decide_False by naive_solver.
Qed.

Lemma push_noEmpty r i t m : noEmptyEntry t → noEmptyEntry (push r i t m).
Proof. intros H i' m'. rewrite treeAt_push. case_decide; [by destruct (entry t i m)|apply H]. Qed.

Lemma elem_of_push r i t m i' m' x :
  x ∈ entry (push r i t m) i' m' ↔ x ∈ entry t i' m' ∨ x = r ∧ i' = i ∧ m' = m.
Proof.
  unfold entry at 1. rewrite treeAt_push. case_decide as Hd.
  - destruct Hd as [-> ->]. simpl. rewrite elem_of_app, list_elem_of_singleton. naive_solver.
  - fold (entry t i' m'). naive_solver.
Qed.

Lemma elem_of_pushes r i t ms i' m' x :
  x ∈ entry (foldl (push r i) t ms) i' m' ↔ x ∈ entry t i' m' ∨ x = r ∧ i' = i ∧ m' ∈ ms.
Proof.
  revert t. induction ms as [|m ms IH]; intros t; simpl.
  - rewrite elem_of_nil. naive_solver.
  - rewrite IH, elem_of_push, elem_of_cons. naive_solver.
Qed.

Lemma elem_of_addRule t c i m x :
  x ∈ entry (addRule t c) i m ↔ x ∈ entry t i m ∨ x = c ∧ i ∈ allowedIdentities c ∧ m ∈ allowedMethods c.
Proof.
  unfold addRule. generalize (allowedIdentities c). intros ids. revert t.
  induction ids as [|j ids IH]; intros t; simpl.
  - rewrite elem_of_nil. naive_solver.
  - rewrite IH, elem_of_pushes, elem_of_cons. naive_solver.
Qed.

Lemma elem_of_treeOf rules i m x :
  x ∈ entry (treeOf rules) i m ↔ x ∈ rules ∧ i ∈ allowedIdentities x ∧ m ∈ allowedMethods x.
Proof.
  unfold treeOf. cut (∀ t, x ∈ entry (foldl addRule t rules) i m ↔
    x ∈ entry t i m ∨ x ∈ rules ∧ i ∈ allowedIdentities x ∧ m ∈ allowedMethods x).
  { intros ->. unfold entry, treeAt. rewrite lookup_empty. simpl. rewrite elem_of_nil. naive_solver. }
  induction rules as [|r rules IH]; intros t; simpl.
  - rewrite elem_of_nil. naive_solver.
  - rewrite IH, elem_of_addRule, elem_of_cons. naive_solver.
Qed.

Lemma treeOf_noEmpty rules : noEmptyEntry (treeOf rules).
Proof.
  unfold treeOf. apply foldl_inv.
  { intros i m. unfold treeAt. by rewrite lookup_empty. }
  intros _ c _ t _ Ht. unfold addRule. apply foldl_inv; [done|]. intros _ i _ t' _ Ht'.
  apply foldl_inv; [done|]. intros _ m _ t'' _ ?. by apply push_noEmpty.
Qed.

Lemma treeAt_None rules i m : treeAt (treeOf rules) i m = None ↔ entry (treeOf rules) i m = [].
Proof.
  unfold entry. pose proof (treeOf_noEmpty rules i m). destruct (treeAt _ _ _) as [[|??]|]; naive_solver.
Qed.

(** ** The decision *)

Section routing.
Context `{RE : RegExp}.

Definition identityOf (rq : Request) : string := header (rq_headers rq) "serviceidentity".

(** ** Closures *)

(** Whether a pattern is found in a string; a text that is none is nowhere. *)
Definition test (re s : string) : bool := match compile re with Some m => m s | None => false end.

Definition matchPath (config : HTTPMatchRule) (path : string) : bool :=
  if bool_decide (hmr_Type config = "Regex") then test (hmr_Path config) path
  else if bool_decide (hmr_Type config = "Exact") then bool_decide (path = hmr_Path config)
  else if bool_decide (hmr_Type config = "Prefix") then String.prefix (hmr_Path config) path
  else false.

Definition headerRules (config : HTTPMatchRule) (headers : gmap string string) : bool :=
  forallb (λ '(k, v), test v (header headers k)) (map_to_list (hmr_Headers config)).

Definition ruleMatches (config : HTTPMatchRule) (path : string) (headers : gmap string string) : bool :=
  matchPath config path && headerRules config headers.

(** The rule becomes a closure, and one that can be called. *)
Definition compiles (config : HTTPMatchRule) : Prop :=
  (hmr_Type config = "Regex" → is_Some (compile (hmr_Path config))) ∧
  Forall (λ kv : string * string, is_Some (compile kv.2)) (map_to_list (hmr_Headers config)).
Definition knownType (config : HTTPMatchRule) : Prop := hmr_Type config ∈ ["Regex"; "Exact"; "Prefix"].

#[export] Instance compiles_dec config : Decision (compiles config).
Proof. unfold compiles. apply _. Defined.

Lemma headerClosures l acc : let run :=
    gofold (λ acc (kv : string * string), y ← (let '(k, v) := kv in m ← deref (compile v); Ret (k, m)); Ret (acc ++ [y])) acc l in
  if decide (Forall (λ kv : string * string, is_Some (compile kv.2)) l)
  then ∃ rules, run = Ret (acc ++ rules) ∧ ∀ headers,
    forallb (λ '(k, v), v (header headers k)) rules = forallb (λ '(k, v), test v (header headers k)) l
  else run = Panic.
Proof.
  revert acc. induction l as [|[k v] l IH]; intros acc; cbn [gofold].
  { rewrite decide_True by done. exists []. by rewrite app_nil_r. }
  destruct (compile v) as [m|] eqn:E; simpl; [|rewrite decide_False; [done|intros [[m Hm] _]%Forall_cons; simpl in Hm; congruence]].
  specialize (IH (acc ++ [(k, m)])). simpl in IH. destruct (decide (Forall _ l)) as [Hl|Hl].
  - rewrite decide_True by (constructor; [eexists; exact E|done]). destruct IH as (rules & -> & Hr).
    exists ((k, m) :: rules). rewrite <-app_assoc. split; [done|]. intros headers. simpl. unfold test at 1. by rewrite E, Hr.
  - rewrite decide_False by (by rewrite Forall_cons; intros []). exact IH.
Qed.

Lemma makeRule_spec config :
  if decide (compiles config)
  then ∃ rule, makeRule config = Ret rule ∧
    (knownType config → ∀ path headers, rule path headers = Ret (ruleMatches config path headers))
  else makeRule config = Panic.
Proof.
  pose proof (headerClosures (map_to_list (hmr_Headers config)) []) as Hh. cbv zeta in Hh.
  unfold makeRule, makeMatchPath, makeHeaderRules, gomap. destruct (decide (compiles config)) as [[Hp Hf]|Hn].
  - rewrite decide_True in Hh by done. destruct Hh as (rules & Hr & Hrules).
    unfold ruleMatches, matchPath, headerRules, knownType. case_bool_decide as Ht.
    + destruct (Hp Ht) as [m Hm]. rewrite Hm. cbn [deref mbind go_bind]. rewrite Hr. eexists. split; [done|].
      intros _ path headers. simpl. unfold test at 1. by rewrite Hm, Hrules.
    + repeat case_bool_decide; cbn [mbind go_bind]; rewrite Hr; eexists; (split; [done|]);
        intros Hk path headers; simpl; rewrite ?Hrules; try done.
      rewrite !elem_of_cons, elem_of_nil in Hk. naive_solver.
  - assert (hmr_Type config = "Regex" ∧ compile (hmr_Path config) = None ∨
      ¬ Forall (λ kv : string * string, is_Some (compile kv.2)) (map_to_list (hmr_Headers config))) as [[Ht Hc]|Hf].
    { destruct (decide (Forall (λ kv : string * string, is_Some (compile kv.2)) (map_to_list (hmr_Headers config)))); [|by right].
      left. destruct (decide (hmr_Type config = "Regex")), (compile (hmr_Path config)) eqn:E; try done;
        exfalso; apply Hn; split; try done; rewrite E; eauto. }
    + by rewrite bool_decide_eq_true_2, Hc by done.
    + rewrite decide_False in Hh by done. case_bool_decide as Ht; [destruct (compile (hmr_Path config)); [|done]|];
        repeat case_bool_decide; cbn [deref mbind go_bind]; by rewrite Hh.
Qed.

Definition allCompile (rules : list HTTPRouteRule) : Prop := Forall (λ r, compiles (hrr_Match r)) rules.
Definition allKnown (rules : list HTTPRouteRule) : Prop := Forall (λ r, knownType (hrr_Match r)) rules.

Lemma makeTree_spec rules :
  makeTree rules = if decide (allCompile rules) then Ret (treeOf rules) else Panic.
Proof.
  unfold makeTree, treeOf, allCompile. generalize (∅ : Tree). induction rules as [|r rules IH]; intros tree; cbn [gofold].
  { by rewrite decide_True. }
  pose proof (makeRule_spec (hrr_Match r)) as Hr. destruct (decide (compiles (hrr_Match r))) as [Hc|Hc].
  - destruct Hr as (rule & -> & _). cbn [mbind go_bind]. rewrite IH. apply decide_ext. rewrite Forall_cons. tauto.
  - rewrite Hr. rewrite decide_False by (by rewrite Forall_cons; intros []). done.
Qed.

Lemma findRule_found l path headers : allCompile l → allKnown l →
  findRule l path headers = Ret (snd <$> list_find (λ r, ruleMatches (hrr_Match r) path headers = true) l).
Proof.
  unfold allCompile, allKnown. induction l as [|r l IH]; [done|]. rewrite !Forall_cons. intros [Hc Hcl] [Hk Hkl]. cbn [findRule].
  pose proof (makeRule_spec (hrr_Match r)) as Hr. rewrite decide_True in Hr by done. destruct Hr as (rule & -> & Hrun).
  cbn [mbind go_bind]. rewrite (Hrun Hk). cbn [mbind go_bind]. cbn [list_find].
  destruct (ruleMatches (hrr_Match r) path headers) eqn:E.
  - rewrite decide_True by done. done.
  - rewrite decide_False by done. rewrite IH by done. by destruct (list_find _ l) as [[]|].
Qed.

(** Some rule for the method lists the identity. *)
Definition listed (rules : list HTTPRouteRule) (rq : Request) : Prop :=
  identityOf rq ≠ "" ∧ ∃ r, r ∈ rules ∧ identityOf rq ∈ allowedIdentities r ∧ rq_method rq ∈ allowedMethods r.

(** The rule applies to the request: as one of its identity if there are
    such rules for the method, as one for everyone otherwise. *)
Definition applies (rules : list HTTPRouteRule) (rq : Request) (r : HTTPRouteRule) : Prop :=
  r ∈ rules ∧ rq_method rq ∈ allowedMethods r ∧
  ruleMatches (hrr_Match r) (rq_path rq) (rq_headers rq) = true ∧
  (listed rules rq ∧ identityOf rq ∈ allowedIdentities r ∨ ¬ listed rules rq ∧ "" ∈ allowedIdentities r).

Lemma listed_entry rules rq :
  listed rules rq ↔ identityOf rq ≠ "" ∧ entry (treeOf rules) (identityOf rq) (rq_method rq) ≠ [].
Proof.
  unfold listed. split; intros [Hid H]; split; try done.
  - destruct H as (r & Hr). apply elem_of_treeOf in Hr. by intros E; rewrite E, elem_of_nil in Hr.
  - destruct (entry _ _ _) as [|r l] eqn:E; [done|]. exists r. apply elem_of_treeOf. rewrite E. left.
Qed.

(** The rules that are searched. *)
Definition candidates (rules : list HTTPRouteRule) (rq : Request) (r : HTTPRouteRule) : Prop :=
  r ∈ rules ∧ rq_method rq ∈ allowedMethods r ∧
  (listed rules rq ∧ identityOf rq ∈ allowedIdentities r ∨ ¬ listed rules rq ∧ "" ∈ allowedIdentities r).

(** The search when nothing throws. *)
Definition routeFor (rules : list HTTPRouteRule) (rq : Request) : option HTTPRouteRule :=
  let own := if bool_decide (identityOf rq = "") then None else treeAt (treeOf rules) (identityOf rq) (rq_method rq) in
  candidates ← match own with Some l => Some l | None => treeAt (treeOf rules) "" (rq_method rq) end;
  snd <$> list_find (λ r, ruleMatches (hrr_Match r) (rq_path rq) (rq_headers rq) = true) candidates.

Lemma route_search rules rq :
  ∃ l, (∀ r, r ∈ l ↔ candidates rules rq r) ∧
    routeFor rules rq = snd <$> list_find (λ r, ruleMatches (hrr_Match r) (rq_path rq) (rq_headers rq) = true) l.
Proof.
  unfold routeFor. cbv zeta.
  assert (Hkey : ∀ key, (treeAt (treeOf rules) key (rq_method rq)
      ≫= λ c, snd <$> list_find (λ r, ruleMatches (hrr_Match r) (rq_path rq) (rq_headers rq) = true) c)
    = snd <$> list_find (λ r, ruleMatches (hrr_Match r) (rq_path rq) (rq_headers rq) = true) (entry (treeOf rules) key (rq_method rq))).
  { intros key. unfold entry. by destruct (treeAt _ _ _). }
  destruct (decide (identityOf rq ≠ "" ∧ entry (treeOf rules) (identityOf rq) (rq_method rq) ≠ [])) as [Hl|Hl].
  - exists (entry (treeOf rules) (identityOf rq) (rq_method rq)). split.
    + intros r. rewrite elem_of_treeOf. unfold candidates. rewrite listed_entry. naive_solver.
    + rewrite bool_decide_eq_false_2 by naive_solver. rewrite <-Hkey.
      destruct (treeAt _ _ _) eqn:E; [done|]. apply treeAt_None in E. naive_solver.
  - exists (entry (treeOf rules) "" (rq_method rq)). split.
    + intros r. rewrite elem_of_treeOf. unfold candidates. rewrite listed_entry. naive_solver.
    + rewrite <-Hkey. case_bool_decide as Hid; [done|].
      destruct (treeAt (treeOf rules) (identityOf rq) _) eqn:E; [|done]. exfalso. apply Hl. split; [done|].
      unfold entry. rewrite E. simpl. intros ->. by apply (treeOf_noEmpty rules) in E.
Qed.

Lemma route_Some rules rq r : routeFor rules rq = Some r → applies rules rq r.
Proof.
  destruct (route_search rules rq) as (l & Hl & ->). intros H.
  apply fmap_Some in H as ([i r'] & Hf & ->). apply list_find_Some in Hf as (Hi & Hm & _).
  apply list_elem_of_lookup_2, Hl in Hi. unfold candidates, applies in *. naive_solver.
Qed.

Lemma route_is_Some rules rq :
  is_Some (routeFor rules rq) ↔ ∃ r, applies rules rq r.
Proof.
  split; [intros [r Hr]; exists r; by apply route_Some|].
  intros (r & Hr & Hmeth & Hm & Hk). destruct (route_search rules rq) as (l & Hl & ->).
  rewrite fmap_is_Some. apply (list_find_elem_of _ l r); [|done]. by apply Hl.
Qed.

Lemma treeAt_subset rules identity method l :
  treeAt (treeOf rules) identity method = Some l → ∀ r, r ∈ l → r ∈ rules.
Proof. intros E r Hr. apply (elem_of_treeOf rules identity method r). unfold entry. by rewrite E. Qed.

(** The handler throws when some rule is not made of patterns, and otherwise
    searches. *)
Lemma serviceHandler_spec rules rq : allKnown rules →
  serviceHandler rules rq = if decide (allCompile rules) then Ret (routeFor rules rq) else Panic.
Proof.
  intros Hk. unfold serviceHandler. rewrite makeTree_spec. fold (identityOf rq). case_decide as Hc; [|done].
  cbn [mbind go_bind]. cbv zeta. unfold routeFor.
  assert (Hsub : ∀ l : list HTTPRouteRule, (∀ r, r ∈ l → r ∈ rules) → allCompile l ∧ allKnown l).
  { unfold allCompile, allKnown in *. rewrite Forall_forall in Hc, Hk. intros l Hl. rewrite !Forall_forall.
    split; intros r Hr; [apply Hc|apply Hk]; by apply Hl. }
  destruct (match _ with Some l => Some l | None => treeAt _ "" _ end) as [l|] eqn:E; [|done]. simpl.
  destruct (Hsub l) as [??]; [|by apply findRule_found].
  case_bool_decide; [by eapply treeAt_subset|]. destruct (treeAt _ (identityOf rq) _) eqn:E'; simplify_eq; by eapply treeAt_subset.
Qed.

Lemma serviceHandler_nil rq : serviceHandler [] rq = Ret None.
Proof.
  unfold serviceHandler. cbn [makeTree gofold mbind go_bind]. unfold treeAt. cbv zeta. rewrite !lookup_empty. simpl.
  by case_bool_decide.
Qed.

(** A request gets a route. *)
Definition admitted (o : go (option HTTPRouteRule)) : Prop := ∃ r, o = Ret (Some r).

Lemma serviceHandler_Some rules rq r : allKnown rules → serviceHandler rules rq = Ret (Some r) → applies rules rq r.
Proof. intros Hk. rewrite serviceHandler_spec by done. case_decide; [|done]. intros [= ?]. by apply route_Some. Qed.

Lemma serviceHandler_admits rules rq : allKnown rules →
  admitted (serviceHandler rules rq) ↔ allCompile rules ∧ ∃ r, applies rules rq r.
Proof.
  intros Hk. rewrite serviceHandler_spec, <-route_is_Some by done. unfold admitted. case_decide as Hc.
  - split; [intros [r [= E]]; split; [done|by eexists]|]. intros [_ [r E]]. exists r. by rewrite E.
  - split; [by intros []|by intros []].
Qed.

(** ** Rules with other targets *)

Section rewritten.
Context (f : HTTPRouteRule → HTTPRouteRule) (Hmatch : ∀ r, hrr_Match (f r) = hrr_Match r)
  (Hservices : ∀ r, hrr_AllowedServices (f r) = hrr_AllowedServices r).

Definition mapTree (t : Tree) : Tree := (λ ms : gmap string (list HTTPRouteRule), map f <$> ms) <$> t.

Lemma treeAt_map t i m : treeAt (mapTree t) i m = map f <$> treeAt t i m.
Proof. unfold treeAt, mapTree. rewrite lookup_fmap. destruct (t !! i); simpl; [by rewrite lookup_fmap|done]. Qed.

Lemma push_map r i t m : push (f r) i (mapTree t) m = mapTree (push r i t m).
Proof.
  unfold push, mapTree. rewrite fmap_insert, lookup_fmap. f_equal. destruct (t !! i) as [ms|]; simpl.
  - rewrite fmap_insert, lookup_fmap. f_equal. destruct (ms !! m) as [l|]; simpl; [|done]. by rewrite map_app.
  - by rewrite fmap_insert, fmap_empty, !lookup_empty.
Qed.

Lemma foldl_map_commute {A} (g h : Tree → A → Tree) l t :
  (∀ t x, g (mapTree t) x = mapTree (h t x)) → foldl g (mapTree t) l = mapTree (foldl h t l).
Proof. intros H. revert t. induction l as [|x l IH]; intros t; simpl; [done|]. by rewrite H, IH. Qed.

Lemma addRule_map t r : addRule (mapTree t) (f r) = mapTree (addRule t r).
Proof.
  unfold addRule, allowedIdentities, allowedMethods. rewrite Hmatch, Hservices.
  apply foldl_map_commute. intros t' i. apply foldl_map_commute. intros t'' m. apply push_map.
Qed.

Lemma makeTree_map rules : makeTree (map f rules) = t ← makeTree rules; Ret (mapTree t).
Proof.
  unfold makeTree. replace (∅ : Tree) with (mapTree ∅) at 1 by (unfold mapTree; by rewrite fmap_empty). generalize (∅ : Tree).
  induction rules as [|r rules IH]; intros t; cbn [map gofold]; [done|]. rewrite Hmatch.
  destruct (makeRule (hrr_Match r)); [|done]. cbn [mbind go_bind]. by rewrite addRule_map, IH.
Qed.

Lemma findRule_map l path headers : findRule (map f l) path headers = o ← findRule l path headers; Ret (option_map f o).
Proof.
  induction l as [|r l IH]; simpl; [done|]. rewrite Hmatch. destruct (makeRule (hrr_Match r)) as [rule|]; [|done]. simpl.
  destruct (rule path headers) as [[]|]; simpl; done.
Qed.

(** The rule that is chosen is the one chosen before, rewritten. *)
Lemma serviceHandler_map rules rq : serviceHandler (map f rules) rq = o ← serviceHandler rules rq; Ret (option_map f o).
Proof.
  unfold serviceHandler. rewrite makeTree_map. destruct (makeTree rules) as [t|]; [|done]. cbn [mbind go_bind]. cbv zeta.
  rewrite !treeAt_map. case_bool_decide; repeat destruct (treeAt t _ _); simpl; try done; apply findRule_map.
Qed.

End rewritten.

(** ** Rules that admit the same requests *)

(** The fields of a rule that routing reads, lists up to their order. *)
Definition sameRule (r r' : HTTPRouteRule) : Prop :=
  hmr_Path (hrr_Match r) = hmr_Path (hrr_Match r') ∧ hmr_Type (hrr_Match r) = hmr_Type (hrr_Match r') ∧
  hmr_Headers (hrr_Match r) = hmr_Headers (hrr_Match r') ∧
  (∀ m, m ∈ hmr_Methods (hrr_Match r) ↔ m ∈ hmr_Methods (hrr_Match r')) ∧
  (∀ s, s ∈ hrr_AllowedServices r ↔ s ∈ hrr_AllowedServices r').

#[export] Instance sameRule_sym : Symmetric sameRule.
Proof. intros r r'. unfold sameRule. naive_solver. Qed.

Lemma same_members_nil {A} (l l' : list A) : (∀ x, x ∈ l ↔ x ∈ l') → l = [] → l' = [].
Proof. intros H ->. destruct l' as [|x l']; [done|]. destruct (not_elem_of_nil x). apply H. left. Qed.

Lemma elem_of_allowedIdentities r i :
  i ∈ allowedIdentities r ↔ i ∈ hrr_AllowedServices r ∨ hrr_AllowedServices r = [] ∧ i = "".
Proof.
  unfold allowedIdentities. destruct (hrr_AllowedServices r) as [|s l] eqn:E.
  - rewrite list_elem_of_singleton, elem_of_nil. naive_solver.
  - rewrite elem_of_remove_dups. naive_solver.
Qed.

Lemma elem_of_allowedMethods r m :
  m ∈ allowedMethods r ↔ m ∈ hmr_Methods (hrr_Match r) ∨ hmr_Methods (hrr_Match r) = [] ∧ m ∈ allMethods.
Proof.
  unfold allowedMethods. destruct (hmr_Methods _) as [|s l] eqn:E; [|naive_solver].
  rewrite elem_of_nil. naive_solver.
Qed.

Lemma sameRule_identities r r' i : sameRule r r' → i ∈ allowedIdentities r → i ∈ allowedIdentities r'.
Proof.
  intros (_ & _ & _ & _ & Hs). rewrite !elem_of_allowedIdentities.
  intros [?|[He ->]]; [left; by apply Hs|right; split; [|done]]. by apply (same_members_nil _ _ Hs).
Qed.

Lemma sameRule_methods r r' m : sameRule r r' → m ∈ allowedMethods r → m ∈ allowedMethods r'.
Proof.
  intros (_ & _ & _ & Hm & _). rewrite !elem_of_allowedMethods.
  intros [?|[He ?]]; [left; by apply Hm|right; split; [|done]]. by apply (same_members_nil _ _ Hm).
Qed.

Lemma sameRule_matches r r' path headers :
  sameRule r r' → ruleMatches (hrr_Match r) path headers = ruleMatches (hrr_Match r') path headers.
Proof. intros (Hp & Ht & Hh & _). unfold ruleMatches, matchPath, headerRules. by rewrite Hp, Ht, Hh. Qed.

(** Every rule of one list has a counterpart in the other. *)
Definition covered (rules rules' : list HTTPRouteRule) : Prop := ∀ r, r ∈ rules → ∃ r', r' ∈ rules' ∧ sameRule r r'.
Definition sameRules (rules rules' : list HTTPRouteRule) : Prop := covered rules rules' ∧ covered rules' rules.

Lemma covered_listed rules rules' rq : covered rules rules' → listed rules rq → listed rules' rq.
Proof.
  intros Hc [Hid (r & Hr & Hi & Hm)]. split; [done|]. destruct (Hc r Hr) as (r' & Hr' & Hs).
  exists r'. eauto using sameRule_identities, sameRule_methods.
Qed.

(** A counterpart applies where the rule does. *)
Lemma sameRule_applies rules rules' rq r r' :
  sameRules rules rules' → r' ∈ rules' → sameRule r r' → applies rules rq r → applies rules' rq r'.
Proof.
  intros [Hc Hc'] Hr' Hs (Hr & Hmeth & Hm & Hk).
  repeat split; [done|by eapply sameRule_methods|by rewrite <-(sameRule_matches r r')|].
  destruct Hk as [[Hl Hi]|[Hl Hi]]; [left|right]; (split; [|by eapply sameRule_identities]).
  - by eapply covered_listed.
  - intros Hl'. apply Hl. by eapply covered_listed.
Qed.

Lemma covered_Forall (P : HTTPMatchRule → Prop) rules rules' :
  (∀ r r', sameRule r r' → P (hrr_Match r') → P (hrr_Match r)) → covered rules rules' →
  Forall (λ r, P (hrr_Match r)) rules' → Forall (λ r, P (hrr_Match r)) rules.
Proof.
  intros HP Hc. rewrite !Forall_forall. intros H r Hr. destruct (Hc r Hr) as (r' & Hr' & Hs). by apply (HP r r'), H.
Qed.

Lemma covered_compile rules rules' : covered rules rules' → allCompile rules' → allCompile rules.
Proof. apply covered_Forall. intros r r' (Hp & Ht & Hh & _). unfold compiles. by rewrite Hp, Ht, Hh. Qed.

Lemma covered_known rules rules' : covered rules rules' → allKnown rules' → allKnown rules.
Proof. apply covered_Forall. intros r r' (_ & Ht & _). unfold knownType. by rewrite Ht. Qed.

(** The same requests are admitted. *)
Lemma sameRules_admit rules rules' rq : allKnown rules →
  sameRules rules rules' → admitted (serviceHandler rules rq) ↔ admitted (serviceHandler rules' rq).
Proof.
  intros Hk [H1 H2]. rewrite !serviceHandler_admits by (done || by eapply covered_known).
  split; intros [Hc (r & Hr)]; (split; [by eapply covered_compile|]); pose proof (proj1 Hr) as Hin.
  - destruct (H1 r Hin) as (r' & ? & ?). exists r'. by apply (sameRule_applies rules rules' rq r).
  - destruct (H2 r Hin) as (r' & ? & ?). exists r'. by apply (sameRule_applies rules' rules rq r).
Qed.

End routing.

End PipyRoutingFacts.
