(* ===== verification/PipyPackFacts.v ===== *)
(** * Packing a configuration keeps what it routes

    Packing renames clusters and rule sets by their hashes and drops
    duplicates.  When no two clusters and no two rule sets of the configuration
    that differ have the same hash, every request is admitted before exactly
    when it is after, by a rule that reaches the same endpoints.  Weights are not kept: clusters with equal
    endpoints become one entry, which has the weight of one of them. *)

From S2P Require Import Prelude Pipy PipyConf PipyRouting PipyRoutingFacts.
Import Pipy.Pipy PipyConf.PipyConf PipyRouting.PipyRouting PipyRoutingFacts.PipyRoutingFacts.

Module PipyPackFacts.

(** ** Names *)

Fixpoint hexVal (s : string) (acc : N) : N :=
  match s with
  | EmptyString => acc
  | String a s =>
      let n := N_of_ascii a in
      hexVal s (acc * 16 + (if bool_decide (n < 65)%N then n - 48 else n - 55))
  end.

Lemma hexDigit_val d : (d < 16)%N →
  (let n := N_of_ascii (hexDigit d) in if bool_decide (n < 65)%N then n - 48 else n - 55)%N = d.
Proof.
  intros Hd. unfold hexDigit. cbv zeta. destruct (decide (d < 10)%N) as [Hl|Hl].
  - rewrite (bool_decide_eq_true_2 (d < 10)%N), N_ascii_embedding, bool_decide_eq_true_2 by lia. lia.
  - rewrite (bool_decide_eq_false_2 (d < 10)%N), N_ascii_embedding, bool_decide_eq_false_2 by lia. lia.
Qed.

Lemma hexVal_digits fuel n s : (n < 16 ^ N.of_nat fuel)%N → (0 < fuel)%nat → hexVal (hexDigits fuel n s) 0 = hexVal s n.
Proof.
  revert n s. induction fuel as [|fuel IH]; intros n s Hn Hf; [lia|]. cbn [hexDigits]. cbv zeta.
  pose proof (N.div_mod n 16). pose proof (N.mod_lt n 16).
  case_bool_decide as Hq.
  - cbn [hexVal]. rewrite hexDigit_val by lia. f_equal. lia.
  - rewrite Nat2N.inj_succ, N.pow_succ_r' in Hn.
    assert (0 < fuel)%nat. { destruct fuel; [|lia]. simpl in Hn. rewrite N.div_small in Hq by lia. done. }
    rewrite IH; [|apply N.Div0.div_lt_upper_bound; lia|done]. cbn [hexVal]. rewrite hexDigit_val by lia. f_equal. lia.
Qed.

Lemma hexVal_zeros n s : hexVal (zeros n s) 0 = hexVal s 0.
Proof. by induction n. Qed.

Lemma hexName_val code : hexVal (hexName code) 0 = N.of_nat code.
Proof.
  unfold hexName. cbv zeta. rewrite hexVal_zeros, hexVal_digits; [done| |lia].
  pose proof (N.size_gt (N.of_nat code)) as Hs. eapply N.lt_le_trans; [exact Hs|].
  transitivity (2 ^ N.of_nat (S (N.size_nat (N.of_nat code))))%N.
  - apply N.pow_le_mono_r; [done|]. destruct (N.of_nat code) as [|p]; simpl; [lia|].
    clear. induction p; simpl in *; lia.
  - apply N.pow_le_mono_l. lia.
Qed.

#[export] Instance hexName_inj : Inj (=) (=) hexName.
Proof. intros c c' H%(f_equal (λ s, hexVal s 0)). rewrite !hexName_val in H. lia. Qed.

(** Codes are distinct and at most the number of names. *)
Definition wfNames (names : gmap Z nat) : Prop :=
  (∀ h c, names !! h = Some c → (c ≤ size names)%nat) ∧
  (∀ h h' c, names !! h = Some c → names !! h' = Some c → h = h').

Lemma hashName_spec h names : wfNames names → ∃ names' c,
  hashName h names = (names', hexName c) ∧ wfNames names' ∧ names ⊆ names' ∧ names' !! h = Some c.
Proof.
  intros [Hb Hi]. unfold hashName. destruct (names !! h) as [c|] eqn:E; [by exists names, c|].
  eexists _, _. split; [done|]. repeat split.
  - intros h' c. rewrite map_size_insert_None by done. destruct (decide (h = h')) as [<-|].
    + rewrite lookup_insert_eq. intros [= <-]. lia.
    + rewrite lookup_insert_ne by done. intros ?%Hb. lia.
  - intros h1 h2 c. rewrite !lookup_insert_Some. intros [[<- <-]|[? H1]] [[<- ?]|[? H2]]; subst; try done.
    + apply Hb in H2. lia.
    + apply Hb in H1. lia.
    + by eapply Hi.
  - by apply insert_subseteq.
  - by rewrite lookup_insert_eq.
Qed.

Lemma hashName_known h names c : names !! h = Some c → hashName h names = (names, hexName c).
Proof. unfold hashName. by intros ->. Qed.

(** ** Entries *)

(** What the first loop has computed from the entries [m]. *)
Record packedOk {V} (hash : V → Z) (m : gmap string V) (st : packed V) : Prop := {
  po_names : wfNames (pk_names st);
  po_hash : pk_hashByName st = hash <$> m;
  po_all : ∀ name v, m !! name = Some v → is_Some (pk_byHash st !! hash v);
  po_by : ∀ h v, pk_byHash st !! h = Some v → hash v = h ∧ (∃ name, m !! name = Some v) ∧
    ∃ c, pk_names st !! h = Some c ∧ pk_new st !! hexName c = Some v }.

Lemma packedOk_init {V} (hash : V → Z) names : wfNames names → packedOk hash ∅ (mkPacked names ∅ ∅ ∅).
Proof.
  intros Hn. split; cbn; [done|by rewrite fmap_empty|..]; intros ??; by rewrite lookup_empty.
Qed.

Lemma packedOk_names {V} (hash : V → Z) m st names :
  packedOk hash m st → wfNames names → pk_names st ⊆ names →
  packedOk hash m (mkPacked names (pk_byHash st) (pk_hashByName st) (pk_new st)).
Proof.
  intros [_ Hh Ha Hb] Hn Hs. split; cbn; [done..|]. intros h v (? & ? & c & ? & ?)%Hb.
  split; [done|]. split; [done|]. exists c. split; [by eapply lookup_weaken|done].
Qed.

Lemma packEntry_ok {V} (hash : V → Z) m st name v :
  packedOk hash m st → m !! name = None →
  packedOk hash (<[name := v]> m) (packEntry hash st name v) ∧ pk_names st ⊆ pk_names (packEntry hash st name v).
Proof.
  intros [Hn Hh Ha Hb] Hf. unfold packEntry. cbv zeta.
  assert (Hm : ∀ v0, (∃ n, m !! n = Some v0) → ∃ n, <[name := v]> m !! n = Some v0).
  { intros v0 [n Hn0]. exists n. rewrite lookup_insert_ne; naive_solver. }
  destruct (pk_byHash st !! hash v) as [v0|] eqn:E.
  - split; [|done]. split; cbn; [done|by rewrite fmap_insert, Hh|..].
    + intros n w. rewrite lookup_insert_Some. intros [[<- <-]|[? ?]]; [by eexists|by eapply Ha].
    + intros h w (? & ? & ?)%Hb. naive_solver.
  - destruct (hashName_spec (hash v) (pk_names st) Hn) as (names & c & -> & Hn' & Hs & Hc).
    split; [|done]. split; cbn; [done|by rewrite fmap_insert, Hh|..].
    + intros n w. rewrite lookup_insert_Some. intros [[<- <-]|[? Hw]]; [rewrite lookup_insert_eq; by eexists|].
      rewrite lookup_insert_is_Some'. right. by eapply Ha.
    + intros h w. rewrite lookup_insert_Some. intros [[<- <-]|[Hne Hw]].
      * split; [done|]. split; [exists name; by rewrite lookup_insert_eq|]. exists c. by rewrite lookup_insert_eq.
      * apply Hb in Hw as (? & ? & c' & Hc' & Hnew). split; [done|]. split; [by apply Hm|]. exists c'.
        assert (names !! h = Some c') by (by eapply lookup_weaken). split; [done|].
        rewrite lookup_insert_ne; [done|]. intros ->%(inj hexName). apply Hne. by eapply Hn'.
Qed.

(** Looking an entry up by its new name. *)
Lemma packed_lookup {V} (hash : V → Z) m st names name v :
  packedOk hash m st → pk_names st ⊆ names → m !! name = Some v →
  ∃ c v', names !! hash v = Some c ∧ pk_new st !! hexName c = Some v' ∧ hash v' = hash v ∧ ∃ name', m !! name' = Some v'.
Proof.
  intros Hok Hs Hm. destruct (po_all _ _ _ Hok _ _ Hm) as [v' Hv'].
  destruct (po_by _ _ _ Hok _ _ Hv') as (? & ? & c & Hc & ?). exists c, v'. repeat split; [|done..].
  by eapply lookup_weaken.
Qed.

Section pack.
Context `{MR : MapRange} `{SH : StructHash}.

Lemma packClusters_ok {V} (hash : V → Z) names (m : gmap string V) :
  wfNames names → packedOk hash m (packClusters hash names m) ∧ names ⊆ pk_names (packClusters hash names m).
Proof.
  intros Hn. unfold packClusters.
  apply (foldl_map_range_inv (λ seen st, packedOk hash seen st ∧ names ⊆ pk_names st)).
  - split; [by apply packedOk_init|done].
  - intros seen k v st Hk _ [Hok Hs]. destruct (packEntry_ok hash seen st k v Hok Hk) as [H1 H2].
    split; [done|]. by transitivity (pk_names st).
Qed.

(** ** Targets and rules *)

(** Every hash a name has is in the table. *)
Definition known (C : gmap string Z) (names : gmap Z nat) : Prop :=
  ∀ name h, C !! name = Some h → is_Some (names !! h).

(** The new targets, when the table has all hashes and so does not change. *)
Definition renameTargets (C : gmap string Z) (names : gmap Z nat) (targets : WeightedClusters) : WeightedClusters :=
  foldl (λ new '(clusterName, weight),
    match C !! clusterName ≫= λ h, names !! h with Some c => <[hexName c := weight]> new | None => new end)
    ∅ (map_range targets).

Definition packRule (C : gmap string Z) (names : gmap Z nat) (r : HTTPRouteRule) : HTTPRouteRule :=
  mkRouteRule (hrr_Match r) (renameTargets C names (hrr_TargetClusters r)) (hrr_AllowedServices r) (hrr_RateLimit r).

Lemma packTargets_known C names targets :
  known C names → packTargets C names targets = (names, renameTargets C names targets).
Proof.
  intros Hk. unfold packTargets, renameTargets. generalize (map_range targets) (∅ : WeightedClusters).
  intros l. induction l as [|[k w] l IH]; intros new; simpl; [done|].
  destruct (C !! k) as [h|] eqn:E; simpl; [|apply IH].
  destruct (Hk _ _ E) as [c Hc]. rewrite (hashName_known _ _ _ Hc), Hc. apply IH.
Qed.

Lemma packRouteRules_known C names rules :
  known C names → packRouteRules C names rules = (names, map (packRule C names) rules).
Proof.
  intros Hk. unfold packRouteRules. match goal with |- foldl ?g _ _ = _ => set (f := g) end.
  cut (∀ out, foldl f (names, out) rules = (names, out ++ map (packRule C names) rules)); [by intros ->|].
  induction rules as [|r rules IH]; intros out; simpl; [by rewrite app_nil_r|].
  rewrite packTargets_known by done. rewrite IH. by rewrite <-app_assoc.
Qed.

Lemma renameTargets_stable C names names' targets :
  known C names → names ⊆ names' → renameTargets C names' targets = renameTargets C names targets.
Proof.
  intros Hk Hs. unfold renameTargets. generalize (map_range targets) (∅ : WeightedClusters).
  intros l. induction l as [|[k w] l IH]; intros new; simpl; [done|].
  destruct (C !! k) as [h|] eqn:E; simpl; [|apply IH].
  destruct (Hk _ _ E) as [c Hc]. rewrite Hc, (lookup_weaken _ _ _ _ Hc Hs). apply IH.
Qed.

Lemma packRule_stable C names names' rules :
  known C names → names ⊆ names' → map (packRule C names') rules = map (packRule C names) rules.
Proof. intros. apply list_fmap_ext. intros _ r _. unfold packRule. by rewrite (renameTargets_stable C names names'). Qed.

Lemma renameTargets_spec C names targets : known C names →
  (∀ n w, renameTargets C names targets !! n = Some w →
     ∃ cl h c, targets !! cl = Some w ∧ C !! cl = Some h ∧ names !! h = Some c ∧ n = hexName c) ∧
  (∀ cl w h c, targets !! cl = Some w → C !! cl = Some h → names !! h = Some c →
     is_Some (renameTargets C names targets !! hexName c)).
Proof.
  intros Hk. unfold renameTargets.
  apply (foldl_map_range_inv (λ seen new,
    (∀ n w, new !! n = Some w → ∃ cl h c, seen !! cl = Some w ∧ C !! cl = Some h ∧ names !! h = Some c ∧ n = hexName c) ∧
    (∀ cl w h c, seen !! cl = Some w → C !! cl = Some h → names !! h = Some c → is_Some (new !! hexName c)))).
  { split; intros *; by rewrite lookup_empty. }
  intros seen k w new Hf Hm [IH1 IH2].
  assert (Hw : ∀ cl w0, seen !! cl = Some w0 → <[k := w]> seen !! cl = Some w0).
  { intros cl w0 ?. rewrite lookup_insert_ne; naive_solver. }
  destruct (C !! k) as [h|] eqn:E; simpl.
  - destruct (Hk _ _ E) as [c Hc]. rewrite Hc. split.
    + intros n w0. rewrite lookup_insert_Some. intros [[<- <-]|[_ Hn]].
      * exists k, h, c. by rewrite lookup_insert_eq.
      * destruct (IH1 _ _ Hn) as (cl & h' & c' & ? & ?). exists cl, h', c'. split; [by apply Hw|done].
    + intros cl w0 h' c'. rewrite lookup_insert_Some. intros [[<- <-]|[_ Hs]] Hh' Hc'.
      * simplify_eq. rewrite lookup_insert_eq. by eexists.
      * rewrite lookup_insert_is_Some'. right. by eapply IH2.
  - split.
    + intros n w0 Hn. destruct (IH1 _ _ Hn) as (cl & h' & c' & ? & ?). exists cl, h', c'. split; [by apply Hw|done].
    + intros cl w0 h' c'. rewrite lookup_insert_Some. intros [[<- <-]|[_ Hs]] Hh' Hc'; [congruence|by eapply IH2].
Qed.

(** The endpoints that a rule's clusters have. *)
Definition reach {V} (clusters : gmap string V) (targets : WeightedClusters) (v : V) : Prop :=
  ∃ name w, targets !! name = Some w ∧ clusters !! name = Some v.

Lemma packed_known {V} (hash : V → Z) m st names : packedOk hash m st → pk_names st ⊆ names → known (pk_hashByName st) names.
Proof.
  intros Hok Hs name h. rewrite (po_hash _ _ _ Hok), lookup_fmap. intros (v & Hm & ->)%fmap_Some.
  destruct (packed_lookup hash m st names name v) as (c & _ & ? & _); [done..|by eexists].
Qed.

Lemma reach_packed {V} (hash : V → Z) m st names targets v :
  packedOk hash m st → pk_names st ⊆ names → wfNames names →
  (∀ n n' v v', m !! n = Some v → m !! n' = Some v' → hash v = hash v' → v = v') →
  reach m targets v ↔ reach (pk_new st) (renameTargets (pk_hashByName st) names targets) v.
Proof.
  intros Hok Hs Hn Hinj. destruct (renameTargets_spec (pk_hashByName st) names targets) as [H1 H2]; [by eapply packed_known|].
  assert (HC : ∀ name h, pk_hashByName st !! name = Some h ↔ ∃ v, h = hash v ∧ m !! name = Some v).
  { intros name h. rewrite (po_hash _ _ _ Hok), lookup_fmap. rewrite fmap_Some. naive_solver. }
  split.
  - intros (name & w & Ht & Hv). destruct (packed_lookup hash m st names name v) as (c & v' & Hc & Hv' & Hh & n' & Hn'); [done..|].
    rewrite (Hinj n' name v' v) in Hv' by done. destruct (H2 name w (hash v) c) as [w' Hw']; [done| |done|by exists (hexName c), w'].
    apply HC. by exists v.
  - intros (n & w & (cl & h & c & Ht & Hh & Hc & ->)%H1 & Hv). apply HC in Hh as (v0 & -> & Hv0).
    exists cl, w. split; [done|]. destruct (packed_lookup hash m st names cl v0) as (c' & v' & Hc' & Hv' & Hh & n' & Hn'); [done..|].
    simplify_eq. by rewrite (Hinj n' cl v v0).
Qed.

(** ** A match *)

Lemma packHosts_known C names hosts host : known C names →
  (packHosts C names hosts).1 = names ∧
  (packHosts C names hosts).2 !! host =
    (λ ref, match C !! ref_RuleName ref ≫= λ h, names !! h with
            | Some c => mkRuleRef (hexName c) (ref_RuleName ref) | None => ref end) <$> hosts !! host.
Proof.
  intros Hk. unfold packHosts. set (F := λ ref, match _ with Some c => _ | None => ref end).
  cut ((λ st : gmap Z nat * HTTPHostPort2Service, st.1 = names ∧
    ∀ h, st.2 !! h = match hosts !! h with Some ref => Some (F ref) | None => hosts !! h end)
    (foldl (λ '(names, hosts) '(host, ruleRef),
      match C !! ref_RuleName ruleRef with
      | Some hashcode =>
          let '(names, name) := hashName hashcode names in
          (names, <[host := mkRuleRef name (ref_RuleName ruleRef)]> hosts)
      | None => (names, hosts)
      end) (names, hosts) (map_range hosts))).
  { intros [H1 H2]. split; [done|]. rewrite H2. by destruct (hosts !! host). }
  apply (foldl_map_range_inv (λ seen (st : gmap Z nat * HTTPHostPort2Service), st.1 = names ∧
    ∀ h, st.2 !! h = match seen !! h with Some ref => Some (F ref) | None => hosts !! h end)).
  { split; [done|]. intros h. by rewrite lookup_empty. }
  intros seen k ref [names' hs] Hf Hm [Hn IH]. simpl in Hn, IH. subst names'.
  destruct (C !! ref_RuleName ref) as [h|] eqn:E; simpl.
  - destruct (Hk _ _ E) as [c Hc]. rewrite (hashName_known _ _ _ Hc). simpl. split; [done|]. intros h'.
    destruct (decide (k = h')) as [<-|?].
    + rewrite !lookup_insert_eq. unfold F. by rewrite E; simpl; rewrite Hc.
    + by rewrite !lookup_insert_ne.
  - split; [done|]. intros h'. rewrite IH. destruct (decide (k = h')) as [<-|?].
    + rewrite lookup_insert_eq, Hf, Hm. unfold F. by rewrite E.
    + by rewrite lookup_insert_ne.
Qed.

(** The rule sets of a match, packed: found under the new name of a host. *)
Lemma packHTTP_spec {R} (rulesOf : R → list HTTPRouteRule) setRules (hash : R → Z) C names rules hosts :
  known C names → wfNames names → (∀ l r, rulesOf (setRules l r) = l) →
  let '(names', rules', hosts') := packHTTP rulesOf setRules hash C names rules hosts in
  wfNames names' ∧ names ⊆ names' ∧
  ∀ host, match hosts !! host with
          | None => hosts' !! host = None
          | Some ref => ∀ r, rules !! ref_RuleName ref = Some r →
              ∃ ref' n0 r0, rules !! n0 = Some r0 ∧ hosts' !! host = Some ref' ∧
                rules' !! ref_RuleName ref' = Some (setRules (map (packRule C names) (rulesOf r0)) r0) ∧
                hash (setRules (map (packRule C names) (rulesOf r0)) r0) = hash (setRules (map (packRule C names) (rulesOf r)) r)
          end.
Proof.
  intros Hk Hn Hset. unfold packHTTP. destruct (bool_decide (size rules = 0%nat)) eqn:Hsz; simpl.
  { apply bool_decide_eq_true, map_size_empty_iff in Hsz as ->. split; [done|]. split; [done|].
    intros host. destruct (hosts !! host); [|done]. intros r. by rewrite lookup_empty. }
  set (st := foldl _ _ _). set (F := λ r, setRules (map (packRule C names) (rulesOf r)) r).
  assert (packedOk hash (F <$> rules) st ∧ names ⊆ pk_names st) as [Hok Hs].
  { apply (foldl_map_range_inv (λ seen st, packedOk hash (F <$> seen) st ∧ names ⊆ pk_names st)).
    - split; [|done]. rewrite fmap_empty. by apply packedOk_init.
    - intros seen k r st' Hf _ [Hok Hs].
      assert (known C (pk_names st')) as Hk'. { intros n h Hh. destruct (Hk n h Hh) as [c ?]. exists c. by eapply lookup_weaken. }
      rewrite packRouteRules_known, (packRule_stable C names) by done.
      destruct (packEntry_ok hash (F <$> seen) (mkPacked (pk_names st') (pk_byHash st') (pk_hashByName st') (pk_new st')) k (F r)) as [H1 H2].
      + apply packedOk_names; [done|by apply (po_names _ _ _ Hok)|done].
      + by rewrite lookup_fmap, Hf.
      + rewrite fmap_insert. split; [done|]. by transitivity (pk_names st'). }
  assert (known (pk_hashByName st) (pk_names st)) as Hk' by (by eapply packed_known).
  destruct (packHosts (pk_hashByName st) (pk_names st) hosts) as [names' hosts'] eqn:Eh.
  pose proof (λ host, packHosts_known _ _ hosts host Hk') as Hh. rewrite Eh in Hh. simpl in Hh.
  destruct (Hh "") as [-> _]. split; [apply (po_names _ _ _ Hok)|]. split; [done|]. intros host.
  destruct (Hh host) as [_ Hl]. rewrite Hl. destruct (hosts !! host) as [ref|]; [|done]. intros r Hr. simpl.
  destruct (packed_lookup hash (F <$> rules) st (pk_names st) (ref_RuleName ref) (F r)) as (c & r' & Hc & Hnew & Hhash & n0 & H0);
    [done..|by rewrite lookup_fmap, Hr|]. rewrite lookup_fmap in H0. apply fmap_Some in H0 as (r0 & H0 & ->).
  rewrite (po_hash _ _ _ Hok), !lookup_fmap, Hr. simpl. rewrite Hc. by exists (mkRuleRef (hexName c) (ref_RuleName ref)), n0, r0.
Qed.

(** Every host leads to rules. *)
Definition closedHosts (m : InboundTrafficMatch) : Prop :=
  ∀ host ref, im_HTTPHostPort2Service m !! host = Some ref → is_Some (im_HTTPServiceRouteRules m !! ref_RuleName ref).

(** A rule set with the targets of its rules renamed, which is what is hashed. *)
Definition renamed (C : gmap string Z) (names : gmap Z nat) (r : InboundHTTPRouteRules) : InboundHTTPRouteRules :=
  onRules (λ _, map (packRule C names) (irr_RouteRules r)) r.

(** Rule sets of the match with the same hash are related by [P]. *)
Definition hashesImply (P : list HTTPRouteRule → list HTTPRouteRule → Prop) (C : gmap string Z) (names : gmap Z nat)
    (m : InboundTrafficMatch) : Prop :=
  ∀ n n' r r', im_HTTPServiceRouteRules m !! n = Some r → im_HTTPServiceRouteRules m !! n' = Some r' →
    hash_InRules (renamed C names r) = hash_InRules (renamed C names r') →
    P (irr_RouteRules (renamed C names r)) (irr_RouteRules (renamed C names r')).

(** Every rule of the first has a counterpart in the second with the same targets. *)
Definition included (l l' : list HTTPRouteRule) : Prop :=
  ∀ x, x ∈ l → ∃ x', x' ∈ l' ∧ sameRule x x' ∧ hrr_TargetClusters x = hrr_TargetClusters x'.

(** What became of the rules of a host: those of some rule set of the match
    with the same hash, renamed. *)
Definition packedFrom (C : gmap string Z) (names : gmap Z nat) (m : InboundTrafficMatch) (rules rules' : list HTTPRouteRule) : Prop :=
  rules = [] ∧ rules' = [] ∨
  ∃ n r n0 r0, im_HTTPServiceRouteRules m !! n = Some r ∧ im_HTTPServiceRouteRules m !! n0 = Some r0 ∧
    hash_InRules (renamed C names r0) = hash_InRules (renamed C names r) ∧
    rules = irr_RouteRules r ∧ rules' = irr_RouteRules (renamed C names r0).

Lemma packTCP_known C names tcp : known C names → (packTCP C names tcp).1 = names.
Proof.
  intros Hk. unfold packTCP. destruct tcp as [r|]; [|done]. case_bool_decide; [done|]. by rewrite packTargets_known.
Qed.

Lemma packRule_same C names r : sameRule r (packRule C names r).
Proof. by repeat split. Qed.

Lemma renamed_stable C names names' r : known C names → names ⊆ names' → renamed C names' r = renamed C names r.
Proof. intros. unfold renamed. by rewrite (packRule_stable C names names'). Qed.

Lemma known_weaken C names names' : known C names → names ⊆ names' → known C names'.
Proof. intros Hk Hs n h Hh. destruct (Hk n h Hh) as [c ?]. exists c. by eapply lookup_weaken. Qed.

Lemma packInMatch_spec C names names0 m : known C names0 → names0 ⊆ names → wfNames names → closedHosts m →
  let '(names', m') := packInMatch C names m in
  wfNames names' ∧ names ⊆ names' ∧ im_SourceIPRanges m' = im_SourceIPRanges m ∧
  ∀ host, packedFrom C names0 m (rulesOfHost m host) (rulesOfHost m' host).
Proof.
  intros Hk0 Hs0 Hn Hcl. assert (Hk : known C names) by (by eapply known_weaken). unfold packInMatch.
  pose proof (packHTTP_spec irr_RouteRules (λ l, onRules (λ _, l)) hash_InRules C names
    (im_HTTPServiceRouteRules m) (im_HTTPHostPort2Service m) Hk Hn (λ _ _, eq_refl)) as HP.
  destruct (packHTTP _ _ _ _ _ _ _) as [[names' rules'] hosts'] eqn:E. destruct HP as (Hn' & Hs & HP).
  pose proof (packTCP_known C names' (im_TCPServiceRouteRules m) (known_weaken _ _ _ Hk Hs)) as Ht.
  destruct (packTCP _ _ _) as [names'' tcp']. simpl in Ht. subst names''.
  split; [done|]. split; [done|]. split; [done|]. intros host. specialize (HP host). unfold rulesOfHost. simpl.
  destruct (im_HTTPHostPort2Service m !! host) as [ref|] eqn:Eh; simpl.
  - destruct (Hcl host ref Eh) as [r Hr]. destruct (HP r Hr) as (ref' & n0 & r0 & H0 & -> & Hr' & Hh). simpl.
    fold (renamed C names r) in Hh. fold (renamed C names r0) in Hh, Hr'.
    rewrite !(renamed_stable C names0 names) in Hh by done. rewrite (renamed_stable C names0 names) in Hr' by done.
    rewrite Hr, Hr'. right. by exists (ref_RuleName ref), r, n0, r0.
  - rewrite HP. by left.
Qed.

(** The loop over the matches. *)
Lemma packMatches_spec C names matches port m :
  known C names → wfNames names → (∀ port m, matches !! port = Some m → closedHosts m) → matches !! port = Some m →
  ∃ m', (packInMatches C names matches).2 !! port = Some m' ∧
    im_SourceIPRanges m' = im_SourceIPRanges m ∧ ∀ host, packedFrom C names m (rulesOfHost m host) (rulesOfHost m' host).
Proof.
  intros Hk Hn Hcl Hm. set (Q := λ m m', im_SourceIPRanges m' = im_SourceIPRanges m ∧
    ∀ host, packedFrom C names m (rulesOfHost m host) (rulesOfHost m' host)).
  cut ((λ st : gmap Z nat * gmap Z InboundTrafficMatch, wfNames st.1 ∧ names ⊆ st.1 ∧
    ∀ port m, matches !! port = Some m → ∃ m', st.2 !! port = Some m' ∧ Q m m') (packInMatches C names matches)).
  { intros (_ & _ & H). by apply H. }
  apply (foldl_map_range_inv (λ seen (st : gmap Z nat * gmap Z InboundTrafficMatch), wfNames st.1 ∧ names ⊆ st.1 ∧
    ∀ port m, seen !! port = Some m → ∃ m', st.2 !! port = Some m' ∧ Q m m')).
  { split; [done|]. split; [done|]. intros ??. by rewrite lookup_empty. }
  intros seen k mk [names' ms] Hf Hmk (Hn' & Hs & IH). simpl in Hn', Hs, IH.
  pose proof (packInMatch_spec C names' names mk Hk Hs Hn' (Hcl k mk Hmk)) as HP.
  destruct (packInMatch C names' mk) as [names'' mk'] eqn:E. destruct HP as (Hn'' & Hs' & Hr & HP). simpl.
  split; [done|]. split; [by transitivity names'|]. intros port0 m0. rewrite lookup_insert_Some.
  intros [[<- <-]|[Hne Hseen]].
  - exists mk'. by rewrite lookup_insert_eq.
  - rewrite lookup_insert_ne by done. by apply IH.
Qed.

(** ** Collisions *)

(** What the theorem asks of the hashes of the configuration at hand: clusters
    with the same hash are equal, and the rule sets of a match with the same
    hash are related by [P]. *)
Definition tellsApart (P : list HTTPRouteRule → list HTTPRouteRule → Prop) (p : PipyConf) : Prop :=
  ∀ itp, pc_Inbound p = Some itp →
    let st := packClusters hash_WeightedEndpoint (pc_hashNameSet p) (ip_ClustersConfigs itp) in
    (∀ n n' e e', ip_ClustersConfigs itp !! n = Some e → ip_ClustersConfigs itp !! n' = Some e' →
       hash_WeightedEndpoint e = hash_WeightedEndpoint e' → e = e') ∧
    ∀ port m, ip_TrafficMatches itp !! port = Some m → hashesImply P (pk_hashByName st) (pk_names st) m.

(** Rule sets with the same hash have the same rules, in some order: the hash
    takes lists as sets. *)
Definition noCollisions : PipyConf → Prop := tellsApart included.

(** The rules of a host after packing are those before, renamed. *)
Definition packedRules (C : gmap string Z) (names : gmap Z nat) (rules rules' : list HTTPRouteRule) : Prop :=
  sameRules rules rules' ∧
  ∀ x', x' ∈ rules' → ∃ x, x ∈ rules ∧ sameRule x' x ∧ hrr_TargetClusters x' = renameTargets C names (hrr_TargetClusters x).

Lemma packedFrom_rules C names m rules rules' :
  hashesImply included C names m → packedFrom C names m rules rules' → packedRules C names rules rules'.
Proof.
  intros HC [[-> ->]|(n & r & n0 & r0 & Hr & H0 & Hh & -> & ->)].
  { repeat split; intros x Hx; by apply elem_of_nil in Hx. }
  assert (Hback : ∀ x', x' ∈ irr_RouteRules (renamed C names r0) →
    ∃ x, x ∈ irr_RouteRules r ∧ sameRule x' x ∧ hrr_TargetClusters x' = renameTargets C names (hrr_TargetClusters x)).
  { intros x' Hx'. destruct (HC _ _ _ _ H0 Hr Hh x' Hx') as (y & (x & -> & Hx)%list_elem_of_fmap & Hs & Ht). by exists x. }
  split; [split|done].
  - intros x Hx. destruct (HC _ _ _ _ Hr H0 (eq_sym Hh) (packRule C names x)) as (x' & Hx' & Hs & _); [|by exists x'].
    apply list_elem_of_fmap. by exists x.
  - intros x' Hx'. destruct (Hback x' Hx') as (x & ? & ? & _). by exists x.
Qed.

(** ** Packing, seen from the requests *)

(** The same rule, and it reaches the same sets of endpoints. *)
Definition counterpart (itp itp' : InboundPolicy) (r r' : HTTPRouteRule) : Prop :=
  sameRule r r' ∧
  ∀ endpoints, reach (ip_ClustersConfigs itp) (hrr_TargetClusters r) endpoints ↔
               reach (ip_ClustersConfigs itp') (hrr_TargetClusters r') endpoints.

Lemma packInbound_spec p itp port m :
  pc_Inbound p = Some itp → wfNames (pc_hashNameSet p) →
  (∀ port m, ip_TrafficMatches itp !! port = Some m → closedHosts m) → ip_TrafficMatches itp !! port = Some m →
  ∃ itp' m', pc_Inbound (packInbound p) = Some itp' ∧ ip_TrafficMatches itp' !! port = Some m' ∧ (itp' = itp ∧ m' = m ∨
    let st := packClusters hash_WeightedEndpoint (pc_hashNameSet p) (ip_ClustersConfigs itp) in
    im_SourceIPRanges m' = im_SourceIPRanges m ∧ ip_ClustersConfigs itp' = pk_new st ∧
    packedOk hash_WeightedEndpoint (ip_ClustersConfigs itp) st ∧
    ∀ host, packedFrom (pk_hashByName st) (pk_names st) m (rulesOfHost m host) (rulesOfHost m' host)).
Proof.
  intros Hp Hn Hcl Hm. unfold packInbound. rewrite Hp. destruct (_ || _); [by exists itp, m; auto|].
  destruct (packClusters_ok hash_WeightedEndpoint (pc_hashNameSet p) (ip_ClustersConfigs itp) Hn) as [Hok Hs].
  set (st := packClusters _ _ _) in *.
  destruct (packMatches_spec (pk_hashByName st) (pk_names st) (ip_TrafficMatches itp) port m) as (m' & Hm' & Hr & HP);
    [by eapply packed_known|apply (po_names _ _ _ Hok)|done..|].
  destruct (packInMatches _ _ _) as [names' ms] eqn:E. simpl in Hm'. eexists _, m'. split; [done|]. split; [done|].
  right. cbv zeta. split; [done|]. split; [done|]. done.
Qed.

Lemma counterpart_packed (itp itp' : InboundPolicy) st r r' :
  packedOk hash_WeightedEndpoint (ip_ClustersConfigs itp) st → ip_ClustersConfigs itp' = pk_new st →
  (∀ n n' e e', ip_ClustersConfigs itp !! n = Some e → ip_ClustersConfigs itp !! n' = Some e' →
     hash_WeightedEndpoint e = hash_WeightedEndpoint e' → e = e') →
  sameRule r r' → hrr_TargetClusters r' = renameTargets (pk_hashByName st) (pk_names st) (hrr_TargetClusters r) →
  counterpart itp itp' r r'.
Proof.
  intros Hok Hnew Hinj Hs Ht. split; [done|]. intros endpoints. rewrite Hnew, Ht.
  apply (reach_packed hash_WeightedEndpoint); [done..|apply (po_names _ _ _ Hok)|done].
Qed.

Lemma packInbound_routes `{RE : RegExp} p itp port m :
  pc_Inbound p = Some itp → wfNames (pc_hashNameSet p) →
  (∀ port m, ip_TrafficMatches itp !! port = Some m → closedHosts m) →
  ip_TrafficMatches itp !! port = Some m → (∀ host, allKnown (rulesOfHost m host)) → noCollisions p →
  ∃ itp' m', pc_Inbound (packInbound p) = Some itp' ∧ ip_TrafficMatches itp' !! port = Some m' ∧
    ∀ contains address rq,
      (admitted (portHandler contains m address rq) ↔ admitted (portHandler contains m' address rq)) ∧
      (∀ r', portHandler contains m' address rq = Ret (Some r') →
         ∃ host r, applies (rulesOfHost m host) rq r ∧ counterpart itp itp' r r') ∧
      (tellsApart eq p → ∀ r, portHandler contains m address rq = Ret (Some r) →
         ∃ r', portHandler contains m' address rq = Ret (Some r') ∧ counterpart itp itp' r r').
Proof.
  intros Hp Hn Hcl Hm Hk Hnc. destruct (packInbound_spec p itp port m Hp Hn Hcl Hm) as (itp' & m' & Hp' & Hm' & Hc).
  exists itp', m'. split; [done|]. split; [done|]. intros contains address rq. destruct Hc as [[-> ->]|Hc].
  { split; [done|]. split; [|intros _ r Hr; by exists r]. intros r' Hr'. eexists _, r'.
    split; [apply serviceHandler_Some; [apply Hk|exact Hr']|by repeat split]. }
  cbv zeta in Hc. destruct Hc as (Hr & Hnew & Hok & HP). destruct (Hnc itp Hp) as [Hinj HC]. cbv zeta in HC.
  unfold portHandler. rewrite Hr. set (host := if existsb _ _ then _ else _). specialize (HP host).
  destruct (packedFrom_rules _ _ _ _ _ (HC port m Hm) HP) as [Hsame Hback].
  split; [by apply sameRules_admit|]. split.
  - intros r' Hr'. apply serviceHandler_Some in Hr'; [|eapply covered_known; [apply Hsame|apply Hk]].
    destruct (Hback r' (proj1 Hr')) as (r & Hin & Hsr & Ht). exists host, r. split.
    + eapply (sameRule_applies (rulesOfHost m' host)); [|done..]. split; apply Hsame.
    + by eapply counterpart_packed; [..|symmetry|].
  - intros Heq r Hrun. destruct (Heq itp Hp) as [_ HE]. destruct HP as [[E _]|(n & r1 & n0 & r0 & H1 & H0 & Hh & E & ->)];
      [by rewrite E, serviceHandler_nil in Hrun|].
    rewrite (HE port m Hm _ _ _ _ H0 H1 Hh). unfold renamed. simpl. rewrite <-E, serviceHandler_map, Hrun by done. simpl.
    eexists. split; [done|]. by eapply counterpart_packed.
Qed.

(** C9. Packing keeps what the inbound side of a configuration routes.  If no
    two clusters that differ, and no two rule sets of a match that differ in
    their rules, have the same hash, then every match is still there; it admits
    the same requests from the same addresses; a rule chosen after packing is
    the counterpart of a rule that applied before, and reaches the same sets
    of endpoints.  If rule sets with the same hash also have their rules in the
    same order, it is the counterpart of the rule that was chosen before. *)
Theorem packing_keeps_routing `{RE : RegExp} p itp port m :
  pc_Inbound p = Some itp → wfNames (pc_hashNameSet p) →
  (∀ port m, ip_TrafficMatches itp !! port = Some m → closedHosts m) →
  ip_TrafficMatches itp !! port = Some m → (∀ host, allKnown (rulesOfHost m host)) → noCollisions p →
  ∃ itp' m', pc_Inbound (packInbound p) = Some itp' ∧ ip_TrafficMatches itp' !! port = Some m' ∧
    ∀ contains address rq,
      (admitted (portHandler contains m address rq) ↔ admitted (portHandler contains m' address rq)) ∧
      (∀ r', portHandler contains m' address rq = Ret (Some r') →
         ∃ host r, applies (rulesOfHost m host) rq r ∧ counterpart itp itp' r r') ∧
      (tellsApart eq p → ∀ r, portHandler contains m address rq = Ret (Some r) →
         ∃ r', portHandler contains m' address rq = Ret (Some r') ∧ counterpart itp itp' r r').
Proof. apply packInbound_routes. Qed.

(** A configuration with one cluster and one rule set per match has no
    collisions. *)
Lemma single_tellsApart (P : list HTTPRouteRule → list HTTPRouteRule → Prop) p itp :
  pc_Inbound p = Some itp → (∀ l, P l l) →
  (∀ n n' e e', ip_ClustersConfigs itp !! n = Some e → ip_ClustersConfigs itp !! n' = Some e' → e = e') →
  (∀ port m n n' r r', ip_TrafficMatches itp !! port = Some m → im_HTTPServiceRouteRules m !! n = Some r →
     im_HTTPServiceRouteRules m !! n' = Some r' → r = r') →
  tellsApart P p.
Proof.
  intros Hp HP Hc Hr itp' Hp'. simplify_eq. split; [by intros; eapply Hc|].
  intros port m Hm n n' r r' H1 H2 _. by rewrite (Hr port m n n' r r').
Qed.

Lemma included_refl l : included l l.
Proof. intros x Hx. by exists x. Qed.

Lemma size_single {V} (m : gmap string V) n n' v v' : size m ≤ 1 → m !! n = Some v → m !! n' = Some v' → v = v'.
Proof.
  intros Hs Hn Hn'. destruct (decide (n = n')) as [->|Hne]; [congruence|]. exfalso.
  assert (delete n m = ∅) as E. { apply map_size_empty_inv. rewrite map_size_delete_Some by eauto. lia. }
  assert (delete n m !! n' = Some v') as E' by (by rewrite lookup_delete_ne). rewrite E in E'. by rewrite lookup_empty in E'.
Qed.

Definition singleInbound (p : PipyConf) : bool :=
  match pc_Inbound p with
  | None => false
  | Some itp => bool_decide (size (ip_ClustersConfigs itp) ≤ 1) &&
      bool_decide (map_Forall (λ _ m, size (im_HTTPServiceRouteRules m) ≤ 1) (ip_TrafficMatches itp))
  end.

Lemma single_noCollisions p : singleInbound p = true → noCollisions p.
Proof.
  unfold singleInbound. destruct (pc_Inbound p) as [itp|] eqn:E; [|done].
  rewrite andb_true_iff, !bool_decide_eq_true. intros [Hc Hm].
  apply (single_tellsApart included p itp E included_refl).
  - intros n n' e e'. by apply size_single.
  - intros port m n n' r r' Hp. apply size_single. by apply (Hm port).
Qed.

End pack.

(** Two clusters with the same endpoints, 10% and 90% of the traffic: the rule
    keeps one target, and which weight it has depends on the order of [range]. *)
Lemma packing_drops_a_weight (order : MapRange) (C : gmap string Z) names c h :
  C !! "a" = Some h → C !! "b" = Some h → names !! h = Some c →
  ∃ w, w ∈ [10%Z; 90%Z] ∧ @renameTargets order C names {["a" := 10%Z; "b" := 90%Z]} = {[hexName c := w]}.
Proof.
  intros Ha Hb Hc. unfold renameTargets.
  assert (Hp : map_range {["a" := 10%Z; "b" := 90%Z]} ≡ₚ [("a", 10%Z); ("b", 90%Z)]).
  { rewrite map_range_perm, map_to_list_insert, map_to_list_singleton by done. done. }
  apply Permutation_sym, Permutation_length_2_inv in Hp as [->| ->]; simpl; rewrite Ha, Hb; simpl; rewrite Hc.
  - exists 90%Z. split; [set_solver|]. by rewrite insert_insert_eq.
  - exists 10%Z. split; [set_solver|]. by rewrite insert_insert_eq.
Qed.

(** ** A configuration with two hosts and equal rules *)

Definition ruleKey (r : HTTPRouteRule) :=
  (hmr_Path (hrr_Match r), hmr_Type (hrr_Match r), hmr_Headers (hrr_Match r), hmr_Methods (hrr_Match r),
   hrr_AllowedServices r, hrr_TargetClusters r).

(** A hash of 64 bits: the encoding of the contents, cut off. *)
Program Definition encodeHash : StructHash := {|
  hash_WeightedEndpoint := λ e, (Zpos (encode e) mod 2 ^ 64)%Z;
  hash_ClusterConfig := λ _, 0%Z;
  hash_InRules := λ r, (Zpos (encode (map ruleKey (irr_RouteRules r))) mod 2 ^ 64)%Z;
  hash_OutRules := λ _, 0%Z |}.
Solve Obligations with intros; first [by apply Z.mod_pos_bound|done].

Definition demoRegExp : RegExp := {| compile := λ re, Some (λ s, bool_decide (re = ".*") || bool_decide (re = s)) |}.

Definition demoRule (service : string) : HTTPRouteRule :=
  mkRouteRule (mkMatchRule "/buy" "Prefix" ∅ ["GET"] false false) {["ns/cart|80|local" := 100%Z]} [service] None.

Definition demoMatch : InboundTrafficMatch :=
  mkInMatch 80 "http" ∅
    {["cart" := mkRuleRef "cart.ns" ""; "cart.ns" := mkRuleRef "cart2.ns" ""]}
    {["cart.ns" := mkInRules [demoRule "buyer.ns"] ∅ None ∅; "cart2.ns" := mkInRules [demoRule "buyer.ns"] ∅ None ∅]}
    None None.

Definition demoInbound : InboundPolicy :=
  mkInbound {[80%Z := demoMatch]} {["ns/cart|80|local" := {["127.0.0.1:80" := 100%Z]}]}.

Definition demoPacked : PipyConf := mkPipyConf false (Some demoInbound) None None [] (mkPluginPolicies ∅ ∅) ∅.

Lemma demo_tellsApart (P : list HTTPRouteRule → list HTTPRouteRule → Prop) :
  (∀ l, P l l) → @tellsApart trie_range encodeHash P demoPacked.
Proof.
  intros HP. apply (single_tellsApart P demoPacked demoInbound eq_refl HP).
  - intros n n' e e'. cbn. by intros [<- <-]%lookup_singleton_Some [_ <-]%lookup_singleton_Some.
  - intros port m n n' r r'. cbn. intros [<- <-]%lookup_singleton_Some. cbn.
    rewrite !lookup_insert_Some. by intros [[<- <-]|[? [<- <-]%lookup_singleton_Some]] [[<- <-]|[? [<- <-]%lookup_singleton_Some]].
Qed.

Lemma demo_closed port m : ip_TrafficMatches demoInbound !! port = Some m → closedHosts m.
Proof.
  cbn. intros [<- <-]%lookup_singleton_Some. intros host ref. cbn.
  rewrite !lookup_insert_Some. intros [[<- <-]|[? [<- <-]%lookup_singleton_Some]]; by eexists.
Qed.

Lemma demo_known host : allKnown (rulesOfHost demoMatch host).
Proof.
  unfold rulesOfHost. destruct (im_HTTPHostPort2Service demoMatch !! host) as [ref|]; cbn [mbind option_bind]; [|constructor].
  destruct (im_HTTPServiceRouteRules demoMatch !! _) as [rs|] eqn:E; [|constructor]. cbn in E. rewrite lookup_insert_Some in E.
  destruct E as [[_ <-]|[_ [_ <-]%lookup_singleton_Some]]; by repeat constructor.
Qed.

Lemma packing_keeps_routing_witness :
  ∃ itp' m', pc_Inbound (@packInbound trie_range encodeHash demoPacked) = Some itp' ∧
    ip_TrafficMatches itp' !! 80%Z = Some m' ∧
    ∀ contains address rq r, @portHandler demoRegExp contains demoMatch address rq = Ret (Some r) →
      ∃ r', @portHandler demoRegExp contains m' address rq = Ret (Some r') ∧ counterpart demoInbound itp' r r'.
Proof.
  destruct (@packing_keeps_routing trie_range encodeHash demoRegExp demoPacked demoInbound 80%Z
    demoMatch eq_refl) as (itp' & m' & H1 & H2 & H3).
  - split; intros *; cbn; by rewrite lookup_empty.
  - apply demo_closed.
  - reflexivity.
  - apply demo_known.
  - apply demo_tellsApart, included_refl.
  - exists itp', m'. split; [exact H1|]. split; [exact H2|]. intros contains address rq.
    apply (proj2 (H3 contains address rq)). by apply demo_tellsApart.
Defined.

End PipyPackFacts.
