(* ===== verification/PipyGenFacts.v ===== *)
(** * From TrafficTargets to admitted requests

    The inbound generator and the routing script together: the requests a
    sidecar admits, in terms of the rules of a policy and of the
    TrafficTargets it was built from. *)

From S2P Require Import Prelude Identity Service Api Cidr CidrFacts TrafficPolicy TrafficPolicyFacts K8s Smi Catalog CatalogFacts.
From S2P Require Import CatalogInbound CatalogInboundFacts Pipy PipyConf PipyGen PipyRouting PipyRoutingFacts PipyPackFacts.
Import Identity.Identity Service.Service Api.Api Cidr.Cidr Catalog.Catalog CatalogFacts.CatalogFacts CatalogInbound.CatalogInbound.
Import CatalogInboundFacts.CatalogInboundFacts Pipy.Pipy PipyConf.PipyConf PipyGen.PipyGen.
Import PipyRouting.PipyRouting PipyRoutingFacts.PipyRoutingFacts.
Module T := TrafficPolicy.TrafficPolicy.
Module TF := TrafficPolicyFacts.TrafficPolicyFacts.

Module PipyGenFacts.

(** ** Rules *)

Lemma addMethodMatch_flag r m : hmr_allowedAnyService (addMethodMatch r m) = hmr_allowedAnyService r.
Proof. unfold addMethodMatch. by destruct (hmr_allowedAnyMethod r). Qed.

Lemma newHTTPMatch_flag m : hmr_allowedAnyService (newHTTPMatch m) = false.
Proof.
  unfold newHTTPMatch. destruct (slice_elems (T.Methods m)) as [|x l]; [by rewrite addMethodMatch_flag|].
  apply (foldl_inv (λ _ r, hmr_allowedAnyService r = false)); [done|]. intros. by rewrite addMethodMatch_flag.
Qed.

Lemma addAllowedServices r ids :
  hmr_allowedAnyService (hrr_Match r) = false → "*" ∉ ids →
  foldl (λ r id, addAllowedService id r) r ids =
    mkRouteRule (hrr_Match r) (hrr_TargetClusters r) (hrr_AllowedServices r ++ ids) (hrr_RateLimit r).
Proof.
  revert r. induction ids as [|id ids IH]; intros [[] ? ? ?] Hf Hids; simpl in *; [by rewrite app_nil_r|].
  apply not_elem_of_cons in Hids as [Hid Hids]. subst.
  unfold addAllowedService at 2. simpl. rewrite bool_decide_eq_false_2 by done. rewrite IH by done. simpl.
  by rewrite <-app_assoc.
Qed.

Lemma addClusters_other cs r :
  hrr_Match (addClusters cs r) = hrr_Match r ∧ hrr_AllowedServices (addClusters cs r) = hrr_AllowedServices r.
Proof.
  unfold addClusters. apply (foldl_inv (λ _ r', hrr_Match r' = hrr_Match r ∧ hrr_AllowedServices r' = hrr_AllowedServices r)); [done|].
  by intros _ wc _ r' _ [? ?].
Qed.

Lemma elem_of_alter {A} (f : A → A) (i : nat) (l : list A) x :
  x ∈ alter f i l ↔ (∃ y, l !! i = Some y ∧ x = f y) ∨ ∃ j, j ≠ i ∧ l !! j = Some x.
Proof.
  rewrite list_elem_of_lookup. split.
  - intros (j & Hj). destruct (decide (j = i)) as [->|Hne].
    + rewrite list_lookup_alter_eq in Hj. apply fmap_Some in Hj as (y & ? & ->). left. eauto.
    + rewrite list_lookup_alter_ne in Hj by done. right. eauto.
  - intros [(y & Hy & ->)|(j & Hne & Hj)].
    + exists i. by rewrite list_lookup_alter_eq, Hy.
    + exists j. by rewrite list_lookup_alter_ne.
Qed.

(** A rule with this match, found or appended. *)
Lemma newHTTPServiceRouteRule_spec k rules : ∃ rules' i dup r,
  newHTTPServiceRouteRule k rules = (rules', i, dup) ∧ rules' !! i = Some r ∧ hrr_Match r = k ∧
  (dup = true ∧ rules' = rules ∨ dup = false ∧ (k ∉ hrr_Match <$> rules) ∧ rules' = rules ++ [mkRouteRule k ∅ [] None]).
Proof.
  unfold newHTTPServiceRouteRule. destruct (list_find _ _) as [[i r]|] eqn:E.
  - apply list_find_Some in E as (Hi & -> & _). eexists _, i, true, r. eauto 10.
  - eexists _, (length rules), false, _. split; [done|]. rewrite lookup_app_r, Nat.sub_diag by done.
    split; [done|]. split; [done|]. right. split; [done|]. split; [|done].
    apply list_find_None in E. rewrite list_elem_of_fmap. intros (r & -> & Hr). rewrite Forall_forall in E. by apply (E r).
Qed.

Section inbound.
Context {MS : MapSet} {MSS : MapSetSpec} (mc : MeshCatalog) (td : string) (permissive : bool).

(** The routed match and the identities of a policy rule. *)
Definition ruleMatch (rule : T.Rule) : HTTPMatchRule := newHTTPMatch (T.rwc_HTTPRouteMatch (T.Route rule)).
Definition routed (rule : T.Rule) : Prop := T.Path (T.rwc_HTTPRouteMatch (T.Route rule)) ≠ "".
Definition identities (rule : T.Rule) : list string := map (λ p, FromPrincipal p td) (ToSlice (T.AllowedPrincipals rule)).

(** What the rules generated from the policy rules [l] look like. *)
Record generated (l : list T.Rule) (L : list HTTPRouteRule) : Prop := {
  gen_flag : ∀ r, r ∈ L → hmr_allowedAnyService (hrr_Match r) = false;
  gen_distinct : NoDup (hrr_Match <$> L);
  gen_match : ∀ k, k ∈ hrr_Match <$> L ↔ ∃ rule, rule ∈ l ∧ routed rule ∧ ruleMatch rule = k;
  gen_service : ∀ r id, r ∈ L → id ∈ hrr_AllowedServices r ↔
    ∃ rule, rule ∈ l ∧ routed rule ∧ ruleMatch rule = hrr_Match r ∧ id ∈ identities rule }.

Lemma generated_nil : generated [] [].
Proof.
  split; [intros ? Hr; by apply elem_of_nil in Hr|apply NoDup_nil_2| |intros ?? Hr; by apply elem_of_nil in Hr].
  intros k. split; [intros Hk; by apply elem_of_nil in Hk|intros (? & Hr & _); by apply elem_of_nil in Hr].
Qed.

Lemma inboundRule_routes h rule :
  irr_RouteRules (inboundRule mc td permissive h rule) =
  if decide (routed rule) then
    let '(rules, i, duplicate) := newHTTPServiceRouteRule (ruleMatch rule) (irr_RouteRules h) in
    let rules := if duplicate then rules
      else alter (λ r, addClusters (ToSlice (T.rwc_WeightedClusters (T.Route rule))) (setRateLimit (T.rwc_RateLimit (T.Route rule)) r)) i rules in
    alter (λ r, foldl (λ r id, addAllowedService id r) r (identities rule)) i rules
  else irr_RouteRules h.
Proof.
  unfold inboundRule, routed. cbv zeta. destruct (decide _) as [Hr|Hr].
  - rewrite bool_decide_eq_false_2 by done. fold (ruleMatch rule).
    destruct (newHTTPServiceRouteRule _ _) as [[rules i] dup].
    apply (foldl_inv (λ _ h, irr_RouteRules h = _)).
    + simpl. apply list_alter_ext; [|done]. intros r _. unfold identities. generalize (ToSlice (T.AllowedPrincipals rule)).
      intros ps. revert r. induction ps as [|q ps IH]; intros r; simpl; [done|apply IH].
    + intros _ p _ h' _ Hh. destruct (_ || _); [done|].
      apply (foldl_inv (λ _ h, irr_RouteRules h = _)); [done|]. by intros.
  - by rewrite bool_decide_eq_true_2 by (by apply dec_stable).
Qed.

(** The rules before the services of a policy rule are added: those with its
    match are there, whether found or appended. *)
Lemma generated_found l L k : generated l L → hmr_allowedAnyService k = false → ∃ rules i dup r,
  newHTTPServiceRouteRule k L = (rules, i, dup) ∧ rules !! i = Some r ∧ hrr_Match r = k ∧ NoDup (hrr_Match <$> rules) ∧
  (∀ k', k' ∈ hrr_Match <$> rules ↔ k' ∈ hrr_Match <$> L ∨ k' = k) ∧
  (∀ r id, r ∈ rules → id ∈ hrr_AllowedServices r ↔
    ∃ rule, rule ∈ l ∧ routed rule ∧ ruleMatch rule = hrr_Match r ∧ id ∈ identities rule).
Proof.
  intros [Hf Hd Hm Hs] Hk. destruct (newHTTPServiceRouteRule_spec k L) as (rules & i & dup & r & E & Hi & Hr & Hc).
  exists rules, i, dup, r. split; [done|]. split; [done|]. split; [done|]. destruct Hc as [[-> ->]|(-> & Hn & ->)].
  - split; [done|]. split; [|done]. intros k'. split; [tauto|]. intros [?| ->]; [done|].
    apply list_elem_of_fmap. exists r. split; [done|]. by eapply list_elem_of_lookup_2.
  - rewrite fmap_app. simpl. split; [|split].
    + apply NoDup_app. split; [done|]. split; [|apply NoDup_singleton]. intros k' ? ->%list_elem_of_singleton. done.
    + intros k'. rewrite elem_of_app, list_elem_of_singleton. done.
    + intros x id. rewrite elem_of_app, list_elem_of_singleton. intros [?| ->]; [by apply Hs|]. simpl. split.
      * intros Hx. by apply elem_of_nil in Hx.
      * intros (rule & ? & ? & ? & _). destruct Hn. apply Hm. eauto.
Qed.

Lemma fmap_alter_same {A B} (g : A → B) (F : A → A) (i : nat) (l : list A) x :
  l !! i = Some x → g (F x) = g x → g <$> alter F i l = g <$> l.
Proof.
  intros Hi Hg. apply list_eq. intros j. rewrite !list_lookup_fmap. destruct (decide (j = i)) as [->|?].
  - rewrite list_lookup_alter_eq, Hi. simpl. by rewrite Hg.
  - by rewrite list_lookup_alter_ne.
Qed.

Lemma generated_step l h rule :
  generated l (irr_RouteRules h) → "*" ∉ identities rule →
  generated (l ++ [rule]) (irr_RouteRules (inboundRule mc td permissive h rule)).
Proof.
  intros Hg Hstar. rewrite inboundRule_routes. destruct (decide (routed rule)) as [Hr|Hr].
  - destruct (generated_found l _ (ruleMatch rule) Hg (newHTTPMatch_flag _)) as (L & i & dup & r0 & -> & Hi & Hk & Hd & Hm & Hs).
    cbv zeta. set (G := λ r, addClusters _ _).
    set (F := λ r, foldl (λ r id, addAllowedService id r) (if dup then r else G r) (identities rule)).
    assert (alter (λ r, foldl (λ r id, addAllowedService id r) r (identities rule)) i (if dup then L else alter G i L)
            = alter F i L) as ->. { destruct dup; [done|]. apply list_eq. intros j. destruct (decide (j = i)) as [->|?];
        [by rewrite !list_lookup_alter_eq, Hi|by rewrite !list_lookup_alter_ne]. }
    assert (HG : hrr_Match (if dup then r0 else G r0) = ruleMatch rule ∧
      hrr_AllowedServices (if dup then r0 else G r0) = hrr_AllowedServices r0).
    { destruct dup; [done|]. unfold G. destruct (addClusters_other (ToSlice (T.rwc_WeightedClusters (T.Route rule)))
        (setRateLimit (T.rwc_RateLimit (T.Route rule)) r0)) as [-> ->]. done. }
    assert (HF : hrr_Match (F r0) = ruleMatch rule ∧ hrr_AllowedServices (F r0) = hrr_AllowedServices r0 ++ identities rule).
    { unfold F. destruct HG as [HG1 HG2]. rewrite addAllowedServices; [|by rewrite HG1; apply newHTTPMatch_flag|done].
      simpl. by rewrite HG1, HG2. }
    destruct HF as [HF1 HF2].
    assert (HL : hrr_Match <$> alter F i L = hrr_Match <$> L) by (eapply fmap_alter_same; [done|congruence]).
    split.
    + intros r Hx. assert (hrr_Match r ∈ hrr_Match <$> alter F i L) as Hin by (by apply list_elem_of_fmap_2).
      rewrite HL, Hm in Hin. destruct Hin as [(r' & Hr' & Hin)%list_elem_of_fmap| ->].
      * rewrite Hr'. by apply (gen_flag _ _ Hg).
      * apply newHTTPMatch_flag.
    + by rewrite HL.
    + intros k. rewrite HL, Hm, (gen_match _ _ Hg). setoid_rewrite elem_of_app. setoid_rewrite list_elem_of_singleton. naive_solver.
    + intros r id. rewrite elem_of_alter. setoid_rewrite elem_of_app. setoid_rewrite list_elem_of_singleton.
      intros [(y & Hy & ->)|(j & Hj & Hrj)].
      * simplify_eq. rewrite HF1, HF2, elem_of_app, (Hs r0) by (by eapply list_elem_of_lookup_2). rewrite Hk.
        split; [intros [(x & ? & ? & ? & ?)|?]; [exists x|exists rule]; auto|]. intros (x & [?| ->] & ? & ? & ?); [left|right]; eauto.
      * rewrite Hs by (by eapply list_elem_of_lookup_2).
        assert (Hne : ruleMatch rule ≠ hrr_Match r).
        2:{ split; [intros (x & ? & ? & ? & ?); exists x; auto|]. intros (x & [?| ->] & ? & ? & ?); [eauto|done]. }
        intros Heq. apply Hj.
        apply (NoDup_lookup (hrr_Match <$> L) j i (hrr_Match r)); [done| |]; rewrite list_lookup_fmap; [by rewrite Hrj|].
        rewrite Hi. simpl. congruence.
  - destruct Hg as [Hf Hd Hm Hs]. split; [done..| |].
    + intros k. rewrite Hm. setoid_rewrite elem_of_app. setoid_rewrite list_elem_of_singleton.
      split; [intros (x & ? & ? & ?); eauto|]. intros (x & [?| ->] & ? & ?); [eauto|done].
    + intros r id Hx. rewrite Hs by done. setoid_rewrite elem_of_app. setoid_rewrite list_elem_of_singleton.
      split; [intros (x & ? & ? & ? & ?); eauto 10|]. intros (x & [?| ->] & ? & ? & ?); [eauto|done].
Qed.

Lemma generated_all h rules :
  irr_RouteRules h = [] → (∀ rule, rule ∈ rules → "*" ∉ identities rule) →
  generated rules (irr_RouteRules (foldl (inboundRule mc td permissive) h rules)).
Proof.
  intros Hh Hs. apply (foldl_inv (λ l h, generated l (irr_RouteRules h))); [rewrite Hh; apply generated_nil|].
  intros l1 rule l2 h' -> Hg. apply generated_step; [done|]. apply Hs. set_solver.
Qed.

(** ** The requests that are admitted *)

Context `{RE : RegExp} `{SS : SliceSort}.

Lemma sortRules_same rules : sameRules (sortRules rules) rules.
Proof.
  assert (Hp : ∀ r, r ∈ sortRules rules ↔ r ∈ rules).
  { intros r. unfold sortRules. case_bool_decide; [by rewrite sort_slice_perm|done]. }
  split; intros r Hr; exists r; (split; [by apply Hp|by repeat split]).
Qed.

(** A request fits a route: its method is listed (every method the script
    knows if none or the star is), its path matches and so does each header. *)
Definition methodFits (methods : list string) (method : string) : Prop :=
  if decide (methods = [] ∨ "*" ∈ methods) then method ∈ allMethods else method ∈ methods.

Definition pathFits (m : T.HTTPRouteMatch) (path : string) : Prop :=
  match T.hrm_PathMatchType m with
  | T.PathMatchExact => path = T.Path m
  | T.PathMatchPrefix => String.prefix (T.Path m) path = true
  | T.PathMatchRegex => test (T.Path m) path = true
  end.

Definition requestFits (m : T.HTTPRouteMatch) (rq : Request) : Prop :=
  T.Path m ≠ "" ∧ methodFits (slice_elems (T.Methods m)) (rq_method rq) ∧ pathFits m (rq_path rq) ∧
  ∀ k v, default ∅ (T.Headers m) !! k = Some v → test v (header (rq_headers rq) k) = true.

Lemma addMethodMatches r ms :
  hmr_allowedAnyMethod r = false →
  foldl addMethodMatch r ms =
    mkMatchRule (hmr_Path r) (hmr_Type r) (hmr_Headers r) (if decide ("*" ∈ ms) then [] else hmr_Methods r ++ ms)
      (hmr_allowedAnyService r) (bool_decide ("*" ∈ ms)).
Proof.
  assert (Hany : ∀ l x, hmr_allowedAnyMethod x = true → foldl addMethodMatch x l = x).
  { induction l as [|y l IH]; intros x Hx; simpl; [done|]. rewrite <-(IH x Hx) at 2. f_equal. unfold addMethodMatch. by rewrite Hx. }
  revert r. induction ms as [|m ms IH]; intros [pa ty he me sv any] Hr; simpl in *; subst.
  - by rewrite app_nil_r.
  - unfold addMethodMatch at 2. simpl. destruct (decide (m = "*")) as [->|Hm].
    + rewrite (bool_decide_eq_true_2 ("*" = "*")), Hany by done. rewrite decide_True, bool_decide_eq_true_2 by set_solver. done.
    + rewrite (bool_decide_eq_false_2 (m = "*")), IH by done. simpl. destruct (decide ("*" ∈ ms)).
      * rewrite decide_True, !bool_decide_eq_true_2 by set_solver. done.
      * rewrite decide_False, !bool_decide_eq_false_2 by set_solver. by rewrite <-app_assoc.
Qed.

Lemma newHTTPMatch_spec m :
  T.Path m ≠ "" → newHTTPMatch m =
    let ms := slice_elems (T.Methods m) in
    let any := bool_decide (ms = [] ∨ "*" ∈ ms) in
    mkMatchRule (T.Path m) (matchType (T.hrm_PathMatchType m)) (default ∅ (T.Headers m)) (if any then [] else ms) false any.
Proof.
  intros Hp. unfold newHTTPMatch. rewrite (bool_decide_eq_false_2 (T.Path m = "")) by done.
  rewrite (bool_decide_eq_false_2 (matchType _ = "")) by (by destruct (T.hrm_PathMatchType m)). cbv zeta.
  destruct (slice_elems (T.Methods m)) as [|x l] eqn:E; [by rewrite bool_decide_eq_true_2 by auto|].
  rewrite addMethodMatches by done. simpl. destruct (decide ("*" ∈ x :: l)).
  - rewrite !bool_decide_eq_true_2 by auto. done.
  - rewrite !bool_decide_eq_false_2 by naive_solver. done.
Qed.

Lemma matchPath_pathFits m path ms sv any :
  matchPath (mkMatchRule (T.Path m) (matchType (T.hrm_PathMatchType m)) (default ∅ (T.Headers m)) ms sv any) path = true ↔
  pathFits m path.
Proof. unfold matchPath, pathFits. destruct (T.hrm_PathMatchType m); simpl; [done|apply bool_decide_eq_true|done]. Qed.

Lemma headerRules_spec k headers :
  headerRules k headers = true ↔ ∀ h v, hmr_Headers k !! h = Some v → test v (header headers h) = true.
Proof.
  unfold headerRules. rewrite forallb_forall. split.
  - intros H h v Hv. apply (H (h, v)), list_elem_of_In, elem_of_map_to_list, Hv.
  - intros H [h v] Hv%list_elem_of_In%elem_of_map_to_list. by apply H.
Qed.

(** What the script checks on the generated match is that the request fits. *)
Lemma fits_newHTTPMatch m rq : T.Path m ≠ "" →
  rq_method rq ∈ (match hmr_Methods (newHTTPMatch m) with [] => allMethods | ms => ms end) ∧
  ruleMatches (newHTTPMatch m) (rq_path rq) (rq_headers rq) = true ↔ requestFits m rq.
Proof.
  intros Hp. unfold ruleMatches, requestFits. rewrite andb_true_iff, headerRules_spec, newHTTPMatch_spec by done. cbv zeta. simpl.
  unfold methodFits. destruct (decide (slice_elems (T.Methods m) = [] ∨ "*" ∈ slice_elems (T.Methods m))) as [Hd|Hd].
  - rewrite bool_decide_eq_true_2 by done. rewrite matchPath_pathFits by done. naive_solver.
  - rewrite bool_decide_eq_false_2 by done. rewrite matchPath_pathFits by done.
    destruct (slice_elems (T.Methods m)); [by destruct Hd; left|]. naive_solver.
Qed.

(** The expressions of a route are regular expressions, so that the script
    makes its closures. *)
Definition patternsCompile (m : T.HTTPRouteMatch) : Prop :=
  (T.hrm_PathMatchType m = T.PathMatchRegex → is_Some (compile (T.Path m))) ∧
  ∀ k v, default ∅ (T.Headers m) !! k = Some v → is_Some (compile v).

Lemma compiles_newHTTPMatch m : T.Path m ≠ "" → compiles (newHTTPMatch m) ↔ patternsCompile m.
Proof.
  intros Hp. unfold compiles, patternsCompile. rewrite newHTTPMatch_spec by done. cbv zeta. simpl.
  rewrite Forall_forall. setoid_rewrite <-elem_of_map_to_list. f_equiv.
  - by destruct (T.hrm_PathMatchType m); split; intros H ?; try done; apply H.
  - split; [intros H k v Hv; by apply (H (k, v))|intros H [k v] Hv; by apply (H k)].
Qed.

Lemma known_newHTTPMatch m : T.Path m ≠ "" → knownType (newHTTPMatch m).
Proof.
  intros Hp. unfold knownType. rewrite newHTTPMatch_spec by done. cbv zeta. simpl.
  destruct (T.hrm_PathMatchType m); simpl; set_solver.
Qed.

Lemma generated_known l L : generated l L → allKnown L.
Proof.
  intros Hg. apply Forall_forall. intros r Hr.
  destruct (proj1 (gen_match _ _ Hg (hrr_Match r))) as (rule & _ & Hro & <-); [by apply list_elem_of_fmap_2|].
  by apply known_newHTTPMatch.
Qed.

Lemma generated_compile l L : generated l L →
  allCompile L ↔ ∀ rule, rule ∈ l → routed rule → patternsCompile (T.rwc_HTTPRouteMatch (T.Route rule)).
Proof.
  intros Hg. unfold allCompile. rewrite Forall_forall. split.
  - intros H rule Hl Hro. apply compiles_newHTTPMatch; [done|]. fold (ruleMatch rule).
    assert (ruleMatch rule ∈ hrr_Match <$> L) as (r & -> & Hr)%list_elem_of_fmap by (apply (gen_match _ _ Hg); eauto).
    by apply H.
  - intros H r Hr. destruct (proj1 (gen_match _ _ Hg (hrr_Match r))) as (rule & Hl & Hro & <-); [by apply list_elem_of_fmap_2|].
    apply compiles_newHTTPMatch; [done|]. by apply H.
Qed.

(** The rules decide the same after sorting. *)
Lemma generated_sorted l L rq : generated l L →
  admitted (serviceHandler (sortRules L) rq) ↔ allCompile L ∧ ∃ r, applies L rq r.
Proof.
  intros Hg. pose proof (generated_known l L Hg) as Hk.
  rewrite <-(sameRules_admit L (sortRules L) rq Hk); [by apply serviceHandler_admits|].
  destruct (sortRules_same L). by split.
Qed.

(** A policy rule that the request fits. *)
Definition fits (rule : T.Rule) (rq : Request) : Prop := requestFits (T.rwc_HTTPRouteMatch (T.Route rule)) rq.

(** Rules none of which is for the anonymous caller, each with a rule of the
    same match that has principals. *)
Definition principalled (l : list T.Rule) : Prop := ∀ rule, rule ∈ l → ("" ∉ identities rule) ∧
  ∃ rule', rule' ∈ l ∧ ruleMatch rule' = ruleMatch rule ∧ (routed rule → routed rule') ∧ identities rule' ≠ [].

Lemma generated_admits l L rq :
  generated l L → principalled l → identityOf rq ≠ "" →
  admitted (serviceHandler (sortRules L) rq) ↔ allCompile L ∧ ∃ rule, rule ∈ l ∧ fits rule rq ∧ identityOf rq ∈ identities rule.
Proof.
  intros Hg Hp Hid. rewrite generated_sorted by done. apply and_iff_compat_l. split.
  - intros (r & Hr & Hmeth & Hm & Hk).
    assert (identityOf rq ∈ hrr_AllowedServices r) as Hs.
    { destruct Hk as [[_ [?|[_ ?]]%elem_of_allowedIdentities]|[_ [Hs|[Hs _]]%elem_of_allowedIdentities]]; [done..| |].
      - apply (gen_service _ _ Hg r "" Hr) in Hs as (rule & ? & _ & _ & ?). by destruct (Hp rule).
      - destruct (proj1 (gen_match _ _ Hg (hrr_Match r))) as (rule & Hl & Hro & Hma); [by apply list_elem_of_fmap_2|].
        destruct (Hp rule Hl) as [_ (rule' & Hl' & Hma' & Hro' & Hne)].
        destruct (identities rule') as [|id ids] eqn:E; [done|]. exfalso.
        apply (not_elem_of_nil id). rewrite <-Hs. apply (gen_service _ _ Hg r id Hr). exists rule'. rewrite E.
        split; [done|]. split; [auto|]. split; [congruence|left]. }
    apply (gen_service _ _ Hg r _ Hr) in Hs as (rule & ? & ? & Hma & ?). exists rule. split; [done|]. split; [|done].
    apply fits_newHTTPMatch; [done|]. fold (ruleMatch rule). by rewrite Hma.
  - intros (rule & Hl & Hfit & Hi). pose proof (proj1 Hfit) as Hro. apply fits_newHTTPMatch in Hfit as [Hmeth Hm]; [|done].
    fold (ruleMatch rule) in Hmeth, Hm.
    assert (ruleMatch rule ∈ hrr_Match <$> L) as (r & Hk & Hr)%list_elem_of_fmap. { apply (gen_match _ _ Hg). eauto. }
    assert (identityOf rq ∈ allowedIdentities r) as Hid'.
    { apply elem_of_allowedIdentities. left. apply (gen_service _ _ Hg r _ Hr). eauto. }
    assert (rq_method rq ∈ allowedMethods r). { unfold allowedMethods. by rewrite <-Hk. }
    exists r. split; [done|]. split; [done|]. split; [by rewrite <-Hk|]. left. split; [|done]. split; [done|]. eauto.
Qed.

End inbound.

(** ** Names and hosts *)

Lemma ToServiceIdentity_proper sa : ToServiceIdentity sa ≠ "" ∧ ToServiceIdentity sa ≠ "*".
Proof.
  unfold ToServiceIdentity, New. destruct (sa_Name sa) as [|c name]; [done|]. rewrite bool_decide_eq_true_2 by (simpl; lia).
  split; [done|]. intros [= _ H]. by destruct name.
Qed.

Lemma Split_length_app s t c : length (Split (s +:+ String c t) c) = (length (Split s c) + length (Split t c))%nat.
Proof.
  induction s as [|x s IH]; simpl; [by rewrite bool_decide_eq_true_2|]. case_bool_decide; simpl; [by rewrite IH|].
  pose proof (Split_ne_nil (s +:+ String c t) c). pose proof (Split_ne_nil s c).
  by destruct (Split (s +:+ String c t) c), (Split s c).
Qed.

(** The plugins of a match of this name are found without a panic. *)
Lemma inboundPlugins_total pp svc : ∃ plugins, getTrafficMatchPluginConfigs pp (InboundTrafficMatchName svc) = Ret plugins.
Proof.
  assert (Hl : (4 <= length (Split (InboundTrafficMatchName svc) "_"%char))%nat).
  { unfold InboundTrafficMatchName. rewrite !str_app_cons, !str_app_nil_l. simpl.
    rewrite !Split_length_app. pose proof (Split_ne_nil (ms_String svc) "_"%char). pose proof (Split_ne_nil (pretty (TargetPort svc)) "_"%char).
    destruct (Split (ms_String svc) _), (Split (pretty (TargetPort svc)) _), (Split (Protocol svc) _), (Split (CloudAttachedNamespace svc) _) eqn:E; simpl; try done; try lia.
    all: by apply Split_ne_nil in E. }
  unfold getTrafficMatchPluginConfigs. destruct (Split _ _) as [|a [|b [|c [|d l]]]]; simpl in Hl; try lia. eexists. reflexivity.
Qed.

Lemma bindHosts_other ref hs tm :
  let tm' := foldl (λ tm h, in_bindHost h ref tm) tm hs in
  im_HTTPServiceRouteRules tm' = im_HTTPServiceRouteRules tm ∧ im_SourceIPRanges tm' = im_SourceIPRanges tm.
Proof. apply (foldl_inv (λ _ tm', im_HTTPServiceRouteRules tm' = _ ∧ im_SourceIPRanges tm' = _)); [done|]. by intros. Qed.

Lemma bindHost_self ref h h' tm :
  im_HTTPHostPort2Service tm !! h = Some ref ∨ im_HTTPHostPort2Service tm !! h = None ∧ h' = h →
  im_HTTPHostPort2Service (in_bindHost h' ref tm) !! h = Some ref.
Proof.
  simpl. unfold in_addHTTPHostPort2Service. intros [Hh|[Hh ->]]; [|by rewrite Hh, lookup_insert_eq].
  destruct (decide (h' = h)) as [->|?].
  - rewrite Hh. case_bool_decide; [by rewrite lookup_insert_eq|]. destruct (_ && _); [by rewrite lookup_insert_eq|done].
  - destruct (im_HTTPHostPort2Service tm !! h'); [|by rewrite lookup_insert_ne].
    case_bool_decide; [by rewrite lookup_insert_ne|]. destruct (_ && _); [by rewrite lookup_insert_ne|done].
Qed.

Lemma bindHosts_bound ref hs tm h :
  h ∈ hs → im_HTTPHostPort2Service tm !! h = None →
  im_HTTPHostPort2Service (foldl (λ tm h, in_bindHost h ref tm) tm hs) !! h = Some ref.
Proof.
  intros Hh Hn.
  assert (Hstay : ∀ l tm, im_HTTPHostPort2Service tm !! h = Some ref →
    im_HTTPHostPort2Service (foldl (λ tm h, in_bindHost h ref tm) tm l) !! h = Some ref).
  { intros l. induction l as [|x l IH]; intros tm' H; simpl; [done|]. apply IH, bindHost_self. by left. }
  revert tm Hn. induction hs as [|x hs IH]; intros tm Hn; [by apply elem_of_nil in Hh|]. simpl.
  destruct (decide (x = h)) as [->|Hx].
  - apply Hstay, bindHost_self. by right.
  - apply elem_of_cons in Hh as [->|Hh]; [done|]. apply IH; [done|]. simpl. unfold in_addHTTPHostPort2Service.
    destruct (im_HTTPHostPort2Service tm !! x); [|by rewrite lookup_insert_ne].
    case_bool_decide; [by rewrite lookup_insert_ne|]. destruct (_ && _); [by rewrite lookup_insert_ne|done].
Qed.

(** ** The rules of a policy built from TrafficTargets *)

Section targets.
Context {MS : MapSet} {MSS : MapSetSpec}.

Lemma elem_of_allowed rules r p :
  p ∈ TF.allowed rules r ↔ ∃ rule, rule ∈ rules ∧ T.rwc_deepeq (T.Route rule) r = true ∧ p ∈ elems (T.AllowedPrincipals rule).
Proof.
  induction rules as [|x rules IH]; simpl; [set_solver|]. rewrite elem_of_union, IH. setoid_rewrite elem_of_cons. split.
  - intros [Hx|(rule & ? & ? & ?)]; [|by eauto]. destruct (T.rwc_deepeq (T.Route x) r) eqn:E; [by eauto|set_solver].
  - intros (rule & [->|?] & E & ?); [left; by rewrite E|right; eauto].
Qed.

Lemma MergeRules_routes os ls rule :
  rule ∈ T.MergeRules os ls → T.Route rule ∈ (T.Route <$> os) ++ (T.Route <$> ls).
Proof.
  revert rule. unfold T.MergeRules.
  apply (foldl_inv (λ l c, ∀ rule, rule ∈ c → T.Route rule ∈ (T.Route <$> os) ++ (T.Route <$> l))).
  - intros rule ?. rewrite app_nil_r. by apply list_elem_of_fmap_2.
  - intros l1 x l2 c _ IH rule. rewrite fmap_app. destruct (T.mergeRule c x) as [c'|] eqn:E; simpl.
    + intros Hr. apply TF.mergeRule_routes in E.
      assert (T.Route rule ∈ T.Route <$> c) as (y & -> & Hy)%list_elem_of_fmap by (rewrite <-E; by apply list_elem_of_fmap_2).
      specialize (IH y Hy). set_solver.
    + intros [Hr| ->%list_elem_of_singleton]%elem_of_app; [specialize (IH rule Hr)|]; set_solver.
Qed.

Lemma mergeRule_covers os l os' :
  T.mergeRule os l = Some os' → ∃ o, o ∈ os ∧ T.rwc_HTTPRouteMatch (T.Route o) = T.rwc_HTTPRouteMatch (T.Route l).
Proof.
  revert os'. induction os as [|o os IH]; intros os'; simpl; [done|]. destruct (T.rwc_deepeq _ _) eqn:E.
  - intros _. exists o. split; [left|]. apply TF.rwc_deepeq_spec in E as [? _]. done.
  - intros (x & Hx & _)%fmap_Some. destruct (IH x Hx) as (y & ? & ?). exists y. split; [by right|done].
Qed.

Lemma MergeRules_covers os ls m :
  (∃ rule, rule ∈ os ++ ls ∧ T.rwc_HTTPRouteMatch (T.Route rule) = m) →
  ∃ rule, rule ∈ T.MergeRules os ls ∧ T.rwc_HTTPRouteMatch (T.Route rule) = m.
Proof.
  unfold T.MergeRules. apply (foldl_inv (λ l c, (∃ rule, rule ∈ os ++ l ∧ T.rwc_HTTPRouteMatch (T.Route rule) = m) →
    ∃ rule, rule ∈ c ∧ T.rwc_HTTPRouteMatch (T.Route rule) = m)); [by rewrite app_nil_r|].
  intros l1 x l2 c _ IH (rule & Hr & Hm). rewrite app_assoc in Hr. destruct (T.mergeRule c x) as [c'|] eqn:E; simpl.
  - assert (∃ y, y ∈ c ∧ T.rwc_HTTPRouteMatch (T.Route y) = m) as (y & Hy & Hmy).
    { apply elem_of_app in Hr as [Hr| ->%list_elem_of_singleton]; [by apply IH; eauto|].
      destruct (mergeRule_covers _ _ _ E) as (y & ? & ?). exists y. split; congruence. }
    apply TF.mergeRule_routes in E. assert (T.Route y ∈ T.Route <$> c') as (z & Hz & ?)%list_elem_of_fmap
      by (rewrite E; by apply list_elem_of_fmap_2). exists z. by rewrite <-Hz.
  - apply elem_of_app in Hr as [Hr| ->%list_elem_of_singleton]; [|exists x; set_solver].
    destruct IH as (y & ? & ?); [by eauto|]. exists y. set_solver.
Qed.

Context (mc : MeshCatalog) (ts : list TrafficTarget) (wc : WeightedCluster) (uts : option UpstreamTrafficSetting).

Let merged := foldl (λ rules t, T.MergeRules rules (getRoutingRulesFromTrafficTarget mc t wc uts)) [] ts.
Let route m := T.NewRouteWeightedCluster m [wc] uts.

Lemma targetRules_route t rule :
  rule ∈ getRoutingRulesFromTrafficTarget mc t wc uts →
  ∃ m, m ∈ routesFromRules mc (tt_Rules t) (tt_Namespace t) ∧ T.Route rule = route m.
Proof.
  unfold getRoutingRulesFromTrafficTarget. rewrite (foldl_collect _ (λ m, [{| T.Route := route m; T.AllowedPrincipals := _ |}])) by done.
  simpl. rewrite list_elem_of_bind. intros (m & ->%list_elem_of_singleton & ?). eauto.
Qed.

Lemma targetRules_cover t m :
  m ∈ routesFromRules mc (tt_Rules t) (tt_Namespace t) →
  ∃ rule, rule ∈ getRoutingRulesFromTrafficTarget mc t wc uts ∧ T.rwc_HTTPRouteMatch (T.Route rule) = m.
Proof.
  unfold getRoutingRulesFromTrafficTarget. rewrite (foldl_collect _ (λ m, [{| T.Route := route m; T.AllowedPrincipals := _ |}])) by done.
  simpl. intros Hm. eexists. split; [apply list_elem_of_bind; eexists; split; [left|exact Hm]|done].
Qed.

Lemma mergedRules_route rule : rule ∈ merged → ∃ t m, t ∈ ts ∧
  m ∈ routesFromRules mc (tt_Rules t) (tt_Namespace t) ∧ T.Route rule = route m.
Proof.
  revert rule. unfold merged. apply (foldl_inv (λ ts rules, ∀ rule, rule ∈ rules → ∃ t m, t ∈ ts ∧
    m ∈ routesFromRules mc (tt_Rules t) (tt_Namespace t) ∧ T.Route rule = route m)); [set_solver|].
  intros l1 t l2 rules _ IH rule [Hr|Hr]%MergeRules_routes%elem_of_app; apply list_elem_of_fmap in Hr as (y & -> & Hy).
  - destruct (IH y Hy) as (t' & m & ? & ? & ?). exists t', m. set_solver.
  - destruct (targetRules_route t y Hy) as (m & ? & ?). exists t, m. set_solver.
Qed.

(** A rule of the policy allows a principal on a match exactly when a
    TrafficTarget does. *)
Lemma mergedRules_grant m p :
  (∃ rule, rule ∈ merged ∧ T.rwc_HTTPRouteMatch (T.Route rule) = m ∧ p ∈ elems (T.AllowedPrincipals rule)) ↔
  ∃ t, t ∈ ts ∧ m ∈ routesFromRules mc (tt_Rules t) (tt_Namespace t) ∧ p ∈ principalsOf mc t.
Proof.
  rewrite <-(mergedRules_allowed mc ts wc uts m p), elem_of_allowed. fold merged. fold (route m). split; intros (rule & Hr & Hm & Hp); exists rule.
  - destruct (mergedRules_route rule Hr) as (t & m' & _ & _ & E). rewrite E in Hm |- *. simpl in Hm. subst m'.
    split; [done|]. split; [by apply TF.rwc_deepeq_spec|done].
  - apply TF.rwc_deepeq_spec in Hm as [Hm _]. done.
Qed.

(** Every route of a TrafficTarget has a rule, whatever its sources. *)
Lemma mergedRules_covers t m : t ∈ ts → m ∈ routesFromRules mc (tt_Rules t) (tt_Namespace t) →
  ∃ rule, rule ∈ merged ∧ T.rwc_HTTPRouteMatch (T.Route rule) = m.
Proof.
  intros Ht Hm. unfold merged. revert Ht. apply (foldl_inv (λ ts rules, t ∈ ts →
    ∃ rule, rule ∈ rules ∧ T.rwc_HTTPRouteMatch (T.Route rule) = m)); [by intros ?%elem_of_nil|].
  intros l1 t' l2 rules _ IH Ht. apply MergeRules_covers. apply elem_of_app in Ht as [Ht|Ht%list_elem_of_singleton].
  - destruct (IH Ht) as (rule & ? & ?). exists rule. set_solver.
  - subst t'. destruct (targetRules_cover t m Hm) as (rule & ? & ?). exists rule. set_solver.
Qed.

(** Every expression of the routes that TrafficTargets refer to is a regular
    expression; routes without a path are not looked at. *)
Definition patternsOf `{RE : RegExp} : Prop := ∀ t m, t ∈ ts →
  m ∈ routesFromRules mc (tt_Rules t) (tt_Namespace t) → T.Path m ≠ "" → patternsCompile m.

Lemma mergedRules_compile `{RE : RegExp} :
  (∀ rule, rule ∈ merged → routed rule → patternsCompile (T.rwc_HTTPRouteMatch (T.Route rule))) ↔ patternsOf.
Proof.
  split.
  - intros H t m Ht Hm Hp. destruct (mergedRules_covers t m Ht Hm) as (rule & Hr & <-). by apply H.
  - intros H rule Hr Hp. destruct (mergedRules_route rule Hr) as (t & m & Ht & Hm & E). unfold routed in Hp. rewrite E in *.
    by apply (H t).
Qed.

Let td := GetTrustDomain mc.

Lemma mergedRules_identity m id :
  (∃ rule, rule ∈ merged ∧ T.rwc_HTTPRouteMatch (T.Route rule) = m ∧ id ∈ identities td rule) ↔
  ∃ t s, t ∈ ts ∧ m ∈ routesFromRules mc (tt_Rules t) (tt_Namespace t) ∧ s ∈ tt_Sources t ∧
    id = ToServiceIdentity (trafficTargetIdentityToSvcAccount s).
Proof.
  unfold identities. setoid_rewrite list_elem_of_fmap. setoid_rewrite elem_of_ToSlice. split.
  - intros (rule & Hr & Hm & q & -> & Hq).
    destruct (proj1 (mergedRules_grant m q)) as (t & Ht & Hmt & Hp); [by eauto|]. exists t.
    apply elem_of_list_to_set, list_elem_of_fmap in Hp as (s & -> & Hs). exists s.
    do 3 (split; [done|]). apply FromPrincipal_AsPrincipal.
  - intros (t & s & Ht & Hm & Hs & ->).
    destruct (proj2 (mergedRules_grant m (sa_AsPrincipal (trafficTargetIdentityToSvcAccount s) td))) as (rule & Hr & Hmr & Hq).
    { exists t. do 2 (split; [done|]). apply elem_of_list_to_set, list_elem_of_fmap. eauto. }
    exists rule. do 2 (split; [done|]). eexists. split; [|done]. symmetry. apply FromPrincipal_AsPrincipal.
Qed.

Lemma mergedRules_proper rule : rule ∈ merged → ("" ∉ identities td rule) ∧ ("*" ∉ identities td rule).
Proof.
  intros Hr. split; intros Hi; destruct (proj1 (mergedRules_identity (T.rwc_HTTPRouteMatch (T.Route rule)) _)
    (ex_intro _ rule (conj Hr (conj eq_refl Hi)))) as (t & s & _ & _ & _ & E);
    destruct (ToServiceIdentity_proper (trafficTargetIdentityToSvcAccount s)); congruence.
Qed.

Lemma mergedRules_principalled : (∀ t, t ∈ ts → tt_Sources t ≠ []) → principalled td merged.
Proof.
  intros Hs rule Hr. split; [by apply mergedRules_proper|].
  destruct (mergedRules_route rule Hr) as (t & m & Ht & Hm & E). destruct (tt_Sources t) as [|s l] eqn:Es; [by destruct (Hs t)|].
  destruct (proj2 (mergedRules_identity m (ToServiceIdentity (trafficTargetIdentityToSvcAccount s)))) as (rule' & Hr' & Hm' & Hi).
  { exists t, s. rewrite Es. auto using list_elem_of_here. }
  exists rule'. unfold ruleMatch, routed. rewrite Hm', E. do 3 (split; [done|]). intros Hn. rewrite Hn in Hi. by apply elem_of_nil in Hi.
Qed.

End targets.

(** ** From the TrafficTargets to the sidecar's decision *)

Section enforcement.
Context {MS : MapSet} {MSS : MapSetSpec} `{RE : RegExp} `{SS : SliceSort} (mc : MeshCatalog) (contains : string → string → bool).

(** The rule set of a policy and the host that leads to it. *)
Lemma inboundHTTP_spec p td trafficMatch svc pol tm :
  T.tm_Name trafficMatch = InboundTrafficMatchName svc → T.itp_Name pol = PolicyName svc false →
  im_HTTPServiceRouteRules tm !! T.itp_Name pol = None →
  ∃ tm' h, inboundHTTP mc p td trafficMatch pol tm = Ret tm' ∧ irr_RouteRules h = [] ∧
    im_SourceIPRanges tm' = im_SourceIPRanges tm ∧
    im_HTTPHostPort2Service tm' = im_HTTPHostPort2Service
      (foldl (λ tm host, in_bindHost host (mkRuleRef (T.itp_Name pol) "") tm) tm (T.Hostnames pol)) ∧
    im_HTTPServiceRouteRules tm' =
      <[T.itp_Name pol := foldl (inboundRule mc td (pc_enablePermissiveTrafficPolicyMode p)) h (T.Rules pol)]> (im_HTTPServiceRouteRules tm).
Proof.
  intros Htm Hname Hnone. unfold inboundHTTP, in_withRules. cbn [ref_RuleName]. rewrite bool_decide_eq_false_2.
  2:{ rewrite Hname. unfold PolicyName. simpl. by destruct (Name svc). }
  destruct (bindHosts_other (mkRuleRef (T.itp_Name pol) "") (T.Hostnames pol) tm) as [E1 E2]. rewrite E1, Hnone, Htm.
  destruct (inboundPlugins_total (pc_pluginPolicies p) svc) as [plugins ->]. cbn [mbind go_bind default].
  eexists _, _. split; [done|]. simpl. by repeat split.
Qed.

(** The policy of a service, and a port on which its host and its rules are new. *)
Context (p : PipyConf) (svc : MeshService) (ts : list TrafficTarget) (uts : option UpstreamTrafficSetting)
  (pol : T.InboundTrafficPolicy T.Rule) (trafficMatch : T.TrafficMatch) (tm : InboundTrafficMatch) (remote : string) (rq : Request).

Definition newOnPort : Prop :=
  T.tm_Name trafficMatch = InboundTrafficMatchName svc ∧
  buildInboundHTTPPolicyFromTrafficTarget mc svc ts uts = Ret pol ∧
  im_SourceIPRanges tm = ∅ ∧ im_HTTPServiceRouteRules tm !! PolicyName svc false = None ∧
  header (rq_headers rq) "host" ∈ T.Hostnames pol ∧ im_HTTPHostPort2Service tm !! header (rq_headers rq) "host" = None.

Lemma inbound_decision : newOnPort → ∃ tm' L,
  inboundHTTP mc p (GetTrustDomain mc) trafficMatch pol tm = Ret tm' ∧
  generated (GetTrustDomain mc)
    (foldl (λ rules t, T.MergeRules rules (getRoutingRulesFromTrafficTarget mc t (localCluster svc) uts)) [] ts) L ∧
  portHandler contains (reorderInMatch tm') remote rq = serviceHandler (sortRules L) rq.
Proof.
  intros (Htm & Hpol & Hip & Hnone & Hhost & Hfree). unfold buildInboundHTTPPolicyFromTrafficTarget in Hpol.
  apply go_bind_Ret in Hpol as (hs & _ & [= Hpol]). assert (Hname : T.itp_Name pol = PolicyName svc false) by (by rewrite <-Hpol).
  rewrite <-Hname in Hnone.
  destruct (inboundHTTP_spec p (GetTrustDomain mc) trafficMatch svc pol tm Htm Hname Hnone) as (tm' & h & Hr & Hh & Hip' & Hb & Hl).
  exists tm'. eexists. split; [done|]. split.
  - apply (generated_all mc (GetTrustDomain mc) (pc_enablePermissiveTrafficPolicyMode p) h _ Hh).
    intros rule Hrule. by eapply mergedRules_proper.
  - rewrite <-Hip' in Hip. unfold portHandler. simpl. rewrite Hip, map_to_list_empty. simpl.
    unfold rulesOfHost. simpl. rewrite Hb, (bindHosts_bound _ _ _ _ Hhost Hfree). simpl. rewrite lookup_fmap, Hl, lookup_insert_eq. simpl.
    by rewrite <-Hpol.
Qed.

(** No rule of the match has a type that the script does not know. *)
Lemma inbound_known tm' : newOnPort → im_HTTPServiceRouteRules tm = ∅ →
  inboundHTTP mc p (GetTrustDomain mc) trafficMatch pol tm = Ret tm' → ∀ host, allKnown (rulesOfHost (reorderInMatch tm') host).
Proof.
  intros (Htm & Hpol & _ & Hnone & _) Hempty Hrun host. unfold buildInboundHTTPPolicyFromTrafficTarget in Hpol.
  apply go_bind_Ret in Hpol as (hs & _ & [= Hpol]). assert (Hname : T.itp_Name pol = PolicyName svc false) by (by rewrite <-Hpol).
  rewrite <-Hname in Hnone.
  destruct (inboundHTTP_spec p (GetTrustDomain mc) trafficMatch svc pol tm Htm Hname Hnone) as (tm1 & h & Hr & Hh & _ & _ & Hl).
  rewrite Hrun in Hr. injection Hr as <-. unfold rulesOfHost. simpl.
  destruct (im_HTTPHostPort2Service tm' !! host) as [ref|]; simpl; [|constructor]. rewrite lookup_fmap, Hl, Hempty.
  destruct (decide (ref_RuleName ref = T.itp_Name pol)) as [->|?]; [|by rewrite lookup_insert_ne, lookup_empty; [constructor|]].
  rewrite lookup_insert_eq. simpl. eapply covered_known; [exact (proj1 (sortRules_same _))|].
  assert (Hgen : ∀ rule, rule ∈ T.Rules pol → "*" ∉ identities (GetTrustDomain mc) rule).
  { rewrite <-Hpol. intros rule Hrule. exact (proj2 (mergedRules_proper mc ts (localCluster svc) uts rule Hrule)). }
  exact (generated_known (GetTrustDomain mc) (T.Rules pol) _ (generated_all mc (GetTrustDomain mc) (pc_enablePermissiveTrafficPolicyMode p) h _ Hh Hgen)).
Qed.

(** A sidecar enforces the TrafficTargets.  A request with an identity, to
    a host of the service, on a port that is not an ingress, gets a route
    exactly when some TrafficTarget has a source with that identity and refers
    to a match with a path that the request fits.  This spans the policy
    built by the catalog, the rules generated from it, their reordering and
    the routing script.  It holds when every TrafficTarget has a source.  One
    expression that does not compile closes the service to everyone. *)
Theorem sidecar_enforces_traffic_targets :
  newOnPort → (∀ t, t ∈ ts → tt_Sources t ≠ []) → identityOf rq ≠ "" →
  ∃ tm', inboundHTTP mc p (GetTrustDomain mc) trafficMatch pol tm = Ret tm' ∧
    (admitted (portHandler contains (reorderInMatch tm') remote rq) ↔ patternsOf mc ts ∧
     ∃ t s m, t ∈ ts ∧ s ∈ tt_Sources t ∧ m ∈ routesFromRules mc (tt_Rules t) (tt_Namespace t) ∧ requestFits m rq ∧
       identityOf rq = ToServiceIdentity (trafficTargetIdentityToSvcAccount s)).
Proof.
  intros Hn Hsrc Hid. destruct (inbound_decision Hn) as (tm' & L & Hr & Hg & Hd). exists tm'. split; [done|].
  rewrite Hd, (generated_admits (GetTrustDomain mc) _ _ rq Hg (mergedRules_principalled mc ts _ uts Hsrc) Hid).
  rewrite (generated_compile _ _ _ Hg), mergedRules_compile. apply and_iff_compat_l. split.
  - intros (rule & Hrule & Hfit & Hi).
    destruct (proj1 (mergedRules_identity mc ts (localCluster svc) uts _ _) (ex_intro _ rule (conj Hrule (conj eq_refl Hi))))
      as (t & s & ? & ? & ? & ?). exists t, s. eauto 10.
  - intros (t & s & m & ? & ? & ? & Hfit & E).
    destruct (proj2 (mergedRules_identity mc ts (localCluster svc) uts m (identityOf rq))) as (rule & ? & <- & ?); eauto 10.
Qed.

(** C29. A TrafficTarget without sources opens its routes.  If only
    TrafficTargets without sources refer to a match, the sidecar gives a
    route to every request that fits it and whose identity no TrafficTarget
    lists, a request without an identity included; unless an expression in the
    routes of the TrafficTargets is no regular expression, when the script
    throws. *)
Theorem sourceless_target_admits_everyone t m :
  newOnPort → t ∈ ts → m ∈ routesFromRules mc (tt_Rules t) (tt_Namespace t) → requestFits m rq →
  (∀ t' m', t' ∈ ts → m' ∈ routesFromRules mc (tt_Rules t') (tt_Namespace t') → newHTTPMatch m' = newHTTPMatch m → tt_Sources t' = []) →
  (∀ t' s, t' ∈ ts → s ∈ tt_Sources t' → identityOf rq ≠ ToServiceIdentity (trafficTargetIdentityToSvcAccount s)) →
  ∃ tm', inboundHTTP mc p (GetTrustDomain mc) trafficMatch pol tm = Ret tm' ∧
    (admitted (portHandler contains (reorderInMatch tm') remote rq) ↔ patternsOf mc ts).
Proof.
  intros Hn Ht Hm Hfit Honly Hid. destruct (inbound_decision Hn) as (tm' & L & Hr & Hg & Hd). exists tm'. split; [done|].
  rewrite Hd, (generated_sorted _ _ _ rq Hg), (generated_compile _ _ _ Hg), mergedRules_compile.
  split; [by intros [? _]|intros Hpat; split; [done|]].
  destruct (mergedRules_covers mc ts (localCluster svc) uts t m Ht Hm) as (rule & Hrule & Hk).
  pose proof (proj1 Hfit) as Hro. apply fits_newHTTPMatch in Hfit as [Hmeth Hmatch]; [|done].
  assert (newHTTPMatch m ∈ hrr_Match <$> L) as (r & Er & Hin)%list_elem_of_fmap.
  { apply (gen_match _ _ _ Hg). exists rule. unfold routed, ruleMatch. by rewrite Hk. }
  assert (hrr_AllowedServices r = []) as Hnone.
  { destruct (hrr_AllowedServices r) as [|id l] eqn:E; [done|exfalso].
    destruct (proj1 (gen_service _ _ _ Hg r id Hin)) as (x & Hx & _ & Hmx & Hi); [rewrite E; left|].
    destruct (proj1 (mergedRules_identity mc ts (localCluster svc) uts _ _) (ex_intro _ x (conj Hx (conj eq_refl Hi))))
      as (t' & s & Ht' & Hm' & Hs & _). rewrite (Honly t' _ Ht' Hm') in Hs by (by rewrite Er, <-Hmx). by apply elem_of_nil in Hs. }
  exists r. split; [done|]. split; [unfold allowedMethods; by rewrite <-Er|]. split; [by rewrite <-Er|]. right. split.
  - intros (Hne & x & Hx & Hi & _). apply elem_of_allowedIdentities in Hi as [Hi|[_ ?]]; [|done].
    apply (gen_service _ _ _ Hg x _ Hx) in Hi as (y & Hy & _ & _ & Hi).
    destruct (proj1 (mergedRules_identity mc ts (localCluster svc) uts _ _) (ex_intro _ y (conj Hy (conj eq_refl Hi))))
      as (t' & s & Ht' & _ & Hs & E). by apply (Hid t' s).
  - apply elem_of_allowedIdentities. by right.
Qed.

End enforcement.

(** ** Witnesses *)

#[local] Existing Instance gset_MapSet.
#[local] Existing Instance gset_MapSetSpec.

Definition demoOpenTarget : TrafficTarget :=
  mkTrafficTarget "shop" "open" (mkSubject "ServiceAccount" "cart" "shop") [] [mkTTRule "HTTPRouteGroup" "routes" ["all"]].

Definition demoPolicy (t : TrafficTarget) : T.InboundTrafficPolicy T.Rule :=
  match buildInboundHTTPPolicyFromTrafficTarget (demoCatalog false) demoCart [t] None with
  | Ret pol => pol
  | Panic => T.NewInboundTrafficPolicy "" [] None
  end.

Definition demoConf : PipyConf := mkPipyConf false None None None [] (mkPluginPolicies ∅ ∅) ∅.

Definition demoRequest (identity : string) : Request :=
  mkRequest "GET" "/items" {["host" := "cart.shop"; "serviceidentity" := identity]}.

Definition demoTrafficMatch : T.TrafficMatch := inboundTrafficMatch (demoCatalog false) demoCart None.

Lemma demo_newOnPort t identity :
  t = Smi.Smi.demoTarget ∨ t = demoOpenTarget →
  newOnPort (demoCatalog false) demoCart [t] None (demoPolicy t) demoTrafficMatch emptyInMatch (demoRequest identity).
Proof.
  intros [->| ->]; (split; [reflexivity|]); (split; [vm_compute; reflexivity|]); (split; [done|]); (split; [done|]);
    (split; [|done]); apply (bool_decide_eq_true_1 _); vm_compute; reflexivity.
Qed.

Definition demoRoute : T.HTTPRouteMatch := T.mkHTTPRouteMatch ".*" T.PathMatchRegex (Some ["*"]) None.

Lemma demo_route t : t = Smi.Smi.demoTarget ∨ t = demoOpenTarget →
  demoRoute ∈ routesFromRules (demoCatalog false) (tt_Rules t) (tt_Namespace t).
Proof.
  intros [->| ->]; assert (routesFromRules (demoCatalog false) [mkTTRule "HTTPRouteGroup" "routes" ["all"]] "shop" = [demoRoute])
    as E by (vm_compute; reflexivity); apply (list_elem_of_lookup_2 _ 0); exact (f_equal (lookup 0) E).
Qed.

Lemma demo_fits identity : @requestFits PipyPackFacts.PipyPackFacts.demoRegExp demoRoute (demoRequest identity).
Proof.
  split; [done|]. split; [|split; [reflexivity|intros k v; cbn; by rewrite lookup_empty]].
  unfold methodFits. rewrite decide_True by (right; left). left.
Qed.

Lemma demo_patterns ts : @patternsOf (demoCatalog false) ts PipyPackFacts.PipyPackFacts.demoRegExp.
Proof. intros t m _ _ _. by split; intros; eexists. Qed.

Lemma sidecar_enforces_traffic_targets_witness :
  ∃ tm', inboundHTTP (demoCatalog false) demoConf "cluster.local" demoTrafficMatch (demoPolicy Smi.Smi.demoTarget) emptyInMatch = Ret tm' ∧
    admitted (@portHandler PipyPackFacts.PipyPackFacts.demoRegExp (λ _ _, false)
      (@reorderInMatch CidrFacts.CidrFacts.insertion_SliceSort tm') "10.0.0.9" (demoRequest "web.shop")).
Proof.
  destruct (@sidecar_enforces_traffic_targets _ _ PipyPackFacts.PipyPackFacts.demoRegExp CidrFacts.CidrFacts.insertion_SliceSort
    (demoCatalog false) (λ _ _, false) demoConf demoCart [Smi.Smi.demoTarget] None (demoPolicy Smi.Smi.demoTarget)
    demoTrafficMatch emptyInMatch "10.0.0.9" (demoRequest "web.shop")) as (tm' & Hr & Hiff).
  - apply demo_newOnPort. by left.
  - by intros t ->%list_elem_of_singleton.
  - done.
  - exists tm'. split; [exact Hr|]. apply Hiff. split; [apply demo_patterns|]. exists Smi.Smi.demoTarget, (mkSubject "ServiceAccount" "web" "shop"), demoRoute.
    split; [by left|]. split; [by left|]. split; [by apply demo_route; left|]. split; [apply demo_fits|done].
Defined.

Lemma sourceless_target_admits_everyone_witness :
  ∃ tm', inboundHTTP (demoCatalog false) demoConf "cluster.local" demoTrafficMatch (demoPolicy demoOpenTarget) emptyInMatch = Ret tm' ∧
    admitted (@portHandler PipyPackFacts.PipyPackFacts.demoRegExp (λ _ _, false)
      (@reorderInMatch CidrFacts.CidrFacts.insertion_SliceSort tm') "10.0.0.9" (demoRequest "")).
Proof.
  destruct (@sourceless_target_admits_everyone _ _ PipyPackFacts.PipyPackFacts.demoRegExp CidrFacts.CidrFacts.insertion_SliceSort
    (demoCatalog false) (λ _ _, false) demoConf demoCart [demoOpenTarget] None (demoPolicy demoOpenTarget)
    demoTrafficMatch emptyInMatch "10.0.0.9" (demoRequest "") demoOpenTarget demoRoute) as (tm' & Hr & Hadm).
  - apply demo_newOnPort. by right.
  - by left.
  - apply demo_route. by right.
  - apply demo_fits.
  - by intros t' m' ->%list_elem_of_singleton.
  - intros t' s ->%list_elem_of_singleton Hs. by apply elem_of_nil in Hs.
  - exists tm'. split; [exact Hr|]. apply Hadm, demo_patterns.
Defined.

End PipyGenFacts.
