(* ===== verification/PipyFacts.v ===== *)
(** * Facts about hosts and weights of a sidecar's configuration

    Which rule set a host leads to, what rebalancing does to the weights, and
    when sorting the outbound matches panics. *)

From S2P Require Import Prelude Service Api TrafficPolicy Cidr Pipy PipyConf.
Import Service.Service Api.Api Cidr.Cidr Pipy.Pipy PipyConf.PipyConf.

Module PipyFacts.

(** ** The order of rule names *)

Lemma nameBefore_lt a b : nameBefore a b = true ↔ String.compare a b = Lt.
Proof. unfold nameBefore, String.ltb. by destruct (String.compare a b). Qed.

Lemma nameBefore_total a b : nameBefore a b = false → nameBefore b a = false → a = b.
Proof.
  rewrite <-!not_true_iff_false, !nameBefore_lt, (String.compare_antisym b a). destruct (String.compare a b) eqn:E; simpl; try done.
  intros _ _. by apply String.compare_eq_iff.
Qed.

Lemma nameBefore_trans a b c : nameBefore a b = true → nameBefore b c = true → nameBefore a c = true.
Proof.
  rewrite !nameBefore_lt. revert b c. induction a as [|x a IH]; intros [|y b] [|z c]; simpl; try done.
  unfold Ascii.compare. destruct (N.compare_spec (Ascii.N_of_ascii x) (Ascii.N_of_ascii y)) as [->|?|?]; try done.
  - destruct (N.compare_spec (Ascii.N_of_ascii y) (Ascii.N_of_ascii z)); try done. apply IH.
  - destruct (N.compare_spec (Ascii.N_of_ascii y) (Ascii.N_of_ascii z)) as [<-|?|?]; try done;
      intros _ _; by rewrite (proj2 (N.compare_lt_iff _ _)) by lia.
Qed.

(** Shorter first, then by bytes. *)
Definition nameLess (a b : string) : Prop :=
  (String.length a < String.length b)%nat ∨ String.length a = String.length b ∧ nameBefore a b = true.

#[export] Instance nameLess_trans : Transitive nameLess.
Proof.
  intros a b c. unfold nameLess. intros [?|[? ?]] [?|[? ?]]; [left; lia..|right]. split; [lia|]. by eapply nameBefore_trans.
Qed.

Lemma nameLess_total a b : ¬ nameLess a b → ¬ nameLess b a → a = b.
Proof.
  unfold nameLess. intros H1 H2. apply nameBefore_total; apply not_true_iff_false; intros ?.
  - apply H1. right. split; [lia|done].
  - apply H2. right. split; [lia|done].
Qed.

(** ** Hosts *)

Definition bindAll (l : list (string * HTTPRouteRuleRef)) : HTTPHostPort2Service :=
  foldl (λ m b, in_addHTTPHostPort2Service b.1 b.2 m) ∅ l.

Lemma addHost_other h h' r m : h ≠ h' → in_addHTTPHostPort2Service h r m !! h' = m !! h'.
Proof.
  intros ?. unfold in_addHTTPHostPort2Service. destruct (m !! h); [|by rewrite lookup_insert_ne].
  case_bool_decide; [by rewrite lookup_insert_ne|]. destruct (_ && _); [by rewrite lookup_insert_ne|done].
Qed.

(** The host keeps its rule set unless the new one comes before it. *)
Lemma addHost_self h r m : ∃ x, in_addHTTPHostPort2Service h r m !! h = Some x ∧
  (x = r ∧ (∀ pre, m !! h = Some pre → nameLess (ref_RuleName r) (ref_RuleName pre)) ∨
   m !! h = Some x ∧ ¬ nameLess (ref_RuleName r) (ref_RuleName x)).
Proof.
  unfold in_addHTTPHostPort2Service, nameLess. destruct (m !! h) as [pre|] eqn:E.
  2:{ exists r. rewrite lookup_insert_eq. split; [done|]. by left. }
  case_bool_decide as Hl.
  { exists r. rewrite lookup_insert_eq. split; [done|]. left. split; [done|]. intros ? [= ->]. by left. }
  destruct (bool_decide (String.length _ = _) && _) eqn:Eb.
  - apply andb_true_iff in Eb as [Hlen%bool_decide_eq_true ?]. exists r. rewrite lookup_insert_eq. split; [done|].
    left. split; [done|]. intros ? [= ->]. by right.
  - exists pre. split; [done|]. right. split; [done|]. intros [?|[? Hb]]; [done|].
    rewrite bool_decide_eq_true_2, Hb in Eb by done. done.
Qed.

Definition leastBinding (l : list (string * HTTPRouteRuleRef)) (m : HTTPHostPort2Service) : Prop := ∀ h,
  match m !! h with
  | None => ∀ r, (h, r) ∉ l
  | Some r => (h, r) ∈ l ∧ ∀ r', (h, r') ∈ l → ¬ nameLess (ref_RuleName r') (ref_RuleName r)
  end.

Lemma nameLess_irrefl a : ¬ nameLess a a.
Proof.
  unfold nameLess. rewrite nameBefore_lt. intros [?|[_ H]]; [lia|]. pose proof (String.compare_antisym a a) as Ha.
  by rewrite H in Ha.
Qed.

Lemma bindAll_least l : leastBinding l (bindAll l).
Proof.
  unfold bindAll. apply (foldl_inv leastBinding).
  { intros h. rewrite lookup_empty. intros r Hr. by apply elem_of_nil in Hr. }
  intros l1 [h r] l2 m _ IH h'. simpl. destruct (decide (h = h')) as [<-|Hne].
  - specialize (IH h). destruct (addHost_self h r m) as (x & -> & Hx). setoid_rewrite elem_of_app. setoid_rewrite list_elem_of_singleton.
    destruct Hx as [[-> Hless]|[E Hnot]].
    + split; [by right|]. intros r' [Hr'|[= ->]]; [|apply nameLess_irrefl]. destruct (m !! h) as [pre|]; [|by destruct (IH r')].
      intros Hlt. destruct IH as [_ IH]. apply (IH r' Hr'). etrans; [exact Hlt|by apply Hless].
    + rewrite E in IH. destruct IH as [? IH]. split; [by left|]. intros r' [Hr'|[= ->]]; [by apply IH|done].
  - rewrite addHost_other by done. specialize (IH h'). destruct (m !! h').
    + setoid_rewrite elem_of_app. setoid_rewrite list_elem_of_singleton. destruct IH as [? IH].
      split; [by left|]. intros r' [?|[= -> ->]]; [by apply IH|done].
    + setoid_rewrite elem_of_app. setoid_rewrite list_elem_of_singleton. intros r' [?|[= -> ->]]; [by apply (IH r')|done].
Qed.

(** The rule set of an inbound host does not depend on the order in which
    the services are generated: a host that was bound leads to one of the
    rule sets it was bound to, and no other has a shorter name or a name of
    the same length that comes before it. *)
Theorem host_binding_order_independent (l l' : list (string * HTTPRouteRuleRef)) h :
  l ≡ₚ l' →
  leastBinding l (bindAll l) ∧ (ref_RuleName <$> bindAll l !! h) = (ref_RuleName <$> bindAll l' !! h).
Proof.
  intros Hp. split; [apply bindAll_least|]. pose proof (bindAll_least l h) as H. pose proof (bindAll_least l' h) as H'.
  destruct (bindAll l !! h) as [r|], (bindAll l' !! h) as [r'|]; simpl; [|..|done].
  - destruct H as [Hr H], H' as [Hr' H']. f_equal. apply nameLess_total; [apply H'|apply H]; by rewrite Hp in *.
  - destruct H as [Hr _]. rewrite Hp in Hr. by destruct (H' r).
  - destruct H' as [Hr _]. rewrite <-Hp in Hr. by destruct (H r').
Qed.

Lemma host_binding_order_independent_witness :
  let b name := ("cart.shop", mkRuleRef name "") in
  leastBinding [b "cart-v1.shop"; b "cart.shop"] (bindAll [b "cart-v1.shop"; b "cart.shop"]) ∧
  (ref_RuleName <$> bindAll [b "cart-v1.shop"; b "cart.shop"] !! "cart.shop") =
  (ref_RuleName <$> bindAll [b "cart.shop"; b "cart-v1.shop"] !! "cart.shop").
Proof. intros b. apply host_binding_order_independent. apply Permutation_swap. Defined.

(** With a suffix two names of the same length that have it keep the order of
    the calls on the outbound side. *)
Lemma outbound_host_binding_order :
  let add name m := out_addHTTPHostPort2Service "cart" (mkRuleRef name "") ".shop" m in
  (ref_RuleName <$> add "a.shop" (add "b.shop" ∅) !! "cart") = Some "b.shop" ∧
  (ref_RuleName <$> add "b.shop" (add "a.shop" ∅) !! "cart") = Some "a.shop".
Proof. split; reflexivity. Qed.

(** ** Weights *)

Lemma rebalanceTargets_positive targets :
  targets ≠ ∅ → ∃ c w, rebalanceTargets targets !! c = Some w ∧ (0 < w)%Z.
Proof.
  intros Hne. unfold rebalanceTargets. cbv zeta. destruct (decide (map_Forall (λ _ weight, ¬ (0 < weight)%Z) targets)) as [Hf|Hf].
  - rewrite bool_decide_eq_true_2 by done. apply map_choose in Hne as (c & w & Hc).
    exists c, ClusterWeightAcceptAll. by rewrite lookup_fmap, Hc.
  - rewrite bool_decide_eq_false_2 by done. apply map_not_Forall in Hf as (c & w & Hc & Hw); [|solve_decision].
    exists c, w. split; [done|]. lia.
Qed.

Lemma hasLocal_spec endpoints : hasLocalEndpoints endpoints = true ↔ ∃ hp e, endpoints !! hp = Some e ∧ wze_Cluster e = "".
Proof.
  unfold hasLocalEndpoints. rewrite negb_true_iff, bool_decide_eq_false. split.
  - intros (hp & e & ? & Hn)%map_not_Forall; [|solve_decision]. exists hp, e. split; [done|]. by apply dec_stable.
  - intros (hp & e & He & Hc) Hf. by apply (Hf hp e He).
Qed.

(** An endpoint of another cluster that stands by for the local ones. *)
Definition standsBy (endpoints : gmap string WeightedZoneEndpoint) (e : WeightedZoneEndpoint) : Prop :=
  wze_Cluster e ≠ "" ∧ wze_LBType e = FailOverLbType ∧ ∃ hp x, endpoints !! hp = Some x ∧ wze_Cluster x = "".

(** One that came without a weight, of a load balancer type that rebalancing
    does not know. *)
Definition leftAtZero (e : WeightedZoneEndpoint) : Prop :=
  wze_Cluster e ≠ "" ∧ wze_LBType e ≠ FailOverLbType ∧ wze_LBType e ≠ ActiveActiveLbType ∧ wze_Weight e = 0%Z.

Lemma rebalanceEndpoint_zero endpoints e :
  wze_Weight (rebalanceEndpoint (hasLocalEndpoints endpoints) e) = 0%Z ↔ standsBy endpoints e ∨ leftAtZero e.
Proof.
  unfold standsBy, leftAtZero. rewrite <-hasLocal_spec. unfold rebalanceEndpoint. case_bool_decide as Hc.
  - case_bool_decide as Hf; [destruct (hasLocalEndpoints endpoints); simpl; naive_solver|].
    case_bool_decide as Ha; [case_bool_decide; simpl; naive_solver|naive_solver].
  - case_bool_decide; simpl; split; naive_solver.
Qed.

Section weights.
Context `{MR : MapRange} (env : WarmupEnv).

(** The weight an endpoint ends with: never above that of warm-up. *)
Definition endWeight (name hp : string) (endpoints : gmap string WeightedZoneEndpoint) (e : WeightedZoneEndpoint) : Z :=
  let w := wze_Weight (rebalanceEndpoint (hasLocalEndpoints endpoints) e) in
  match warming env name hp with Some (_, weight) => Z.min weight w | None => w end.

(** The endpoint is below the maximum of its policy. *)
Definition belowMax (name hp : string) : Prop :=
  ∃ tw weight maxWeight, warming env name hp = Some (tw, weight) ∧ tw_MaxWeight tw = Some maxWeight ∧ (weight < maxWeight)%Z.

(** A policy without a maximum applies to the endpoint. *)
Definition noMax (name hp : string) : Prop := ∃ tw weight, warming env name hp = Some (tw, weight) ∧ tw_MaxWeight tw = None.

Lemma warmUp_spec name hp b e : match warmUp env name hp b e with
  | Ret (b', e') =>
      e' = setWeight (match warming env name hp with Some (_, weight) => Z.min weight (wze_Weight e) | None => wze_Weight e end) e ∧
      (b' = true ↔ b = true ∨ belowMax name hp) ∧ (noMax name hp → b = true)
  | Panic => noMax name hp
  end.
Proof.
  unfold warmUp, belowMax, noMax. destruct (warming env name hp) as [[tw weight]|]; [|by destruct e; naive_solver].
  destruct b; simpl; [naive_solver|]. destruct (tw_MaxWeight tw) as [mx|] eqn:E; simpl; [|by exists tw, weight].
  split; [done|]. rewrite bool_decide_eq_true. naive_solver.
Qed.

Lemma rebalancedEndpoints_spec name b endpoints : match rebalancedEndpoints env name b endpoints with
  | Ret (b', out) =>
      (∀ hp, out !! hp = (λ e, setWeight (endWeight name hp endpoints e) (rebalanceEndpoint (hasLocalEndpoints endpoints) e)) <$> endpoints !! hp) ∧
      (b' = true ↔ b = true ∨ ∃ hp, is_Some (endpoints !! hp) ∧ belowMax name hp) ∧
      (b' = false → ∀ hp, is_Some (endpoints !! hp) → ¬ noMax name hp)
  | Panic => ∃ hp, is_Some (endpoints !! hp) ∧ noMax name hp
  end.
Proof.
  destruct (rebalancedEndpoints env name b endpoints) as [[b' out]|] eqn:E; unfold rebalancedEndpoints in E.
  - set (F := λ hp e, setWeight (endWeight name hp endpoints e) (rebalanceEndpoint (hasLocalEndpoints endpoints) e)).
    set (Inv := λ (seen : gmap string WeightedZoneEndpoint) (st : bool * gmap string WeightedZoneEndpoint),
      (∀ hp, st.2 !! hp = match seen !! hp with Some e => Some (F hp e) | None => endpoints !! hp end) ∧
      (st.1 = true ↔ b = true ∨ ∃ hp, is_Some (seen !! hp) ∧ belowMax name hp) ∧
      (st.1 = false → ∀ hp, is_Some (seen !! hp) → ¬ noMax name hp)).
    assert (Inv endpoints (b', out)) as (H1 & H2 & H3).
    2:{ split; [|done]. intros hp. specialize (H1 hp). simpl in H1. rewrite H1. by destruct (endpoints !! hp). }
    revert E. apply (gofold_map_range_inv Inv).
    { split; [|split]; simpl.
      - intros hp. by rewrite lookup_empty.
      - split; [auto|intros [?|(hp & [? Hs] & _)]; [done|by rewrite lookup_empty in Hs]].
      - intros _ hp [? Hs]. by rewrite lookup_empty in Hs. }
    intros seen k v [b1 out1] c' Hk Hv (IH1 & IH2 & IH3) ([b2 e2] & Hw & [= <-])%go_bind_Ret. unfold Inv. cbn [fst snd] in IH1, IH2, IH3 |- *.
    pose proof (warmUp_spec name k b1 (rebalanceEndpoint (hasLocalEndpoints endpoints) v)) as HW. rewrite Hw in HW.
    destruct HW as (-> & Hb & Hn). setoid_rewrite lookup_insert_is_Some'. split; [|split].
    + intros hp. destruct (decide (k = hp)) as [<-|?]; [by rewrite !lookup_insert_eq|by rewrite !lookup_insert_ne].
    + rewrite Hb, IH2. split; [intros [[?|(hp & ? & ?)]|?]; eauto 10|]. intros [?|(hp & [<-|?] & ?)]; eauto 10.
    + intros Hf hp [<-|Hs] Hno; [rewrite (proj2 Hb) in Hf; [done|left; by apply Hn]|].
      apply (IH3 (not_true_is_false _ (λ Ht, eq_true_false_abs _ (proj2 Hb (or_introl Ht)) Hf)) hp Hs Hno).
  - apply gofold_Panic in E as ([b1 out1] & [hp e] & He%elem_of_map_range & E). exists hp. split; [by eexists|].
    pose proof (warmUp_spec name hp b1 (rebalanceEndpoint (hasLocalEndpoints endpoints) e)) as HW.
    by destruct (warmUp _ _ _ _ _) as [[]|].
Qed.

(** An endpoint of the outbound side. *)
Definition endpointAt (otp : OutboundPolicy) (name hp : string) : Prop :=
  ∃ c, op_ClustersConfigs otp !! name = Some c ∧ is_Some (cc_Endpoints c !! hp).

Lemma rebalancedOutboundClusters_spec otp : match rebalancedOutboundClusters env otp with
  | Ret (b', otp') =>
      (∀ name c, op_ClustersConfigs otp !! name = Some c → ∃ c', op_ClustersConfigs otp' !! name = Some c' ∧
         ∀ hp, cc_Endpoints c' !! hp = (λ e, setWeight (endWeight name hp (cc_Endpoints c) e)
           (rebalanceEndpoint (hasLocalEndpoints (cc_Endpoints c)) e)) <$> cc_Endpoints c !! hp) ∧
      (b' = true ↔ ∃ name hp, endpointAt otp name hp ∧ belowMax name hp) ∧
      (b' = false → ∀ name hp, endpointAt otp name hp → ¬ noMax name hp)
  | Panic => ∃ name hp, endpointAt otp name hp ∧ noMax name hp
  end.
Proof.
  unfold rebalancedOutboundClusters. destruct (gofold _ _ _) as [[b' clusters]|] eqn:E; simpl.
  - set (Q := λ name c c', ∀ hp, cc_Endpoints c' !! hp = (λ e, setWeight (endWeight name hp (cc_Endpoints c) e)
      (rebalanceEndpoint (hasLocalEndpoints (cc_Endpoints c)) e)) <$> cc_Endpoints c !! hp).
    set (at_ := λ (seen : gmap string ClusterConfig) name hp, ∃ c, seen !! name = Some c ∧ is_Some (cc_Endpoints c !! hp)).
    set (Inv := λ (seen : gmap string ClusterConfig) (st : bool * gmap string ClusterConfig),
      (∀ name c, seen !! name = Some c → ∃ c', st.2 !! name = Some c' ∧ Q name c c') ∧
      (st.1 = true ↔ ∃ name hp, at_ seen name hp ∧ belowMax name hp) ∧
      (st.1 = false → ∀ name hp, at_ seen name hp → ¬ noMax name hp)).
    change (Inv (op_ClustersConfigs otp) (b', clusters)). revert E. apply (gofold_map_range_inv Inv).
    { split; [intros ??; by rewrite lookup_empty|]. split; simpl.
      - split; [done|]. intros (? & ? & (? & Hs & _) & _). by rewrite lookup_empty in Hs.
      - intros _ ?? (? & Hs & _). by rewrite lookup_empty in Hs. }
    intros seen k v [b1 out1] c' Hk Hv (IH1 & IH2 & IH3) ([b2 es] & Hw & [= <-])%go_bind_Ret. unfold Inv. cbn [fst snd] in IH1, IH2, IH3 |- *.
    pose proof (rebalancedEndpoints_spec k b1 (cc_Endpoints v)) as HW. rewrite Hw in HW. destruct HW as (He & Hb & Hn).
    assert (Hat : ∀ name hp, at_ (<[k := v]> seen) name hp ↔ name = k ∧ is_Some (cc_Endpoints v !! hp) ∨ at_ seen name hp).
    { intros name hp. unfold at_. setoid_rewrite lookup_insert_Some. split; [naive_solver|].
      intros [[-> ?]|(c & ? & ?)]; [by eauto|]. exists c. split; [right; split; [|done]; congruence|done]. }
    split; [|split].
    + intros name c. rewrite lookup_insert_Some. intros [[<- <-]|[? Hs]].
      * eexists. rewrite lookup_insert_eq. by split.
      * rewrite lookup_insert_ne by done. by apply IH1.
    + rewrite Hb, IH2. setoid_rewrite Hat. naive_solver.
    + intros Hf name hp. rewrite Hat. intros [[-> ?]|?]; [by apply Hn|]. apply IH3; [|done].
      destruct b1; [|done]. rewrite <-Hf. symmetry. apply Hb. by left.
  - apply gofold_Panic in E as ([b1 out1] & [name c] & Hc%elem_of_map_range & E).
    pose proof (rebalancedEndpoints_spec name b1 (cc_Endpoints c)) as HW.
    destruct (rebalancedEndpoints _ _ _ _) as [[]|]; [done|]. destruct HW as (hp & ? & ?). exists name, hp. split; [by exists c|done].
Qed.

(** Warm-up gives the endpoint weight zero. *)
Definition coldStart (name hp : string) : Prop := ∃ tw, warming env name hp = Some (tw, 0%Z).

Lemma endWeight_zero name hp endpoints e : (0 ≤ wze_Weight e)%Z →
  endWeight name hp endpoints e = 0%Z ↔ standsBy endpoints e ∨ leftAtZero e ∨ coldStart name hp.
Proof.
  intros He. unfold endWeight, coldStart. cbv zeta. pose proof (rebalanceEndpoint_zero endpoints e) as Hz.
  assert (0 ≤ wze_Weight (rebalanceEndpoint (hasLocalEndpoints endpoints) e))%Z.
  { unfold rebalanceEndpoint. repeat case_bool_decide; simpl; try done. by destruct (hasLocalEndpoints endpoints). }
  destruct (warming env name hp) as [[tw weight]|] eqn:E; [|naive_solver].
  assert (0 ≤ weight)%Z.
  { unfold warming in E. repeat (match type of E with (?x ≫= _) = _ => destruct x; simpl in E; [|done] end). simplify_eq. lia. }
  assert (Z.min weight (wze_Weight (rebalanceEndpoint (hasLocalEndpoints endpoints) e)) = 0 ↔
    wze_Weight (rebalanceEndpoint (hasLocalEndpoints endpoints) e) = 0 ∨ weight = 0)%Z as -> by lia. naive_solver.
Qed.

Lemma rebalanced_traffic name c c' :
  (∀ hp e, cc_Endpoints c !! hp = Some e → 0 ≤ wze_Weight e)%Z →
  (∀ hp, cc_Endpoints c' !! hp = (λ e, setWeight (endWeight name hp (cc_Endpoints c) e)
     (rebalanceEndpoint (hasLocalEndpoints (cc_Endpoints c)) e)) <$> cc_Endpoints c !! hp) →
  (∀ hp e, cc_Endpoints c !! hp = Some e → ∃ e', cc_Endpoints c' !! hp = Some e' ∧
     (wze_Weight e' = 0%Z ↔ standsBy (cc_Endpoints c) e ∨ leftAtZero e ∨ coldStart name hp)) ∧
  (cc_Endpoints c ≠ ∅ → (∃ hp e', cc_Endpoints c' !! hp = Some e' ∧ wze_Weight e' ≠ 0%Z) ∨
     ∃ hp e, cc_Endpoints c !! hp = Some e ∧ (leftAtZero e ∨ coldStart name hp)).
Proof.
  intros Hpos Hc'. assert (Hz : ∀ hp e, cc_Endpoints c !! hp = Some e → ∃ e', cc_Endpoints c' !! hp = Some e' ∧
     (wze_Weight e' = 0%Z ↔ standsBy (cc_Endpoints c) e ∨ leftAtZero e ∨ coldStart name hp)).
  { intros hp e He. rewrite Hc', He. simpl. eexists. split; [done|]. simpl. apply endWeight_zero. by eapply Hpos. }
  split; [done|]. intros Hne.
  assert (∃ hp e, cc_Endpoints c !! hp = Some e ∧ ¬ standsBy (cc_Endpoints c) e) as (hp & e & He & Hs).
  { destruct (hasLocalEndpoints (cc_Endpoints c)) eqn:El.
    - apply hasLocal_spec in El as (hp & e & He & Hl). exists hp, e. split; [done|]. by intros [? _].
    - apply map_choose in Hne as (hp & e & He). exists hp, e. split; [done|]. intros (_ & _ & Hl).
      apply hasLocal_spec in Hl. congruence. }
  destruct (Hz hp e He) as (e' & He' & Hiff). destruct (decide (wze_Weight e' = 0%Z)) as [E|E].
  - right. exists hp, e. split; [done|]. naive_solver.
  - left. by exists hp, e'.
Qed.

(** C36. What rebalancing does to the weights.  It panics only when a warm-up
    policy without a maximum applies to an endpoint, and does so unless another
    endpoint is below the maximum of its policy.  Otherwise an endpoint ends
    with weight zero exactly when it is a fail-over endpoint of another cluster
    and a local endpoint exists, or came without a weight and with a load
    balancer type that is neither fail-over nor active-active, or warm-up gives
    it weight zero.  So a cluster with endpoints keeps one with a weight unless
    it has an endpoint of the last two kinds; the targets of a route rule
    always keep one. *)
Theorem rebalancing_keeps_traffic otp targets :
  (∀ name c hp e, op_ClustersConfigs otp !! name = Some c → cc_Endpoints c !! hp = Some e → 0 ≤ wze_Weight e)%Z →
  match rebalancedOutboundClusters env otp with
  | Panic => ∃ name hp, endpointAt otp name hp ∧ noMax name hp
  | Ret (warmUpping, otp') =>
      (∀ name c, op_ClustersConfigs otp !! name = Some c → ∃ c', op_ClustersConfigs otp' !! name = Some c' ∧
         (∀ hp e, cc_Endpoints c !! hp = Some e → ∃ e', cc_Endpoints c' !! hp = Some e' ∧
            (wze_Weight e' = 0%Z ↔ standsBy (cc_Endpoints c) e ∨ leftAtZero e ∨ coldStart name hp)) ∧
         (cc_Endpoints c ≠ ∅ → (∃ hp e', cc_Endpoints c' !! hp = Some e' ∧ wze_Weight e' ≠ 0%Z) ∨
            ∃ hp e, cc_Endpoints c !! hp = Some e ∧ (leftAtZero e ∨ coldStart name hp))) ∧
      (warmUpping = true ↔ ∃ name hp, endpointAt otp name hp ∧ belowMax name hp) ∧
      (∀ name hp, endpointAt otp name hp → noMax name hp → ∃ name' hp', endpointAt otp name' hp' ∧ belowMax name' hp')
  end ∧
  (targets ≠ ∅ → ∃ cl w, rebalanceTargets targets !! cl = Some w ∧ (0 < w)%Z).
Proof.
  intros Hpos. split; [|apply rebalanceTargets_positive]. pose proof (rebalancedOutboundClusters_spec otp) as HS.
  destruct (rebalancedOutboundClusters env otp) as [[b otp']|]; [|done]. destruct HS as (H1 & H2 & H3). split; [|split; [done|]].
  - intros name c Hc. destruct (H1 name c Hc) as (c' & Hc' & He). exists c'. split; [done|].
    apply rebalanced_traffic; [intros hp e; by apply (Hpos name c)|done].
  - intros name hp Hat Hno. apply H2. destruct b; [done|]. by destruct (H3 eq_refl name hp Hat).
Qed.

End weights.

(** A local endpoint that started a second ago, with a policy of the
    namespace that sets only the minimum, and a fail-over endpoint. *)
Definition demoEndpoints : gmap string WeightedZoneEndpoint :=
  {["10.0.0.1:80" := mkZoneEndpoint 0 "" "" "" ""; "10.9.0.1:80" := mkZoneEndpoint 50 "east" "FailOver" "" ""]}.

Definition demoOutbound : OutboundPolicy :=
  mkOutbound ∅ ∅ {["shop/cart|80" := mkClusterConfig demoEndpoints None None None]}.

Definition demoWarmup (maxWeight : option Z) : WarmupEnv :=
  mkWarmupEnv (λ _, Some (mkWarmup true (90 * 10 ^ 9)%Z (Some 5%Z) maxWeight None)) [(["10.0.0.1"], 100%Z)] (λ _ _, 101%Z) (λ _ _ _, 7%N).

Lemma demo_weights name c hp e :
  op_ClustersConfigs demoOutbound !! name = Some c → cc_Endpoints c !! hp = Some e → (0 ≤ wze_Weight e)%Z.
Proof.
  cbn. intros [_ <-]%lookup_singleton_Some. cbn. unfold demoEndpoints. rewrite lookup_insert_Some.
  by intros [[_ <-]|[_ [_ <-]%lookup_singleton_Some]].
Qed.

Lemma demo_warmed : match @rebalancedOutboundClusters trie_range (demoWarmup (Some 100%Z)) demoOutbound with
  | Ret (warmUpping, _) => warmUpping | Panic => false end = true.
Proof. vm_compute. reflexivity. Qed.

Lemma demo_unbounded : match @rebalancedOutboundClusters trie_range (demoWarmup None) demoOutbound with
  | Ret _ => false | Panic => true end = true.
Proof. vm_compute. reflexivity. Qed.

Lemma demo_notCold : ¬ coldStart (demoWarmup (Some 100%Z)) "shop/cart|80" "10.0.0.1:80".
Proof.
  intros [tw Hw]. assert (snd <$> warming (demoWarmup (Some 100%Z)) "shop/cart|80" "10.0.0.1:80" = Some 7%Z) as E
    by (vm_compute; reflexivity). by rewrite Hw in E.
Qed.

Lemma rebalancing_keeps_traffic_witness :
  (∃ otp', @rebalancedOutboundClusters trie_range (demoWarmup (Some 100%Z)) demoOutbound = Ret (true, otp') ∧
    ∃ c' e', op_ClustersConfigs otp' !! "shop/cart|80" = Some c' ∧ cc_Endpoints c' !! "10.0.0.1:80" = Some e' ∧ wze_Weight e' ≠ 0%Z) ∧
  ∃ name hp, endpointAt demoOutbound name hp ∧ noMax (demoWarmup None) name hp.
Proof.
  split.
  - destruct (@rebalancing_keeps_traffic trie_range (demoWarmup (Some 100%Z)) demoOutbound ∅ demo_weights) as [H _].
    pose proof demo_warmed as Hw.
    destruct (@rebalancedOutboundClusters trie_range (demoWarmup (Some 100%Z)) demoOutbound) as [[b otp']|]; [|discriminate Hw].
    subst b. exists otp'. split; [done|]. destruct H as (H & _ & _). destruct (H "shop/cart|80" _ eq_refl) as (c' & Hc' & Hz & _).
    destruct (Hz "10.0.0.1:80" (mkZoneEndpoint 0 "" "" "" "") eq_refl) as (e' & He' & Hiff).
    exists c', e'. split; [exact Hc'|]. split; [exact He'|]. rewrite Hiff.
    intros [(? & _)|[(? & _)|Hc]]; [done|done|by apply demo_notCold].
  - destruct (@rebalancing_keeps_traffic trie_range (demoWarmup None) demoOutbound ∅ demo_weights) as [H _].
    pose proof demo_unbounded as Hw.
    destruct (@rebalancedOutboundClusters trie_range (demoWarmup None) demoOutbound) as [p|]; [discriminate Hw|exact H].
Defined.

(** ** The order of outbound matches *)

(** Sorting rearranges the matches of a port if all destinations are blocks. *)
Lemma sortMatches_perm `{SliceSort} `{MapRange} (named : gmap string OutboundTrafficMatch) names :
  (∀ name, name ∈ names → ∃ m, named !! name = Some m ∧ is_Some (destinationCidrs m)) →
  ∃ names', sortMatches named names = Ret names' ∧ names' ≡ₚ names.
Proof.
  intros Hall. unfold sortMatches. case_bool_decide; [by eexists|].
  destruct (gofold_run (λ l keyed, keyed.*1 = l ∧ Forall (λ x : string * option (list CIDR), is_Some x.2) keyed)
    (λ keyed name, m ← deref (named !! name); Ret (keyed ++ [(name, destinationCidrs m)])) [] names)
    as (keyed & -> & Hkeys & Hsome); [done|..].
  - intros l1 x l2 c -> [<- Hc]. destruct (Hall x) as (m & Hm & Hp); [apply elem_of_app; right; apply list_elem_of_here|]. rewrite Hm. simpl. eexists. split; [done|].
    rewrite fmap_app. split; [done|]. rewrite Forall_app. by repeat constructor.
  - simpl. replace (existsb _ keyed) with false; simpl.
    + eexists. split; [done|]. by rewrite sort_slice_perm, Hkeys.
    + symmetry. clear Hkeys. induction Hsome as [|[? o] l [x Hx] _ IH]; [done|]. simpl in Hx |- *. by subst o.
Qed.

Lemma destinationCidrs_single `{SliceSort} `{MapRange} r spec port protocol hosts rules tcp :
  destinationCidrs (mkOutMatch {[r := spec]} port protocol hosts rules tcp) =
  (λ c, DescSortCIDRs [c]) <$> Cidr.Cidr.ParseCIDR r.
Proof.
  unfold destinationCidrs. simpl.
  assert (map_range ({[r := spec]} : gmap string (option DestinationSecuritySpec)) = [(r, spec)]) as ->.
  { apply Permutation_singleton_r. by rewrite map_range_perm, map_to_list_singleton. }
  simpl. by destruct (Cidr.Cidr.ParseCIDR r).
Qed.

(** One destination that is not a block panics, if another match of the port
    has destinations. *)
Lemma bad_destination_panics `{SliceSort} `{MapRange} :
  let to r := mkOutMatch {[r := None]} 80 "http" ∅ ∅ None in
  sortMatches {["a" := to "10.0.0.1"; "b" := to "10.0.0.2/32"]} ["a"; "b"] = Panic.
Proof.
  cbv zeta. set (named := <["a" := _]> _).
  assert (named !! "a" = Some (mkOutMatch {["10.0.0.1" := None]} 80 "http" ∅ ∅ None)) as Ha by done.
  assert (named !! "b" = Some (mkOutMatch {["10.0.0.2/32" := None]} 80 "http" ∅ ∅ None)) as Hb by done.
  clearbody named. unfold sortMatches. rewrite bool_decide_eq_false_2 by (simpl; lia).
  unfold gofold. rewrite Ha, Hb. cbn [deref mbind go_bind]. rewrite !destinationCidrs_single.
  assert (is_Some (Cidr.Cidr.ParseCIDR "10.0.0.2/32")) as [c ->] by (by eexists; vm_compute). simpl.
  destruct (DescSortCIDRs [c]) eqn:E; [|done].
  apply (f_equal length) in E. unfold DescSortCIDRs in E. by rewrite sort_slice_perm in E.
Qed.

End PipyFacts.
