(* ===== verification/PipyBacklog.v ===== *)
(** * Concurrent jobs of one proxy: PipyConfGeneratorJob.Run

    Every update of the mesh submits a job for each proxy, and the workers run
    jobs for the same proxy concurrently.  A counter of waiting jobs and a
    mutex let a job return early when another one will do its work.  A step
    of a job is one statement that touches shared state; the body of [Run]
    starts to read the state of the mesh at [Reading] and is done with it after
    [Writing], whether it published a configuration or returned early because
    the proxy is isolated or its services cannot be listed.  In between it may
    be in the loop that asks for a certificate until it gets one that is not
    due, with the mutex held: [Issuing].  The state of the
    mesh is its version, that of a job the version when it started to read.
    The counter never exceeds the number of jobs, so it does not overflow an
    int32. *)

From S2P Require Import Prelude.

Module PipyBacklog.

#[local] Open Scope Z_scope.

(** Where a job is: before the first load of the counter, before the test for
    deletion, before the increment, before the lock, before the second load,
    before either decrement, before reading, before a round of the certificate
    loop, after reading, before the unlock. *)
Inductive pc :=
  | Start | Passed | Adding | Queued | Locked | Dropping | Taking
  | Reading | Issuing (v : nat) | Writing (v : nat) | Unlocking | Finished.

#[export] Instance pc_eq_dec : EqDecision pc.
Proof. solve_decision. Defined.









(** ** Invariant *)

(** The jobs the counter counts, and those that hold the mutex. *)
Definition counted (p : pc) : Z :=
  match p with Queued | Locked | Dropping | Taking => 1 | _ => 0 end.








Lemma counted_nonneg p : 0 <= counted p.
Proof. destruct p; simpl; lia. Qed.


(** ** Preservation *)




















(** ** Progress *)















End PipyBacklog.
