(* ===== verification/PipyPlugins.v ===== *)
(** * Plugins of a sidecar: pkg/sidecar/v1/providers/pipy/repo/plugin.go

    Which plugins are mounted on a sidecar's chains, with which configuration.
    The parsing of label selectors is k8s.io/apimachinery and an argument:
    [AsSelector] is nil when a selector is invalid.  A plugin's mount points
    are one map that the services share by pointer (see PipyConf). *)

From S2P Require Import Prelude Service Api Cidr Catalog Pipy PipyConf.
Import Service.Service Api.Api Cidr.Cidr Catalog.Catalog Pipy.Pipy PipyConf.PipyConf.

Module PipyPlugins.

#[local] Open Scope Z_scope.

(** ** Data (trafficpolicy/plugin_types.go, apis/plugin/v1alpha1) *)

Record ChainPluginSpec := mkChainPlugin { cps_Name : string; cps_Plugins : list string }.

Section plugins.
Context {LabelSelector : Type} (AsSelector : LabelSelector → option (gmap string string → bool)).

Record PluginChain := mkChain {
  ch_Chains : list ChainPluginSpec;
  ch_PodSelector : option LabelSelector;
  ch_NamespaceSelector : option LabelSelector }.

Record ObjectReference := mkObjectRef { or_Kind : string; or_Namespace : string; or_Name : string }.

Record PluginConfig := mkPluginConfig {
  pcf_Plugin : string; pcf_DestinationRefs : list ObjectReference; pcf_Config : string }.

(** ** Chains *)

(** A selector that is not there selects; an invalid one ends the function.
    The labels of a namespace that was not found are read through nil. *)
Definition selected (sel : option LabelSelector) (labels : go (gmap string string)) : go (option bool) :=
  match sel with
  | None => Ret (Some true)
  | Some s => match AsSelector s with
              | None => Ret None
              | Some matches => l ← labels; Ret (Some (matches l))
              end
  end.

Definition matchPluginChain (pluginChain : PluginChain) (ns : option (gmap string string))
    (labelMap : gmap string string) : go bool :=
  matchedNamespace ← selected (ch_NamespaceSelector pluginChain) (deref ns);
  match matchedNamespace with
  | None => Ret false
  | Some n =>
      matchedPod ← selected (ch_PodSelector pluginChain) (Ret labelMap);
      Ret (match matchedPod with None => false | Some p => n && p end)
  end.

Context {MS : MapSet}.

(** What the walk builds: mount points by plugin, plugins by mount point, and
    whether a retry was requested. *)
Record Mounted := mkMounted {
  mtd_points : gmap string Plugins; mtd_plugins : gmap string (mset string); mtd_retry : bool }.

Definition mountPlugin (pluginSet : gset string) (chain : string) (st : Mounted) (pluginName : string) : Mounted :=
  if negb (bool_decide (pluginName ∈ pluginSet)) then mkMounted (mtd_points st) (mtd_plugins st) true
  else
    let mountPointSet := default ∅ (mtd_points st !! pluginName) in
    let mountPointSet := match mountPointSet !! chain with
                         | Some _ => mountPointSet
                         | None => <[chain := None]> mountPointSet
                         end in
    let mountedPluginSet := default NewSet (mtd_plugins st !! chain) in
    mkMounted (<[pluginName := mountPointSet]> (mtd_points st))
      (<[chain := if Contains pluginName mountedPluginSet then mountedPluginSet
                  else (Add pluginName mountedPluginSet).1]> (mtd_plugins st)) (mtd_retry st).

Definition walkPluginChain (pluginChains : list PluginChain) (ns : option (gmap string string))
    (labelMap : gmap string string) (pluginSet : gset string) : go Mounted :=
  gofold (λ st pluginChain,
    matched ← matchPluginChain pluginChain ns labelMap;
    Ret (if negb matched then st
         else foldl (λ st chain, foldl (mountPlugin pluginSet (cps_Name chain)) st (cps_Plugins chain))
                st (ch_Chains pluginChain)))
    (mkMounted ∅ ∅ false) pluginChains.

(** ** Configurations *)

(** One PluginConfig: its configuration goes to every mount point of the
    plugin, and its services refer to the plugin. *)
Definition configStep (p : PluginPolicies) (pluginConfig : PluginConfig) : PluginPolicies :=
  match pp_mounts p !! pcf_Plugin pluginConfig with
  | None => p
  | Some mountPoints =>
      mkPluginPolicies
        (<[pcf_Plugin pluginConfig := (λ _, Some (pcf_Config pluginConfig)) <$> mountPoints]> (pp_mounts p))
        (foldl (λ services ref,
           if bool_decide (or_Kind ref = "Service") then
             let meshSvc := ms_String (mkMeshService (or_Namespace ref) (or_Name ref) 0 0 "" "" "" "") in
             <[meshSvc := {[pcf_Plugin pluginConfig]} ∪ default ∅ (services !! meshSvc)]> services
           else services) (pp_services p) (pcf_DestinationRefs pluginConfig))
  end.

Definition walkPluginConfig (pluginConfigs : list PluginConfig) (plugin2MountPoint2Config : gmap string Plugins)
    : PluginPolicies :=
  foldl configStep (mkPluginPolicies plugin2MountPoint2Config ∅) pluginConfigs.

(** ** The chains of a sidecar *)

Definition getPluginURI (name : string) : string := "plugins/" +:+ name +:+ ".js".

(** [a > b] on float32: NaN compares as false, both zeros are equal. *)
Definition isNaN32 (x : float_bits) : bool := bool_decide (0x7F800000 < x `mod` 2 ^ 31).
Definition float32_key (x : float_bits) : Z := if bool_decide (x < 2 ^ 31) then x else 2 ^ 31 - x.
Definition float32_gt (a b : float_bits) : bool :=
  negb (isNaN32 a) && negb (isNaN32 b) && bool_decide (float32_key b < float32_key a).

Definition pluginLess (a b : PluginPolicy) : bool := float32_gt (pp_Priority a) (pp_Priority b).

Definition pluginURI (p : PluginPolicy) : string :=
  if pp_BuildIn p then pp_Name p +:+ ".js" else getPluginURI (pp_Name p).

(** The mounted plugins after the built-in ones of their mount point, then
    every chain by descending priority. *)
Definition setSidecarChain `{SliceSort} (globalChains : go (gmap string (list PluginPolicy)))
    (pluginPri : gmap string float_bits) (mountPoint2Plugins : gmap string (mset string))
    : go (gmap string (list string)) :=
  pluginChains ← globalChains;
  let mounted (plugins : mset string) : list PluginPolicy :=
    omap (λ name, (λ pri, mkPluginPolicy name pri "" false) <$> pluginPri !! name) (ToSlice plugins) in
  let pluginChains :=
    if bool_decide (size pluginPri = 0%nat) then pluginChains
    else merge (λ items plugins, match items, plugins with
                | None, None => None
                | _, None => items
                | _, Some s => Some (default [] items ++ mounted s)
                end) pluginChains mountPoint2Plugins in
  Ret (omap (λ items, match items with [] => None | _ => Some (map pluginURI (sort_slice pluginLess items)) end)
         pluginChains).

(** The names and priorities [updatePlugins] returns. *)
Definition pluginNames (plugins : list PluginPolicy) : gset string := list_to_set (map pp_Name plugins).
Definition pluginPriorities (plugins : list PluginPolicy) : gmap string float_bits :=
  foldl (λ m p, <[pp_Name p := pp_Priority p]> m) ∅ plugins.

(** The function of the job: [workload] is the namespace and the labels of
    the proxy's pod or virtual machine, nil when it is not found. *)
Definition plugin `{SliceSort} (enabled : bool) (globalChains : go (gmap string (list PluginPolicy)))
    (plugins : list PluginPolicy) (pluginChains : list PluginChain) (pluginConfigs : list PluginConfig)
    (GetNamespace : string → option (gmap string string)) (workload : option (string * gmap string string))
    : go (PluginPolicies * gmap string (list string) * bool) :=
  let unconfigured :=
    chains ← setSidecarChain globalChains ∅ ∅; Ret (mkPluginPolicies ∅ ∅, chains, false) in
  if negb enabled || bool_decide (length pluginChains = 0%nat) then unconfigured
  else match workload with
  | None => unconfigured
  | Some (namespace, labelMap) =>
      mounted ← walkPluginChain pluginChains (GetNamespace namespace) labelMap (pluginNames plugins);
      chains ← setSidecarChain globalChains (pluginPriorities plugins) (mtd_plugins mounted);
      Ret (walkPluginConfig pluginConfigs (mtd_points mounted), chains, mtd_retry mounted)
  end.

End plugins.

End PipyPlugins.
