(* ===== verification/PipyPluginsFacts.v ===== *)
(** * Facts about the plugins of a sidecar

    Which plugins a match gets and with which configuration; the order of a
    chain. *)

From S2P Require Import Prelude Service Api Cidr CidrFacts Catalog Pipy PipyConf PipyPlugins.
Import Service.Service Api.Api Cidr.Cidr CidrFacts.CidrFacts Catalog.Catalog Pipy.Pipy PipyConf.PipyConf PipyPlugins.PipyPlugins.

Module PipyPluginsFacts.

(** ** Configurations *)

(** The configuration of a plugin: that of its last PluginConfig. *)
Definition lastConfig (plugin : string) (configs : list PluginConfig) : option string :=
  pcf_Config <$> last (filter (λ c, pcf_Plugin c = plugin) configs).

Definition configure (c : option string) (points : Plugins) : Plugins :=
  match c with Some config => (λ _, Some config) <$> points | None => points end.

Lemma configure_again c c' points : configure (Some c) (configure c' points) = configure (Some c) points.
Proof. destruct c' as [c'|]; simpl; [|done]. by rewrite <-map_fmap_compose. Qed.

Lemma lastConfig_snoc plugin configs c :
  lastConfig plugin (configs ++ [c]) = if decide (pcf_Plugin c = plugin) then Some (pcf_Config c) else lastConfig plugin configs.
Proof.
  unfold lastConfig. rewrite filter_app. case_decide as Hd.
  - rewrite filter_cons_True, filter_nil, last_snoc by done. done.
  - by rewrite filter_cons_False, filter_nil, app_nil_r by done.
Qed.

Lemma walkPluginConfig_mounts configs mounts plugin :
  pp_mounts (walkPluginConfig configs mounts) !! plugin = configure (lastConfig plugin configs) <$> mounts !! plugin.
Proof.
  unfold walkPluginConfig. revert plugin.
  apply (foldl_inv (λ l p, ∀ plugin, pp_mounts p !! plugin = configure (lastConfig plugin l) <$> mounts !! plugin)).
  { intros plugin. simpl. by destruct (mounts !! plugin). }
  intros l1 c l2 p _ IH plugin. rewrite lastConfig_snoc. unfold configStep.
  pose proof (IH (pcf_Plugin c)) as Hc. destruct (pp_mounts p !! pcf_Plugin c) as [points|] eqn:E; simpl.
  - destruct (decide (pcf_Plugin c = plugin)) as [<-|Hne].
    + rewrite lookup_insert_eq. destruct (mounts !! pcf_Plugin c) as [pts|]; [|done]. injection Hc as ->. simpl. f_equal.
      apply (configure_again (pcf_Config c) (lastConfig (pcf_Plugin c) l1) pts).
    + by rewrite lookup_insert_ne.
  - rewrite IH. case_decide as Hd; [|done]. subst. by destruct (mounts !! pcf_Plugin c).
Qed.

(** A PluginConfig for the plugin refers to the service. *)
Definition refersTo (configs : list PluginConfig) (plugin service : string) : Prop :=
  ∃ c ref, c ∈ configs ∧ pcf_Plugin c = plugin ∧ ref ∈ pcf_DestinationRefs c ∧ or_Kind ref = "Service" ∧
    service = or_Namespace ref +:+ "/" +:+ or_Name ref.

Lemma refs_services refs plugin (services : gmap string (gset string)) service x :
  x ∈ default ∅ (foldl (λ services ref,
    if bool_decide (or_Kind ref = "Service") then
      let meshSvc := ms_String (mkMeshService (or_Namespace ref) (or_Name ref) 0 0 "" "" "" "") in
      <[meshSvc := {[plugin]} ∪ default ∅ (services !! meshSvc)]> services
    else services) services refs !! service) ↔
  x ∈ default ∅ (services !! service) ∨
  x = plugin ∧ ∃ ref, ref ∈ refs ∧ or_Kind ref = "Service" ∧ service = or_Namespace ref +:+ "/" +:+ or_Name ref.
Proof.
  apply (foldl_inv (λ refs services', x ∈ default ∅ (services' !! service) ↔ x ∈ default ∅ (services !! service) ∨
    x = plugin ∧ ∃ ref, ref ∈ refs ∧ or_Kind ref = "Service" ∧ service = or_Namespace ref +:+ "/" +:+ or_Name ref)); [set_solver|].
  intros l1 ref l2 svcs _ IH. setoid_rewrite elem_of_app. setoid_rewrite list_elem_of_singleton.
  case_bool_decide as Hk; [|rewrite IH; split; [intros [?|(? & r & ? & ?)]; [by left|by right; eauto]|];
    intros [?|(? & r & [?| ->] & ? & ?)]; [by left|by right; eauto|done]].
  cbv zeta. unfold ms_String. simpl.
  destruct (decide (or_Namespace ref +:+ "/" +:+ or_Name ref = service)) as [<-|Hne].
  - rewrite lookup_insert_eq. simpl. rewrite elem_of_union, elem_of_singleton, IH. split.
    + intros [->|[?|(? & r & ? & ?)]]; [right|by left|right]; eauto 10.
    + intros [?|(-> & r & [?| ->] & ? & ?)]; eauto 10.
  - rewrite lookup_insert_ne by done. rewrite IH. split; [intros [?|(? & r & ? & ?)]; [by left|by right; eauto]|].
    intros [?|(? & r & [?| ->] & ? & ?)]; [by left|by right; eauto|done].
Qed.

Lemma walkPluginConfig_services configs mounts plugin service :
  is_Some (mounts !! plugin) →
  plugin ∈ default ∅ (pp_services (walkPluginConfig configs mounts) !! service) ↔ refersTo configs plugin service.
Proof.
  intros Hm. unfold walkPluginConfig, refersTo.
  apply (foldl_inv (λ l p, (is_Some (pp_mounts p !! plugin)) ∧ (plugin ∈ default ∅ (pp_services p !! service) ↔ ∃ c ref,
    c ∈ l ∧ pcf_Plugin c = plugin ∧ ref ∈ pcf_DestinationRefs c ∧ or_Kind ref = "Service" ∧
    service = or_Namespace ref +:+ "/" +:+ or_Name ref))).
  { split; [done|]. simpl. rewrite lookup_empty. set_solver. }
  intros l1 c l2 p _ [Hp IH]. unfold configStep. destruct (pp_mounts p !! pcf_Plugin c) as [points|] eqn:E; simpl.
  - split.
    { destruct (decide (pcf_Plugin c = plugin)) as [<-|?]; [by rewrite lookup_insert_eq|by rewrite lookup_insert_ne]. }
    rewrite refs_services, IH. setoid_rewrite elem_of_app. setoid_rewrite list_elem_of_singleton. split.
    + intros [(x & r & ? & ?)|(? & r & ? & ? & ?)]; [exists x, r|exists c, r]; auto 10.
    + intros (x & r & [?| ->] & ? & ? & ? & ?); [left|right]; eauto 10.
  - split; [done|]. rewrite IH. setoid_rewrite elem_of_app. setoid_rewrite list_elem_of_singleton. split.
    + intros (x & r & ? & ?). exists x, r. auto 10.
    + intros (x & r & [?| ->] & <- & ? & ? & ?); [eauto 10|]. rewrite E in Hp. by destruct Hp.
Qed.

(** ** Chains *)

Section chains.
Context {LabelSelector : Type} (AsSelector : LabelSelector → option (gmap string string → bool)).
Context {MS : MapSet} {MSS : MapSetSpec}.

(** The plugin is mounted there. *)
Definition pointAt (points : gmap string Plugins) (plugin mountPoint : string) : Prop :=
  ∃ pts, points !! plugin = Some pts ∧ is_Some (pts !! mountPoint).

Lemma mountPlugin_point pluginSet chain st name plugin mountPoint :
  pointAt (mtd_points (mountPlugin pluginSet chain st name)) plugin mountPoint ↔
  pointAt (mtd_points st) plugin mountPoint ∨ plugin = name ∧ mountPoint = chain ∧ name ∈ pluginSet.
Proof.
  unfold mountPlugin, pointAt. destruct (decide (name ∈ pluginSet)) as [Hs|Hs].
  2:{ rewrite bool_decide_eq_false_2 by done. simpl. naive_solver. }
  rewrite bool_decide_eq_true_2 by done. cbv zeta. simpl. destruct (decide (name = plugin)) as [->|Hne].
  2:{ rewrite lookup_insert_ne by done. naive_solver. }
  rewrite lookup_insert_eq. destruct (mtd_points st !! plugin) as [pts|]; simpl.
  - destruct (pts !! chain) as [v|] eqn:E; simpl.
    + split; [intros (? & [= <-] & ?); left; eauto|]. intros [(? & [= <-] & ?)|(_ & -> & _)]; eauto.
    + split.
      * intros (? & [= <-] & Hl). destruct (decide (chain = mountPoint)) as [->|?]; [by right|].
        rewrite lookup_insert_ne in Hl by done. left. eauto.
      * intros [(? & [= <-] & Hl)|(_ & -> & _)]; (eexists; split; [done|]); [|by rewrite lookup_insert_eq].
        destruct (decide (chain = mountPoint)) as [->|?]; [by rewrite lookup_insert_eq|by rewrite lookup_insert_ne].
  - rewrite lookup_empty. split.
    + intros (? & [= <-] & Hl). destruct (decide (chain = mountPoint)) as [->|?]; [by right|].
      rewrite lookup_insert_ne, lookup_empty in Hl by done. by destruct Hl.
    + intros [(? & ? & _)|(_ & -> & _)]; [done|]. eexists. split; [done|]. by rewrite lookup_insert_eq.
Qed.

Lemma mountPlugins_point pluginSet chain st names plugin mountPoint :
  pointAt (mtd_points (foldl (mountPlugin pluginSet chain) st names)) plugin mountPoint ↔
  pointAt (mtd_points st) plugin mountPoint ∨ plugin ∈ names ∧ mountPoint = chain ∧ plugin ∈ pluginSet.
Proof.
  revert st. induction names as [|n names IH]; intros st; simpl; [set_solver|].
  rewrite IH, mountPlugin_point, elem_of_cons. naive_solver.
Qed.

(** The plugins of one chain resource. *)
Definition listedAt (chains : list ChainPluginSpec) (plugin mountPoint : string) : Prop :=
  ∃ x, x ∈ chains ∧ cps_Name x = mountPoint ∧ plugin ∈ cps_Plugins x.

Lemma mountChains_point pluginSet st chains plugin mountPoint :
  pointAt (mtd_points (foldl (λ st chain, foldl (mountPlugin pluginSet (cps_Name chain)) st (cps_Plugins chain)) st chains))
    plugin mountPoint ↔
  pointAt (mtd_points st) plugin mountPoint ∨ listedAt chains plugin mountPoint ∧ plugin ∈ pluginSet.
Proof.
  unfold listedAt. revert st. induction chains as [|x chains IH]; intros st; simpl; [set_solver|].
  rewrite IH, mountPlugins_point. setoid_rewrite elem_of_cons. naive_solver.
Qed.

Lemma walkPluginChain_point chains ns labels pluginSet st plugin mountPoint :
  walkPluginChain AsSelector chains ns labels pluginSet = Ret st →
  pointAt (mtd_points st) plugin mountPoint ↔
  (∃ c, c ∈ chains ∧ matchPluginChain AsSelector c ns labels = Ret true ∧ listedAt (ch_Chains c) plugin mountPoint) ∧
  plugin ∈ pluginSet.
Proof.
  unfold walkPluginChain. apply (gofold_inv (λ l st, pointAt (mtd_points st) plugin mountPoint ↔
    (∃ c, c ∈ l ∧ matchPluginChain AsSelector c ns labels = Ret true ∧ listedAt (ch_Chains c) plugin mountPoint) ∧ plugin ∈ pluginSet)).
  { unfold pointAt. simpl. setoid_rewrite lookup_empty. set_solver. }
  intros l1 c l2 s s' _ IH (matched & Hm & [= <-])%go_bind_Ret. setoid_rewrite elem_of_app. setoid_rewrite list_elem_of_singleton.
  destruct matched; simpl.
  - rewrite mountChains_point, IH. naive_solver.
  - rewrite IH. split.
    + intros [(x & ? & ?) ?]. eauto 10.
    + intros [(x & [?| ->] & Hx & ?) ?]; [eauto 10|]. congruence.
Qed.

(** Before the configurations are read every mount point holds nil. *)
Lemma walkPluginChain_nil chains ns labels pluginSet st plugin pts mountPoint v :
  walkPluginChain AsSelector chains ns labels pluginSet = Ret st →
  mtd_points st !! plugin = Some pts → pts !! mountPoint = Some v → v = None.
Proof.
  set (P := λ st : Mounted, ∀ pts, mtd_points st !! plugin = Some pts → pts !! mountPoint = Some v → v = None).
  assert (Hone : ∀ chain s name, P s → P (mountPlugin pluginSet chain s name)).
  { intros chain s name Hs q. unfold mountPlugin. destruct (negb _); [apply Hs|]. cbv zeta. simpl.
    destruct (decide (name = plugin)) as [->|?]; [|rewrite lookup_insert_ne by done; apply Hs].
    rewrite lookup_insert_eq. intros [= <-]. destruct (mtd_points s !! plugin) as [q|] eqn:E; simpl.
    - destruct (q !! chain) eqn:Eq; [by apply Hs|]. destruct (decide (chain = mountPoint)) as [->|?].
      + rewrite lookup_insert_eq. by intros [= <-].
      + rewrite lookup_insert_ne by done. by apply Hs.
    - rewrite lookup_empty. destruct (decide (chain = mountPoint)) as [->|?].
      + rewrite lookup_insert_eq. by intros [= <-].
      + by rewrite lookup_insert_ne, lookup_empty. }
  intros Hw. revert pts. change (P st). revert Hw. unfold walkPluginChain. apply (gofold_inv (λ _ st, P st)).
  { intros q. simpl. by rewrite lookup_empty. }
  intros _ c _ s s' _ Hs (matched & _ & [= <-])%go_bind_Ret. destruct matched; simpl; [|done].
  apply (foldl_inv (λ _ s, P s)); [done|]. intros _ x _ s1 _ Hs1. apply (foldl_inv (λ _ s, P s)); [done|].
  intros _ y _ s2 _ Hs2. by apply Hone.
Qed.

Lemma refersTo_configured configs name svc : refersTo configs name svc → is_Some (lastConfig name configs).
Proof.
  intros (c & _ & Hc & Hn & _). unfold lastConfig. apply fmap_is_Some. destruct (last _) eqn:E; [by eexists|].
  apply last_None in E. assert (c ∈ filter (λ c, pcf_Plugin c = name) configs) as Hin by (by apply list_elem_of_filter).
  rewrite E in Hin. by apply elem_of_nil in Hin.
Qed.

(** C32. The plugins a traffic match gets: exactly those that are known,
    mounted on the chain of its direction and protocol by a PluginChain that
    selects the workload, and configured for its service.  The configuration
    is that of the last PluginConfig of the plugin, for whichever service
    that one is: a configuration for one service replaces the plugin's
    configuration for all others. *)
Theorem plugin_configs_exact `{SS : SliceSort} global plugins chains configs GetNamespace namespace labels
    p sidecarChains retry trafficMatch direct svc port protocol rest :
  chains ≠ [] →
  plugin AsSelector true global plugins chains configs GetNamespace (Some (namespace, labels)) = Ret (p, sidecarChains, retry) →
  Split trafficMatch "_"%char = direct :: svc :: port :: protocol :: rest →
  ∃ result, getTrafficMatchPluginConfigs p trafficMatch = Ret result ∧ ∀ name c,
    result !! name = Some c ↔
    (∃ ch, ch ∈ chains ∧ matchPluginChain AsSelector ch (GetNamespace namespace) labels = Ret true ∧
       listedAt (ch_Chains ch) name ((if bool_decide (direct = "exp") then "inbound" else direct) +:+ "-" +:+ protocol)) ∧
    name ∈ pluginNames plugins ∧ refersTo configs name svc ∧ c = lastConfig name configs.
Proof.
  intros Hne Hp Hs. unfold plugin in Hp. destruct chains as [|ch0 chains0]; [done|]. set (chains := ch0 :: chains0) in *.
  cbn [negb orb bool_decide length] in Hp. rewrite bool_decide_eq_false_2 in Hp by done. cbn [orb] in Hp.
  apply go_bind_Ret in Hp as (st & Hw & (sc & _ & [= <- <- <-])%go_bind_Ret).
  unfold getTrafficMatchPluginConfigs. rewrite Hs. cbv zeta. simpl.
  set (mp := _ +:+ "-" +:+ protocol). eexists. split; [done|]. intros name c.
  pose proof (walkPluginChain_point chains (GetNamespace namespace) labels _ st name mp Hw) as Hpt.
  assert (Hsvc : ∀ pts, mtd_points st !! name = Some pts → name ∈ default ∅ (pp_services (walkPluginConfig configs (mtd_points st)) !! svc) ↔
    refersTo configs name svc). { intros pts Hpts. apply walkPluginConfig_services. by rewrite Hpts. }
  transitivity (pointAt (mtd_points st) name mp ∧ refersTo configs name svc ∧ c = lastConfig name configs).
  2:{ rewrite Hpt. unfold mp. tauto. }
  unfold pointAt. clear Hpt.
  destruct (mtd_points st !! name) as [pts|] eqn:Epts.
  2:{ split; [|by intros ((? & ? & _) & _)]. destruct (pp_services _ !! svc) as [s|]; [|by rewrite lookup_empty].
      rewrite map_lookup_imap, walkPluginConfig_mounts, Epts. done. }
  specialize (Hsvc pts eq_refl). rewrite <-Hsvc.
  transitivity (name ∈ default ∅ (pp_services (walkPluginConfig configs (mtd_points st)) !! svc) ∧
    configure (lastConfig name configs) pts !! mp = Some c).
  - destruct (pp_services _ !! svc) as [s|]; simpl; [|rewrite lookup_empty; set_solver].
    rewrite map_lookup_imap, walkPluginConfig_mounts, Epts. simpl. case_bool_decide; naive_solver.
  - split.
    + intros [Hin Hc]. rewrite Hsvc in Hin |- *. destruct (refersTo_configured _ _ _ Hin) as [cfg Ecfg]. rewrite Ecfg in Hc |- *.
      simpl in Hc. rewrite lookup_fmap in Hc. destruct (pts !! mp) eqn:Emp; [|done]. injection Hc as <-. split; [|done]. eauto.
    + intros ((? & [= <-] & [v Hv]) & Hin & ->). split; [done|]. rewrite Hsvc in Hin.
      destruct (refersTo_configured _ _ _ Hin) as [cfg ->]. simpl. by rewrite lookup_fmap, Hv.
Qed.

End chains.

(** ** Witness *)

#[local] Existing Instance gset_MapSet.
#[local] Existing Instance gset_MapSetSpec.

Definition demoChain : @PluginChain unit := mkChain [mkChainPlugin "inbound-http" ["token"]] (Some tt) None.
Definition demoConfigs : list PluginConfig :=
  [mkPluginConfig "token" [mkObjectRef "Service" "shop" "cart"] "cart config";
   mkPluginConfig "token" [mkObjectRef "Service" "shop" "bill"] "bill config"].

Lemma plugin_configs_exact_witness :
  ∃ p sidecarChains retry result,
    @plugin unit (λ _, Some (λ _, true)) gset_MapSet insertion_SliceSort true (Ret ∅) [mkPluginPolicy "token" 0%Z "" false] [demoChain]
      demoConfigs (λ _, Some ∅) (Some ("shop", ∅)) = Ret (p, sidecarChains, retry) ∧
    getTrafficMatchPluginConfigs p "inbound_shop/cart_8080_http_" = Ret result ∧
    (∀ c, result !! "token" = Some c ↔
      (∃ ch, ch ∈ [demoChain] ∧ matchPluginChain (λ _, Some (λ _, true)) ch (Some ∅) ∅ = Ret true ∧
         listedAt (ch_Chains ch) "token" "inbound-http") ∧
      "token" ∈ pluginNames [mkPluginPolicy "token" 0%Z "" false] ∧ refersTo demoConfigs "token" "shop/cart" ∧ c = Some "bill config").
Proof.
  destruct (@plugin unit (λ _, Some (λ _, true)) gset_MapSet insertion_SliceSort true (Ret ∅) [mkPluginPolicy "token" 0%Z "" false]
    [demoChain] demoConfigs (λ _, Some ∅) (Some ("shop", ∅))) as [[[p sidecarChains] retry]|] eqn:E; [|vm_compute in E; discriminate].
  exists p, sidecarChains, retry.
  destruct (@plugin_configs_exact unit (λ _, Some (λ _, true)) gset_MapSet insertion_SliceSort (Ret ∅)
    [mkPluginPolicy "token" 0%Z "" false] [demoChain] demoConfigs (λ _, Some ∅) "shop" ∅ p sidecarChains retry
    "inbound_shop/cart_8080_http_" "inbound" "shop/cart" "8080" "http" [""]) as (result & Hr & Hi); [done|exact E|vm_compute; reflexivity|].
  exists result. split; [done|]. split; [exact Hr|]. intros c. exact (Hi "token" c).
Defined.

End PipyPluginsFacts.
