(* ===== verification/PipyJobs.v ===== *)
(** * The job that configures one sidecar: pkg/sidecar/v1/providers/pipy/repo/jobs.go

    The generators composed the way [Run] composes them, the certificate of
    the sidecar and the publication of the result.  A call of
    [retryProxiesJob] is a flag, updates of resource statuses are a list.
    Left out: probes, tracing, logging and the other options that are copied
    to the configuration, and [cloudConnector]. *)

From S2P Require Import Prelude Identity Service Core Api MeshConfig Net TrafficPolicy Cidr K8s Catalog CertManager.
From S2P Require Import CatalogInbound CatalogEgress CatalogIngress CatalogOutbound Pipy PipyConf PipyGen PipyOut PipyPlugins.
Import Identity.Identity Service.Service Api.Api MeshConfig.MeshConfig Net.Net Cidr.Cidr K8s.K8s Catalog.Catalog.
Import CatalogInbound.CatalogInbound CatalogEgress.CatalogEgress CatalogIngress.CatalogIngress.
Import CatalogOutbound.CatalogOutbound Pipy.Pipy PipyConf.PipyConf PipyGen.PipyGen PipyOut.PipyOut.

Module PipyJobs.

#[local] Open Scope Z_scope.

(** ** Addresses (pkg/utils/ipconv.go)

    The expanded form of an IPv4-mapped address with its prefix shortened;
    bytes of what is not an IPv4 address stay zero. *)
Definition IPv4Tov6 (ipv4 : string) : string :=
  match default [0; 0; 0; 0] (To4 (ParseIP ipv4)) with
  | [a; b; c; d] => "::ffff:" +:+ hexString [a; b] +:+ ":" +:+ hexString [c; d]
  | _ => "::ffff:0000:0000"
  end.

(** The addresses of a name: IPv4, each with its IPv6 form if asked for. *)
Definition withIPv6 (generate : bool) (ipv4s : list string) : list string :=
  ipv4 ← ipv4s; ipv4 :: (if generate then [IPv4Tov6 ipv4] else []).

(** ** The state of the job *)

Record JobState := mkJobState {
  sc_conf : PipyConf;
  sc_dnsResolveDB : gmap string (list string);
  sc_Chains : gmap string (list string);
  sc_AllowedEndpoints : gmap string string;
  sc_retry : bool;
  sc_updates : list statusUpdate }.

Definition onConf (f : PipyConf → PipyConf) (s : JobState) : JobState :=
  mkJobState (f (sc_conf s)) (sc_dnsResolveDB s) (sc_Chains s) (sc_AllowedEndpoints s) (sc_retry s) (sc_updates s).
Definition onDNS (f : gmap string (list string) → gmap string (list string)) (s : JobState) : JobState :=
  mkJobState (sc_conf s) (f (sc_dnsResolveDB s)) (sc_Chains s) (sc_AllowedEndpoints s) (sc_retry s) (sc_updates s).
Definition retryIf (b : bool) (s : JobState) : JobState :=
  mkJobState (sc_conf s) (sc_dnsResolveDB s) (sc_Chains s) (sc_AllowedEndpoints s) (sc_retry s || b) (sc_updates s).
Definition addUpdates (u : list statusUpdate) (s : JobState) : JobState :=
  mkJobState (sc_conf s) (sc_dnsResolveDB s) (sc_Chains s) (sc_AllowedEndpoints s) (sc_retry s) (sc_updates s ++ u).

Section jobs.
Context {MS : MapSet} {MR : MapRange} {SS : SliceSort} (mc : MeshCatalog) (spec : MeshConfigSpec).
Context {E : Type} (hashMatch : T.TrafficMatch → E + Z) (hashCluster : T.EgressClusterConfig → E + Z).
Context (GetEgressSourceSecret : Api.Api.SecretReference → string + gmap string string).

Definition dnsProxy : LocalDNSProxy := sc_LocalDNSProxy (Sidecar spec).

(** ** Policies *)

(** A policy of one service: generated unless it is nil; an error asks for a
    retry. *)
Definition edge {P} (generate : PipyConf → P → go PipyConf) (r : string + option P) (s : JobState) : go JobState :=
  match r with
  | inl _ => Ret (retryIf true s)
  | inr None => Ret s
  | inr (Some policy) => p ← generate (sc_conf s) policy; Ret (onConf (λ _, p) s)
  end.

Definition inboundService (s : JobState) (svc : MeshService) : go JobState :=
  '(updates, ingress) ← GetIngressTrafficPolicy mc svc;
  s ← edge generatePipyIngressTrafficRoutePolicy ingress (addUpdates updates s);
  '(updates, acl) ← GetAccessControlTrafficPolicy mc svc;
  s ← edge generatePipyAccessControlTrafficRoutePolicy acl (addUpdates updates s);
  edge generatePipyServiceExportTrafficRoutePolicy (GetExportTrafficPolicy mc svc) s.

Definition inbound (proxyServices : list MeshService) (proxy : Proxy) (s : JobState) : go JobState :=
  policy ← GetInboundMeshTrafficPolicy mc (px_Identity proxy) proxyServices;
  p ← generatePipyInboundTrafficPolicy mc (sc_conf s) policy (GetTrustDomain mc) proxy;
  gofold inboundService (onConf (λ _, p) s) proxyServices.

Definition outbound (proxy : Proxy) (desiredSuffix : string) (s : JobState) : go JobState :=
  policy ← GetOutboundMeshTrafficPolicy mc hashMatch hashCluster (px_Identity proxy);
  let s := if IsLocalDNSProxyEnabled (configurator mc)
           then onDNS (λ db, (withIPv6 (ldp_GenerateIPv6BasedOnIPv4 dnsProxy) <$> T.omp_ServicesResolvableSet policy) ∪ db) s
           else s in
  '(p, depends) ← generatePipyOutboundTrafficRoutePolicy (sc_conf s) policy dnsProxy desiredSuffix;
  if bool_decide (size depends = 0%nat) then Ret (onConf (λ _, p) s)
  else '(ready, p) ← generatePipyOutboundTrafficBalancePolicy mc (con_ViaGateway (Connector spec)) (ClusterSet spec)
                       proxy p policy depends;
       Ret (retryIf (negb ready) (onConf (λ _, p) s)).

Definition egress (proxy : Proxy) (desiredSuffix : string) (s : JobState) : go JobState :=
  r ← GetEgressTrafficPolicy mc hashMatch hashCluster (px_Identity proxy);
  match r with
  | inl _ => Ret (retryIf true s)
  | inr None => Ret s
  | inr (Some policy) =>
      '(p, depends) ← generatePipyEgressTrafficRoutePolicy GetEgressSourceSecret (sc_conf s) policy desiredSuffix;
      if bool_decide (size depends = 0%nat) then Ret (onConf (λ _, p) s)
      else '(ready, p) ← generatePipyEgressTrafficBalancePolicy mc GetEgressSourceSecret proxy p policy depends;
           Ret (retryIf (negb ready) (onConf (λ _, p) s))
  end.

(** The catalog never returns an error, and never sets rules; its list of
    gateways is nil when it is empty. *)
Definition forward (s : JobState) : JobState :=
  match GetEgressGatewayPolicy mc with
  | None => s
  | Some global =>
      let '(ready, p) := generatePipyEgressTrafficForwardPolicy (sc_conf s) (Some (mkGatewayPolicy (match global with [] => None | _ => Some global end) None)) in
      retryIf (negb ready) (onConf (λ _, p) s)
  end.

(** ** Names and addresses *)

(** The names of the configuration: an IPv6 address that is given is not
    used, and a nil entry panics. *)
Definition resolveDN (db : gmap string (list string)) (dn : ResolveDN) : go (gmap string (list string)) :=
  match slice_elems (rdn_IPs dn) with
  | [] => Ret db
  | ips => addrs ← gofold (λ addrs ip,
             a ← deref ip;
             Ret (addrs ++ ra_IPv4 a ::
               (if bool_decide (ra_IPv6 a = "") && ldp_GenerateIPv6BasedOnIPv4 dnsProxy then [IPv4Tov6 (ra_IPv4 a)] else [])))
             [] ips;
           Ret (<[rdn_DN dn := addrs]> db)
  end.

Definition dnsResolveDB (s : JobState) : go JobState :=
  if negb (IsLocalDNSProxyEnabled (configurator mc)) then Ret s
  else db ← gofold resolveDN (sc_dnsResolveDB s) (slice_elems (ldp_DB dnsProxy)); Ret (onDNS (λ _, db) s).

(** The addresses of connected proxies and of ingress sources.  [uuidOf] is
    the identifier in the label of a pod or machine, nil if it has none that
    parses; [connected] is the address of the proxy registered under it. *)
Definition allowedWorkload (pretty : bool) (connected : string → option string)
    (st : bool * gmap string string) (w : option string * string) : bool * gmap string string :=
  let '(ready, allowed) := st in
  match w with
  | (None, _) => st
  | (Some uuid, name) =>
      match connected uuid with
      | None | Some EmptyString => (false, allowed)
      | Some addr => (ready, <[addr := if pretty then name else ""]> allowed)
      end
  end.

Definition copyAllowedEndpoints (pretty : bool) (connected : string → option string)
    (workloads : list (option string * string)) (p : PipyConf) : bool * gmap string string :=
  let '(ready, allowed) := foldl (allowedWorkload pretty connected) (true, ∅) workloads in
  (ready, match pc_Inbound p with
          | None => allowed
          | Some itp =>
              foldl (λ allowed m, foldl (λ allowed r,
                  <[TrimSuffix r "/32" := if pretty then "Ingress/Accessor" else ""]> allowed)
                allowed (map_to_list (im_SourceIPRanges m)).*1)
                allowed (map_to_list (ip_TrafficMatches itp)).*2
          end).

Definition allowedEndpoints (pretty : bool) (connected : string → option string)
    (workloads : list (option string * string)) (warmUpping : bool) (s : JobState) : JobState :=
  let '(ready, allowed) := copyAllowedEndpoints pretty connected workloads (sc_conf s) in
  retryIf (negb ready || warmUpping)
    (mkJobState (sc_conf s) (sc_dnsResolveDB s) (sc_Chains s) allowed (sc_retry s) (sc_updates s)).

(** ** The whole configuration *)

Definition reorder (p : PipyConf) : go PipyConf :=
  otp ← match pc_Outbound p with Some otp => o ← reorderOutbound otp; Ret (Some o) | None => Ret None end;
  Ret (mkPipyConf (pc_enablePermissiveTrafficPolicyMode p) (reorderInbound <$> pc_Inbound p)
         otp (pc_Forward p) (pc_specs p) (pc_pluginPolicies p) (pc_hashNameSet p)).

(** The order of services before generation: by namespace or name, which is
    not a strict order on both. *)
Definition svcLess (a b : MeshService) : bool :=
  String.ltb (Namespace a) (Namespace b) || String.ltb (Name a) (Name b).

Definition initial (plugins : PluginPolicies) (chains : gmap string (list string)) (retry : bool) : JobState :=
  mkJobState (mkPipyConf (IsPermissiveTrafficPolicyMode (configurator mc)) None None None [] plugins ∅)
    ∅ chains ∅ retry [].

(** The body of [Run] from [plugin] to [dnsResolveDB]: what [plugin] returned
    is an argument, and [proxyServices] are sorted. *)
Definition generate (plugins : PluginPolicies * gmap string (list string) * bool) (env : WarmupEnv)
    (pretty : bool) (connected : string → option string) (workloads : list (option string * string))
    (proxy : Proxy) (desiredSuffix : string) (proxyServices : list MeshService) : go JobState :=
  let '(policies, chains, retry) := plugins in
  s ← inbound proxyServices proxy (initial policies chains retry);
  s ← outbound proxy desiredSuffix s;
  s ← egress proxy desiredSuffix s;
  let s := forward s in
  '(warmUpping, p) ← balance env (sc_conf s);
  p ← reorder p;
  let s := onConf (λ _, p) s in
  dnsResolveDB (allowedEndpoints pretty connected workloads warmUpping s).

End jobs.

End PipyJobs.
