(* ===== verification/PipyJobsFacts.v ===== *)
(** * What the job of a sidecar enforces

    The job as a whole: the policies of the catalog for the services of a
    proxy, the configuration generated from all of them, and the decisions of
    the sidecar that runs it. *)

From S2P Require Import Prelude Identity Service Api MeshConfig Cidr CidrFacts TrafficPolicy K8s Smi Policy Catalog CatalogFacts.
From S2P Require Import CatalogInbound CatalogInboundFacts CatalogIngress Pipy PipyConf PipyGen PipyOut PipyRouting PipyRoutingFacts PipyPackFacts PipyGenFacts PipyJobs.
Import Identity.Identity Service.Service Api.Api MeshConfig.MeshConfig Cidr.Cidr K8s.K8s Smi.Smi Policy.Policy.
Import Catalog.Catalog CatalogFacts.CatalogFacts CatalogInbound.CatalogInbound CatalogInboundFacts.CatalogInboundFacts.
Import CatalogIngress.CatalogIngress Pipy.Pipy PipyConf.PipyConf PipyGen.PipyGen PipyOut.PipyOut.
Import PipyRouting.PipyRouting PipyRoutingFacts.PipyRoutingFacts PipyPackFacts.PipyPackFacts PipyGenFacts.PipyGenFacts PipyJobs.PipyJobs.
Module T := TrafficPolicy.TrafficPolicy.

Module PipyJobsFacts.

#[local] Open Scope Z_scope.

(** ** Names *)

(** Names as Kubernetes has them: the separators of the names of matches,
    clusters and policies do not occur in the parts they separate. *)
Definition plain (svc : MeshService) : Prop :=
  (str_in "/" (Namespace svc) = false ∧ str_in "_" (Namespace svc) = false ∧ str_in "." (Namespace svc) = false) ∧
  (str_in "/" (Name svc) = false ∧ str_in "_" (Name svc) = false) ∧
  str_in "_" (Protocol svc) = false ∧ str_in "_" (CloudAttachedNamespace svc) = false ∧
  uint16 (TargetPort svc) = TargetPort svc.

(** The service of a match is read back from its name. *)
Lemma trafficMatchToMeshSvc_name svc tm : plain svc →
  T.tm_Name tm = InboundTrafficMatchName svc → T.tm_DestinationPort tm = TargetPort svc →
  trafficMatchToMeshSvc tm = Some (mkMeshService (Namespace svc) (Name svc) 0 (TargetPort svc)
    (ToLower (T.tm_DestinationProtocol tm)) "" "" (CloudAttachedNamespace svc)).
Proof.
  intros ((Hs & Hu & _) & (Hs' & Hu') & Hp & Ha & Ht) Hn Hd. unfold trafficMatchToMeshSvc. rewrite Hn, Hd, Ht.
  replace (InboundTrafficMatchName svc) with ("inbound" +:+ String "_" (ms_String svc +:+ String "_"
    (pretty (TargetPort svc) +:+ String "_" (Protocol svc +:+ String "_" (CloudAttachedNamespace svc))))) by done.
  rewrite (Split_app "inbound") by done.
  rewrite Split_app by (unfold ms_String; rewrite !str_in_app, Hu, Hu'; done).
  rewrite Split_app by (by apply pretty_Z_in). rewrite Split_app by done. rewrite Split_none by done.
  unfold NamespacedNameFrom, ms_String. rewrite !str_app_cons, !str_app_nil_l, Split_app, Split_none by done. done.
Qed.

Lemma local_name_inj x y : str_in "/" (Namespace x) = false → str_in "/" (Namespace y) = false →
  SidecarLocalClusterName x = SidecarLocalClusterName y →
  Namespace x = Namespace y ∧ Name x = Name y ∧ TargetPort x = TargetPort y.
Proof.
  intros Hx Hy E. apply cluster_name_parts; [done|done|]. unfold SidecarLocalClusterName in E.
  assert (∀ s, (Namespace s +:+ "/" +:+ Name s +:+ "|" +:+ pretty (TargetPort s) +:+ "|local") =
    (Namespace s +:+ "/" +:+ Name s +:+ "|" +:+ pretty (TargetPort s)) +:+ String "|" "local") as H
    by (intros s; by rewrite !str_app_assoc).
  rewrite !H in E. by apply str_cut_last in E as [? _].
Qed.

Lemma policy_name_inj x y : str_in "." (Namespace x) = false → str_in "." (Namespace y) = false →
  PolicyName x false = PolicyName y false → Name x = Name y ∧ Namespace x = Namespace y.
Proof. unfold PolicyName. simpl. rewrite !str_app_cons, !str_app_nil_l. apply str_cut_last. Qed.

(** ** The policy of the catalog, in full *)

Section catalog.
Context {MS : MapSet} {MSS : MapSetSpec} (mc : MeshCatalog).

Definition settingOf (svc : MeshService) : option UpstreamTrafficSetting :=
  match pc_GetUpstreamTrafficSetting (policyController mc) (byService svc) with Ret uts => uts | Panic => None end.

Definition matchOf (svc : MeshService) : T.TrafficMatch := inboundTrafficMatch mc svc (settingOf svc).

Definition clusterOf (svc : MeshService) : T.MeshClusterConfig :=
  {| T.mcc_Name := SidecarLocalClusterName svc; T.mcc_Service := svc; T.mcc_Address := T.LocalhostIPAddress;
     T.mcc_Port := uint32 (TargetPort svc); T.mcc_EnableSidecarActiveHealthChecks := false;
     T.mcc_UpstreamTrafficSetting := None |}.

Definition exactPolicy (permissive : bool) (ts : list TrafficTarget) (set : mset MeshService) (svcs : list MeshService)
    (p : T.InboundMeshTrafficPolicy) : Prop :=
  T.imp_ClustersConfigs p = map clusterOf svcs ∧
  T.imp_TrafficMatches p = map matchOf (List.filter (λ s, Contains s set) svcs) ∧
  ∀ tp pol, pol ∈ default [] (T.imp_HTTPRouteConfigsPerPort p !! tp) →
    ∃ x, x ∈ svcs ∧ TargetPort x = tp ∧ policyFor mc permissive ts x pol.

Lemma inboundLoop_exact permissive ts set svcs p :
  gofold (inboundStep mc permissive ts set) (T.mkInboundMesh [] ∅ []) svcs = Ret p → exactPolicy permissive ts set svcs p.
Proof.
  apply gofold_inv.
  - split; [done|]. split; [done|]. intros tp pol. simpl. rewrite lookup_empty. by intros ?%elem_of_nil.
  - intros l1 x l2 c c' _ (Hc & Hm & Hp). unfold inboundStep. intros (uts & Hu & Hs)%go_bind_Ret.
    assert (settingOf x = uts) as Es by (unfold settingOf; by rewrite Hu).
    assert (Hm' : (if Contains x set then T.imp_TrafficMatches c ++ [inboundTrafficMatch mc x uts] else T.imp_TrafficMatches c) =
      map matchOf (List.filter (λ s, Contains s set) (l1 ++ [x]))).
    { rewrite List.filter_app, map_app, <-Hm. simpl. destruct (Contains x set); simpl; [|by rewrite app_nil_r].
      unfold matchOf. by rewrite Es. }
    rewrite Hm' in Hs. rewrite Hc in Hs.
    destruct (CatalogInbound.CatalogInbound.isTCP (Protocol x)).
    + simplify_eq. simpl. split; [by rewrite map_app|]. split; [done|]. intros tp pol Hpol.
      destruct (Hp tp pol Hpol) as (y & ? & ? & ?). exists y. split; [set_solver|done].
    + apply go_bind_Ret in Hs as (pol' & Hpol' & [= <-]). split; [simpl; by rewrite map_app|]. split; [done|].
      intros tp pol. cbn [T.imp_HTTPRouteConfigsPerPort]. rewrite map_append_lookup, elem_of_app. intros [Hpol|Hpol].
      * destruct (Hp tp pol Hpol) as (y & ? & ? & ?). exists y. split; [set_solver|done].
      * case_decide as Et; [|by apply elem_of_nil in Hpol]. apply list_elem_of_singleton in Hpol as ->.
        exists x. split; [set_solver|]. split; [done|]. by exists uts.
Qed.

End catalog.

(** ** The generator *)

Lemma bind_unique {A B} (f : A → bool) (g : A → B) l x :
  NoDup l → x ∈ l → f x = true → (∀ y, y ∈ l → f y = true → y = x) →
  (l ≫= λ y, if f y then [g y] else []) = [g x].
Proof.
  intros Hnd Hx Hf Hu. induction Hnd as [|y l Hy Hnd IH]; [by apply elem_of_nil in Hx|]. rewrite bind_cons.
  assert (Hnone : x = y → (l ≫= λ z, if f z then [g z] else []) = []).
  { intros ->. clear IH Hnd Hx. induction l as [|z l IH]; [done|]. rewrite bind_cons.
    destruct (f z) eqn:Ez; [exfalso; apply Hy; rewrite <-(Hu z); [left|right; left|done]|].
    apply IH; [set_solver|]. intros w Hw. apply Hu. set_solver. }
  apply elem_of_cons in Hx as [->|Hx].
  - rewrite Hf, Hnone by done. done.
  - destruct (f y) eqn:Ey; [by rewrite (Hu y) in Hy by (done || left)|]. apply IH; [done|]. intros z Hz. apply Hu. by right.
Qed.

Lemma getMeshClusterConfigs_own l x :
  NoDup l → x ∈ l → (∀ y, y ∈ l → SidecarLocalClusterName y = SidecarLocalClusterName x → y = x) →
  getMeshClusterConfigs (map clusterOf l) (SidecarLocalClusterName x) = [clusterOf x].
Proof.
  intros Hnd Hx Hu. unfold getMeshClusterConfigs.
  rewrite (foldl_collect _ (λ c, if bool_decide (SidecarLocalClusterName x = SidecarLocalClusterName (T.mcc_Service c)) then [c] else [])).
  2:{ intros acc c. cbv zeta. rewrite (bool_decide_eq_false_2 (_ = SidecarClusterName _)) by apply local_and_remote_cluster_names_differ.
      case_bool_decide; [done|]. by rewrite app_nil_r. }
  rewrite app_nil_l, <-(bind_unique (λ y, bool_decide (SidecarLocalClusterName x = SidecarLocalClusterName y)) clusterOf l x); try done.
  - clear. induction l as [|y l IH]; [done|]. cbn [map]. rewrite !bind_cons. cbn [T.mcc_Service clusterOf]. by rewrite <-IH.
  - by apply bool_decide_eq_true_2.
  - intros y Hy E%bool_decide_eq_true_1. by apply Hu.
Qed.

Lemma PolicyName_nonempty x b : PolicyName x b ≠ "".
Proof. unfold PolicyName. destruct (_ && _), (Name x); done. Qed.

Section generator.
Context {MS : MapSet} {MSS : MapSetSpec} (mc : MeshCatalog) (p : PipyConf) (td : string) (policy : T.InboundMeshTrafficPolicy).

Lemma inboundHTTP_total tmatch x pol tm :
  T.tm_Name tmatch = InboundTrafficMatchName x → T.itp_Name pol ≠ "" →
  ∃ tm', inboundHTTP mc p td tmatch pol tm = Ret tm'.
Proof.
  intros Hn Hne. unfold inboundHTTP, in_withRules. cbn [ref_RuleName]. rewrite bool_decide_eq_false_2 by done.
  rewrite Hn. destruct (inboundPlugins_total (pc_pluginPolicies p) x) as [plugins ->]. simpl. by eexists.
Qed.

(** A match changes the matches of its port and nothing else. *)
Lemma inboundCluster_total tmatch upstream itp x :
  T.tm_Name tmatch = InboundTrafficMatchName x →
  ∃ tm', inboundCluster mc p policy td tmatch upstream itp (clusterOf x) = Ret (in_setMatch (uint16 (Port x)) tm' itp).
Proof.
  intros Hn. unfold inboundCluster. cbv zeta. cbn [T.mcc_Service clusterOf]. destruct (_ || _).
  - destruct (getInboundHTTPRouteConfigs _ _ _) as [config|] eqn:E; [|by eexists].
    unfold getInboundHTTPRouteConfigs in E. apply bind_Some in E as (configs & _ & E).
    destruct (list_find _ configs) as [[i c]|] eqn:El; simplify_eq/=.
    apply list_find_Some in El as (_ & Ec & _).
    destruct (inboundHTTP_total tmatch x config
      (setTCPServiceRateLimit (T.tm_RateLimit tmatch) (in_setPort (uint16 (T.tm_DestinationPort tmatch))
        (in_setProtocol (ToLower (T.tm_DestinationProtocol tmatch)) (in_newTrafficMatch (uint16 (Port x)) itp))))) as [tm' ->]; [done| |].
    + rewrite Ec. apply PolicyName_nonempty.
    + simpl. by eexists.
  - destruct (PipyGen.PipyGen.isTCP _); [|by eexists].
    rewrite Hn. destruct (inboundPlugins_total (pc_pluginPolicies p) x) as [plugins ->]. simpl. by eexists.
Qed.

Lemma inboundCluster_http tmatch upstream itp x pol :
  T.tm_DestinationProtocol tmatch = T.ProtocolHTTP →
  getInboundHTTPRouteConfigs (T.imp_HTTPRouteConfigsPerPort policy) (TargetPort upstream) (PolicyName upstream false) = Some pol →
  ip_TrafficMatches itp !! uint16 (Port x) = None →
  inboundCluster mc p policy td tmatch upstream itp (clusterOf x) =
    tm' ← inboundHTTP mc p td tmatch pol (setTCPServiceRateLimit (T.tm_RateLimit tmatch)
      (in_setPort (uint16 (T.tm_DestinationPort tmatch)) (in_setProtocol T.ProtocolHTTP emptyInMatch)));
    Ret (in_setMatch (uint16 (Port x)) tm' itp).
Proof.
  intros Hp Hc Hn. unfold inboundCluster. cbv zeta. cbn [T.mcc_Service clusterOf]. rewrite Hp, Hc.
  unfold in_newTrafficMatch. by rewrite Hn.
Qed.

End generator.

(** ** Hosts lead to rules *)

Lemma closed_bindHosts ref hs tm :
  is_Some (im_HTTPServiceRouteRules tm !! ref_RuleName ref) → closedHosts tm →
  closedHosts (foldl (λ tm h, in_bindHost h ref tm) tm hs).
Proof.
  intros Href Hcl. revert tm Href Hcl. induction hs as [|h hs IH]; intros tm Href Hcl; simpl; [done|]. apply IH; [done|].
  intros host r. simpl. unfold in_addHTTPHostPort2Service.
  assert (Hins : (<[h := ref]> (im_HTTPHostPort2Service tm)) !! host = Some r → is_Some (im_HTTPServiceRouteRules tm !! ref_RuleName r)).
  { intros [[_ <-]|[_ H]]%lookup_insert_Some; [done|by eapply Hcl]. }
  destruct (im_HTTPHostPort2Service tm !! h); [|done]. case_bool_decide; [done|]. destruct (_ && _); [done|apply Hcl].
Qed.

Definition allClosed (itp : InboundPolicy) : Prop := ∀ port m, ip_TrafficMatches itp !! port = Some m → closedHosts m.

Section closed.
Context {MS : MapSet} (mc : MeshCatalog) (p : PipyConf) (td : string) (policy : T.InboundMeshTrafficPolicy).

Lemma closed_inboundHTTP tmatch pol tm tm' :
  inboundHTTP mc p td tmatch pol tm = Ret tm' → closedHosts tm → closedHosts tm'.
Proof.
  unfold inboundHTTP, in_withRules. cbn [ref_RuleName]. case_bool_decide; [done|].
  set (ref := mkRuleRef (T.itp_Name pol) ""). intros (rules & _ & [= <-])%go_bind_Ret Hcl host r Hr. simpl in *.
  destruct (bindHosts_other ref (T.Hostnames pol) tm) as [E _]. rewrite E.
  set (tm1 := mkInMatch (im_Port tm) (im_Protocol tm) (im_SourceIPRanges tm) (im_HTTPHostPort2Service tm)
    (<[T.itp_Name pol := rules]> (im_HTTPServiceRouteRules tm)) (im_TCPServiceRouteRules tm) (im_TCPRateLimit tm)).
  assert (closedHosts (foldl (λ tm h, in_bindHost h ref tm) tm1 (T.Hostnames pol))) as H1.
  { apply closed_bindHosts; simpl; [by rewrite lookup_insert_eq|]. intros h x Hx%Hcl. simpl.
    destruct (decide (T.itp_Name pol = ref_RuleName x)) as [->|?]; [by rewrite lookup_insert_eq|by rewrite lookup_insert_ne]. }
  assert (∀ hs a b, im_HTTPHostPort2Service a = im_HTTPHostPort2Service b →
    im_HTTPHostPort2Service (foldl (λ tm h, in_bindHost h ref tm) a hs) =
    im_HTTPHostPort2Service (foldl (λ tm h, in_bindHost h ref tm) b hs)) as Hsame.
  { intros hs. induction hs as [|h hs IH]; intros a b Hab; simpl; [done|]. apply IH. simpl. by rewrite Hab. }
  rewrite (Hsame _ tm tm1 eq_refl) in Hr. apply H1 in Hr.
  by destruct (bindHosts_other ref (T.Hostnames pol) tm1) as [E1 _]; rewrite E1 in Hr.
Qed.

Lemma closed_inboundCluster tmatch upstream itp c itp' :
  inboundCluster mc p policy td tmatch upstream itp c = Ret itp' → allClosed itp → allClosed itp'.
Proof.
  intros (tm & Htm & [= <-])%go_bind_Ret Hcl port m. simpl. intros [[_ <-]|[_ H]]%lookup_insert_Some; [|by eapply Hcl].
  assert (closedHosts (in_newTrafficMatch (uint16 (Port (T.mcc_Service c))) itp)) as Hnew.
  { unfold in_newTrafficMatch. destruct (ip_TrafficMatches itp !! _) eqn:E; simpl; [by eapply Hcl|].
    intros host r. simpl. by rewrite lookup_empty. }
  destruct (_ || _).
  - destruct (getInboundHTTPRouteConfigs _ _ _); [|by simplify_eq]. by apply closed_inboundHTTP in Htm.
  - destruct (PipyGen.PipyGen.isTCP _); [|by simplify_eq]. by apply go_bind_Ret in Htm as (plugins & _ & [= <-]).
Qed.

Lemma closed_inboundMatches itp l itp' :
  gofold (inboundMatch mc p policy td) itp l = Ret itp' → allClosed itp → allClosed itp'.
Proof.
  intros H Hcl. revert H. apply (gofold_inv (λ _, allClosed)); [done|]. intros l1 x l2 c c' _ Hc (upstream & _ & H)%go_bind_Ret.
  revert H. apply (gofold_inv (λ _, allClosed)); [done|]. intros ?????? Hc0 Hst. by eapply closed_inboundCluster.
Qed.

End closed.

Lemma closed_reorder `{SliceSort} itp : allClosed itp → allClosed (reorderInbound itp).
Proof.
  intros Hcl port m. simpl. rewrite lookup_fmap. intros (x & Hx & ->)%fmap_Some host r. simpl.
  rewrite lookup_fmap. intros Hr. by apply fmap_is_Some, (Hcl port x Hx host).
Qed.

(** ** The services of a proxy *)

Lemma gofold_map {A B C} (f : C → B → go C) (g : A → B) c l : gofold f c (map g l) = gofold (λ c x, f c (g x)) c l.
Proof. revert c. induction l as [|x l IH]; intros c; simpl; [done|]. destruct (f c (g x)); simpl; [apply IH|done]. Qed.

Section services.
Context {MS : MapSet} {MSS : MapSetSpec} (mc : MeshCatalog) (svcs : list MeshService) (svc : MeshService).

Let all := getUpstreamServicesIncludeApex mc svcs.

(** An HTTP service of the proxy that shares its port with no other; no two
    ports of a service lead to the same target port. *)
Record separate : Prop := {
  sep_own : svc ∈ svcs;
  sep_http : Protocol svc = T.ProtocolHTTP;
  sep_plain : ∀ x, x ∈ all → plain x;
  sep_targets : ∀ x y, x ∈ all → y ∈ all →
    Namespace x = Namespace y → Name x = Name y → TargetPort x = TargetPort y → x = y;
  sep_port : ∀ x, x ∈ svcs → x ≠ svc → uint16 (Port x) ≠ uint16 (Port svc) }.

Lemma own_in_all x : x ∈ svcs → x ∈ all.
Proof.
  intros Hx. unfold all. rewrite getUpstreamServicesIncludeApex_uniq, elem_of_uniq, list_elem_of_bind. exists x. split; [by left|done].
Qed.

Context (p : PipyConf) (policy : T.InboundMeshTrafficPolicy) (ts : list TrafficTarget).
Context (Hsep : separate) (Hexact : exactPolicy mc false ts (NewSetFromSlice svcs) all policy)
  (Hinv : inboundInv mc false ts (NewSetFromSlice svcs) all policy).

Lemma policyFor_name x pol : policyFor mc false ts x pol → T.itp_Name pol = PolicyName x false.
Proof. intros (uts & _ & Hg). unfold getInboundTrafficPoliciesForUpstream in Hg. by apply go_bind_Ret in Hg as (hs & _ & [= <-]). Qed.

(** The policy found for the service is its own. *)
Lemma own_policy : ∃ pol, policyFor mc false ts svc pol ∧
  getInboundHTTPRouteConfigs (T.imp_HTTPRouteConfigsPerPort policy) (TargetPort svc) (PolicyName svc false) = Some pol.
Proof.
  destruct Hinv as (_ & _ & _ & Hpol). destruct Hexact as (_ & _ & Honly).
  pose proof (own_in_all svc (sep_own Hsep)) as Hall.
  destruct (Hpol svc Hall) as (pol0 & Hin & Hfor0); [by rewrite (sep_http Hsep)|].
  unfold getInboundHTTPRouteConfigs. specialize (Honly (TargetPort svc)).
  destruct (T.imp_HTTPRouteConfigsPerPort policy !! TargetPort svc) as [configs|]; [|by apply elem_of_nil in Hin]. simpl in *.
  destruct (list_find_elem_of (λ c, T.itp_Name c = PolicyName svc false) configs pol0 Hin (policyFor_name _ _ Hfor0)) as [[i c] Hf].
  rewrite Hf. simpl. apply list_find_Some in Hf as (Hi & Hname & _). exists c. split; [|done].
  destruct (Honly c) as (y & Hy & Hty & Hfor); [by eapply list_elem_of_lookup_2|].
  pose proof (policyFor_name _ _ Hfor) as E. rewrite Hname in E.
  destruct (sep_plain Hsep svc Hall) as ((_ & _ & Hd) & _). destruct (sep_plain Hsep y Hy) as ((_ & _ & Hd') & _).
  destruct (policy_name_inj svc y Hd Hd' E) as [? ?]. by rewrite (sep_targets Hsep svc y).
Qed.

(** Each match is generated from its own cluster. *)
Lemma inboundMatch_own td itp x : x ∈ svcs →
  ∃ upstream, PolicyName upstream false = PolicyName x false ∧ TargetPort upstream = TargetPort x ∧
    inboundMatch mc p policy td itp (matchOf mc x) = inboundCluster mc p policy td (matchOf mc x) upstream itp (clusterOf x).
Proof.
  intros Hx%own_in_all. pose proof (sep_plain Hsep x Hx) as Hp. unfold inboundMatch.
  rewrite (trafficMatchToMeshSvc_name x (matchOf mc x) Hp) by done. eexists. split; [|split; [|cbn [deref mbind go_bind]]]; [done|done|].
  destruct Hexact as (-> & _ & _).
  change (SidecarLocalClusterName _) with (SidecarLocalClusterName x).
  rewrite (getMeshClusterConfigs_own all x); [|..|done|].
  - cbn [gofold]. by destruct (inboundCluster _ _ _ _ _ _ _ _).
  - unfold all. rewrite getUpstreamServicesIncludeApex_uniq. apply NoDup_uniq.
  - intros y Hy E. destruct Hp as ((Hs & _) & _). pose proof (sep_plain Hsep y Hy) as ((Hs' & _) & _).
    apply local_name_inj in E as (? & ? & ?); [|done..]. by apply (sep_targets Hsep).
Qed.

(** The match of the service on a port that has none yet. *)
Definition startMatch : InboundTrafficMatch :=
  setTCPServiceRateLimit (T.tm_RateLimit (matchOf mc svc))
    (in_setPort (uint16 (TargetPort svc)) (in_setProtocol T.ProtocolHTTP emptyInMatch)).

(** All matches are generated, and the one on the port of the service is that
    of its own policy. *)
Lemma own_match td : pc_Inbound p = None → ∃ itp pol tm,
  gofold (inboundMatch mc p policy td) (newInboundTrafficPolicy p) (T.imp_TrafficMatches policy) = Ret itp ∧
  policyFor mc false ts svc pol ∧ inboundHTTP mc p td (matchOf mc svc) pol startMatch = Ret tm ∧
  ip_TrafficMatches itp !! uint16 (Port svc) = Some tm.
Proof.
  intros Hnone. destruct own_policy as (pol & Hfor & Hget).
  destruct (inboundHTTP_total mc p td (matchOf mc svc) svc pol startMatch) as [tm Htm]; [done| |].
  { rewrite (policyFor_name _ _ Hfor). apply PolicyName_nonempty. }
  set (l := List.filter (λ s, Contains s (NewSetFromSlice svcs)) all).
  assert (Hl : ∀ x, x ∈ l ↔ x ∈ svcs).
  { intros x. unfold l. rewrite list_elem_of_In, List.filter_In, <-list_elem_of_In, Contains_spec, bool_decide_eq_true, elems_FromSlice.
    rewrite elem_of_list_to_set. split; [by intros []|]. intros Hx. split; [by apply own_in_all|done]. }
  assert (Hnd : NoDup l).
  { unfold l, all. rewrite getUpstreamServicesIncludeApex_uniq. apply NoDup_ListNoDup, List.NoDup_filter, NoDup_ListNoDup, NoDup_uniq. }
  destruct Hexact as (_ & Hms & _). rewrite Hms, gofold_map. fold l.
  destruct (gofold_run (λ l1 itp, ip_TrafficMatches itp !! uint16 (Port svc) = if decide (svc ∈ l1) then Some tm else None)
    (λ itp x, inboundMatch mc p policy td itp (matchOf mc x)) (newInboundTrafficPolicy p) l) as (itp & Hitp & Hlk).
  - unfold newInboundTrafficPolicy. by rewrite Hnone.
  - intros l1 x l2 itp El IH. rewrite El in Hnd. apply NoDup_app in Hnd as (_ & Hd & _).
    assert (x ∈ svcs) as Hx by (apply Hl; rewrite El; set_solver).
    destruct (inboundMatch_own td itp x Hx) as (upstream & Hpn & Htp & ->). destruct (decide (x = svc)) as [->|Hne].
    + rewrite decide_False in IH by (intros H; apply (Hd svc H); left).
      rewrite (inboundCluster_http mc p td policy (matchOf mc svc) upstream itp svc pol (sep_http Hsep)); [|by rewrite Hpn, Htp|done].
      fold startMatch. change (T.tm_DestinationPort (matchOf mc svc)) with (TargetPort svc). fold startMatch. rewrite Htm. simpl.
      eexists. split; [done|]. simpl. by rewrite lookup_insert_eq, decide_True by set_solver.
    + destruct (inboundCluster_total mc p td policy (matchOf mc x) upstream itp x) as [tm' ->]; [done|].
      eexists. split; [done|]. simpl. rewrite lookup_insert_ne by (by apply (sep_port Hsep)). rewrite IH.
      apply decide_ext. set_solver.
  - exists itp, pol, tm. split; [done|]. split; [done|]. split; [done|]. rewrite Hlk, decide_True; [done|]. apply Hl, (sep_own Hsep).
Qed.

End services.

(** ** The job *)

Section job.
Context {MS : MapSet} {MSS : MapSetSpec} {MR : MapRange} {SS : SliceSort} (mc : MeshCatalog) (spec : MeshConfigSpec).
Context {HM : MeshSpecLaws (meshSpec mc)} {HP : PolicyLaws (policyController mc)}.
Context {E : Type} (hashMatch : T.TrafficMatch → E + Z) (hashCluster : T.EgressClusterConfig → E + Z).
Context (GetEgressSourceSecret : Api.Api.SecretReference → string + gmap string string).
Context (u : K8sServiceAccount) (proxy : Proxy) (svcs : list MeshService) (svc : MeshService).

(** Neither an ingress nor an access control nor an export selects a service. *)
Definition noEdges : Prop := ∀ x, x ∈ svcs → ∃ u1 u2,
  GetIngressTrafficPolicy mc x = Ret (u1, inr None) ∧ GetAccessControlTrafficPolicy mc x = Ret (u2, inr None) ∧
  GetExportTrafficPolicy mc x = inr None.

(** The inbound side, and the names given out by packing. *)
Definition sameInbound (s s' : JobState) : Prop :=
  pc_Inbound (sc_conf s') = pc_Inbound (sc_conf s) ∧ pc_hashNameSet (sc_conf s') = pc_hashNameSet (sc_conf s).

Lemma inboundServices_none s : noEdges → ∃ s', gofold (inboundService mc) s svcs = Ret s' ∧ sc_conf s' = sc_conf s.
Proof.
  intros Hn. apply (gofold_total (λ s', sc_conf s' = sc_conf s)); [done|]. intros c x Hx Hc.
  destruct (Hn x Hx) as (u1 & u2 & H1 & H2 & H3). unfold inboundService. rewrite H1. cbn [mbind go_bind edge].
  rewrite H2. cbn [mbind go_bind edge]. rewrite H3. simpl. by eexists.
Qed.

Record jobReady : Prop := {
  jr_account : dotless u;
  jr_identity : px_Identity proxy = ToServiceIdentity u;
  jr_machine : px_VM proxy = true → is_Some (px_MachineIP proxy);
  jr_smi : IsPermissiveTrafficPolicyMode (configurator mc) = false;
  jr_names : namesConfigured mc;
  jr_separate : separate mc svcs svc;
  jr_edges : noEdges }.

Let ts := ms_ListTrafficTargets (meshSpec mc) [WithTrafficTargetDestination u].

(** The inbound side is generated without a panic. *)
Lemma inbound_spec s : jobReady → pc_Inbound (sc_conf s) = None → ∃ s' itp pol tm,
  inbound mc svcs proxy s = Ret s' ∧ pc_Inbound (sc_conf s') = Some itp ∧
  pc_hashNameSet (sc_conf s') = pc_hashNameSet (sc_conf s) ∧ allClosed itp ∧
  policyFor mc false ts svc pol ∧
  inboundHTTP mc (sc_conf s) (GetTrustDomain mc) (matchOf mc svc) pol (startMatch mc svc) = Ret tm ∧
  ip_TrafficMatches itp !! uint16 (Port svc) = Some tm.
Proof.
  intros [Hu Hid Hvm Hsmi Hnames Hsep Hedges] Hnone. unfold inbound. rewrite Hid. unfold GetInboundMeshTrafficPolicy.
  rewrite Hsmi, (ToK8sServiceAccount_New u Hu). cbn [mbind go_bind]. fold ts.
  set (set := NewSetFromSlice svcs). set (all := getUpstreamServicesIncludeApex mc svcs).
  destruct (gofold_total (λ _, True) (inboundStep mc false ts set) (T.mkInboundMesh [] ∅ []) all) as (policy & Hp & _).
  { done. } { intros c x _ _. destruct (inboundStep_total mc false ts set c x HP Hnames) as [? ?]. eauto. }
  rewrite Hp. cbn [mbind go_bind]. pose proof (inboundLoop_exact mc false ts set all policy Hp) as Hexact.
  pose proof (inboundLoop_inv mc false ts set all policy Hp) as Hinv.
  destruct (own_match mc svcs svc (sc_conf s) policy ts Hsep Hexact Hinv (GetTrustDomain mc) Hnone)
    as (itp & pol & tm & Hg & Hfor & Htm & Hlk).
  unfold generatePipyInboundTrafficPolicy. rewrite Hg. cbn [mbind go_bind].
  destruct (gofold_total (λ itp', ip_TrafficMatches itp' = ip_TrafficMatches itp)
    (λ itp cluster, address ← if px_VM proxy then deref (px_MachineIP proxy) else Ret (T.mcc_Address cluster);
      Ret (in_addEndpoint (T.mcc_Name cluster) address (uint16 (T.mcc_Port cluster)) ClusterWeightAcceptAll itp))
    itp (T.imp_ClustersConfigs policy)) as (itp' & Hg' & Hms); [done| |].
  { intros c cluster _ Hc. destruct (px_VM proxy); [destruct Hvm as [ip ->]; [done|]|]; simpl; by eexists. }
  rewrite Hg'. cbn [mbind go_bind].
  destruct (inboundServices_none (onConf (λ _, setInbound itp' (sc_conf s)) s) Hedges) as (s' & -> & Hs').
  exists s', itp', pol, tm. rewrite Hs'. split; [done|]. split; [done|]. split; [done|]. split; [|by rewrite Hms].
  intros port m. rewrite Hms. apply (closed_inboundMatches _ _ _ _ _ _ _ Hg). unfold newInboundTrafficPolicy. rewrite Hnone.
  intros port' m'. simpl. by rewrite lookup_empty.
Qed.

(** The rest of the job leaves the inbound side alone. *)
Lemma outbound_keeps suffix s s' :
  outbound mc spec hashMatch hashCluster proxy suffix s = Ret s' → sameInbound s s'.
Proof.
  unfold outbound. intros (policy & _ & H)%go_bind_Ret. cbv zeta in H.
  set (s1 := if IsLocalDNSProxyEnabled _ then _ else s) in H. assert (sc_conf s1 = sc_conf s) as E1 by (unfold s1; by destruct (IsLocalDNSProxyEnabled _)).
  apply go_bind_Ret in H as ([p1 depends] & H1 & H). unfold sameInbound. rewrite <-E1.
  assert (pc_Inbound p1 = pc_Inbound (sc_conf s1) ∧ pc_hashNameSet p1 = pc_hashNameSet (sc_conf s1)) as Hp1.
  { unfold generatePipyOutboundTrafficRoutePolicy in H1. destruct (T.omp_TrafficMatches policy); [by simplify_eq|].
    apply go_bind_Ret in H1 as (w & _ & ([otp d] & _ & [= <- <-])%go_bind_Ret). done. }
  case_bool_decide; [by simplify_eq|]. apply go_bind_Ret in H as ([ready p2] & H2 & [= <-]).
  apply go_bind_Ret in H2 as ([r otp] & _ & [= <- <-]). done.
Qed.

Lemma egress_keeps suffix s s' :
  egress mc hashMatch hashCluster GetEgressSourceSecret proxy suffix s = Ret s' → sameInbound s s'.
Proof.
  unfold egress. intros ([e|[policy|]] & _ & H)%go_bind_Ret; [by simplify_eq| |by simplify_eq].
  apply go_bind_Ret in H as ([p1 depends] & H1 & H).
  assert (pc_Inbound p1 = pc_Inbound (sc_conf s) ∧ pc_hashNameSet p1 = pc_hashNameSet (sc_conf s)) as Hp1.
  { unfold generatePipyEgressTrafficRoutePolicy in H1. destruct (T.etp_TrafficMatches policy); [by simplify_eq|].
    apply go_bind_Ret in H1 as ([otp d] & _ & [= <- <-]). done. }
  case_bool_decide; [by simplify_eq|]. apply go_bind_Ret in H as ([ready p2] & H2 & [= <-]).
  apply go_bind_Ret in H2 as ([r otp] & _ & [= <- <-]). done.
Qed.

Lemma forward_keeps s : sameInbound s (forward mc s).
Proof.
  unfold forward. destruct (GetEgressGatewayPolicy mc) as [global|]; [|done].
  unfold generatePipyEgressTrafficForwardPolicy. cbn [egp_Global egp_Rules slice_elems default].
  destruct global; simpl; [done|]. done.
Qed.

(** The whole job: its inbound side is that of [inbound], reordered. *)
Lemma generate_inbound plugins env pretty connected workloads suffix final :
  generate mc spec hashMatch hashCluster GetEgressSourceSecret plugins env pretty connected workloads
    proxy suffix svcs = Ret final →
  ∃ s', inbound mc svcs proxy (initial mc plugins.1.1 plugins.1.2 plugins.2) = Ret s' ∧
    pc_Inbound (sc_conf final) = reorderInbound <$> pc_Inbound (sc_conf s') ∧
    pc_hashNameSet (sc_conf final) = pc_hashNameSet (sc_conf s').
Proof.
  destruct plugins as [[policies chains] retry]. unfold generate.
  intros (s1 & H1 & (s2 & [I2 N2]%outbound_keeps & (s3 & [I3 N3]%egress_keeps & H)%go_bind_Ret)%go_bind_Ret)%go_bind_Ret.
  exists s1. split; [done|]. destruct (forward_keeps s3) as [I4 N4]. set (s4 := forward mc s3) in *. cbv zeta in H.
  apply go_bind_Ret in H as ([warmUpping p4] & Hp4 & H). apply go_bind_Ret in Hp4 as ([? balanced] & _ & [= <- <-]).
  apply go_bind_Ret in H as (p5 & Hp5 & H). apply go_bind_Ret in Hp5 as (otp & _ & [= <-]).
  assert (sc_conf final = mkPipyConf (pc_enablePermissiveTrafficPolicyMode (sc_conf s4)) (reorderInbound <$> pc_Inbound (sc_conf s4)) otp
    (rebalancedForwardClusters <$> pc_Forward (sc_conf s4)) (pc_specs (sc_conf s4)) (pc_pluginPolicies (sc_conf s4)) (pc_hashNameSet (sc_conf s4))) as ->.
  { unfold dnsResolveDB, allowedEndpoints in H. destruct (copyAllowedEndpoints _ _ _ _) as [ready allowed].
    destruct (negb _); [by simplify_eq|]. by apply go_bind_Ret in H as (db & _ & [= <-]). }
  simpl. by rewrite I4, I3, I2, N4, N3, N2.
Qed.

(** Every expression of the routes that TrafficTargets for the account refer
    to is a regular expression. *)
Definition targetPatterns `{RE : RegExp} : Prop := ∀ t rm,
  t ∈ ms_ListTrafficTargets (meshSpec mc) [] → subjectAccount (tt_Destination t) = u →
  rm ∈ routesFromRules mc (tt_Rules t) (tt_Namespace t) → T.Path rm ≠ "" → patternsCompile rm.

(** A TrafficTarget for the account allows the request. *)
Definition targetAllows `{RE : RegExp} (rq : Request) : Prop := ∃ t s rm,
  t ∈ ms_ListTrafficTargets (meshSpec mc) [] ∧ subjectAccount (tt_Destination t) = u ∧ s ∈ tt_Sources t ∧
  rm ∈ routesFromRules mc (tt_Rules t) (tt_Namespace t) ∧ requestFits rm rq ∧
  identityOf rq = ToServiceIdentity (subjectAccount s).

(** C1. The job of a sidecar enforces the TrafficTargets.  Permissive mode is
    off; the service has the protocol http and shares its port with no other
    service of the proxy; no two ports of a service lead to the same target
    port; no ingress, access control or export selects a service of the proxy;
    names are plain and every TrafficTarget for the account of the proxy has a
    source.
    Then the inbound side of the configuration is generated without a panic,
    and in what the job hands over for publication, as it is or packed without
    collisions of hashes, a request with an identity to a host of the service
    gets a route exactly when some TrafficTarget for the account has a source
    with that identity and refers to a match the request fits, and all
    expressions in the matches of those TrafficTargets are regular
    expressions: a single one that is not closes the service.  Nothing else
    the job does, for other services or for outbound traffic, changes this. *)
Theorem job_enforces_traffic_targets `{RE : RegExp} `{SH : StructHash} contains remote rq
    plugins env pretty connected workloads suffix :
  jobReady →
  (∀ t, t ∈ ms_ListTrafficTargets (meshSpec mc) [] → subjectAccount (tt_Destination t) = u → tt_Sources t ≠ []) →
  (∀ hs, GetHostnamesForService (svcTrustDomain mc) svc (GetServiceAccessNames (configurator mc)) true = Ret hs →
     header (rq_headers rq) "host" ∈ hs) →
  identityOf rq ≠ "" →
  (∃ s', inbound mc svcs proxy (initial mc plugins.1.1 plugins.1.2 plugins.2) = Ret s') ∧
  ∀ final conf,
    generate mc spec hashMatch hashCluster GetEgressSourceSecret plugins env pretty connected workloads
      proxy suffix svcs = Ret final →
    conf = sc_conf final ∨ conf = packInbound (sc_conf final) ∧ noCollisions (sc_conf final) →
    ∃ itp m, pc_Inbound conf = Some itp ∧ ip_TrafficMatches itp !! uint16 (Port svc) = Some m ∧
      (admitted (portHandler contains m remote rq) ↔ targetPatterns ∧ targetAllows rq).
Proof.
  intros Hready Hsrc Hhost Hid.
  destruct (inbound_spec (initial mc plugins.1.1 plugins.1.2 plugins.2) Hready eq_refl)
    as (s' & itp & pol & tm & Hin & Hitp & Hnames & Hcl & (uts & Hu & Hpol) & Htm & Hlk). split; [eauto|].
  intros final conf Hgen Hconf. destruct (generate_inbound _ _ _ _ _ _ _ Hgen) as (s1 & Hin1 & Hf & Hn).
  rewrite Hin in Hin1. injection Hin1 as <-. rewrite Hitp in Hf. simpl in Hf.
  assert (Hm : ip_TrafficMatches (reorderInbound itp) !! uint16 (Port svc) = Some (reorderInMatch tm)) by (simpl; by rewrite lookup_fmap, Hlk).
  assert (Ht : ∀ t, t ∈ ts ↔ t ∈ ms_ListTrafficTargets (meshSpec mc) [] ∧ subjectAccount (tt_Destination t) = u)
    by (intros t; apply targets_by_destination, Hready).
  assert (Hnew : newOnPort mc svc ts uts pol (matchOf mc svc) (startMatch mc svc) rq).
  { do 4 (split; [done|]). split; [|done].
    unfold getInboundTrafficPoliciesForUpstream in Hpol. apply go_bind_Ret in Hpol as (hs & Hhs & [= <-]). by apply Hhost. }
  assert (Hdec : admitted (portHandler contains (reorderInMatch tm) remote rq) ↔ targetPatterns ∧ targetAllows rq).
  { destruct (sidecar_enforces_traffic_targets mc contains (sc_conf (initial mc plugins.1.1 plugins.1.2 plugins.2)) svc ts uts pol
      (matchOf mc svc) (startMatch mc svc) remote rq) as (tm' & Htm' & Hiff); [done|by intros t [? ?]%Ht; apply Hsrc|done|].
    rewrite Htm in Htm'. injection Htm' as <-. rewrite Hiff. unfold patternsOf, targetPatterns, targetAllows. setoid_rewrite Ht.
    f_equiv; [naive_solver|]. split.
    - intros (t & x & rm & [? ?] & ? & ? & ? & ?). exists t, x, rm. auto 10.
    - intros (t & x & rm & ? & ? & ? & ? & ? & ?). exists t, x, rm. auto 10. }
  destruct Hconf as [->|[-> Hnc]]; [by exists (reorderInbound itp), (reorderInMatch tm)|].
  destruct (packInbound_routes (sc_conf final) (reorderInbound itp) (uint16 (Port svc)) (reorderInMatch tm)) as (itp' & m' & ? & ? & Hr);
    [done| |by apply closed_reorder|done| |done|].
  - rewrite Hn, Hnames. split; intros h; intros *; simpl; by rewrite lookup_empty.
  - by eapply inbound_known.
  - exists itp', m'. split; [done|]. split; [done|]. by rewrite <-(proj1 (Hr contains remote rq)).
Qed.

End job.

(** ** A proxy with one service *)

#[local] Existing Instance gset_MapSet.
#[local] Existing Instance gset_MapSetSpec.
#[local] Existing Instance trie_range.
#[local] Existing Instance CidrFacts.CidrFacts.insertion_SliceSort.

Definition demoProxy : Proxy := mkProxy "cart.shop" false None "".

Lemma demo_ready : jobReady (demoCatalog false) (mkSA "shop" "cart") demoProxy [demoCart] demoCart.
Proof.
  assert (Hall : getUpstreamServicesIncludeApex (demoCatalog false) [demoCart] = [demoCart]) by (vm_compute; reflexivity).
  split; [by apply demo_dotless|done|done|done|apply demo_names| |].
  - split; rewrite ?Hall; [by left|done| | |by intros x ->%list_elem_of_singleton].
    + intros x ->%list_elem_of_singleton. by repeat split.
    + by intros x y ->%list_elem_of_singleton ->%list_elem_of_singleton.
  - intros x ->%list_elem_of_singleton. by exists [], [].
Qed.

Definition demoEnv : WarmupEnv := mkWarmupEnv (λ _, None) [] (λ _ _, 0) (λ _ _ _, 0%N).

Definition demoJob : go JobState :=
  generate (demoCatalog false) zeroSpec (λ _, inr 0 : string + Z) (λ _, inr 0) (λ _, inl "") (mkPluginPolicies ∅ ∅, ∅, false)
    demoEnv false (λ _, None) [] demoProxy "shop.svc.cluster.local" [demoCart].

Lemma demo_job : match demoJob with Ret final => singleInbound (sc_conf final) | Panic => false end = true.
Proof. vm_compute. reflexivity. Qed.

Lemma demo_targets : ms_ListTrafficTargets (meshSpec (demoCatalog false)) [] = [demoTarget].
Proof. vm_compute. reflexivity. Qed.

Lemma job_enforces_traffic_targets_witness :
  ∃ final itp m, demoJob = Ret final ∧ pc_Inbound (@packInbound trie_range encodeHash (sc_conf final)) = Some itp ∧
    ip_TrafficMatches itp !! 80 = Some m ∧
    admitted (@portHandler demoRegExp (λ _ _, false) m "10.0.0.9" (demoRequest "web.shop")).
Proof.
  pose proof demo_job as Hf. destruct demoJob as [final|] eqn:Hjob; [|discriminate Hf].
  destruct (@job_enforces_traffic_targets _ _ trie_range CidrFacts.CidrFacts.insertion_SliceSort (demoCatalog false) zeroSpec _ _
    string (λ _, inr 0) (λ _, inr 0) (λ _, inl "") (mkSA "shop" "cart") demoProxy [demoCart] demoCart demoRegExp encodeHash
    (λ _ _, false) "10.0.0.9" (demoRequest "web.shop") (mkPluginPolicies ∅ ∅, ∅, false) demoEnv false (λ _, None) []
    "shop.svc.cluster.local") as [_ Hdec].
  - apply demo_ready.
  - intros t Ht _ Hs. rewrite demo_targets in Ht. apply list_elem_of_singleton in Ht as ->. discriminate Hs.
  - intros hs Hhs. vm_compute in Hhs. injection Hhs as <-. apply (bool_decide_eq_true_1 _). vm_compute. reflexivity.
  - done.
  - destruct (Hdec final _ Hjob (or_intror (conj eq_refl (single_noCollisions _ Hf)))) as (itp & m & ? & ? & Hiff).
    exists final, itp, m. split; [done|]. split; [done|]. split; [done|]. apply Hiff.
    split; [intros t rm _ _ _ _; by split; intros; eexists|].
    exists demoTarget, (mkSubject "ServiceAccount" "web" "shop"), demoRoute. rewrite demo_targets.
    split; [by left|]. split; [done|]. split; [by left|]. split; [by apply demo_route; left|]. split; [apply demo_fits|done].
Defined.

(** Two ports of a service with one target port: the policy is looked up by
    name and target port, so both ports get the hosts of the first, and a
    request to [cart.shop:81] finds no rules. *)
Lemma shared_target_port_loses_hosts :
  let second := mkMeshService "shop" "cart" 81 8080 "http" "" "" "" in
  ∃ s itp m, inbound (demoCatalog false) [demoCart; second] demoProxy
      (initial (demoCatalog false) (mkPluginPolicies ∅ ∅) ∅ false) = Ret s ∧
    pc_Inbound (sc_conf s) = Some itp ∧ ip_TrafficMatches itp !! 81 = Some m ∧
    im_HTTPHostPort2Service m !! "cart.shop:81" = None ∧ is_Some (im_HTTPHostPort2Service m !! "cart.shop:80").
Proof. do 3 eexists. vm_compute. eauto 10. Qed.

End PipyJobsFacts.
