(* ===== verification/PipyRepo.v ===== *)
(** * The repository of codebases: pipy/client/client.go and publishSidecarConf

    The client talks HTTP to the Pipy repository, a separate program.  That
    program is an argument: what it answers to a request may depend on all
    requests before, so no assumption about it is built in.  Functions thread
    the trace of requests and answers.  Errors carry no data that is read and
    are booleans. *)

From S2P Require Import Prelude.

Module PipyRepo.

#[local] Open Scope Z_scope.

Definition uint64 (n : Z) : Z := n `mod` 2 ^ 64.

(** ** HTTP *)

(** The fields of a Codebase that are read or written. *)
Record Codebase := mkCodebase { cb_Version : string; cb_Base : string }.

Inductive Request :=
  | GetRepo (name : string)
  | PostRepo (name : string) (body : Codebase)
  | PatchRepo (name : string) (version : string)
  | DeleteRepo (name : string)
  | PostFile (path content : string)
  | DeleteFile (path : string).

(** No answer, or a status with the codebase the body decodes to. *)
Inductive Response := NoAnswer | Status (code : Z) (body : Codebase).

Abbreviation Trace := (list (Request * Response)) (only parsing).

(** [resp.IsSuccess()] *)
Definition IsSuccess (r : Response) : bool :=
  match r with NoAnswer => false | Status code _ => bool_decide (200 ≤ code ≤ 299) end.

(** [strconv.ParseUint(s, 10, 64)] *)
Fixpoint parseUint64 (s : string) (acc : Z) : option Z :=
  match s with
  | EmptyString => Some acc
  | String a s' =>
      if is_digit a then
        let n := acc * 10 + (Z.of_nat (nat_of_ascii a) - 48) in
        if bool_decide (2 ^ 64 ≤ n) then None else parseUint64 s' n
      else None
  end.
Definition ParseUint64 (s : string) : option Z := if bool_decide (s = "") then None else parseUint64 s 0.

(** [strings.TrimPrefix] *)
Definition TrimPrefix (s prefix : string) : string :=
  if String.prefix prefix s then String.substring (String.length prefix) (String.length s - String.length prefix) s else s.

Section client.
Context (server : Trace → Request → Response).

Definition send (r : Request) (tr : Trace) : Trace * Response :=
  let resp := server tr r in (tr ++ [(r, resp)], resp).

(** ** client.go *)

(** Success, the codebase or nil, and whether there was an error. *)
Abbreviation Found := (bool * option Codebase * bool)%type (only parsing).

Definition codebaseExists (codebaseName : string) (tr : Trace) : Trace * Found :=
  let '(tr, resp) := send (GetRepo codebaseName) tr in
  (tr, match resp with
       | NoAnswer => (false, None, true)
       | Status code cb => (true, if bool_decide (code = 200) then Some cb else None, false)
       end).

(** The same body. *)
Definition GetCodebase (codebaseName : string) (tr : Trace) : Trace * Found := codebaseExists codebaseName tr.

Definition createCodebase (version codebaseName : string) (tr : Trace) : Trace * Found :=
  let '(tr, resp) := send (PostRepo codebaseName (mkCodebase version "")) tr in
  match resp with
  | NoAnswer => (tr, (false, None, true))
  | Status code _ =>
      if bool_decide (code = 200 ∨ code = 201) then GetCodebase codebaseName tr else (tr, (false, None, true))
  end.

Definition deriveCodebase (codebaseName base : string) (version : Z) (tr : Trace) : Trace * Found :=
  let '(tr, resp) := send (PostRepo codebaseName (mkCodebase (pretty version) base)) tr in
  match resp with
  | NoAnswer => (tr, (false, None, true))
  | Status code _ =>
      if bool_decide (code = 200 ∨ code = 201) then GetCodebase codebaseName tr else (tr, (true, None, true))
  end.

(** A request whose answer is only checked: success and error. *)
Definition checked (r : Request) (tr : Trace) : Trace * (bool * bool) :=
  let '(tr, resp) := send r tr in (tr, (IsSuccess resp, negb (IsSuccess resp))).

Definition upsertFile (path content : string) (tr : Trace) : Trace * (bool * bool) := checked (PostFile path content) tr.
Definition Delete (codebaseName : string) (tr : Trace) : Trace * (bool * bool) := checked (DeleteRepo codebaseName) tr.
Definition deleteFile (fileName : string) (tr : Trace) : Trace * (bool * bool) := checked (DeleteFile fileName) tr.

Definition commit (codebaseName version : string) (tr : Trace) : Trace * (bool * bool) :=
  match ParseUint64 version with
  | None => (tr, (false, true))
  | Some etag => checked (PatchRepo codebaseName (pretty (uint64 (etag + 1)))) tr
  end.

Record BatchItem := mkItem { bi_Obsolete : bool; bi_Path : string; bi_Filename : string; bi_Content : string }.
Record Batch := mkBatch { bt_Basepath : string; bt_Items : list BatchItem }.

(** The upload of a batch's items: whether it ended early, with its results. *)
Fixpoint uploadItems (base : string) (items : list BatchItem) (tr : Trace) : Trace * option (bool * bool) :=
  match items with
  | [] => (tr, None)
  | item :: rest =>
      let fullPath := base +:+ bi_Path item +:+ "/" +:+ bi_Filename item in
      if bi_Obsolete item then
        let '(tr, _) := deleteFile fullPath tr in uploadItems base rest tr
      else
        let '(tr, (success, err)) := upsertFile fullPath (bi_Content item) tr in
        if err || negb success then (tr, Some (success, err)) else uploadItems base rest tr
  end.

(** One batch: its results, and whether the function returns there. *)
Definition batchStep (version : string) (b : Batch) (tr : Trace) : Trace * (bool * bool * bool) :=
  let '(tr, (success, codebase, err)) := codebaseExists (bt_Basepath b) tr in
  if err : bool then (tr, (success, err, true))
  else
    let '(tr, (success, codebase, err)) :=
      match codebase with
      | Some _ => (tr, (success, codebase, err))
      | None => createCodebase version (bt_Basepath b) tr
      end in
    if err || negb success || bool_decide (codebase = None) then (tr, (success, err, true))
    else match uploadItems (bt_Basepath b) (bt_Items b) tr with
         | (tr, Some (success, err)) => (tr, (success, err, true))
         | (tr, None) =>
             let '(tr, (success, err)) := commit (bt_Basepath b) version tr in
             (tr, (success, err, err || negb success))
         end.

Fixpoint batches (version : string) (bs : list Batch) (res : bool * bool) (tr : Trace) : Trace * (bool * bool) :=
  match bs with
  | [] => (tr, res)
  | b :: rest =>
      let '(tr, (success, err, stop)) := batchStep version b tr in
      if stop : bool then (tr, (success, err)) else batches version rest (success, err) tr
  end.

Definition Batch_ (version : string) (bs : list Batch) (tr : Trace) : Trace * (bool * bool) :=
  batches version bs (false, false) tr.

(** [Restore] uploads the base codebase again; its error is only logged.  A
    codebase that was derived but then not found is dereferenced. *)
Definition DeriveCodebase (Restore : option (Trace → Trace)) (codebaseName base : string) (version : Z) (tr : Trace)
    : go (Trace * (bool * bool)) :=
  let baseCodebase := TrimPrefix base "/" in
  let '(tr, (success, codebase, err)) := codebaseExists baseCodebase tr in
  if err || negb success || bool_decide (codebase = None) then
    Ret (match Restore with
         | None => tr
         | Some restore =>
             let '(tr, (success, codebase, err)) := codebaseExists baseCodebase tr in
             if err || negb success || bool_decide (codebase = None) then restore tr else tr
         end, (false, err))
  else
    let '(tr, (success, codebase, err)) := codebaseExists codebaseName tr in
    if err || negb success then Ret (tr, (false, err))
    else match codebase with
    | Some _ => Ret (tr, (success, err))
    | None =>
        let '(tr, (success, codebase, err)) := deriveCodebase codebaseName base version tr in
        if err : bool then Ret (tr, (false, err))
        else
          cb ← deref codebase;
          let '(tr, (success, err)) := commit codebaseName (cb_Version cb) tr in
          Ret (tr, (success && negb err, err))
    end.

(** ** publishSidecarConf (jobs.go)

    [hash] is the hash of the configuration, [content] its encoding, nil
    where one of the two fails. *)

Definition fsmCodebaseConfig : string := "config.json".
Definition fsmCodebaseConfigGz : string := "config.json.gz".

(** Plain or compressed; the other file is obsolete. *)
Definition marshal (compress : bool) (content : option string) : option (list BatchItem) :=
  (λ c, if compress then [mkItem false "" fsmCodebaseConfigGz c; mkItem true "" fsmCodebaseConfig ""]
        else [mkItem false "" fsmCodebaseConfig c; mkItem true "" fsmCodebaseConfigGz ""]) <$> content.

Definition publishSidecarConf (Restore : option (Trace → Trace)) (codebase base : string) (hash : option Z)
    (compress : bool) (content : option string) (ETag : Z) (tr : Trace) : go (Trace * Z) :=
  match hash with
  | None => Ret (tr, ETag)
  | Some codebaseCurV =>
      if bool_decide (codebaseCurV = ETag) then Ret (tr, ETag)
      else
        '(tr, (success, err)) ← DeriveCodebase Restore codebase base (uint64 (codebaseCurV - 2)) tr;
        let '(tr, err) :=
          if success : bool then
            match marshal compress content with
            | None => (tr, true)
            | Some items =>
                let '(tr, (_, err)) := Batch_ (pretty (uint64 (codebaseCurV - 1))) [mkBatch codebase items] tr in (tr, err)
            end
          else (tr, err) in
        if err || negb success then Ret ((Delete codebase tr).1, ETag) else Ret (tr, codebaseCurV)
  end.

End client.

End PipyRepo.
