(* ===== verification/PipyRepoFacts.v ===== *)
(** * Facts about publishing a configuration

    When the tag of a proxy changes the configuration was uploaded and
    committed under its hash, unless the repository did not find a codebase it
    had just created; when something fails the codebase is deleted and the tag
    stays. *)

From S2P Require Import Prelude Providers ProvidersFacts PipyRepo.
Import ProvidersFacts.ProvidersFacts PipyRepo.PipyRepo.

Module PipyRepoFacts.

#[local] Open Scope Z_scope.

(** ** Versions *)

Lemma parseUint64_pretty_N_go (n : N) s :
  Z.of_N n < 2 ^ 64 → parseUint64 (pretty_N_go n s) 0 = parseUint64 s (Z.of_N n).
Proof.
  revert s. induction (N.lt_wf_0 n) as [n _ IH]; intros s Hn.
  destruct (decide (0 < n)%N) as [Hpos|]; [|by assert (n = 0%N) as -> by lia].
  rewrite pretty_N_go_step by done. assert (n `div` 10 < n)%N by (by apply N.div_lt).
  rewrite IH by (done || lia). simpl. destruct (digit_char (n `mod` 10)) as [-> ->]; [by apply N.mod_lt|].
  assert (Z.of_N (n `div` 10) * 10 + Z.of_N (n `mod` 10) = Z.of_N n) as ->.
  { pose proof (N.div_mod n 10 ltac:(done)). lia. }
  by rewrite bool_decide_eq_false_2 by lia.
Qed.

Lemma ParseUint64_pretty (w : Z) : 0 ≤ w < 2 ^ 64 → ParseUint64 (pretty w) = Some w.
Proof.
  intros Hw. unfold ParseUint64. destruct w as [|p|p]; [done| |lia].
  change (pretty (Z.pos p)) with (pretty_N (N.pos p)). unfold pretty_N. rewrite decide_False by done.
  pose proof (parseUint64_pretty_N_go (N.pos p) "" ltac:(lia)) as E.
  case_bool_decide as He; [rewrite He in E; done|]. by rewrite E.
Qed.

(** The version a commit ends with is the hash again. *)
Lemma version_roundtrip h : 0 ≤ h < 2 ^ 64 → uint64 (uint64 (h - 1) + 1) = h.
Proof.
  intros Hh. unfold uint64. rewrite Zplus_mod_idemp_l. replace (h - 1 + 1) with h by lia. by apply Z.mod_small.
Qed.

(** ** The client *)

Section client.
Context (server : Trace → Request → Response).

(** The repository accepted a new codebase and then did not find it. *)
Definition vanished (name : string) (tr tr' : Trace) : Prop := ∃ body code b code' b',
  (code = 200 ∨ code = 201) ∧ server tr (PostRepo name body) = Status code b ∧
  server (tr ++ [(PostRepo name body, Status code b)]) (GetRepo name) = Status code' b' ∧ code' ≠ 200 ∧
  tr' = tr ++ [(PostRepo name body, Status code b); (GetRepo name, Status code' b')].

(** A codebase that was created is found. *)
Definition consistent : Prop := ∀ tr name body code b,
  server tr (PostRepo name body) = Status code b → code = 200 ∨ code = 201 →
  ∃ cb, server (tr ++ [(PostRepo name body, Status code b)]) (GetRepo name) = Status 200 cb.

Lemma consistent_found name tr tr' : consistent → ¬ vanished name tr tr'.
Proof.
  intros Hs (body & code & b & code' & b' & Hc & H1 & H2 & Hne & _). destruct (Hs tr name body code b H1 Hc) as [cb E].
  rewrite H2 in E. congruence.
Qed.

Lemma codebaseExists_result name tr tr' success codebase err :
  codebaseExists server name tr = (tr', (success, codebase, err)) →
  success = negb err ∧ (err = true → codebase = None).
Proof. unfold codebaseExists, send. destruct (server _ _); intros [= <- <- <- <-]; done. Qed.

Lemma GetCodebase_created tr name body code b tr' success codebase err :
  server tr (PostRepo name body) = Status code b → code = 200 ∨ code = 201 →
  GetCodebase server name (tr ++ [(PostRepo name body, Status code b)]) = (tr', (success, codebase, err)) →
  err = true ∨ err = false ∧ success = true ∧ (is_Some codebase ∨ codebase = None ∧ vanished name tr tr').
Proof.
  intros Hs Hc. unfold GetCodebase, codebaseExists, send. destruct (server _ (GetRepo name)) as [|code' b'] eqn:E; intros [= <- <- <- <-]; [by left|].
  right. split; [done|]. split; [done|]. case_bool_decide as H2; [by left; eexists|right]. split; [done|].
  exists body, code, b, code', b'. do 4 (split; [done|]). by rewrite <-app_assoc.
Qed.

Lemma createCodebase_ok version name tr tr' success codebase err :
  createCodebase server version name tr = (tr', (success, codebase, err)) → err = false →
  success = true ∧ (is_Some codebase ∨ codebase = None ∧ vanished name tr tr').
Proof.
  unfold createCodebase, send. destruct (server tr _) as [|code b] eqn:E; [by intros [= <- <- <- <-]|].
  case_bool_decide as Hc; [|by intros [= <- <- <- <-]]. intros H ->.
  by destruct (GetCodebase_created _ _ _ _ _ _ _ _ _ E Hc H) as [?|(_ & ? & ?)].
Qed.

Lemma deriveCodebase_ok name base version tr tr' success codebase err :
  deriveCodebase server name base version tr = (tr', (success, codebase, err)) → err = false →
  is_Some codebase ∨ codebase = None ∧ vanished name tr tr'.
Proof.
  unfold deriveCodebase, send. destruct (server tr _) as [|code b] eqn:E; [by intros [= <- <- <- <-]|].
  case_bool_decide as Hc; [|by intros [= <- <- <- <-]]. intros H ->.
  by destruct (GetCodebase_created _ _ _ _ _ _ _ _ _ E Hc H) as [?|(_ & _ & ?)].
Qed.

(** Deriving panics only if the codebase vanished. *)
Lemma DeriveCodebase_total Restore name base version tr :
  DeriveCodebase server Restore name base version tr = Panic → ∃ tr0 tr1, vanished name tr0 tr1.
Proof.
  unfold DeriveCodebase. destruct (codebaseExists server _ tr) as [tr1 [[s1 c1] e1]] eqn:E1.
  destruct (e1 || negb s1 || bool_decide (c1 = None)); [done|].
  destruct (codebaseExists server name tr1) as [tr2 [[s2 c2] e2]] eqn:E2. destruct (e2 || negb s2); [done|].
  destruct c2; [done|]. destruct (deriveCodebase server _ _ _ _) as [tr3 [[s3 c3] e3]] eqn:E3.
  destruct e3; [done|]. destruct (deriveCodebase_ok _ _ _ _ _ _ _ _ E3 eq_refl) as [[cb ->]|[_ ?]]; [simpl|by eauto].
  by destruct (commit _ _ _ _) as [tr4 [s4 e4]].
Qed.

(** A commit without error sent the next version and was accepted. *)
Lemma commit_ok name version tr tr' success err :
  commit server name version tr = (tr', (success, err)) → err = false →
  ∃ etag r, ParseUint64 version = Some etag ∧ IsSuccess r = true ∧
    tr' = tr ++ [(PatchRepo name (pretty (uint64 (etag + 1))), r)].
Proof.
  unfold commit, checked, send. destruct (ParseUint64 version) as [etag|]; [|by intros [= <- <- <-]].
  intros [= <- <- <-] H. apply negb_false_iff in H. eauto.
Qed.

Lemma uploadItems_stop base items tr tr' success err :
  uploadItems server base items tr = (tr', Some (success, err)) → err = true.
Proof.
  revert tr. induction items as [|item items IH]; intros tr; simpl; [done|].
  destruct (bi_Obsolete item); [apply IH|]. unfold upsertFile, checked, send.
  destruct (IsSuccess _) eqn:E; simpl; [apply IH|]. by intros [= _ _ <-].
Qed.

(** The two files of a configuration. *)
Lemma uploadItems_config base c f g tr tr' :
  uploadItems server base [mkItem false "" f c; mkItem true "" g ""] tr = (tr', None) →
  ∃ r r', IsSuccess r = true ∧ tr' = tr ++ [(PostFile (base +:+ "/" +:+ f) c, r); (DeleteFile (base +:+ "/" +:+ g), r')].
Proof.
  simpl. unfold upsertFile, deleteFile, checked, send. destruct (IsSuccess _) eqn:E; simpl; [|done].
  intros [= <-]. eexists _, _. split; [exact E|]. by rewrite <-app_assoc.
Qed.

Lemma batchStep_ok version b tr tr' success err stop :
  batchStep server version b tr = (tr', (success, err, stop)) → err = false →
  (∃ tr0 tr1 etag r, uploadItems server (bt_Basepath b) (bt_Items b) tr0 = (tr1, None) ∧
    ParseUint64 version = Some etag ∧ IsSuccess r = true ∧
    tr' = tr1 ++ [(PatchRepo (bt_Basepath b) (pretty (uint64 (etag + 1))), r)]) ∨
  ∃ tr0, vanished (bt_Basepath b) tr0 tr'.
Proof.
  intros H ->. unfold batchStep in H. destruct (codebaseExists server _ tr) as [tr0 [[s0 c0] e0]] eqn:E0.
  destruct (codebaseExists_result _ _ _ _ _ _ E0) as [-> Hc0]. destruct e0; [done|].
  assert ((∃ tr1 c1, match c0 with Some _ => (tr0, (negb false, c0, false)) | None => createCodebase server version (bt_Basepath b) tr0 end
    = (tr1, (true, Some c1, false))) ∨ vanished (bt_Basepath b) tr0 tr') as [(tr1 & c1 & E1)|?]; [|rewrite E1 in H; simpl in H|right; eauto].
  { destruct c0 as [c0|]; [left; eauto|]. destruct (createCodebase _ _ _ _) as [tr1 [[s1 c1] e1]] eqn:E1.
    destruct e1; [simpl in H; by simplify_eq|].
    destruct (createCodebase_ok _ _ _ _ _ _ _ E1 eq_refl) as [-> [[? ->]|[-> Hv]]]; [left; eauto|right]. simpl in H. by simplify_eq. }
  left. destruct (uploadItems server _ _ _) as [tr2 [[s2 e2]|]] eqn:E2.
  - apply uploadItems_stop in E2 as ->. done.
  - destruct (commit server _ _ _) as [tr3 [s3 e3]] eqn:E3. injection H as <- <- -> <-.
    destruct (commit_ok _ _ _ _ _ _ E3 eq_refl) as (etag & r & ? & ? & ->). eauto 10.
Qed.

Lemma Batch_single version b tr : ∃ stop,
  batchStep server version b tr = ((Batch_ server version [b] tr).1, ((Batch_ server version [b] tr).2.1, (Batch_ server version [b] tr).2.2, stop)).
Proof. unfold Batch_. simpl. destruct (batchStep _ _ _ _) as [tr' [[s e] stop]]. exists stop. by destruct stop. Qed.

(** The configuration was uploaded and its version committed, last. *)
Definition uploaded (codebase : string) (compress : bool) (content : option string) (h : Z) (tr' : Trace) : Prop :=
  ∃ c tr0 r r1 r2, content = Some c ∧ IsSuccess r = true ∧ IsSuccess r2 = true ∧
    tr' = tr0 ++ [(PostFile (codebase +:+ "/" +:+ if compress then fsmCodebaseConfigGz else fsmCodebaseConfig) c, r);
                  (DeleteFile (codebase +:+ "/" +:+ if compress then fsmCodebaseConfig else fsmCodebaseConfigGz), r1);
                  (PatchRepo codebase (pretty h), r2)].

(** The last request deletes the codebase. *)
Definition withdrawn (codebase : string) (tr' : Trace) : Prop := ∃ tr0 r, tr' = tr0 ++ [(DeleteRepo codebase, r)].

Lemma publication_outcomes Restore codebase base h compress content ETag tr :
  0 ≤ h < 2 ^ 64 →
  match publishSidecarConf server Restore codebase base (Some h) compress content ETag tr with
  | Panic => h ≠ ETag ∧ ∃ tr0 tr1, vanished codebase tr0 tr1
  | Ret (tr', ETag') =>
      (h = ETag → tr' = tr ∧ ETag' = ETag) ∧
      (h ≠ ETag →
        (ETag' = h ∧ uploaded codebase compress content h tr') ∨
        (ETag' = ETag ∧ withdrawn codebase tr') ∨
        (ETag' = h ∧ ∃ tr0, vanished codebase tr0 tr'))
  end.
Proof.
  intros Hh. unfold publishSidecarConf. case_bool_decide as He; [done|].
  destruct (DeriveCodebase server Restore codebase base (uint64 (h - 2)) tr) as [[tr1 [success err]]|] eqn:Ed; simpl;
    [|split; [done|by eapply DeriveCodebase_total]].
  assert (Hdel : ∀ t, withdrawn codebase (Delete server codebase t).1).
  { intros t. unfold Delete, checked, send, withdrawn. simpl. eauto. }
  destruct success; [|simpl; rewrite orb_true_r; naive_solver].
  destruct content as [c|]; [|simpl; naive_solver]. simpl. set (items := if compress then _ else _).
  destruct (Batch_single (pretty (uint64 (h - 1))) (mkBatch codebase items) tr1) as [stop Hb].
  destruct (Batch_ server _ _ tr1) as [tr2 [s2 e2]]. simpl in Hb. destruct e2; [simpl; naive_solver|]. simpl.
  split; [done|]. intros _.
  destruct (batchStep_ok _ _ _ _ _ _ _ Hb eq_refl) as [(tr3 & tr4 & etag & r2 & Hu & Hp & Hr2 & ->)|Hv]; [left|by right; right].
  split; [done|].
  rewrite ParseUint64_pretty in Hp by (unfold uint64; apply Z.mod_pos_bound; lia). injection Hp as <-. rewrite version_roundtrip by done.
  exists c, tr3. destruct compress; destruct (uploadItems_config _ _ _ _ _ _ Hu) as (r & r1 & Hr & ->);
    exists r, r1, r2; (do 3 (split; [done|])); by rewrite <-app_assoc.
Qed.

(** C23. What a publication leaves behind, whatever the repository answers.
    Nothing is sent if the hash is the proxy's tag.  Otherwise either the tag
    is the new hash, and then the encoded configuration was uploaded and after
    that a commit of exactly this version was accepted; or the tag is
    unchanged and the last request deletes the codebase; or the last requests
    created the codebase and did not find it, and the tag is the new hash
    although nothing was uploaded.  The job panics only if the repository does
    not find a codebase it has just accepted. *)
Theorem publish_outcomes Restore codebase base h compress content ETag tr :
  0 ≤ h < 2 ^ 64 →
  match publishSidecarConf server Restore codebase base (Some h) compress content ETag tr with
  | Panic => h ≠ ETag ∧ ∃ tr0 tr1, vanished codebase tr0 tr1
  | Ret (tr', ETag') =>
      (h = ETag → tr' = tr ∧ ETag' = ETag) ∧
      (h ≠ ETag →
        (ETag' = h ∧ uploaded codebase compress content h tr') ∨
        (ETag' = ETag ∧ withdrawn codebase tr') ∨
        (ETag' = h ∧ ∃ tr0, vanished codebase tr0 tr'))
  end.
Proof. apply publication_outcomes. Qed.

(** A repository that finds what it created: no panic, and the tag is the
    new hash exactly when the configuration was uploaded. *)
Lemma publication_spec Restore codebase base h compress content ETag tr :
  consistent → 0 ≤ h < 2 ^ 64 →
  ∃ tr' ETag', publishSidecarConf server Restore codebase base (Some h) compress content ETag tr = Ret (tr', ETag') ∧
  (h = ETag → tr' = tr ∧ ETag' = ETag) ∧
  (h ≠ ETag → (ETag' = h ∧ uploaded codebase compress content h tr') ∨ (ETag' = ETag ∧ withdrawn codebase tr')).
Proof.
  intros Hs Hh. pose proof (publication_outcomes Restore codebase base h compress content ETag tr Hh) as H.
  destruct (publishSidecarConf _ _ _ _ _ _ _ _ _) as [[tr' ETag']|].
  - exists tr', ETag'. split; [done|]. split; [apply H|]. intros Hne.
    destruct (proj2 H Hne) as [?|[?|(_ & tr0 & Hv)]]; [by left|by right|by destruct (consistent_found _ _ _ Hs Hv)].
  - destruct H as (_ & tr0 & tr1 & Hv). by destruct (consistent_found _ _ _ Hs Hv).
Qed.

(** A publication that fails is not repaired when the configuration goes
    back to what it was: the codebase was deleted, but the tag is still that
    of the old configuration, so publishing it again sends nothing. *)
Theorem failed_publish_is_final Restore codebase base h0 h1 compress content content' tr tr' :
  consistent → 0 ≤ h1 < 2 ^ 64 → h1 ≠ h0 →
  publishSidecarConf server Restore codebase base (Some h1) compress content h0 tr = Ret (tr', h0) →
  withdrawn codebase tr' ∧
  publishSidecarConf server Restore codebase base (Some h0) compress content' h0 tr' = Ret (tr', h0).
Proof.
  intros Hs Hh Hne Hp. destruct (publication_spec Restore codebase base h1 compress content h0 tr Hs Hh) as (t & e & Hp' & _ & Ho).
  rewrite Hp in Hp'. injection Hp' as <- <-. split.
  - destruct (Ho Hne) as [[? _]|[_ ?]]; [congruence|done].
  - unfold publishSidecarConf. by rewrite bool_decide_eq_true_2.
Qed.

End client.

(** ** Witnesses *)

Definition demoServer (failing : bool) : Trace → Request → Response := λ _ r,
  match r with
  | PostFile _ _ => if failing then NoAnswer else Status 201 (mkCodebase "" "")
  | _ => Status 200 (mkCodebase "3" "")
  end.

Lemma demoServer_consistent failing : consistent (demoServer failing).
Proof. intros tr name body code b _ _. by eexists. Qed.

(** One that accepts new codebases and does not find them. *)
Definition forgetfulServer : Trace → Request → Response := λ _ r,
  match r with
  | GetRepo "fsm-sidecar/x" => Status 404 (mkCodebase "" "")
  | _ => Status 200 (mkCodebase "3" "")
  end.

Lemma publish_outcomes_witness :
  (∃ tr', publishSidecarConf (demoServer false) None "fsm-sidecar/x" "/fsm-base" (Some 7) false (Some "{}") 5 [] = Ret (tr', 7) ∧
    (uploaded "fsm-sidecar/x" false (Some "{}") 7 tr' ∨ ∃ tr0, vanished (demoServer false) "fsm-sidecar/x" tr0 tr')) ∧
  ∃ tr0 tr1, vanished forgetfulServer "fsm-sidecar/x" tr0 tr1.
Proof.
  split.
  - pose proof (publish_outcomes (demoServer false) None "fsm-sidecar/x" "/fsm-base" 7 false (Some "{}") 5 [] ltac:(lia)) as H.
    assert (∃ tr', publishSidecarConf (demoServer false) None "fsm-sidecar/x" "/fsm-base" (Some 7) false (Some "{}") 5 [] = Ret (tr', 7))
      as [tr' E] by (eexists; vm_compute; reflexivity).
    rewrite E in H. exists tr'. split; [exact E|]. destruct H as [_ H].
    destruct H as [[_ H]|[[E' _]|[_ H]]]; [lia|by left|lia|by right].
  - pose proof (publish_outcomes forgetfulServer None "fsm-sidecar/x" "/fsm-base" 7 false (Some "{}") 5 [] ltac:(lia)) as H.
    assert (publishSidecarConf forgetfulServer None "fsm-sidecar/x" "/fsm-base" (Some 7) false (Some "{}") 5 [] = Panic)
      as E by (vm_compute; reflexivity). rewrite E in H. exact (proj2 H).
Defined.

Lemma failed_publish_is_final_witness :
  ∃ tr', publishSidecarConf (demoServer true) None "fsm-sidecar/x" "/fsm-base" (Some 7) false (Some "{}") 5 [] = Ret (tr', 5) ∧
  withdrawn "fsm-sidecar/x" tr' ∧
  publishSidecarConf (demoServer true) None "fsm-sidecar/x" "/fsm-base" (Some 5) false (Some "{}") 5 tr' = Ret (tr', 5).
Proof.
  eexists. split; [vm_compute; reflexivity|].
  apply (failed_publish_is_final (demoServer true) None "fsm-sidecar/x" "/fsm-base" 5 7 false
    (Some "{}") (Some "{}") []); [apply demoServer_consistent|lia|lia|vm_compute; reflexivity].
Defined.

End PipyRepoFacts.
