(* ===== verification/PipyCerts.v ===== *)
(** * The certificate of a sidecar: [certs] of pipy/repo/jobs.go

    A sidecar without a certificate, or whose certificate is due, gets one
    issued: the job asks the certificate manager every five seconds until it
    has one that is not due itself.  Each round has the environments of its
    two calls, for issuing and for the check; fuel bounds the rounds that are
    looked at. *)

From S2P Require Import Prelude Announcements Identity Service Api K8s CertManager.
Import Announcements.Announcements Service.Service Api.Api K8s.K8s CertManager.CertManager.

Module PipyCerts.

#[local] Open Scope Z_scope.

Section certs.
Context {Issuer : Type}.

(** [None]: no certificate after [fuel] rounds. *)
Fixpoint certLoop (env : nat → Env Issuer * Env Issuer) (fuel round : nat) (m : Manager Issuer) (evs : list Rotated)
    (cnPrefix : string) (opts : list IssueOption) : go (option (Manager Issuer * list Rotated * Certificate)) :=
  match fuel with
  | O => Ret None
  | S fuel =>
      '(m, evs', r) ← issueCertificate (env round).1 m cnPrefix CertManager.Service opts;
      match r with
      | inl _ => certLoop env fuel (S round) m (evs ++ evs') cnPrefix opts
      | inr sidecarCert =>
          rotate ← ShouldRotate (env round).2 m sidecarCert;
          if rotate : bool then certLoop env fuel (S round) m (evs ++ evs') cnPrefix opts
          else Ret (Some (m, evs ++ evs', sidecarCert))
      end
  end.

Definition serviceNames (trustDomain : string) (san : option ServiceAccessNames) (proxyServices : list MeshService)
    : go (list string) :=
  gofold (λ sans svc, names ← GetHostnamesForService trustDomain svc san true; Ret (sans ++ names)) [] proxyServices.

(** The certificate the proxy has afterwards. *)
Definition certs (disabled : bool) (env0 : Env Issuer) (env : nat → Env Issuer * Env Issuer) (fuel : nat)
    (trustDomain : string) (san : option ServiceAccessNames) (certValidityPeriod : Z) (identity : string)
    (proxyServices : list MeshService) (m : Manager Issuer) (SidecarCert : option Certificate)
    : go (option (Manager Issuer * list Rotated * option Certificate)) :=
  if disabled then Ret (Some (m, [], None))
  else
    let SidecarCert := match SidecarCert with Some c => Some c | None => getFromCache m identity end in
    renew ← (match SidecarCert with None => Ret true | Some c => ShouldRotate env0 m c end : go bool);
    if negb renew then Ret (Some (m, [], SidecarCert))
    else
      sans ← serviceNames trustDomain san proxyServices;
      r ← certLoop env fuel 0 m [] identity [SubjectAlternativeNames sans; ValidityDurationProvided (Some certValidityPeriod)];
      Ret match r with Some (m, evs, c) => Some (m, evs, Some c) | None => None end.

(** ** Rounds *)

Context (env : nat → Env Issuer * Env Issuer) (m : Manager Issuer) (s v : issuer Issuer).
Context (identity : string) (sans : list string) (validity : Z).
Context (Hs : signingIssuer m = Some s) (Hv : validatingIssuer m = Some v) (Hcache : cache m !! identity = None).

Let opts := [SubjectAlternativeNames sans; ValidityDurationProvided (Some validity)].

(** Due for renewal by its expiry. *)
Definition due (e : Env Issuer) (c : Certificate) : bool :=
  bool_decide (Until (Expiration c) (env_now e) ≤ RenewBeforeCertExpires + env_noise e * Second).

(** What the issuer answers in a round: to the names of the services, or to
    those of the certificate that is replaced. *)
Definition answer (round : nat) (replaced : option Certificate) : string + Certificate :=
  let names := match replaced with Some c => uniqueSubjectAlternativeNames (SANames c) [] | None => sans end in
  env_IssueCertificate (env round).1 (iss_Issuer s) (identity +:+ "." +:+ iss_TrustDomain s)
    (subjectAlternativeNames (mkOptions false (Some validity) names)) validity.

(** The result of a round, which is the cached certificate if that is not due,
    and the certificate that is cached before a round. *)
Definition result (round : nat) (cached : option Certificate) : string + Certificate :=
  match cached with
  | Some c => if due (env round).1 c then answer round (Some c) else inr c
  | None => answer round None
  end.

Fixpoint cachedAt (round : nat) : option Certificate :=
  match round with
  | O => None
  | S i => match result i (cachedAt i) with inl _ => cachedAt i | inr c => Some c end
  end.

(** The round gives a certificate that is not due when it is checked. *)
Definition good (round : nat) (c : Certificate) : Prop :=
  result round (cachedAt round) = inr c ∧ due (env round).2 c = false.

(** What the manager makes of a certificate. *)
Definition stored (c : Certificate) : Certificate :=
  withIssuers (if bool_decide (iss_ID v = iss_ID s) then c else newMergedWithRoot c (iss_CertificateAuthority v))
    (iss_ID s) (iss_ID v) CertManager.Service.

Lemma stored_fields c : Expiration (stored c) = Expiration c ∧ SANames (stored c) = SANames c.
Proof. unfold stored. by case_bool_decide. Qed.

(** The manager and the messages of a round. *)
Definition managerAt (round : nat) : Manager Issuer :=
  mkManager (match cachedAt round with Some c => <[identity := stored c]> (cache m) | None => cache m end) (Some s) (Some v).

Definition rotatedAt (round : nat) : list Rotated :=
  match cachedAt round, result round (cachedAt round) with
  | Some c, inr c' => if due (env round).1 c then [mkRotated CertificateRotated (stored c') (stored c)] else []
  | _, _ => []
  end.

Lemma stored_due e round c : ShouldRotate e (managerAt round) (stored c) = Ret (due e c).
Proof.
  unfold ShouldRotate, due. cbv zeta. destruct (stored_fields c) as [-> _]. case_bool_decide; [done|].
  simpl. unfold stored. by rewrite !bool_decide_eq_true_2.
Qed.

Lemma cache_managerAt round : cache (managerAt round) !! identity = stored <$> cachedAt round.
Proof. unfold managerAt. simpl. destruct (cachedAt round); [apply lookup_insert_eq|done]. Qed.

Lemma issue_round round : issueCertificate (env round).1 (managerAt round) identity CertManager.Service opts =
  Ret (managerAt (S round), rotatedAt round,
       match result round (cachedAt round) with inl e => inl e | inr c => inr (stored c) end).
Proof.
  unfold issueCertificate, getFromCache, rotatedAt. rewrite cache_managerAt.
  destruct (cachedAt round) as [c|] eqn:Ec; cbn [result fmap option_fmap option_map].
  - rewrite stored_due. cbn [mbind go_bind]. unfold managerAt. cbn [cachedAt]. rewrite Ec. cbn [result].
    destruct (due (env round).1 c); [|done]. unfold issueNew, answer. cbn -[stored]. destruct (stored_fields c) as [_ ->].
    destruct (env_IssueCertificate _ _ _ _ _); [done|]. cbn -[stored]. by rewrite insert_insert_eq.
  - unfold managerAt. cbn [cachedAt]. rewrite Ec. cbn [result]. unfold issueNew, answer. cbn -[stored].
    by destruct (env_IssueCertificate _ _ _ _ _).
Qed.

Lemma certLoop_round fuel round evs : certLoop env (S fuel) round (managerAt round) evs identity opts =
  match result round (cachedAt round) with
  | inr c => if due (env round).2 c
             then certLoop env fuel (S round) (managerAt (S round)) (evs ++ rotatedAt round) identity opts
             else Ret (Some (managerAt (S round), evs ++ rotatedAt round, stored c))
  | inl _ => certLoop env fuel (S round) (managerAt (S round)) (evs ++ rotatedAt round) identity opts
  end.
Proof.
  cbn [certLoop]. rewrite issue_round. cbn [mbind go_bind]. destruct (result round (cachedAt round)) as [e|c]; [done|].
  by rewrite stored_due.
Qed.

(** Rounds that are not good. *)
Lemma certLoop_rounds n fuel round evs :
  (∀ i c, (round <= i < round + n)%nat → ¬ good i c) →
  certLoop env (n + fuel) round (managerAt round) evs identity opts =
  certLoop env fuel (round + n) (managerAt (round + n)) (evs ++ (seq round n ≫= rotatedAt)) identity opts.
Proof.
  revert round evs. induction n as [|n IH]; intros round evs Hb; [by rewrite Nat.add_0_r, app_nil_r|].
  replace (round + S n)%nat with (S round + n)%nat by lia. cbn [seq]. rewrite bind_cons, (assoc_L (++) evs).
  rewrite <-(IH (S round)) by (intros i c ?; apply Hb; lia). change (S n + fuel)%nat with (S (n + fuel)). rewrite certLoop_round. destruct (result round (cachedAt round)) as [e|c] eqn:E; [done|].
  destruct (due (env round).2 c) eqn:Ed; [done|]. destruct (Hb round c); [lia|by split].
Qed.

Lemma managerAt_0 : managerAt 0 = m.
Proof. unfold managerAt. simpl. rewrite <-Hs, <-Hv. by destruct m. Qed.

(** ** Theorems *)

Context (env0 : Env Issuer) (trustDomain : string) (san : option ServiceAccessNames) (svcs : list MeshService).
Context (Hnames : serviceNames trustDomain san svcs = Ret sans).

Lemma certs_loop fuel : certs false env0 env fuel trustDomain san validity identity svcs m None =
  r ← certLoop env fuel 0 (managerAt 0) [] identity opts;
  Ret match r with Some (m, evs, c) => Some (m, evs, Some c) | None => None end.
Proof. unfold certs, getFromCache. rewrite Hcache. simpl. rewrite Hnames, managerAt_0. done. Qed.

(** C28. When a new sidecar gets its certificate.  The job ends in the first
    round whose result is a certificate that is not due when it is checked,
    after any number of rounds with errors or with certificates that are due:
    the proxy then has this certificate, labelled with the two issuers and
    with both roots if they differ, the cache has it under the identity of the
    proxy and is otherwise as before, and the messages are those of the
    certificates that were replaced.  As long as no round has such a result,
    the job does not end. *)
Theorem new_sidecar_gets_certificate fuel :
  (∀ n c, good n c → (∀ i c', (i < n)%nat → ¬ good i c') → (n < fuel)%nat →
     certs false env0 env fuel trustDomain san validity identity svcs m None =
       Ret (Some (mkManager (<[identity := stored c]> (cache m)) (Some s) (Some v), seq 0 (S n) ≫= rotatedAt, Some (stored c)))) ∧
  ((∀ i c, (i < fuel)%nat → ¬ good i c) →
     certs false env0 env fuel trustDomain san validity identity svcs m None = Ret None).
Proof.
  rewrite certs_loop. split.
  - intros n c Hg Hb Hf. replace fuel with (n + (S (fuel - n - 1)))%nat by lia.
    rewrite certLoop_rounds by (intros i c' ?; apply Hb; lia). rewrite certLoop_round, Nat.add_0_l.
    pose proof Hg as [Hr Hdue]. rewrite Hr, Hdue. cbn [mbind go_bind].
    unfold managerAt. cbn [cachedAt]. rewrite Hr, seq_S, bind_app, bind_cons. simpl. by rewrite app_nil_r.
  - intros Hb. rewrite <-(Nat.add_0_r fuel), certLoop_rounds by (intros i c ?; apply Hb; lia). done.
Qed.

(** Certificates that live no longer than the renewal window. *)
Definition shortLived : Prop :=
  (∀ i names c, env_IssueCertificate (env i).1 (iss_Issuer s) (identity +:+ "." +:+ iss_TrustDomain s) names validity = inr c →
     Expiration c ≤ env_now (env i).1 + RenewBeforeCertExpires) ∧
  (∀ i, env_now (env i).1 ≤ env_now (env i).2 ≤ env_now (env (S i)).1) ∧
  (∀ i, 0 ≤ env_noise (env i).1 ∧ 0 ≤ env_noise (env i).2).

Lemma times_monotone i j : (∀ i, env_now (env i).1 ≤ env_now (env i).2 ≤ env_now (env (S i)).1) → (i <= j)%nat →
  env_now (env i).1 ≤ env_now (env j).1.
Proof. intros Ht Hij. induction Hij as [|j _ IH]; [lia|]. pose proof (Ht j). lia. Qed.

Lemma due_short e c now : Expiration c ≤ now + RenewBeforeCertExpires → now ≤ env_now e → 0 ≤ env_noise e → due e c = true.
Proof. intros. apply bool_decide_eq_true. unfold Until, RenewBeforeCertExpires, Second in *. lia. Qed.

Lemma cachedAt_short i c : shortLived → cachedAt i = Some c →
  ∃ j, (j < i)%nat ∧ Expiration c ≤ env_now (env j).1 + RenewBeforeCertExpires.
Proof.
  intros (Hshort & Ht & Hn). revert c. induction i as [|i IH]; intros c; cbn [cachedAt]; [done|].
  assert (Hold : ∀ c, cachedAt i = Some c → ∃ j, (j < S i)%nat ∧ Expiration c ≤ env_now (env j).1 + RenewBeforeCertExpires).
  { intros d (j & ? & ?)%IH. exists j. split; [lia|done]. }
  destruct (cachedAt i) as [d|] eqn:E; cbn [result].
  - destruct (due (env i).1 d); [|intros [= <-]; by apply Hold].
    destruct (answer i (Some d)) as [e|x] eqn:Ea; [by apply Hold|]. intros [= <-]. exists i. split; [lia|by eapply Hshort].
  - destruct (answer i None) as [e|x] eqn:Ea; [done|]. intros [= <-]. exists i. split; [lia|by eapply Hshort].
Qed.

(** C40. With a validity within the thirty seconds before expiry in which a
    certificate is renewed the job of a new sidecar never ends: every
    certificate is due when it is checked, so no number of rounds is enough. *)
Theorem short_validity_never_ends fuel :
  shortLived → certs false env0 env fuel trustDomain san validity identity svcs m None = Ret None.
Proof.
  intros Hshort. rewrite certs_loop, <-(Nat.add_0_r fuel), certLoop_rounds; [done|]. intros i c _ [Hr Hd].
  assert (cachedAt (S i) = Some c) as Hc by (cbn [cachedAt]; by rewrite Hr).
  destruct (cachedAt_short (S i) c Hshort Hc) as (j & Hj & Hx). destruct Hshort as (_ & Ht & Hn).
  rewrite (due_short _ _ _ Hx) in Hd; [done| |apply Hn]. pose proof (times_monotone j i Ht ltac:(lia)). pose proof (Ht i). lia.
Qed.

End certs.

(** ** Witnesses *)

Definition demoIssuer : issuer unit := mkIssuer tt "root" "cluster.local" "CA".
Definition demoManager : Manager unit := mkManager ∅ (Some demoIssuer) (Some demoIssuer).
Definition demoEnv (now : Z) (ok : bool) : Env unit := mkEnv now 0 0 0 (λ _ cn names validity,
  if ok then inr (mkCertificate cn names "1" (now + validity) "" "" "" "" "" "" "") else inl "unavailable").

(** Every five seconds; the issuer is unavailable in the first round. *)
Definition demoRounds (i : nat) : Env unit * Env unit :=
  let now := Z.of_nat i * 5 * Second in (demoEnv now (bool_decide (i ≠ 0%nat)), demoEnv now true).

Definition demoCert (validity : Z) : Certificate :=
  mkCertificate "web.shop.cluster.local" [] "1" (5 * Second + validity) "" "" "" "" "" "" "".

Lemma new_sidecar_gets_certificate_witness :
  let c := stored demoIssuer demoIssuer (demoCert (3600 * Second)) in
  certs false (demoEnv 0 true) demoRounds 2 "cluster.local" None (3600 * Second) "web.shop" [] demoManager None =
    Ret (Some (mkManager {["web.shop" := c]} (Some demoIssuer) (Some demoIssuer), [], Some c)).
Proof.
  destruct (new_sidecar_gets_certificate demoRounds demoManager demoIssuer demoIssuer "web.shop" [] (3600 * Second) eq_refl eq_refl
    eq_refl (demoEnv 0 true) "cluster.local" None [] eq_refl 2) as [H _].
  apply (H 1%nat (demoCert (3600 * Second))).
  - split; reflexivity.
  - intros i c' Hi [Hr _]. assert (i = 0%nat) as -> by lia. discriminate Hr.
  - lia.
Defined.

Lemma short_validity_never_ends_witness :
  certs false (demoEnv 0 true) demoRounds 100 "cluster.local" None (20 * Second) "web.shop" [] demoManager None = Ret None.
Proof.
  apply (short_validity_never_ends demoRounds demoManager demoIssuer demoIssuer "web.shop" [] (20 * Second) eq_refl eq_refl
    eq_refl (demoEnv 0 true) "cluster.local" None [] eq_refl 100).
  split; [|split].
  - intros i names c. simpl. case_bool_decide; [|done]. intros [= <-]. cbn. unfold RenewBeforeCertExpires, Second. lia.
  - intros i. simpl. unfold Second. lia.
  - intros i. simpl. lia.
Defined.

End PipyCerts.
