(* ===== verification/GatewayApi.v ===== *)
(** * Objects of the Gateway API and the cache that holds them

    The objects of sigs.k8s.io/gateway-api and k8s.io/api with the fields the
    gateway controller reads (pkg/gateway, pkg/controllers/gateway), the
    policies of pkg/apis/policyattachment, and what the controller relies on
    of other libraries: status conditions and label selectors of apimachinery,
    glob patterns, the cache of controller-runtime.  Of a condition the type,
    the status and the reason are kept; its message and times are not read. *)

From S2P Require Import Prelude Core.
Import Core.Core.

Module GatewayApi.

#[local] Open Scope Z_scope.

(** ** Metadata *)

Record ObjectMeta := mkMeta { om_Namespace : string; om_Name : string; om_CreationTimestamp : Z }.

(** [client.ObjectKeyFromObject] *)
Definition ObjectKey (m : ObjectMeta) : NamespacedName := mkNN (om_Namespace m) (om_Name m).

Record GroupKind := mkGroupKind { gk_Group : string; gk_Kind : string }.

(** [metav1.Condition] *)
Record StatusCondition := mkCond { sc_Type : string; sc_Status : string; sc_Reason : string }.

Definition ConditionTrue : string := "True".
Definition ConditionFalse : string := "False".

(** apimachinery's [meta.SetStatusCondition] and [meta.IsStatusConditionTrue] *)
Class StatusConditions : Type := {
  SetStatusCondition : list StatusCondition → StatusCondition → list StatusCondition;
  FindStatusCondition : list StatusCondition → string → option StatusCondition
}.

Definition IsStatusConditionTrue `{StatusConditions} (cs : list StatusCondition) (t : string) : bool :=
  match FindStatusCondition cs t with
  | Some c => bool_decide (sc_Status c = ConditionTrue)
  | None => false
  end.

(** Finding returns the first condition of a type; setting replaces the
    condition of its type, or adds it, and leaves the others. *)
Class StatusConditionsSpec `{SC : StatusConditions} : Prop := {
  Find_first : ∀ cs t, FindStatusCondition cs t = List.find (λ c, bool_decide (sc_Type c = t)) cs;
  Find_Set : ∀ cs c, FindStatusCondition (SetStatusCondition cs c) (sc_Type c) = Some c;
  Find_Set_ne : ∀ cs c t, t ≠ sc_Type c →
    FindStatusCondition (SetStatusCondition cs c) t = FindStatusCondition cs t
}.

Fixpoint replaceCondition (cs : list StatusCondition) (c : StatusCondition) : list StatusCondition :=
  match cs with
  | [] => [c]
  | c' :: cs => if bool_decide (sc_Type c' = sc_Type c) then c :: cs else c' :: replaceCondition cs c
  end.

Definition list_StatusConditions : StatusConditions := {|
  SetStatusCondition := replaceCondition;
  FindStatusCondition cs t := List.find (λ c, bool_decide (sc_Type c = t)) cs
|}.

Lemma list_StatusConditionsSpec : @StatusConditionsSpec list_StatusConditions.
Proof.
  constructor; simpl; [done|intros cs c|intros cs c t Ht]; induction cs as [|c' cs IH]; simpl.
  - by rewrite bool_decide_true.
  - case_bool_decide as E; simpl; [by rewrite bool_decide_true|]. by rewrite bool_decide_false.
  - by rewrite bool_decide_false by congruence.
  - case_bool_decide as E; simpl; [|by rewrite IH]. by rewrite !bool_decide_false by congruence.
Qed.

(** ** References *)

Record ParentReference := mkParentRef {
  pr_Group : option string; pr_Kind : option string; pr_Namespace : option string; pr_Name : string;
  pr_SectionName : option string; pr_Port : option Z }.

#[export] Instance ParentReference_eq_dec : EqDecision ParentReference.
Proof. solve_decision. Defined.

Record BackendObjectReference := mkBackendObjRef {
  bor_Group : option string; bor_Kind : option string; bor_Name : string; bor_Namespace : option string;
  bor_Port : option Z }.

(** [gwv1.LocalObjectReference] *)
Record LocalObjectReference := mkLocalRef { lor_Group : string; lor_Kind : string; lor_Name : string }.

(** A filter of an HTTP or GRPC route.  [rf_Body] stands for the modifiers,
    redirects and rewrites, which are copied. *)
Record RouteFilter := mkRouteFilter {
  rf_Type : string; rf_RequestMirror : option BackendObjectReference;
  rf_ExtensionRef : option LocalObjectReference; rf_Body : string }.

Definition FilterRequestMirror : string := "RequestMirror".
Definition FilterExtensionRef : string := "ExtensionRef".

(** A backend of a rule; those of HTTP and GRPC routes have filters. *)
Record BackendRef := mkBackendRef {
  br_Object : BackendObjectReference; br_Weight : option Z; br_Filters : list RouteFilter }.

(** [gwv1.SecretObjectReference] *)
Record SecretObjectReference := mkSecretRef {
  sor_Group : option string; sor_Kind : option string; sor_Name : string; sor_Namespace : option string }.

(** [gwv1.ObjectReference] *)
Record ObjectReference := mkObjectRef {
  or_Group : string; or_Kind : string; or_Name : string; or_Namespace : option string }.

(** The target of a policy: [NamespacedPolicyTargetReference], and the local
    kinds with their section or rule name. *)
Record PolicyTargetReference := mkPolicyTarget {
  ptr_Group : string; ptr_Kind : string; ptr_Name : string; ptr_Namespace : option string }.

#[export] Instance PolicyTargetReference_eq_dec : EqDecision PolicyTargetReference.
Proof. solve_decision. Defined.

Record LocalPolicyTargetReference := mkLocalTarget { ltr_Group : string; ltr_Kind : string; ltr_Name : string }.

#[export] Instance LocalPolicyTargetReference_eq_dec : EqDecision LocalPolicyTargetReference.
Proof. solve_decision. Defined.

Record LocalTargetWithSection := mkSectionTarget { lts_Ref : LocalPolicyTargetReference; lts_SectionName : option string }.

Record LocalFilterPolicyTargetReference := mkFilterTarget {
  lft_Group : string; lft_Kind : string; lft_Name : string; lft_Rule : string }.

#[export] Instance LocalFilterPolicyTargetReference_eq_dec : EqDecision LocalFilterPolicyTargetReference.
Proof. solve_decision. Defined.

(** ** Gateways *)

(** [metav1.LabelSelector] *)
Record LabelSelectorRequirement := mkRequirement { lsr_Key : string; lsr_Operator : string; lsr_Values : list string }.
Record LabelSelector := mkLabelSelector {
  ls_MatchLabels : gmap string string; ls_MatchExpressions : list LabelSelectorRequirement }.

(** [metav1.LabelSelectorAsSelector]: an error, or a test on labels. *)
Class LabelSelectors : Type := {
  LabelSelectorAsSelector : option LabelSelector → option (gmap string string → bool)
}.

Record RouteNamespaces := mkRouteNamespaces { rn_From : option string; rn_Selector : option LabelSelector }.

Definition NamespacesFromAll : string := "All".
Definition NamespacesFromSame : string := "Same".
Definition NamespacesFromSelector : string := "Selector".

Record RouteGroupKind := mkRouteGroupKind { rgk_Group : option string; rgk_Kind : string }.

Record AllowedRoutes := mkAllowedRoutes { ar_Namespaces : option RouteNamespaces; ar_Kinds : list RouteGroupKind }.

(** [TLS]; nil and empty [CertificateRefs] are told apart by the controller. *)
Record GatewayTLSConfig := mkGatewayTLS {
  tls_Mode : option string; tls_CertificateRefs : option (list SecretObjectReference);
  (* the references of its FrontendValidation *)
  tls_FrontendValidation : option (list ObjectReference) }.

Definition HTTPProtocolType : string := "HTTP".
Definition HTTPSProtocolType : string := "HTTPS".
Definition TLSProtocolType : string := "TLS".
Definition TCPProtocolType : string := "TCP".
Definition UDPProtocolType : string := "UDP".

Definition TLSModeTerminate : string := "Terminate".
Definition TLSModePassthrough : string := "Passthrough".

Record Listener := mkListener {
  l_Name : string; l_Hostname : option string; l_Port : Z; l_Protocol : string;
  l_TLS : option GatewayTLSConfig; l_AllowedRoutes : option AllowedRoutes }.

Record ListenerStatus := mkListenerStatus {
  lst_Name : string; lst_SupportedKinds : list RouteGroupKind; lst_Conditions : list StatusCondition }.

Record Gateway := mkGateway {
  gw_Meta : ObjectMeta; gw_GatewayClassName : string; gw_Listeners : list Listener;
  (* BackendTLS and its ClientCertificateRef *)
  gw_BackendTLS : option (option SecretObjectReference);
  gw_Conditions : list StatusCondition; gw_ListenerStatuses : list ListenerStatus }.

Record GatewayClass := mkGatewayClass {
  gc_Meta : ObjectMeta; gc_ControllerName : string; gc_Conditions : list StatusCondition }.

(** ** Routes *)

Record RouteParentStatus := mkRouteParentStatus {
  rps_ParentRef : ParentReference; rps_ControllerName : string; rps_Conditions : list StatusCondition }.

(** A rule of a route; those of HTTP and GRPC routes have filters and session
    persistence.  Their matches are copied and left out. *)
Record RouteRule := mkRouteRule {
  rr_Name : option string; rr_BackendRefs : list BackendRef; rr_Filters : list RouteFilter;
  rr_SessionPersistence : option string }.

Inductive RouteKind := HTTPRoute | GRPCRoute | TLSRoute | TCPRoute | UDPRoute.

#[export] Instance RouteKind_eq_dec : EqDecision RouteKind.
Proof. solve_decision. Defined.

(** The five route types share these fields; TCP and UDP routes have no
    hostnames. *)
Record Route := mkRoute {
  rt_Kind : RouteKind; rt_Meta : ObjectMeta; rt_ParentRefs : list ParentReference;
  rt_Hostnames : list string; rt_Rules : list RouteRule; rt_Parents : list RouteParentStatus }.

Definition GroupName : string := "gateway.networking.k8s.io".

Definition kindName (k : RouteKind) : string :=
  match k with
  | HTTPRoute => "HTTPRoute" | GRPCRoute => "GRPCRoute" | TLSRoute => "TLSRoute"
  | TCPRoute => "TCPRoute" | UDPRoute => "UDPRoute"
  end.

(** [route.GroupVersionKind()] *)
Definition rt_GVK (r : Route) : GroupKind := mkGroupKind GroupName (kindName (rt_Kind r)).

(** ** Reference grants *)

Record ReferenceGrantFrom := mkGrantFrom { rgf_Group : string; rgf_Kind : string; rgf_Namespace : string }.
Record ReferenceGrantTo := mkGrantTo { rgt_Group : string; rgt_Kind : string; rgt_Name : option string }.
Record ReferenceGrant := mkReferenceGrant {
  rg_Meta : ObjectMeta; rg_From : list ReferenceGrantFrom; rg_To : list ReferenceGrantTo }.

(** ** Policies *)

Record PolicyAncestorStatus := mkAncestorStatus {
  pas_AncestorRef : ParentReference; pas_ControllerName : string; pas_Conditions : list StatusCondition }.

Record BackendTLSPolicy := mkBackendTLSPolicy {
  btp_Meta : ObjectMeta; btp_TargetRefs : list LocalTargetWithSection;
  btp_WellKnownCACertificates : option string; btp_Hostname : string;
  btp_CACertificateRefs : list (string * string * string);  (* group, kind, name *)
  btp_Ancestors : list PolicyAncestorStatus }.

Record BackendLBPolicy := mkBackendLBPolicy {
  blp_Meta : ObjectMeta; blp_TargetRefs : list LocalPolicyTargetReference;
  blp_SessionPersistence : option string; blp_Algorithm : option string;
  blp_Ancestors : list PolicyAncestorStatus }.

(** The configuration of a check is copied and kept as text. *)
Record PortHealthCheck := mkPortHealthCheck { phc_Port : Z; phc_HealthCheck : option string }.

Record HealthCheckPolicy := mkHealthCheckPolicy {
  hcp_Meta : ObjectMeta; hcp_TargetRefs : list PolicyTargetReference; hcp_Ports : list PortHealthCheck;
  hcp_Ancestors : list PolicyAncestorStatus }.

Record LocalFilterReference := mkFilterRef {
  lfr_Group : string; lfr_Kind : string; lfr_Name : string; lfr_Priority : option Z }.

Record RouteRuleFilterPolicy := mkRouteRuleFilterPolicy {
  rfp_Meta : ObjectMeta; rfp_TargetRefs : list LocalFilterPolicyTargetReference;
  rfp_FilterRefs : list LocalFilterReference; rfp_Ancestors : list PolicyAncestorStatus }.

(** pkg/apis/extension/v1alpha1 *)
Record Filter := mkFilter {
  f_Meta : ObjectMeta; f_Type : string; f_DefinitionRef : option LocalObjectReference;
  f_ConfigRef : option LocalObjectReference }.

Record ListenerFilter := mkListenerFilter {
  lf_Namespace : string; lf_Aspect : option string; lf_Type : string; lf_Priority : option Z;
  lf_ConfigRef : option LocalObjectReference; lf_DefinitionRef : option LocalObjectReference }.

Record FilterDefinition := mkFilterDefinition {
  fd_Scope : option string; fd_Protocol : option string; fd_Type : string; fd_Script : string }.

(** ** Core objects *)

(** [corev1.Service] with its type. *)
Record GwService := mkGwService { gs_Service :> K8sService; gs_Type : string }.

Definition ServiceTypeExternalName : string := "ExternalName".

(** [corev1.Namespace] with its labels. *)
Record GwNamespace := mkGwNamespace { gn_Name : string; gn_Labels : gmap string string }.

(** [corev1.Secret] and [corev1.ConfigMap] *)
Record Secret := mkSecret { sec_Meta : ObjectMeta; sec_Type : string; sec_Data : gmap string string }.
Record ConfigMap := mkConfigMap { cm_Meta : ObjectMeta; cm_Data : gmap string string }.

(** discoveryv1 *)
Record SlicePort := mkSlicePort { slp_Name : option string; slp_Port : option Z }.
Record SliceEndpoint := mkSliceEndpoint { sle_Addresses : list string; sle_Ready : option bool }.
Record EndpointSlice := mkEndpointSlice {
  es_Namespace : string; es_Name : string; es_Ports : list SlicePort; es_Endpoints : list SliceEndpoint }.

(** ** Glob patterns *)

(** [glob.MustCompile(pattern, '.')] panics on a malformed pattern. *)
Class Globs : Type := { glob_Compile : string → option (string → bool) }.

Definition glob_special (c : ascii) : bool :=
  existsb (λ d, bool_decide (c = d)) ["*"; "?"; "["; "]"; "{"; "}"; "\"; ","; "!"]%char.

Fixpoint glob_plain (s : string) : bool :=
  match s with EmptyString => true | String c s => negb (glob_special c) && glob_plain s end.

(** A star in front of plain text stands for any text without the separator. *)
Class GlobsSpec `{G : Globs} : Prop := {
  glob_star : ∀ suffix, glob_plain suffix = true → ∃ m, glob_Compile (String "*" suffix) = Some m ∧
    ∀ s, m s = true ↔ ∃ label, s = label +:+ suffix ∧ str_in "." label = false
}.

(** ** The cache *)

Inductive GetError := NotFound | GetFailed.

(** The reads of controller-runtime's cache.  [Get] takes a key; [List] takes
    the value of the index it selects by, and [None] is an error. *)
Record Cache := mkCache {
  GetGateway : NamespacedName → GetError + Gateway;
  GetService : NamespacedName → GetError + GwService;
  GetNamespace : string → GetError + GwNamespace;
  GetSecret : NamespacedName → GetError + Secret;
  GetConfigMap : NamespacedName → GetError + ConfigMap;
  GetEndpoints : NamespacedName → GetError + Endpoints;
  GetFilter : NamespacedName → GetError + Filter;
  GetFilterDefinition : string → GetError + FilterDefinition;
  (* constants.GatewayListenerFilterIndex, in a namespace *)
  ListListenerFilters : string → string → option (list ListenerFilter);
  (* of a namespace, by the label that names the service *)
  ListEndpointSlices : string → string → option (list EndpointSlice);
  (* constants.ControllerGatewayClassIndex, constants.ClassGatewayIndex *)
  ListGatewayClasses : string → option (list GatewayClass);
  ListGateways : string → option (list Gateway);
  (* constants.TargetKindRefGrantIndex *)
  ListReferenceGrants : string → option (list ReferenceGrant);
  (* with a selector that is a disjunction over two kinds *)
  ListReferenceGrantsOr : string → string → option (list ReferenceGrant);
  (* constants.Gateway...RouteIndex *)
  ListRoutes : RouteKind → string → option (list Route);
  (* constants.ServicePolicyAttachmentIndex, with the namespace listed *)
  ListBackendTLSPolicies : string → string → option (list BackendTLSPolicy);
  ListBackendLBPolicies : string → string → option (list BackendLBPolicy);
  ListHealthCheckPolicies : string → option (list HealthCheckPolicy);
  (* constants.RouteRouteRuleFilterPolicyAttachmentIndex *)
  ListRouteRuleFilterPolicies : string → string → option (list RouteRuleFilterPolicy)
}.

End GatewayApi.
