(* ===== verification/Gateway.v ===== *)
(** * Helpers of the gateway controller: pkg/gateway/utils, pkg/gateway/types

    Which references are permitted, which listeners a route may attach to,
    which hostnames they share, which service port a backend names, and which
    policies apply to it.  Conditions are added through interfaces; a provider
    is a record of functions on the state that holds them, so that the code
    is the same for the controller, which keeps conditions, and for the
    generator, which ignores them. *)

From S2P Require Import Prelude Core K8sClient Cidr GatewayApi.
Import Core.Core K8sClient.K8sClient Cidr.Cidr GatewayApi.GatewayApi.

Module Gateway.

#[local] Open Scope Z_scope.

(** ** Constants (pkg/constants) *)

Definition GatewayController : string := "flomesh.io/gateway-controller".
Definition GatewayAPIGatewayKind : string := "Gateway".
Definition KubernetesCoreGroup : string := "".
Definition KubernetesServiceKind : string := "Service".
Definition KubernetesSecretKind : string := "Secret".
Definition KubernetesConfigMapKind : string := "ConfigMap".
Definition FlomeshMCSAPIGroup : string := "multicluster.flomesh.io".
Definition FlomeshAPIServiceImportKind : string := "ServiceImport".

(** ** Conditions (gateway.go, gatewayclass.go) *)

Section conditions.
Context {SC : StatusConditions}.

Definition IsAcceptedGateway (gateway : Gateway) : bool := IsStatusConditionTrue (gw_Conditions gateway) "Accepted".
Definition IsProgrammedGateway (gateway : Gateway) : bool := IsStatusConditionTrue (gw_Conditions gateway) "Programmed".
Definition IsActiveGateway (gateway : Gateway) : bool := IsAcceptedGateway gateway && IsProgrammedGateway gateway.

Definition IsListenerProgrammed (s : ListenerStatus) : bool := IsStatusConditionTrue (lst_Conditions s) "Programmed".
Definition IsListenerAccepted (s : ListenerStatus) : bool := IsStatusConditionTrue (lst_Conditions s) "Accepted".
Definition IsListenerConflicted (s : ListenerStatus) : bool := IsStatusConditionTrue (lst_Conditions s) "Conflicted".
Definition IsListenerResolvedRefs (s : ListenerStatus) : bool := IsStatusConditionTrue (lst_Conditions s) "ResolvedRefs".

Definition IsListenerValid (s : ListenerStatus) : bool :=
  IsListenerAccepted s && IsListenerProgrammed s && negb (IsListenerConflicted s) && IsListenerResolvedRefs s.

Definition IsAcceptedGatewayClass (gatewayClass : GatewayClass) : bool :=
  bool_decide (gc_ControllerName gatewayClass = GatewayController) &&
  IsStatusConditionTrue (gc_Conditions gatewayClass) "Accepted".

End conditions.

(** ** References (utils.go) *)

Definition NamespaceDerefOr (ns : option string) (defaultNs : string) : string := default defaultNs ns.

Definition IsRefToGateway (parentRef : ParentReference) (gateway : NamespacedName) : bool :=
  if bool_decide (is_Some (pr_Group parentRef) ∧ pr_Group parentRef ≠ Some GroupName) then false
  else if bool_decide (is_Some (pr_Kind parentRef) ∧ pr_Kind parentRef ≠ Some GatewayAPIGatewayKind) then false
  else if bool_decide (is_Some (pr_Namespace parentRef) ∧ pr_Namespace parentRef ≠ Some (nn_Namespace gateway)) then false
  else bool_decide (pr_Name parentRef = nn_Name gateway).

(** types.go *)
Record CrossNamespaceFrom := mkFrom { cnf_Group : string; cnf_Kind : string; cnf_Namespace : string }.
Record CrossNamespaceTo := mkTo { cnt_Group : string; cnt_Kind : string; cnt_Namespace : string; cnt_Name : string }.

(** The bodies of the loops over [Spec.From] and [Spec.To]. *)
Definition grantsFrom (from : CrossNamespaceFrom) (f : ReferenceGrantFrom) : bool :=
  bool_decide (rgf_Namespace f = cnf_Namespace from) && bool_decide (rgf_Group f = cnf_Group from) &&
  bool_decide (rgf_Kind f = cnf_Kind from).

Definition grantsTo (to : CrossNamespaceTo) (t : ReferenceGrantTo) : bool :=
  bool_decide (rgt_Group t = cnt_Group to) && bool_decide (rgt_Kind t = cnt_Kind to) &&
  (bool_decide (rgt_Name t = None) || bool_decide (rgt_Name t = Some "") || bool_decide (rgt_Name t = Some (cnt_Name to))).

Fixpoint FindMatchedReferenceGrant (from : CrossNamespaceFrom) (to : CrossNamespaceTo)
    (referenceGrants : list ReferenceGrant) : option ReferenceGrant :=
  match referenceGrants with
  | [] => None
  | refGrant :: rest =>
      if bool_decide (om_Namespace (rg_Meta refGrant) ≠ cnt_Namespace to) then FindMatchedReferenceGrant from to rest
      else if negb (existsb (grantsFrom from) (rg_From refGrant)) then FindMatchedReferenceGrant from to rest
      else if negb (existsb (grantsTo to) (rg_To refGrant)) then FindMatchedReferenceGrant from to rest
      else Some refGrant
  end.

Fixpoint ValidCrossNamespaceRef (from : CrossNamespaceFrom) (to : CrossNamespaceTo)
    (referenceGrants : list ReferenceGrant) : bool :=
  match referenceGrants with
  | [] => false
  | refGrant :: rest =>
      if bool_decide (om_Namespace (rg_Meta refGrant) ≠ cnt_Namespace to) then ValidCrossNamespaceRef from to rest
      else if negb (existsb (grantsFrom from) (rg_From refGrant)) then ValidCrossNamespaceRef from to rest
      else if negb (existsb (grantsTo to) (rg_To refGrant)) then ValidCrossNamespaceRef from to rest
      else true
  end.

Definition IsTargetRefToTarget (policyNamespace : string) (targetRef : PolicyTargetReference)
    (gvk : GroupKind) (target : ObjectMeta) : bool :=
  if bool_decide (ptr_Group targetRef ≠ gk_Group gvk) then false
  else if bool_decide (ptr_Kind targetRef ≠ gk_Kind gvk) then false
  else if bool_decide (NamespaceDerefOr (ptr_Namespace targetRef) policyNamespace ≠ om_Namespace target) then false
  else bool_decide (ptr_Name targetRef = om_Name target).

(** The guard four functions share: a reference to another namespace needs a
    grant. *)
Definition notPermitted (from : CrossNamespaceFrom) (group kind : string) (namespace : option string) (name : string)
    (grants : list ReferenceGrant) : bool :=
  match namespace with
  | None => false
  | Some ns => bool_decide (ns ≠ cnf_Namespace from) && negb (ValidCrossNamespaceRef from (mkTo group kind ns name) grants)
  end.

Definition HasAccessToTargetRef (policyGVK : GroupKind) (policyNamespace : string) (ref : PolicyTargetReference)
    (referenceGrants : list ReferenceGrant) : bool :=
  negb (notPermitted (mkFrom (gk_Group policyGVK) (gk_Kind policyGVK) policyNamespace)
          (ptr_Group ref) (ptr_Kind ref) (ptr_Namespace ref) (ptr_Name ref) referenceGrants).

Definition IsValidRefToGroupKindOfCA (ref : ObjectReference) : bool :=
  if bool_decide (or_Group ref ≠ "") then false
  else bool_decide (or_Kind ref = KubernetesSecretKind) || bool_decide (or_Kind ref = KubernetesConfigMapKind).

Definition IsValidBackendRefToGroupKindOfService (ref : BackendObjectReference) : bool :=
  match bor_Group ref, bor_Kind ref with
  | Some group, Some kind =>
      (bool_decide (kind = KubernetesServiceKind) && bool_decide (group = KubernetesCoreGroup)) ||
      (bool_decide (kind = FlomeshAPIServiceImportKind) && bool_decide (group = FlomeshMCSAPIGroup))
  | _, _ => false
  end.

Definition IsValidRefToGroupKindOfSecret (ref : SecretObjectReference) : bool :=
  match sor_Group ref, sor_Kind ref with
  | Some group, Some kind => bool_decide (group = KubernetesCoreGroup) && bool_decide (kind = KubernetesSecretKind)
  | _, _ => false
  end.

Definition IsValidTargetRefToGroupKindOfService (ref : PolicyTargetReference) : bool :=
  (bool_decide (ptr_Kind ref = KubernetesServiceKind) && bool_decide (ptr_Group ref = KubernetesCoreGroup)) ||
  (bool_decide (ptr_Kind ref = FlomeshAPIServiceImportKind) && bool_decide (ptr_Group ref = FlomeshMCSAPIGroup)).

(** ** Hostnames *)

Section hostnames.
Context {G : Globs} {MR : MapRange}.

Definition HostnameMatchesWildcardHostname (hostname wildcardHostname : string) : go bool :=
  m ← deref (glob_Compile wildcardHostname); Ret (m hostname).

(** One round of the loop: the set is a Go map. *)
Definition hostnameStep (listenerHostname : option string) (hostnames : gmap string unit) (routeHostname : string)
    : go (gmap string unit) :=
  match listenerHostname with
  | None => Ret (<[routeHostname := tt]> hostnames)
  | Some lh =>
      if bool_decide (lh = routeHostname) then Ret (<[routeHostname := tt]> hostnames)
      else if HasPrefix lh "*" then
        b ← HostnameMatchesWildcardHostname routeHostname lh;
        Ret (if b : bool then <[routeHostname := tt]> hostnames else hostnames)
      else if HasPrefix routeHostname "*" then
        b ← HostnameMatchesWildcardHostname lh routeHostname;
        Ret (if b : bool then <[lh := tt]> hostnames else hostnames)
      else Ret hostnames
  end.

Definition GetValidHostnames (listenerHostname : option string) (routeHostnames : list string) : go (list string) :=
  match routeHostnames with
  | [] => Ret [default "*" listenerHostname]
  | _ =>
      hostnames ← gofold (hostnameStep listenerHostname) ∅ routeHostnames;
      Ret (map_range hostnames).*1
  end.

End hostnames.

(** ** Sorting *)

(** By creation time, then by key. *)
Definition resourceLess {A} (meta : A → ObjectMeta) (a b : A) : bool :=
  if bool_decide (om_CreationTimestamp (meta a) = om_CreationTimestamp (meta b)) then
    String.ltb (nn_String (ObjectKey (meta a))) (nn_String (ObjectKey (meta b)))
  else bool_decide (om_CreationTimestamp (meta a) < om_CreationTimestamp (meta b)).

Definition SortResources `{SliceSort} {A} (meta : A → ObjectMeta) (resources : list A) : list A :=
  sort_slice (resourceLess meta) resources.

Definition filterRefLess (a b : LocalFilterReference) : bool :=
  match lfr_Priority a, lfr_Priority b with
  | Some p, Some q => if bool_decide (p = q) then String.ltb (lfr_Name a) (lfr_Name b) else bool_decide (p < q)
  | _, _ => String.ltb (lfr_Name a) (lfr_Name b)
  end.

Definition SortFilterRefs `{SliceSort} (filterRefs : list LocalFilterReference) : list LocalFilterReference :=
  sort_slice filterRefLess filterRefs.

(** ** Reference grants (referencegrants.go): nil when the list fails *)

Definition GetServiceRefGrants (c : Cache) : list ReferenceGrant := default [] (ListReferenceGrants c KubernetesServiceKind).
Definition GetSecretRefGrants (c : Cache) : list ReferenceGrant := default [] (ListReferenceGrants c KubernetesSecretKind).

Definition GetCARefGrants (c : Cache) : list ReferenceGrant :=
  default [] (ListReferenceGrantsOr c KubernetesSecretKind KubernetesConfigMapKind).

(** The index of a grant (referencegrant_controller.go): the kinds it is for. *)
Definition refGrantIndex (refGrant : ReferenceGrant) : list string := rgt_Kind <$> rg_To refGrant.

(** ** Listeners (gateway.go, types.go) *)

Record GwListener := mkGwListener { gl_Listener :> Listener; gl_SupportedKinds : list RouteGroupKind }.

(** Each round dereferences the group for its log line. *)
Fixpoint allowsKind (kinds : list RouteGroupKind) (gvk : GroupKind) : go bool :=
  match kinds with
  | [] => Ret false
  | allowedKind :: rest =>
      group ← deref (rgk_Group allowedKind);
      if bool_decide (rgk_Kind allowedKind = gk_Kind gvk) && bool_decide (group = gk_Group gvk) then Ret true
      else allowsKind rest gvk
  end.

Definition AllowsKind (l : GwListener) (gvk : GroupKind) : go bool := allowsKind (gl_SupportedKinds l) gvk.

Section listeners.
Context {SC : StatusConditions} {LS : LabelSelectors} (client : Cache).

Definition GetValidListenersForGateway (gw : Gateway) : list GwListener :=
  let listeners : gmap string Listener := foldl (λ m l, <[l_Name l := l]> m) ∅ (gw_Listeners gw) in
  foldl (λ validListeners s,
    if IsListenerValid s then
      match listeners !! lst_Name s with
      | None => validListeners
      | Some l => validListeners ++ [mkGwListener l (lst_SupportedKinds s)]
      end
    else validListeners) [] (gw_ListenerStatuses gw).

Definition NamespaceMatches (namespaces : option RouteNamespaces) (gatewayNamespace routeNamespace : string) : bool :=
  match namespaces with
  | None => true
  | Some nss =>
      match rn_From nss with
      | None => true
      | Some from =>
          if bool_decide (from = NamespacesFromAll) then true
          else if bool_decide (from = NamespacesFromSame) then bool_decide (gatewayNamespace = routeNamespace)
          else if bool_decide (from = NamespacesFromSelector) then
            match LabelSelectorAsSelector (rn_Selector nss) with
            | None => false
            | Some namespaceSelector =>
                match GetNamespace client routeNamespace with
                | inl _ => false
                | inr ns => namespaceSelector (gn_Labels ns)
                end
            end
          else true
      end
  end.

(** The conditions of the resolver, on the state that holds them. *)
Record ListenerConditionProvider (S : Type) := mkListenerProvider {
  AddNoMatchingParentCondition : S → S;
  AddNotAllowedByListenersCondition : S → S }.
Arguments AddNoMatchingParentCondition {_} _ _.
Arguments AddNotAllowedByListenersCondition {_} _ _.

Definition selectsListener (parentRef : ParentReference) (l : Listener) : bool :=
  (bool_decide (pr_SectionName parentRef = None) || bool_decide (pr_SectionName parentRef = Some (l_Name l))) &&
  (bool_decide (pr_Port parentRef = None) || bool_decide (pr_Port parentRef = Some (l_Port l))).

(** The loop over the selected listeners. *)
Fixpoint allowedListeners (gwNamespace : string) (routeGvk : GroupKind) (routeNs : string) (selected : list GwListener)
    : go (list GwListener) :=
  match selected with
  | [] => Ret []
  | l :: rest =>
      ok ← AllowsKind l routeGvk;
      if negb ok then allowedListeners gwNamespace routeGvk routeNs rest
      else
        routes ← deref (l_AllowedRoutes l);
        allowed ← allowedListeners gwNamespace routeGvk routeNs rest;
        Ret (if NamespaceMatches (ar_Namespaces routes) gwNamespace routeNs then l :: allowed else allowed)
  end.

Definition GetAllowedListeners {S} (provider : ListenerConditionProvider S) (routeGvk : GroupKind) (routeNs : string)
    (parentRef : ParentReference) (gw : Gateway) (st : S) : go (S * list GwListener) :=
  let selectedListeners := List.filter (λ l, selectsListener parentRef (gl_Listener l)) (GetValidListenersForGateway gw) in
  if bool_decide (length selectedListeners = 0%nat) then Ret (AddNoMatchingParentCondition provider st, [])
  else
    allowed ← allowedListeners (om_Namespace (gw_Meta gw)) routeGvk routeNs selectedListeners;
    if bool_decide (length allowed = 0%nat) then Ret (AddNotAllowedByListenersCondition provider st, [])
    else Ret (st, allowed).

End listeners.
Arguments mkListenerProvider {_} _ _.
Arguments AddNoMatchingParentCondition {_} _ _.
Arguments AddNotAllowedByListenersCondition {_} _ _.

(** The providers of the generator do nothing. *)
Definition DummyGatewayListenerConditionProvider : ListenerConditionProvider unit :=
  mkListenerProvider (λ st, st) (λ st, st).

(** ** Backends (backends.go, fgw/config.go) *)

Record ServicePortName := mkServicePortName {
  spn_Key : NamespacedName; spn_SectionName : string; spn_Port : option Z; spn_Protocol : string;
  spn_AppProtocol : option string }.

Definition fmtPortName (port : option Z) : string :=
  match port with None => "" | Some p => "-" +:+ pretty p end.

Definition spn_String (spn : ServicePortName) : string :=
  nn_Namespace (spn_Key spn) +:+ "-" +:+ nn_Name (spn_Key spn) +:+ fmtPortName (spn_Port spn).

(** The inner function [servicePort]. *)
Definition servicePort (ports : list K8sServicePort) (port : Z) : option K8sServicePort :=
  List.find (λ p, bool_decide (svp_Port p = port)) ports.

(** [addNotResolvedRefsCondition] gets the reason. *)
Definition BackendRefToServicePortName {S} (client : Cache) (routeGvk : GroupKind) (routeNamespace : string)
    (backendRef : BackendObjectReference) (addNotResolvedRefsCondition : string → S → S) (st : S)
    : go (S * option ServicePortName) :=
  if negb (IsValidBackendRefToGroupKindOfService backendRef) then
    _ ← deref (bor_Group backendRef);
    _ ← deref (bor_Kind backendRef);
    Ret (addNotResolvedRefsCondition "InvalidKind" st, None)
  else
    match bor_Port backendRef with
    | None => Ret (addNotResolvedRefsCondition "BackendNotFound" st, None)
    | Some port =>
        group ← deref (bor_Group backendRef);
        kind ← deref (bor_Kind backendRef);
        if notPermitted (mkFrom (gk_Group routeGvk) (gk_Kind routeGvk) routeNamespace) group kind
             (bor_Namespace backendRef) (bor_Name backendRef) (GetServiceRefGrants client)
        then Ret (addNotResolvedRefsCondition "RefNotPermitted" st, None)
        else
          let key := mkNN (NamespaceDerefOr (bor_Namespace backendRef) routeNamespace) (bor_Name backendRef) in
          match GetService client key with
          | inl _ => Ret (addNotResolvedRefsCondition "BackendNotFound" st, None)
          | inr service =>
              match servicePort (k8s_Ports service) port with
              | None => Ret (addNotResolvedRefsCondition "BackendNotFound" st, None)
              | Some svcPort =>
                  Ret (st, Some (mkServicePortName key (svp_Name svcPort) (Some port) (svp_Protocol svcPort)
                                   (svp_AppProtocol svcPort)))
              end
          end
    end.

(** *** Policies that apply to a backend *)

Section policies.
Context {SS : SliceSort}.

(** The pair of nested loops: the first policy with a reference to the
    section, else the last with one to the whole service. *)
Definition tlsRefStep (targetRef : LocalTargetWithSection) (policy : BackendTLSPolicy)
    (st : BackendTLSPolicy + option BackendTLSPolicy) (ref : LocalTargetWithSection)
    : BackendTLSPolicy + option BackendTLSPolicy :=
  match st with
  | inl found => inl found
  | inr fallback =>
      if bool_decide (lts_Ref ref = lts_Ref targetRef) then
        if bool_decide (is_Some (lts_SectionName ref)) && bool_decide (is_Some (lts_SectionName targetRef)) &&
           bool_decide (lts_SectionName ref = lts_SectionName targetRef)
        then inl policy
        else if bool_decide (lts_SectionName ref = None) then inr (Some policy) else inr fallback
      else inr fallback
  end.

Definition FindBackendTLSPolicy (c : Cache) (targetRef : LocalTargetWithSection) (routeNamespace : string)
    : option BackendTLSPolicy :=
  match ListBackendTLSPolicies c (nn_String (mkNN routeNamespace (ltr_Name (lts_Ref targetRef)))) routeNamespace with
  | None => None
  | Some items =>
      match foldl (λ st policy, foldl (tlsRefStep targetRef policy) st (btp_TargetRefs policy)) (inr None)
              (SortResources btp_Meta items) with
      | inl found => Some found
      | inr fallback => fallback
      end
  end.

Definition FindBackendLBPolicy (c : Cache) (targetRef : LocalPolicyTargetReference) (routeNamespace : string)
    : option BackendLBPolicy :=
  match ListBackendLBPolicies c (nn_String (mkNN routeNamespace (ltr_Name targetRef))) routeNamespace with
  | None => None
  | Some items =>
      List.find (λ policy, existsb (λ ref, bool_decide (ref = targetRef)) (blp_TargetRefs policy)) (SortResources blp_Meta items)
  end.

(** The first policy with the reference and a check for the port. *)
Fixpoint findPortCheck (targetRef : PolicyTargetReference) (port : Z) (policies : list HealthCheckPolicy)
    : option (HealthCheckPolicy * PortHealthCheck) :=
  match policies with
  | [] => None
  | policy :: rest =>
      match (if existsb (λ ref, bool_decide (ref = targetRef)) (hcp_TargetRefs policy)
             then List.find (λ p, bool_decide (port = phc_Port p)) (hcp_Ports policy) else None) with
      | Some p => Some (policy, p)
      | None => findPortCheck targetRef port rest
      end
  end.

Definition FindHealthCheckPolicy (c : Cache) (targetRef : PolicyTargetReference) (routeNamespace : string)
    (svcPort : option ServicePortName) : option (HealthCheckPolicy * PortHealthCheck) :=
  svcPort ← svcPort;
  port ← spn_Port svcPort;
  items ← ListHealthCheckPolicies c
            (nn_String (mkNN (NamespaceDerefOr (ptr_Namespace targetRef) routeNamespace) (ptr_Name targetRef)));
  findPortCheck targetRef port (SortResources hcp_Meta items).

Definition FindRouteRuleFilterPolicy (c : Cache) (targetRef : LocalFilterPolicyTargetReference) (routeNamespace : string)
    : option RouteRuleFilterPolicy :=
  match ListRouteRuleFilterPolicies c
          (lft_Kind targetRef +:+ "/" +:+ routeNamespace +:+ "/" +:+ lft_Name targetRef +:+ "/" +:+ lft_Rule targetRef)
          routeNamespace with
  | None => None
  | Some items =>
      List.find (λ policy, existsb (λ ref, bool_decide (ref = targetRef)) (rfp_TargetRefs policy)) (SortResources rfp_Meta items)
  end.

End policies.

(** *** policies.go *)

(** [addCondition] gets the reason of the failure. *)
Definition HasAccessToBackendTargetRef {S} (client : Cache) (policyGVK : GroupKind) (policyNamespace : string)
    (targetRef : PolicyTargetReference) (addCondition : string → S → S) (st : S) : S * bool :=
  if negb (IsValidTargetRefToGroupKindOfService targetRef) then (addCondition "Invalid" st, false)
  else if notPermitted (mkFrom (gk_Group policyGVK) (gk_Kind policyGVK) policyNamespace) (ptr_Group targetRef)
            (ptr_Kind targetRef) (ptr_Namespace targetRef) (ptr_Name targetRef) (GetServiceRefGrants client)
  then (addCondition "TargetNotFound" st, false)
  else (st, true).

Definition IsPolicyAcceptedForAncestor `{StatusConditions} (ancestorRef : ParentReference)
    (ancestors : list PolicyAncestorStatus) : bool :=
  match List.find (λ a, bool_decide (pas_AncestorRef a = ancestorRef)) ancestors with
  | Some ancestor => IsStatusConditionTrue (pas_Conditions ancestor) "Accepted"
  | None => false
  end.

(** ** Ports of services and endpoints (service.go, endpoints.go, endpointslices.go) *)

Definition GetServicePort (svc : K8sService) (port : option Z) : option K8sServicePort :=
  match port with
  | None => if bool_decide (length (k8s_Ports svc) = 1%nat) then head (k8s_Ports svc) else None
  | Some p => List.find (λ sp, bool_decide (svp_Port sp = p)) (k8s_Ports svc)
  end.

Definition GetDefaultPort (svcPort : K8sServicePort) : Z :=
  match svp_TargetPort svcPort with
  | IntVal i => if bool_decide (i ≠ 0) then i else svp_Port svcPort
  | StrVal _ => svp_Port svcPort
  end.

Fixpoint FindEndpointPort (ports : list EndpointPort) (svcPort : K8sServicePort) : Z :=
  match ports with
  | [] => 0
  | epPort :: rest =>
      if bool_decide (svp_Name svcPort = "") then epp_Port epPort
      else if bool_decide (svp_Name svcPort = epp_Name epPort) then epp_Port epPort
      else match rest, svp_TargetPort svcPort with
           | [], IntVal i => i
           | _, _ => FindEndpointPort rest svcPort
           end
  end.

Fixpoint FindEndpointSlicePort (ports : list SlicePort) (svcPort : K8sServicePort) : Z :=
  match ports with
  | [] => 0
  | p :: rest =>
      match slp_Port p with
      | None => GetDefaultPort svcPort
      | Some port =>
          if bool_decide (slp_Name p = Some (svp_Name svcPort)) then port else FindEndpointSlicePort rest svcPort
      end
  end.

Definition FilterEndpointSliceList (slices : list EndpointSlice) (port : K8sServicePort) : list EndpointSlice :=
  List.filter (λ es, negb (bool_decide (FindEndpointSlicePort (es_Ports es) port = 0))) slices.

Definition IsEndpointReady (ep : SliceEndpoint) : bool := bool_decide (sle_Ready ep = Some true).

(** ** Certificates (certificates.go) *)

Definition IsTLSListener (l : Listener) : bool :=
  if bool_decide (l_Protocol l = HTTPSProtocolType) || bool_decide (l_Protocol l = TLSProtocolType) then
    match l_TLS l with
    | None => false
    | Some tls => match tls_Mode tls with None => true | Some mode => bool_decide (mode = TLSModeTerminate) end
    end
  else false.

(** The conditions of a resolver of secrets; one of them prints the group and
    the kind of the reference. *)
Record SecretConditionProvider (S : Type) := mkSecretProvider {
  AddInvalidCertificateRefCondition : SecretObjectReference → S → go S;
  sp_AddRefNotPermittedCondition : S → S;
  sp_AddRefNotFoundCondition : S → S;
  sp_AddGetRefErrorCondition : S → S;
  sp_AddRefsResolvedCondition : S → S }.
Arguments mkSecretProvider {_} _ _ _ _ _.
Arguments AddInvalidCertificateRefCondition {_} _ _ _.
Arguments sp_AddRefNotPermittedCondition {_} _ _.
Arguments sp_AddRefNotFoundCondition {_} _ _.
Arguments sp_AddGetRefErrorCondition {_} _ _.
Arguments sp_AddRefsResolvedCondition {_} _ _.

(** The text of the errors prints the group and the kind of the reference. *)
Definition SecretRefToSecret {S} (provider : SecretConditionProvider S) (client : Cache) (refererGVK : GroupKind)
    (refererNamespace : string) (ref : SecretObjectReference) (st : S) : go (S * option Secret) :=
  if negb (IsValidRefToGroupKindOfSecret ref) then
    st ← AddInvalidCertificateRefCondition provider ref st;
    _ ← deref (sor_Group ref);
    _ ← deref (sor_Kind ref);
    Ret (st, None)
  else if notPermitted (mkFrom (gk_Group refererGVK) (gk_Kind refererGVK) refererNamespace) KubernetesCoreGroup
            KubernetesSecretKind (sor_Namespace ref) (sor_Name ref) (GetSecretRefGrants client)
  then Ret (sp_AddRefNotPermittedCondition provider st, None)
  else
    match GetSecret client (mkNN (NamespaceDerefOr (sor_Namespace ref) refererNamespace) (sor_Name ref)) with
    | inl NotFound => Ret (sp_AddRefNotFoundCondition provider st, None)
    | inl GetFailed => Ret (sp_AddGetRefErrorCondition provider st, None)
    | inr secret => Ret (st, Some secret)
    end.

(** The loop: whether every reference so far was resolved. *)
Fixpoint resolveSecrets {S} (provider : SecretConditionProvider S) (client : Cache) (refererGVK : GroupKind)
    (refererNamespace : string) (refs : list SecretObjectReference) (st : S) : go (S * bool) :=
  match refs with
  | [] => Ret (st, true)
  | ref :: rest =>
      '(st, secret) ← SecretRefToSecret provider client refererGVK refererNamespace ref st;
      match secret with
      | None => Ret (st, false)
      | Some _ => resolveSecrets provider client refererGVK refererNamespace rest st
      end
  end.

Definition ResolveAllSecretRefs {S} (provider : SecretConditionProvider S) (client : Cache) (refererGVK : GroupKind)
    (refererNamespace : string) (refs : list SecretObjectReference) (st : S) : go (S * bool) :=
  '(st, resolved) ← resolveSecrets provider client refererGVK refererNamespace refs st;
  Ret (if resolved : bool then sp_AddRefsResolvedCondition provider st else st, resolved).

(** The conditions of a resolver of CA certificates. *)
Record ObjectConditionProvider (S : Type) := mkObjectProvider {
  AddInvalidRefCondition : S → S;
  op_AddRefNotPermittedCondition : S → S;
  op_AddRefNotFoundCondition : S → S;
  op_AddGetRefErrorCondition : S → S;
  AddNoRequiredCAFileCondition : S → S;
  AddEmptyCACondition : S → S;
  op_AddRefsResolvedCondition : S → S }.
Arguments mkObjectProvider {_} _ _ _ _ _ _ _.
Arguments AddInvalidRefCondition {_} _ _.
Arguments op_AddRefNotPermittedCondition {_} _ _.
Arguments op_AddRefNotFoundCondition {_} _ _.
Arguments op_AddGetRefErrorCondition {_} _ _.
Arguments AddNoRequiredCAFileCondition {_} _ _.
Arguments AddEmptyCACondition {_} _ _.
Arguments op_AddRefsResolvedCondition {_} _ _.

(** [corev1.ServiceAccountRootCAKey] *)
Definition ServiceAccountRootCAKey : string := "ca.crt".

(** The certificate in the data of the object that was read. *)
Definition caOf {S} (provider : ObjectConditionProvider S) (data : GetError + gmap string string) (st : S) : S * string :=
  match data with
  | inl NotFound => (op_AddRefNotFoundCondition provider st, "")
  | inl GetFailed => (op_AddGetRefErrorCondition provider st, "")
  | inr d =>
      match d !! ServiceAccountRootCAKey with
      | None => (AddNoRequiredCAFileCondition provider st, "")
      | Some ca => if bool_decide (ca = "") then (AddEmptyCACondition provider st, "") else (st, ca)
      end
  end.

(** Nil is the empty certificate: callers look at the length. *)
Definition ObjectRefToCACertificate {S} (provider : ObjectConditionProvider S) (client : Cache) (refererGVK : GroupKind)
    (refererNamespace : string) (ref : ObjectReference) (st : S) : S * string :=
  if negb (IsValidRefToGroupKindOfCA ref) then (AddInvalidRefCondition provider st, "")
  else if notPermitted (mkFrom (gk_Group refererGVK) (gk_Kind refererGVK) refererNamespace) KubernetesCoreGroup
            KubernetesSecretKind (or_Namespace ref) (or_Name ref) (GetCARefGrants client)
  then (op_AddRefNotPermittedCondition provider st, "")
  else
    let key := mkNN (NamespaceDerefOr (or_Namespace ref) refererNamespace) (or_Name ref) in
    caOf provider
      (if bool_decide (or_Kind ref = KubernetesSecretKind)
       then match GetSecret client key with inl e => inl e | inr secret => inr (sec_Data secret) end
       else match GetConfigMap client key with inl e => inl e | inr cm => inr (cm_Data cm) end) st.

Fixpoint resolveObjects {S} (provider : ObjectConditionProvider S) (client : Cache) (refererGVK : GroupKind)
    (refererNamespace : string) (refs : list ObjectReference) (st : S) : S * bool :=
  match refs with
  | [] => (st, true)
  | ref :: rest =>
      let '(st, ca) := ObjectRefToCACertificate provider client refererGVK refererNamespace ref st in
      if bool_decide (ca = "") then (st, false)
      else resolveObjects provider client refererGVK refererNamespace rest st
  end.

Definition ResolveAllObjectRefs {S} (provider : ObjectConditionProvider S) (client : Cache) (refererGVK : GroupKind)
    (refererNamespace : string) (refs : list ObjectReference) (st : S) : S * bool :=
  let '(st, resolved) := resolveObjects provider client refererGVK refererNamespace refs st in
  (if resolved : bool then op_AddRefsResolvedCondition provider st else st, resolved).

(** ** Gateways (gateway.go, gatewayclass.go) *)

Section gateways.
Context {SC : StatusConditions} {SS : SliceSort} (cache : Cache).

Definition findFSMGatewayClasses : option (list GatewayClass) :=
  items ← ListGatewayClasses cache GatewayController;
  Some (List.filter IsAcceptedGatewayClass (SortResources gc_Meta items)).

Definition GetGateways (filterFn : Gateway → bool) : list Gateway :=
  match findFSMGatewayClasses with
  | None => []
  | Some classes =>
      List.filter filterFn
        (foldl (λ gateways cls, gateways ++ default [] (ListGateways cache (om_Name (gc_Meta cls)))) [] classes)
  end.

Definition GetActiveGateways : list Gateway := GetGateways IsActiveGateway.

End gateways.

End Gateway.
