(* ===== verification/GatewayFacts.v ===== *)
(** * Properties of the gateway's references, hostnames and listeners

    What a reference grant permits, which service port a backend reference
    resolves to, which listeners a route may use, and which hostnames a
    listener and a route share. *)

From S2P Require Import Prelude Core K8sClient Cidr GatewayApi Gateway.
Import Core.Core K8sClient.K8sClient Cidr.Cidr GatewayApi.GatewayApi Gateway.Gateway.

Module GatewayFacts.

(** ** Reference grants *)

(** A grant of the target's namespace that lists the origin and the target. *)
Definition grants (from : CrossNamespaceFrom) (to : CrossNamespaceTo) (grant : ReferenceGrant) : Prop :=
  om_Namespace (rg_Meta grant) = cnt_Namespace to ∧
  (∃ f, f ∈ rg_From grant ∧ rgf_Namespace f = cnf_Namespace from ∧ rgf_Group f = cnf_Group from ∧
        rgf_Kind f = cnf_Kind from) ∧
  (∃ t, t ∈ rg_To grant ∧ rgt_Group t = cnt_Group to ∧ rgt_Kind t = cnt_Kind to ∧
        (rgt_Name t = None ∨ rgt_Name t = Some "" ∨ rgt_Name t = Some (cnt_Name to))).

Lemma existsb_elem_of {A} (f : A → bool) (l : list A) : existsb f l = true ↔ ∃ x, x ∈ l ∧ f x = true.
Proof. rewrite existsb_exists. by setoid_rewrite list_elem_of_In. Qed.

Lemma grantsFrom_spec from f :
  grantsFrom from f = true ↔
  rgf_Namespace f = cnf_Namespace from ∧ rgf_Group f = cnf_Group from ∧ rgf_Kind f = cnf_Kind from.
Proof. unfold grantsFrom. rewrite !andb_true_iff, !bool_decide_eq_true. tauto. Qed.

Lemma grantsTo_spec to t :
  grantsTo to t = true ↔
  rgt_Group t = cnt_Group to ∧ rgt_Kind t = cnt_Kind to ∧
  (rgt_Name t = None ∨ rgt_Name t = Some "" ∨ rgt_Name t = Some (cnt_Name to)).
Proof. unfold grantsTo. rewrite !andb_true_iff, !orb_true_iff, !bool_decide_eq_true. tauto. Qed.

Lemma grants_spec from to grant :
  grants from to grant ↔
  om_Namespace (rg_Meta grant) = cnt_Namespace to ∧ existsb (grantsFrom from) (rg_From grant) = true ∧
  existsb (grantsTo to) (rg_To grant) = true.
Proof.
  unfold grants. rewrite !existsb_elem_of.
  setoid_rewrite grantsFrom_spec. setoid_rewrite grantsTo_spec. done.
Qed.

Lemma ValidCrossNamespaceRef_spec from to gs :
  ValidCrossNamespaceRef from to gs = true ↔ ∃ grant, grant ∈ gs ∧ grants from to grant.
Proof.
  induction gs as [|g gs IH]; simpl.
  { split; [done|]. intros (? & ?%elem_of_nil & _). done. }
  assert ((∃ grant, grant ∈ g :: gs ∧ grants from to grant) ↔
          grants from to g ∨ ∃ grant, grant ∈ gs ∧ grants from to grant) as ->
    by (setoid_rewrite elem_of_cons; naive_solver).
  rewrite <-IH, grants_spec. case_bool_decide as Hns; [tauto|].
  destruct (existsb (grantsFrom from) (rg_From g)), (existsb (grantsTo to) (rg_To g)); simpl; intuition congruence.
Qed.

(** A reference stays in its namespace, or there is a grant. *)
Definition permitted (from : CrossNamespaceFrom) (to : CrossNamespaceTo) (gs : list ReferenceGrant) : Prop :=
  cnt_Namespace to = cnf_Namespace from ∨ ∃ grant, grant ∈ gs ∧ grants from to grant.

Lemma notPermitted_spec from group kind ns name gs :
  notPermitted from group kind ns name gs = false ↔
  permitted from (mkTo group kind (NamespaceDerefOr ns (cnf_Namespace from)) name) gs.
Proof.
  unfold notPermitted, permitted, NamespaceDerefOr. destruct ns as [ns|]; simpl; [|naive_solver].
  rewrite andb_false_iff, negb_false_iff, bool_decide_eq_false, ValidCrossNamespaceRef_spec.
  split; (intros [?|?]; [left|right]); [by apply dec_stable|done|naive_solver|done].
Qed.

(** ** Backend references *)

Section backend.
Context (client : Cache) (gvk : GroupKind) (ns : string).

(** What it means that a backend reference names a service port. *)
Definition resolves (ref : BackendObjectReference) (spn : ServicePortName) : Prop :=
  ∃ group kind port svc svcPort,
    bor_Group ref = Some group ∧ bor_Kind ref = Some kind ∧ bor_Port ref = Some port ∧
    ((kind = KubernetesServiceKind ∧ group = KubernetesCoreGroup) ∨
     (kind = FlomeshAPIServiceImportKind ∧ group = FlomeshMCSAPIGroup)) ∧
    permitted (mkFrom (gk_Group gvk) (gk_Kind gvk) ns)
      (mkTo group kind (NamespaceDerefOr (bor_Namespace ref) ns) (bor_Name ref)) (GetServiceRefGrants client) ∧
    GetService client (mkNN (NamespaceDerefOr (bor_Namespace ref) ns) (bor_Name ref)) = inr svc ∧
    servicePort (k8s_Ports svc) port = Some svcPort ∧
    spn = mkServicePortName (mkNN (NamespaceDerefOr (bor_Namespace ref) ns) (bor_Name ref)) (svp_Name svcPort)
            (Some port) (svp_Protocol svcPort) (svp_AppProtocol svcPort).

Lemma validBackend_spec ref :
  IsValidBackendRefToGroupKindOfService ref = true ↔
  ∃ group kind, bor_Group ref = Some group ∧ bor_Kind ref = Some kind ∧
    ((kind = KubernetesServiceKind ∧ group = KubernetesCoreGroup) ∨
     (kind = FlomeshAPIServiceImportKind ∧ group = FlomeshMCSAPIGroup)).
Proof.
  unfold IsValidBackendRefToGroupKindOfService.
  destruct (bor_Group ref), (bor_Kind ref);
    rewrite ?orb_true_iff, ?andb_true_iff, ?bool_decide_eq_true; naive_solver.
Qed.

#[local] Ltac not_resolved :=
  let H := fresh in intros spn (? & ? & ? & ? & ? & H); destruct_and! H; simplify_eq; congruence.

(** With a group and a kind the function returns: the service port, or nil
    with a condition, and then the reference resolves to nothing. *)
Lemma BackendRefToServicePortName_cases {S} (add : string → S → S) ref st :
  is_Some (bor_Group ref) → is_Some (bor_Kind ref) →
  (∃ spn, BackendRefToServicePortName client gvk ns ref add st = Ret (st, Some spn) ∧ resolves ref spn) ∨
  (∃ reason, BackendRefToServicePortName client gvk ns ref add st = Ret (add reason st, None) ∧
     ∀ spn, ¬ resolves ref spn).
Proof.
  intros [group Hg] [kind Hk]. unfold BackendRefToServicePortName.
  destruct (IsValidBackendRefToGroupKindOfService ref) eqn:Hv; simpl; last first.
  { right. rewrite Hg, Hk. eexists. split; [done|].
    intros spn (g & k & _ & _ & _ & ? & ? & _ & ? & _).
    assert (IsValidBackendRefToGroupKindOfService ref = true) by (apply validBackend_spec; eauto). congruence. }
  destruct (bor_Port ref) as [port|] eqn:Hp; [|right; eexists; split; [done|]; not_resolved].
  rewrite Hg, Hk. simpl.
  destruct (notPermitted _ _ _ _ _ _) eqn:Hn.
  { right. eexists. split; [done|]. intros spn (g & k & _ & _ & _ & ? & ? & _ & _ & Hperm & _). simplify_eq.
    apply (notPermitted_spec (mkFrom _ _ ns)) in Hperm. congruence. }
  destruct (GetService _ _) as [e|svc] eqn:Hs; [right; eexists; split; [done|]; not_resolved|].
  destruct (servicePort _ _) as [sp|] eqn:Hsp; [|right; eexists; split; [done|]; not_resolved].
  left. eexists. split; [done|]. apply validBackend_spec in Hv as (g & k & ? & ? & ?).
  exists group, kind, port, svc, sp. simplify_eq.
  repeat split; try done. by apply notPermitted_spec in Hn.
Qed.

Lemma BackendRefToServicePortName_Some {S} (add : string → S → S) ref st st' spn :
  BackendRefToServicePortName client gvk ns ref add st = Ret (st', Some spn) → st' = st ∧ resolves ref spn.
Proof.
  intros H. destruct (bor_Group ref) as [g|] eqn:Hg, (bor_Kind ref) as [k|] eqn:Hk.
  1: destruct (BackendRefToServicePortName_cases add ref st) as [(?&E&?)|(?&E&?)]; [by eauto..|rewrite E in H; by simplify_eq|congruence].
  all: unfold BackendRefToServicePortName, IsValidBackendRefToGroupKindOfService in H;
    rewrite Hg, ?Hk in H; simpl in H; rewrite ?Hk in H; done.
Qed.

Lemma resolves_det ref spn spn' : resolves ref spn → resolves ref spn' → spn = spn'.
Proof. intros (?&?&?&?&?&?&?&?&_&_&?&?&->) (?&?&?&?&?&?&?&?&_&_&?&?&->). congruence. Qed.

End backend.

(** ** Listeners *)

Lemma foldl_insert_lookup {A} (name : A → string) (l : list A) (m : gmap string A) n x :
  foldl (λ m y, <[name y := y]> m) m l !! n = Some x → (x ∈ l ∧ name x = n) ∨ m !! n = Some x.
Proof.
  revert m. induction l as [|y l IH]; intros m; simpl; [auto|].
  intros [[??]|H]%IH; [left; split; [by right|done]|].
  apply lookup_insert_Some in H as [[<- <-]|[_ ?]]; [left; split; [by left|done]|by right].
Qed.

Lemma foldl_insert_NoDup {A} (name : A → string) (l : list A) (m : gmap string A) x :
  NoDup (name <$> l) → x ∈ l → foldl (λ m y, <[name y := y]> m) m l !! name x = Some x.
Proof.
  revert m. induction l as [|y l IH]; intros m; simpl; [by intros _ ?%elem_of_nil|].
  intros [Hy Hl]%NoDup_cons [->|Hx]%elem_of_cons; [|by apply IH].
  cut (∀ m : gmap string A, m !! name y = Some y →
         foldl (λ m y, <[name y := y]> m) m l !! name y = Some y).
  { intros H. apply H, lookup_insert_eq. }
  clear IH Hl. induction l as [|z l IH]; intros m' Hm; simpl; [done|].
  rewrite fmap_cons, not_elem_of_cons in Hy. apply IH; [by destruct Hy|].
  rewrite lookup_insert_ne; [done|]. destruct Hy. congruence.
Qed.

Section listeners.
Context {SC : StatusConditions} {LS : LabelSelectors} (client : Cache).

Lemma foldl_valid (m : gmap string Listener) (ss : list ListenerStatus) (acc : list GwListener) :
  foldl (λ validListeners s,
    if IsListenerValid s then
      match m !! lst_Name s with
      | None => validListeners
      | Some l => validListeners ++ [mkGwListener l (lst_SupportedKinds s)]
      end
    else validListeners) acc ss =
  acc ++ (ss ≫= λ s, if IsListenerValid s then
                       match m !! lst_Name s with
                       | None => []
                       | Some l => [mkGwListener l (lst_SupportedKinds s)]
                       end else []).
Proof.
  revert acc. induction ss as [|s ss IH]; intros acc; [by rewrite app_nil_r|].
  cbn [foldl]. rewrite IH, bind_cons. destruct (IsListenerValid s); [|done].
  destruct (m !! lst_Name s); [by rewrite <-app_assoc|done].
Qed.

(** The listeners in use are those of the specification whose status says
    that they are valid. *)
Lemma elem_of_GetValidListeners gw l :
  l ∈ GetValidListenersForGateway gw →
  gl_Listener l ∈ gw_Listeners gw ∧
  ∃ s, s ∈ gw_ListenerStatuses gw ∧ lst_Name s = l_Name l ∧ IsListenerValid s = true ∧ gl_SupportedKinds l = lst_SupportedKinds s.
Proof.
  unfold GetValidListenersForGateway. rewrite foldl_valid. simpl.
  intros (s & Hl & Hs)%list_elem_of_bind. destruct (IsListenerValid s) eqn:Hv; [|by apply elem_of_nil in Hl].
  destruct (_ !! lst_Name s) as [l'|] eqn:Hm; [|by apply elem_of_nil in Hl].
  apply list_elem_of_singleton in Hl as ->. simpl.
  apply (foldl_insert_lookup l_Name) in Hm as [[? ?]|Hm]; [|by rewrite lookup_empty in Hm]. eauto 10.
Qed.

Lemma GetValidListeners_elem gw l s :
  NoDup (l_Name <$> gw_Listeners gw) → l ∈ gw_Listeners gw → s ∈ gw_ListenerStatuses gw → lst_Name s = l_Name l →
  IsListenerValid s = true → mkGwListener l (lst_SupportedKinds s) ∈ GetValidListenersForGateway gw.
Proof.
  intros Hd Hl Hs Hn Hv. unfold GetValidListenersForGateway. rewrite foldl_valid. simpl.
  apply list_elem_of_bind. exists s. split; [|done]. rewrite Hv, Hn, (foldl_insert_NoDup l_Name) by done.
  by left.
Qed.

Definition supports (l : GwListener) (gvk : GroupKind) : Prop :=
  ∃ k, k ∈ gl_SupportedKinds l ∧ rgk_Kind k = gk_Kind gvk ∧ rgk_Group k = Some (gk_Group gvk).

Lemma allowsKind_spec kinds gvk b :
  allowsKind kinds gvk = Ret b →
  b = true ↔ ∃ k, k ∈ kinds ∧ rgk_Kind k = gk_Kind gvk ∧ rgk_Group k = Some (gk_Group gvk).
Proof.
  revert b. induction kinds as [|k kinds IH]; simpl; intros b.
  { intros [= <-]. split; [done|]. by intros (? & ?%elem_of_nil & _). }
  destruct (rgk_Group k) as [g|] eqn:Hg; simpl; [|done].
  setoid_rewrite elem_of_cons. destruct (bool_decide (rgk_Kind k = _)) eqn:E1; simpl.
  1: destruct (bool_decide (g = _)) eqn:E2.
  { intros [= <-]. apply bool_decide_eq_true in E1, E2. subst. split; [|done]. eauto 10. }
  all: intros H; rewrite (IH _ H); split; [naive_solver|]; intros (k' & [->|?] & ?); [|naive_solver].
  - apply bool_decide_eq_false in E2. destruct_and!. congruence.
  - apply bool_decide_eq_false in E1. destruct_and!. congruence.
Qed.

Lemma allowsKind_total kinds gvk : (∀ k, k ∈ kinds → is_Some (rgk_Group k)) → ∃ b, allowsKind kinds gvk = Ret b.
Proof.
  induction kinds as [|k kinds IH]; intros Hk; simpl; [eauto|].
  destruct (Hk k) as [g ->]; [by left|]. simpl. destruct (_ && _); [eauto|]. apply IH. intros k' ?. apply Hk. by right.
Qed.

Section allowed.
Context (gvk : GroupKind) (routeNs : string) (parentRef : ParentReference) (gw : Gateway).

(** The listener allows the kind and the namespace of the route. *)
Definition allows (l : GwListener) : Prop :=
  supports l gvk ∧
  ∃ routes, l_AllowedRoutes l = Some routes ∧
    NamespaceMatches client (ar_Namespaces routes) (om_Namespace (gw_Meta gw)) routeNs = true.

(** A valid listener the parent reference selects and that allows the route. *)
Definition usable (l : GwListener) : Prop :=
  l ∈ GetValidListenersForGateway gw ∧ selectsListener parentRef l = true ∧ allows l.

Lemma allowedListeners_spec sel al :
  allowedListeners client (om_Namespace (gw_Meta gw)) gvk routeNs sel = Ret al →
  ∀ l, l ∈ al ↔ l ∈ sel ∧ allows l.
Proof.
  revert al. induction sel as [|x sel IH]; simpl; intros al H l.
  { simplify_eq. split; [by intros ?%elem_of_nil|]. by intros [?%elem_of_nil _]. }
  destruct (AllowsKind x gvk) as [b|] eqn:Hb; simpl in H; [|done].
  pose proof (allowsKind_spec _ _ _ Hb) as Hs. rewrite elem_of_cons. unfold allows in *. destruct b; simpl in H.
  - destruct (l_AllowedRoutes x) as [routes|] eqn:Hr; simpl in H; [|done].
    destruct (allowedListeners _ _ _ _ sel) as [al'|] eqn:Ha; simpl in H; [|done]. specialize (IH _ eq_refl l).
    assert (supports x gvk) by by apply Hs.
    destruct (NamespaceMatches _ _ _ _) eqn:Hn; simplify_eq; rewrite ?elem_of_cons, IH; [naive_solver|].
    split; [naive_solver|]. intros [[->|?] (? & r & ? & ?)]; [congruence|eauto].
  - rewrite (IH _ H). split; [naive_solver|]. intros [[->|?] (Hx & ?)]; [|eauto]. apply Hs in Hx. done.
Qed.

Definition wf_listener (l : GwListener) : Prop :=
  is_Some (l_AllowedRoutes l) ∧ ∀ k, k ∈ gl_SupportedKinds l → is_Some (rgk_Group k).

Lemma allowedListeners_total sel :
  Forall wf_listener sel → ∃ al, allowedListeners client (om_Namespace (gw_Meta gw)) gvk routeNs sel = Ret al.
Proof.
  induction 1 as [|x sel [[routes Hr] Hk] _ [al IH]]; simpl; [eauto|].
  unfold AllowsKind. destruct (allowsKind_total _ gvk Hk) as [b ->]. simpl. rewrite IH, Hr. destruct b; simpl; eauto.
Qed.

Lemma elem_of_selected (l : GwListener) :
  l ∈ List.filter (λ l, selectsListener parentRef (gl_Listener l)) (GetValidListenersForGateway gw) ↔
  l ∈ GetValidListenersForGateway gw ∧ selectsListener parentRef l = true.
Proof. by rewrite elem_of_lfilter. Qed.

Context {S : Type} (provider : ListenerConditionProvider S).

Lemma GetAllowedListeners_spec st st' al :
  GetAllowedListeners client provider gvk routeNs parentRef gw st = Ret (st', al) →
  (∀ l, l ∈ al ↔ usable l) ∧
  ((al ≠ [] ∧ st' = st) ∨
   (al = [] ∧ (st' = AddNoMatchingParentCondition provider st ∨ st' = AddNotAllowedByListenersCondition provider st))).
Proof.
  unfold GetAllowedListeners, usable. set (sel := List.filter _ _). intros H.
  setoid_rewrite (assoc and). setoid_rewrite <-elem_of_selected. fold sel.
  case_bool_decide as Hsel.
  { apply length_zero_iff_nil in Hsel. rewrite Hsel. simplify_eq. split; [|by eauto].
    intros l. split; [by intros ?%elem_of_nil|]. by intros [?%elem_of_nil _]. }
  destruct (allowedListeners _ _ _ _ sel) as [al'|] eqn:Ha; simpl in H; [|done].
  pose proof (allowedListeners_spec _ _ Ha).
  case_bool_decide as Hal; simplify_eq.
  - apply length_zero_iff_nil in Hal as ->. eauto.
  - split; [done|]. left. split; [|done]. by intros ->.
Qed.

Lemma GetAllowedListeners_total st :
  (∀ l, l ∈ GetValidListenersForGateway gw → wf_listener l) →
  ∃ res, GetAllowedListeners client provider gvk routeNs parentRef gw st = Ret res.
Proof.
  intros Hwf. unfold GetAllowedListeners. case_bool_decide; [eauto|].
  destruct (allowedListeners_total (List.filter (λ l, selectsListener parentRef (gl_Listener l))
    (GetValidListenersForGateway gw))) as [al ->]; [|simpl; case_bool_decide; eauto].
  apply Forall_forall. intros l [? _]%elem_of_selected. auto.
Qed.

End allowed.
End listeners.

(** ** Hostnames *)

Section hostnames.
Context `{GS : GlobsSpec} {MR : MapRange}.

(** A name, or a star in front of one. *)
Definition hostname_ok (h : string) : Prop :=
  glob_plain h = true ∨ ∃ suffix, h = String "*" suffix ∧ glob_plain suffix = true.

(** A star stands for one label. *)
Definition wildcard_matches (wildcard h : string) : Prop :=
  ∃ suffix label, wildcard = String "*" suffix ∧ h = label +:+ suffix ∧ str_in "." label = false.

(** The hostname a listener and a route share, if any: equal names, or a name
    that the wildcard of the other one matches. *)
Definition shares (lh : option string) (rh h : string) : Prop :=
  match lh with
  | None => h = rh
  | Some lh => (h = rh ∧ (lh = rh ∨ wildcard_matches lh rh)) ∨
               (h = lh ∧ glob_plain lh = true ∧ wildcard_matches rh lh)
  end.

Lemma wildcard_plain wildcard h : wildcard_matches wildcard h → glob_plain wildcard = false.
Proof. by intros (suffix & _ & -> & _). Qed.

Lemma HasPrefix_star_true h : HasPrefix h "*" = true ↔ ∃ suffix, h = String "*" suffix.
Proof.
  unfold HasPrefix. rewrite bool_decide_eq_true. simpl. destruct h as [|c h]; [naive_solver|].
  change (str_take 1 (String c h)) with (String c (str_take 0 h)). destruct h; simpl; naive_solver.
Qed.

Lemma HostnameMatches_spec h wildcard :
  hostname_ok wildcard → HasPrefix wildcard "*" = true →
  ∃ b, HostnameMatchesWildcardHostname h wildcard = Ret b ∧ (b = true ↔ wildcard_matches wildcard h).
Proof.
  intros Hok Hp. destruct Hok as [Hpl|(suffix & -> & Hs)].
  { by apply HasPrefix_star_true in Hp as [w ->]. }
  unfold HostnameMatchesWildcardHostname. destruct (glob_star suffix Hs) as (m & -> & Hm). simpl.
  exists (m h). split; [done|]. rewrite Hm. unfold wildcard_matches. naive_solver.
Qed.

Lemma HasPrefix_star h : hostname_ok h → HasPrefix h "*" = negb (glob_plain h).
Proof.
  intros Hok. apply Bool.eq_iff_eq_true. rewrite HasPrefix_star_true, negb_true_iff.
  destruct Hok as [Hpl|(suffix & -> & _)]; [|naive_solver]. rewrite Hpl. split; [|done]. by intros [suffix ->].
Qed.

Lemma hostnameStep_spec lh (hs : gmap string unit) rh :
  (∀ h, lh = Some h → hostname_ok h) → hostname_ok rh →
  ∃ hs', hostnameStep lh hs rh = Ret hs' ∧
    ∀ h, is_Some (hs' !! h) ↔ is_Some (hs !! h) ∨ shares lh rh h.
Proof.
  intros Hl Hr. unfold hostnameStep, shares.
  assert (∀ k h, is_Some (<[k := tt]> hs !! h) ↔ is_Some (hs !! h) ∨ h = k) as Hins
    by (intros; rewrite lookup_insert_is_Some'; naive_solver).
  destruct lh as [lh|]; [|by eexists]. specialize (Hl lh eq_refl).
  case_bool_decide as Heq.
  { eexists. split; [done|]. intros h. rewrite Hins. subst. split; [naive_solver|].
    intros [?|[[-> _]|[-> _]]]; auto. }
  rewrite !HasPrefix_star by done. destruct (glob_plain lh) eqn:Hpl; simpl.
  - assert (¬ wildcard_matches lh rh) as Hno by (intros ?%wildcard_plain; congruence).
    destruct (glob_plain rh) eqn:Hpr; simpl.
    + eexists. split; [done|]. intros h. split; [auto|]. intros [?|[[_ [?|?]]|(_ & _ & ?%wildcard_plain)]]; [done..|congruence].
    + destruct (HostnameMatches_spec lh rh) as (b & -> & Hb); [done|by rewrite HasPrefix_star, Hpr|].
      simpl. eexists. split; [done|]. intros h. destruct b; [rewrite Hins|]; naive_solver.
  - destruct (HostnameMatches_spec rh lh) as (b & -> & Hb); [done|by rewrite HasPrefix_star, Hpl|].
    simpl. eexists. split; [done|]. intros h. destruct b; [rewrite Hins|]; naive_solver.
Qed.

(** C33. The hostnames of a route on a listener: with hostnames that are names,
    or a star in front of a name, [GetValidHostnames] returns, without
    duplicates, exactly the hostnames the two share; a route without hostnames
    takes that of the listener.  A star stands for one label, as the glob is
    compiled with the dot as separator, where the documentation of the
    hostnames of routes and listeners has it match any number of labels. *)
Theorem valid_hostnames_exact lh rhs :
  (∀ h, lh = Some h → hostname_ok h) → (∀ h, h ∈ rhs → hostname_ok h) →
  ∃ hs, GetValidHostnames lh rhs = Ret hs ∧ NoDup hs ∧
    ∀ h, h ∈ hs ↔ (rhs = [] ∧ h = default "*" lh) ∨ ∃ rh, rh ∈ rhs ∧ shares lh rh h.
Proof.
  intros Hl Hr. unfold GetValidHostnames. destruct rhs as [|rh0 rhs0] eqn:E.
  { eexists. split; [done|]. split; [apply NoDup_singleton|]. intros h. rewrite list_elem_of_singleton.
    split; [auto|]. by intros [[_ ?]|(? & ?%elem_of_nil & _)]. }
  rewrite <-E in *. assert (rhs ≠ []) as Hne by by subst. clear E.
  destruct (gofold_run (λ done hs, ∀ h, is_Some (hs !! h) ↔ ∃ rh, rh ∈ done ∧ shares lh rh h)
    (hostnameStep lh) ∅ rhs) as (hs & -> & Hhs).
  - intros h. rewrite lookup_empty, is_Some_alt. split; [done|]. by intros (? & ?%elem_of_nil & _).
  - intros l1 rh l2 hs -> HP. destruct (hostnameStep_spec lh hs rh Hl) as (hs' & -> & Hs'); [apply Hr; set_solver|].
    eexists. split; [done|]. intros h. rewrite Hs', HP. setoid_rewrite elem_of_app. setoid_rewrite list_elem_of_singleton.
    naive_solver.
  - simpl. eexists. split; [done|]. split; [apply NoDup_map_range|]. intros h.
    rewrite list_elem_of_fmap. transitivity (is_Some (hs !! h)); [|rewrite Hhs; naive_solver].
    split; [intros ([k []] & -> & ?%elem_of_map_range); by eexists|].
    intros [[] ?]. exists (h, tt). split; [done|]. by apply elem_of_map_range.
Qed.

End hostnames.

(** A glob package for the witnesses: a star in front takes one label. *)
Definition demoStar (suffix h : string) : bool :=
  existsb (λ n, bool_decide (str_drop n h = suffix) && negb (str_in "." (str_take n h))) (seq 0 (S (String.length h))).

Definition demoGlobs : Globs := {|
  glob_Compile p := match p with
                    | String "*" suffix => Some (demoStar suffix)
                    | _ => Some (λ h, bool_decide (h = p))
                    end |}.

Lemma demoGlobsSpec : @GlobsSpec demoGlobs.
Proof.
  constructor. intros suffix _. exists (demoStar suffix). split; [done|]. intros h. unfold demoStar.
  rewrite existsb_elem_of. setoid_rewrite andb_true_iff. setoid_rewrite bool_decide_eq_true.
  setoid_rewrite negb_true_iff. setoid_rewrite elem_of_seq. split.
  - intros (n & _ & <- & Hd). exists (str_take n h). split; [by rewrite str_take_drop|done].
  - intros (label & -> & Hd). exists (String.length label). rewrite str_drop_app, str_take_app, str_length_app.
    repeat split; [lia..|done].
Qed.

Lemma valid_hostnames_exact_witness :
  ∃ hs, @GetValidHostnames demoGlobs trie_range (Some "*.example.com") ["a.example.com"; "a.b.example.com"] = Ret hs ∧
    "a.example.com" ∈ hs ∧ "a.b.example.com" ∉ hs.
Proof.
  destruct (@valid_hostnames_exact demoGlobs demoGlobsSpec trie_range (Some "*.example.com")
    ["a.example.com"; "a.b.example.com"]) as (hs & E & _ & H).
  - intros h [= <-]. right. eexists. split; reflexivity.
  - intros h [->|[->|?%elem_of_nil]%elem_of_cons]%elem_of_cons; [left..|done]; reflexivity.
  - exists hs. split; [done|]. vm_compute in E. injection E as <-. split; [left|].
    intros [Hx|Hx%elem_of_nil]%elem_of_cons; [discriminate|done].
Defined.

End GatewayFacts.
