(* ===== verification/GatewayStatus.v ===== *)
(** * The status of routes: pkg/gateway/status/routes, pkg/gateway/status/policies

    For every parent of a route the processor adds the conditions Accepted
    and ResolvedRefs, computes the status of the policies of its backends, and
    sends what it computed to the writer of statuses.  The state is the
    conditions of the route so far with the updates sent so far; events are
    left out. *)

From S2P Require Import Prelude Core Net Cidr GatewayApi Gateway.
Import Core.Core Net.Net Cidr.Cidr GatewayApi.GatewayApi Gateway.Gateway.

Module GatewayStatus.

#[local] Open Scope Z_scope.

(** ** Constants *)

Definition RouteConditionAccepted : string := "Accepted".
Definition RouteConditionResolvedRefs : string := "ResolvedRefs".
Definition PolicyConditionAccepted : string := "Accepted".

Definition ProtocolTCP : string := "TCP".
Definition ProtocolUDP : string := "UDP".

Definition K8sAppProtocolH2C : string := "kubernetes.io/h2c".
Definition K8sAppProtocolWS : string := "kubernetes.io/ws".
Definition K8sAppProtocolWSS : string := "kubernetes.io/wss".
Definition FlomeshAppProtocolHTTP : string := "gateway.flomesh.io/http".
Definition FlomeshAppProtocolGRPC : string := "gateway.flomesh.io/grpc".
Definition AppProtocolH2C : string := "h2c".
Definition AppProtocolWS : string := "ws".
Definition AppProtocolWSS : string := "wss".
Definition AppProtocolHTTP : string := "http".
Definition AppProtocolGRPC : string := "grpc".

Definition validHTTPRouteAppProtocols : list string :=
  [K8sAppProtocolH2C; K8sAppProtocolWS; K8sAppProtocolWSS; FlomeshAppProtocolHTTP;
   AppProtocolH2C; AppProtocolWS; AppProtocolWSS; AppProtocolHTTP].

Definition validGRPCRouteAppProtocols : list string :=
  [K8sAppProtocolH2C; K8sAppProtocolWS; K8sAppProtocolWSS; FlomeshAppProtocolHTTP; FlomeshAppProtocolGRPC;
   AppProtocolH2C; AppProtocolWS; AppProtocolWSS; AppProtocolHTTP; AppProtocolGRPC].

Definition isSupportedAppProtocol (appProtocol : string) (allowedAppProtocols : list string) : bool :=
  existsb (λ allowed, bool_decide (appProtocol = allowed)) allowedAppProtocols.

(** ** Hostnames (pkg/webhook/utils.go) *)

(** The validation of names of apimachinery: whether there are no errors. *)
Class DNSValidation : Type := {
  IsWildcardDNS1123Subdomain : string → bool;
  IsDNS1123Subdomain : string → bool
}.

Definition IsValidHostname `{DNSValidation} (hostname : string) : bool :=
  if bool_decide (ParseIP hostname ≠ []) then false
  else if str_in "*" hostname then IsWildcardDNS1123Subdomain hostname
  else IsDNS1123Subdomain hostname.

(** ** Conditions of a parent (route.go) and of an ancestor (policy.go) *)

Section conditions.
Context {SC : StatusConditions}.

Definition ConditionsForParentRef (statuses : list RouteParentStatus) (parentRef : ParentReference) : list StatusCondition :=
  match List.find (λ rps, bool_decide (rps_ParentRef rps = parentRef)) statuses with
  | Some rps => rps_Conditions rps
  | None => []
  end.

Fixpoint AddCondition (parentRef : ParentReference) (cond : StatusCondition) (statuses : list RouteParentStatus)
    : list RouteParentStatus :=
  match statuses with
  | [] => [mkRouteParentStatus parentRef GatewayController (SetStatusCondition [] cond)]
  | v :: rest =>
      if bool_decide (rps_ParentRef v = parentRef)
      then mkRouteParentStatus (rps_ParentRef v) (rps_ControllerName v) (SetStatusCondition (rps_Conditions v) cond) :: rest
      else v :: AddCondition parentRef cond rest
  end.

Definition ConditionExists (statuses : list RouteParentStatus) (parentRef : ParentReference) (conditionType : string) : bool :=
  existsb (λ c, bool_decide (sc_Type c = conditionType)) (ConditionsForParentRef statuses parentRef).

Definition ConditionsForAncestorRef (statuses : list PolicyAncestorStatus) (ancestorRef : ParentReference)
    : list StatusCondition :=
  match List.find (λ pas, bool_decide (pas_AncestorRef pas = ancestorRef)) statuses with
  | Some pas => pas_Conditions pas
  | None => []
  end.

Fixpoint AddPolicyCondition (ancestorRef : ParentReference) (cond : StatusCondition) (statuses : list PolicyAncestorStatus)
    : list PolicyAncestorStatus :=
  match statuses with
  | [] => [mkAncestorStatus ancestorRef GatewayController (SetStatusCondition [] cond)]
  | v :: rest =>
      if bool_decide (pas_AncestorRef v = ancestorRef)
      then mkAncestorStatus (pas_AncestorRef v) (pas_ControllerName v) (SetStatusCondition (pas_Conditions v) cond) :: rest
      else v :: AddPolicyCondition ancestorRef cond rest
  end.

Definition PolicyConditionExists (statuses : list PolicyAncestorStatus) (ancestorRef : ParentReference)
    (conditionType : string) : bool :=
  existsb (λ c, bool_decide (sc_Type c = conditionType)) (ConditionsForAncestorRef statuses ancestorRef).

(** gateway.go *)
Definition IsEffectiveRouteForParent (statuses : list RouteParentStatus) (parentRef : ParentReference) : bool :=
  let conditions := ConditionsForParentRef statuses parentRef in
  IsStatusConditionTrue conditions RouteConditionAccepted && IsStatusConditionTrue conditions RouteConditionResolvedRefs.

End conditions.

(** ** The processor *)

(** What is sent to the writer of statuses: the object and what its mutator
    writes. *)
Inductive Update :=
  | RouteUpdate (kind : RouteKind) (name : NamespacedName) (parents : list RouteParentStatus)
  | BackendTLSPolicyUpdate (name : NamespacedName) (ancestors : list PolicyAncestorStatus)
  | BackendLBPolicyUpdate (name : NamespacedName) (ancestors : list PolicyAncestorStatus)
  | HealthCheckPolicyUpdate (name : NamespacedName) (ancestors : list PolicyAncestorStatus)
  | RouteRuleFilterPolicyUpdate (name : NamespacedName) (ancestors : list PolicyAncestorStatus).

Record RouteStatus := mkRouteStatus { st_Parents : list RouteParentStatus; st_Sent : list Update }.

Definition Send (u : Update) (st : RouteStatus) : RouteStatus := mkRouteStatus (st_Parents st) (st_Sent st ++ [u]).

Section processor.
Context {SC : StatusConditions} {LS : LabelSelectors} {G : Globs} {MR : MapRange} {SS : SliceSort} {DV : DNSValidation}.
Context (client : Cache).

Definition addCondition (parentRef : ParentReference) (t status reason : string) (st : RouteStatus) : RouteStatus :=
  mkRouteStatus (AddCondition parentRef (mkCond t status reason) (st_Parents st)) (st_Sent st).

(** methods.go *)
Definition addNotAcceptedCondition (parentRef : ParentReference) (reason : string) : RouteStatus → RouteStatus :=
  addCondition parentRef RouteConditionAccepted ConditionFalse reason.
Definition addNotResolvedRefsCondition (parentRef : ParentReference) (reason : string) : RouteStatus → RouteStatus :=
  addCondition parentRef RouteConditionResolvedRefs ConditionFalse reason.
Definition addResolvedRefsCondition (parentRef : ParentReference) (reason : string) : RouteStatus → RouteStatus :=
  addCondition parentRef RouteConditionResolvedRefs ConditionTrue reason.

(** types.go *)
Definition RouteParentListenerConditionProvider (parentRef : ParentReference) : ListenerConditionProvider RouteStatus :=
  mkListenerProvider (addCondition parentRef RouteConditionAccepted ConditionFalse "NoMatchingParent")
    (addCondition parentRef RouteConditionAccepted ConditionFalse "NotAllowedByListeners").

Definition PolicyObjectReferenceConditionProvider (ancestorRef : ParentReference)
    : ObjectConditionProvider (list PolicyAncestorStatus) :=
  let failed reason := AddPolicyCondition ancestorRef (mkCond PolicyConditionAccepted ConditionFalse reason) in
  mkObjectProvider (failed "Invalid") (failed "Invalid") (failed "TargetNotFound") (failed "Invalid")
    (failed "Invalid") (failed "Invalid")
    (AddPolicyCondition ancestorRef (mkCond PolicyConditionAccepted ConditionTrue "Accepted")).

(** *** Policies *)

Definition BackendTLSPolicyGVK : GroupKind := mkGroupKind GroupName "BackendTLSPolicy".
Definition HealthCheckPolicyGVK : GroupKind := mkGroupKind "gateway.flomesh.io" "HealthCheckPolicy".

(** The end of three functions: accepted unless there is a condition. *)
Definition acceptIfNew (ancestors : list PolicyAncestorStatus) (routeParentRef : ParentReference) : list PolicyAncestorStatus :=
  if negb (PolicyConditionExists ancestors routeParentRef PolicyConditionAccepted)
  then AddPolicyCondition routeParentRef (mkCond PolicyConditionAccepted ConditionTrue "Accepted") ancestors
  else ancestors.

(** The body after the policy was found: its ancestors as they are sent. *)
Definition backendTLSPolicyAncestors (policy : BackendTLSPolicy) (routeParentRef : ParentReference)
    : list PolicyAncestorStatus :=
  let ancestors := btp_Ancestors policy in
  let invalid := AddPolicyCondition routeParentRef (mkCond PolicyConditionAccepted ConditionFalse "Invalid") ancestors in
  if bool_decide (is_Some (btp_WellKnownCACertificates policy)) && bool_decide (btp_WellKnownCACertificates policy ≠ Some "")
  then invalid
  else if negb (IsValidHostname (btp_Hostname policy)) then invalid
  else if str_in "*" (btp_Hostname policy) then invalid
  else
    let refs := (λ '(group, kind, name), mkObjectRef group kind name (Some (om_Namespace (btp_Meta policy))))
                  <$> btp_CACertificateRefs policy in
    let '(ancestors, resolved) :=
      ResolveAllObjectRefs (PolicyObjectReferenceConditionProvider routeParentRef) client BackendTLSPolicyGVK
        (om_Namespace (btp_Meta policy)) refs ancestors in
    if negb resolved then ancestors else acceptIfNew ancestors routeParentRef.

(** [backendTLSFn] works on the state and on a variable of its caller. *)
Definition computeBackendTLSPolicyStatus {V} (routeNamespace : string) (backendRef : BackendObjectReference)
    (svcPort : ServicePortName) (routeParentRef : ParentReference)
    (backendTLSFn : bool → RouteStatus * V → RouteStatus * V) (st : RouteStatus * V) : RouteStatus * V :=
  let targetRef := mkSectionTarget (mkLocalTarget (default "" (bor_Group backendRef))
                                      (default KubernetesServiceKind (bor_Kind backendRef)) (bor_Name backendRef))
                     (Some (spn_SectionName svcPort)) in
  match FindBackendTLSPolicy client targetRef routeNamespace with
  | None => backendTLSFn false st
  | Some policy =>
      (Send (BackendTLSPolicyUpdate (ObjectKey (btp_Meta policy)) (backendTLSPolicyAncestors policy routeParentRef)) st.1,
       st.2)
  end.

Definition computeBackendLBPolicyStatus (routeNamespace : string) (backendRef : BackendObjectReference)
    (routeParentRef : ParentReference) (st : RouteStatus) : RouteStatus :=
  let targetRef := mkLocalTarget (default "" (bor_Group backendRef))
                     (default KubernetesServiceKind (bor_Kind backendRef)) (bor_Name backendRef) in
  match FindBackendLBPolicy client targetRef routeNamespace with
  | None => st
  | Some policy =>
      Send (BackendLBPolicyUpdate (ObjectKey (blp_Meta policy)) (acceptIfNew (blp_Ancestors policy) routeParentRef)) st
  end.

Definition computeHealthCheckPolicyStatus (routeNamespace : string) (backendRef : BackendObjectReference)
    (svcPort : ServicePortName) (routeParentRef : ParentReference) (st : RouteStatus) : RouteStatus :=
  let targetRef := mkPolicyTarget (default "" (bor_Group backendRef))
                     (default KubernetesServiceKind (bor_Kind backendRef)) (bor_Name backendRef) (bor_Namespace backendRef) in
  match FindHealthCheckPolicy client targetRef routeNamespace (Some svcPort) with
  | None => st
  | Some (policy, _) =>
      let '(ancestors, access) :=
        HasAccessToBackendTargetRef client HealthCheckPolicyGVK (om_Namespace (hcp_Meta policy)) targetRef
          (λ reason, AddPolicyCondition routeParentRef (mkCond PolicyConditionAccepted ConditionFalse reason))
          (hcp_Ancestors policy) in
      Send (HealthCheckPolicyUpdate (ObjectKey (hcp_Meta policy))
              (if access : bool
               then AddPolicyCondition routeParentRef (mkCond PolicyConditionAccepted ConditionTrue "Accepted") ancestors
               else ancestors)) st
  end.

Definition computeRouteRuleFilterPolicyStatus (route : Route) (rule : option string) (routeParentRef : ParentReference)
    (st : RouteStatus) : RouteStatus :=
  match rule with
  | None => st
  | Some rule =>
      let targetRef := mkFilterTarget GroupName (gk_Kind (rt_GVK route)) (om_Name (rt_Meta route)) rule in
      match FindRouteRuleFilterPolicy client targetRef (om_Namespace (rt_Meta route)) with
      | None => st
      | Some policy =>
          Send (RouteRuleFilterPolicyUpdate (ObjectKey (rfp_Meta policy)) (acceptIfNew (rfp_Ancestors policy) routeParentRef)) st
      end
  end.

(** *** Backends *)

Definition backendRefToServicePortName (route : Route) (backendRef : BackendObjectReference) (parentRef : ParentReference)
    (st : RouteStatus) : go (RouteStatus * option ServicePortName) :=
  BackendRefToServicePortName client (rt_GVK route) (om_Namespace (rt_Meta route)) backendRef
    (addNotResolvedRefsCondition parentRef) st.

Definition processHTTPRouteBackend (route : Route) (parentRef : ParentReference) (bk : BackendRef) (st : RouteStatus)
    : go (RouteStatus * bool) :=
  '(st, svcPort) ← backendRefToServicePortName route (br_Object bk) parentRef st;
  match svcPort with
  | None => Ret (st, false)
  | Some svcPort =>
      if bool_decide (spn_Protocol svcPort ≠ ProtocolTCP) then
        Ret (addNotResolvedRefsCondition parentRef "UnsupportedProtocol" st, false)
      else if match spn_AppProtocol svcPort with
              | Some p => negb (isSupportedAppProtocol p validHTTPRouteAppProtocols)
              | None => false
              end then Ret (addNotResolvedRefsCondition parentRef "UnsupportedProtocol" st, false)
      else
        let '(st, valid) :=
          computeBackendTLSPolicyStatus (om_Namespace (rt_Meta route)) (br_Object bk) svcPort parentRef
            (λ found '(st, valid),
               if negb found && bool_decide (spn_AppProtocol svcPort = Some K8sAppProtocolWSS) &&
                  bool_decide (spn_Protocol svcPort = ProtocolTCP)
               then (addNotResolvedRefsCondition parentRef "UnsupportedProtocol" st, false)
               else (st, valid)) (st, true) in
        if negb valid then Ret (st, false)
        else
          let st := computeBackendLBPolicyStatus (om_Namespace (rt_Meta route)) (br_Object bk) parentRef st in
          Ret (computeHealthCheckPolicyStatus (om_Namespace (rt_Meta route)) (br_Object bk) svcPort parentRef st, true)
  end.

Definition processGRPCRouteBackend (route : Route) (parentRef : ParentReference) (bk : BackendRef) (st : RouteStatus)
    : go (RouteStatus * bool) :=
  '(st, svcPort) ← backendRefToServicePortName route (br_Object bk) parentRef st;
  match svcPort with
  | None => Ret (st, false)
  | Some svcPort =>
      if bool_decide (spn_Protocol svcPort ≠ ProtocolTCP) then
        Ret (addNotResolvedRefsCondition parentRef "UnsupportedProtocol" st, false)
      else if match spn_AppProtocol svcPort with
              | Some p => negb (isSupportedAppProtocol p validGRPCRouteAppProtocols)
              | None => false
              end then Ret (addNotResolvedRefsCondition parentRef "UnsupportedProtocol" st, false)
      else
        let '(st, _) := computeBackendTLSPolicyStatus (om_Namespace (rt_Meta route)) (br_Object bk) svcPort parentRef
                          (λ _ st, st) (st, tt) in
        Ret (computeBackendLBPolicyStatus (om_Namespace (rt_Meta route)) (br_Object bk) parentRef st, true)
  end.

Definition processTCPRouteBackend (route : Route) (parentRef : ParentReference) (bk : BackendRef) (st : RouteStatus)
    : go (RouteStatus * bool) :=
  '(st, svcPort) ← backendRefToServicePortName route (br_Object bk) parentRef st;
  match svcPort with
  | None => Ret (st, false)
  | Some svcPort =>
      if bool_decide (spn_Protocol svcPort ≠ ProtocolTCP) then
        Ret (addNotResolvedRefsCondition parentRef "UnsupportedProtocol" st, false)
      else if bool_decide (is_Some (spn_AppProtocol svcPort)) then
        Ret (addNotResolvedRefsCondition parentRef "UnsupportedProtocol" st, false)
      else
        let '(st, _) := computeBackendTLSPolicyStatus (om_Namespace (rt_Meta route)) (br_Object bk) svcPort parentRef
                          (λ _ st, st) (st, tt) in
        Ret (st, true)
  end.

Definition processUDPRouteBackend (route : Route) (parentRef : ParentReference) (bk : BackendRef) (st : RouteStatus)
    : go (RouteStatus * bool) :=
  '(st, svcPort) ← backendRefToServicePortName route (br_Object bk) parentRef st;
  match svcPort with
  | None => Ret (st, false)
  | Some svcPort =>
      if bool_decide (spn_Protocol svcPort ≠ ProtocolUDP) then
        Ret (addNotResolvedRefsCondition parentRef "UnsupportedProtocol" st, false)
      else if bool_decide (is_Some (spn_AppProtocol svcPort)) then
        Ret (addNotResolvedRefsCondition parentRef "UnsupportedProtocol" st, false)
      else Ret (st, true)
  end.

(** *** Rules *)

(** A loop that returns false at the first element that does. *)
Fixpoint allOf {A} (f : A → RouteStatus → go (RouteStatus * bool)) (l : list A) (st : RouteStatus) : go (RouteStatus * bool) :=
  match l with
  | [] => Ret (st, true)
  | x :: rest =>
      '(st, ok) ← f x st;
      if negb ok then Ret (st, false) else allOf f rest st
  end.

(** [process...RouteRuleBackendRefs] *)
Definition processRouteRuleBackendRefs (backend : BackendRef → RouteStatus → go (RouteStatus * bool)) (rule : RouteRule)
    (st : RouteStatus) : go (RouteStatus * bool) := allOf backend (rr_BackendRefs rule) st.

Definition finishRoute (parentRef : ParentReference) (res : RouteStatus * bool) : RouteStatus * bool :=
  let '(st, ok) := res in
  if negb ok then (st, false) else (addResolvedRefsCondition parentRef "ResolvedRefs" st, true).

Definition processHTTPRouteStatus (route : Route) (parentRef : ParentReference) (st : RouteStatus) : go (RouteStatus * bool) :=
  res ← allOf (processRouteRuleBackendRefs (processHTTPRouteBackend route parentRef)) (rt_Rules route) st;
  Ret (finishRoute parentRef res).

Definition processGRPCRouteStatus (route : Route) (parentRef : ParentReference) (st : RouteStatus) : go (RouteStatus * bool) :=
  res ← allOf (processRouteRuleBackendRefs (processGRPCRouteBackend route parentRef)) (rt_Rules route) st;
  Ret (finishRoute parentRef res).

(** With the filter policies of each rule. *)
Definition processTCPRouteStatus (route : Route) (parentRef : ParentReference) (st : RouteStatus) : go (RouteStatus * bool) :=
  res ← allOf (λ rule st,
    '(st, ok) ← processRouteRuleBackendRefs (processTCPRouteBackend route parentRef) rule st;
    if negb ok then Ret (st, false)
    else Ret (computeRouteRuleFilterPolicyStatus route (rr_Name rule) parentRef st, true)) (rt_Rules route) st;
  Ret (finishRoute parentRef res).

Definition processUDPRouteStatus (route : Route) (parentRef : ParentReference) (st : RouteStatus) : go (RouteStatus * bool) :=
  res ← allOf (λ rule st,
    '(st, ok) ← processRouteRuleBackendRefs (processUDPRouteBackend route parentRef) rule st;
    if negb ok then Ret (st, false)
    else Ret (computeRouteRuleFilterPolicyStatus route (rr_Name rule) parentRef st, true)) (rt_Rules route) st;
  Ret (finishRoute parentRef res).

(** *** Parents (processor.go) *)

(** The loop that counts the hostnames of the listeners. *)
Definition countHostnames (listeners : list GwListener) (hostnames : list string) : go nat :=
  gofold (λ count (l : GwListener), hs ← GetValidHostnames (l_Hostname l) hostnames; Ret (count + length hs)%nat) 0%nat listeners.

Definition computeRouteParentStatus (route : Route) (parentRef : ParentReference) (st : RouteStatus) : go RouteStatus :=
  let st := addCondition parentRef RouteConditionAccepted ConditionTrue "Accepted" st in
  if bool_decide (is_Some (pr_Group parentRef) ∧ pr_Group parentRef ≠ Some GroupName) then
    Ret (addNotAcceptedCondition parentRef "UnsupportedValue" st)
  else if bool_decide (is_Some (pr_Kind parentRef) ∧ pr_Kind parentRef ≠ Some GatewayAPIGatewayKind) then
    Ret (addNotAcceptedCondition parentRef "UnsupportedValue" st)
  else
    let parentKey := mkNN (NamespaceDerefOr (pr_Namespace parentRef) (om_Namespace (rt_Meta route))) (pr_Name parentRef) in
    match GetGateway client parentKey with
    | inl _ => Ret (addNotAcceptedCondition parentRef "NoMatchingParent" st)
    | inr parent =>
        if negb (IsActiveGateway parent) then Ret (addNotAcceptedCondition parentRef "NoMatchingParent" st)
        else
          '(st, allowed) ← GetAllowedListeners client (RouteParentListenerConditionProvider parentRef) (rt_GVK route)
                             (om_Namespace (rt_Meta route)) parentRef parent st;
          if bool_decide (length allowed = 0%nat) then Ret st
          else
            count ← countHostnames allowed (rt_Hostnames route);
            if match rt_Kind route with HTTPRoute | TLSRoute | GRPCRoute => true | _ => false end &&
               bool_decide (count = 0%nat) && negb (ConditionExists (st_Parents st) parentRef RouteConditionAccepted)
            then Ret (addNotAcceptedCondition parentRef "NoMatchingListenerHostname" st)
            else
              match rt_Kind route with
              | HTTPRoute => '(st, _) ← processHTTPRouteStatus route parentRef st; Ret st
              | GRPCRoute => '(st, _) ← processGRPCRouteStatus route parentRef st; Ret st
              | TLSRoute => Ret st
              | TCPRoute => '(st, _) ← processTCPRouteStatus route parentRef st; Ret st
              | UDPRoute => '(st, _) ← processUDPRouteStatus route parentRef st; Ret st
              end
    end.

(** The status object of the controllers starts from the status of the route. *)
Definition NewRouteStatusUpdate (route : Route) : RouteStatus := mkRouteStatus (rt_Parents route) [].

Definition Process (route : Route) (st : RouteStatus) : go RouteStatus :=
  st ← gofold (λ st parentRef, computeRouteParentStatus route parentRef st) st (rt_ParentRefs route);
  Ret (Send (RouteUpdate (rt_Kind route) (ObjectKey (rt_Meta route)) (st_Parents st)) st).

(** The mutator of a route's update. *)
Definition Mutate (route : Route) (parents : list RouteParentStatus) : Route :=
  mkRoute (rt_Kind route) (rt_Meta route) (rt_ParentRefs route) (rt_Hostnames route) (rt_Rules route) parents.

(** A reconciliation: the status is computed and written back. *)
Definition reconcileRoute (route : Route) : go Route :=
  st ← Process route (NewRouteStatusUpdate route);
  Ret (Mutate route (st_Parents st)).

End processor.

End GatewayStatus.
