(* ===== verification/GatewayDemo.v ===== *)
(** * A cluster for the witnesses of the gateway's properties

    A cache over lists of objects, one gateway with an HTTP listener, a route
    of another namespace, and a service of a third that grants the reference.
    The hostname of the route is not one of the listener's. *)

From S2P Require Import Prelude Core K8sClient Cidr CidrFacts GatewayApi Gateway GatewayStatus GatewayFacts.
Import Core.Core Cidr.Cidr CidrFacts.CidrFacts GatewayApi.GatewayApi Gateway.Gateway GatewayStatus.GatewayStatus.
Import GatewayFacts.GatewayFacts.

Module GatewayDemo.

#[local] Open Scope Z_scope.

#[export] Existing Instance list_StatusConditions.
#[export] Existing Instance list_StatusConditionsSpec.
#[export] Existing Instance demoGlobs.
#[export] Existing Instance demoGlobsSpec.
#[export] Existing Instance trie_range.
#[export] Existing Instance insertion_SliceSort.
#[export] Instance demoSelectors : LabelSelectors := {| LabelSelectorAsSelector _ := None |}.
#[export] Instance demoDNS : DNSValidation := {| IsWildcardDNS1123Subdomain _ := true; IsDNS1123Subdomain _ := true |}.

Definition find_nn {A} (key : A → NamespacedName) (l : list A) (n : NamespacedName) : GetError + A :=
  match List.find (λ x, bool_decide (nn_Namespace (key x) = nn_Namespace n) && bool_decide (nn_Name (key x) = nn_Name n)) l with Some x => inr x | None => inl NotFound end.

Definition demoCache (gws : list Gateway) (svcs : list GwService) (secrets : list Secret) (eps : list Endpoints)
    (grants : list ReferenceGrant) (routes : list Route) : Cache := {|
  GetGateway := find_nn (λ g, ObjectKey (gw_Meta g)) gws;
  GetService := find_nn (λ s : GwService, mkNN (k8s_Namespace s) (k8s_Name s)) svcs;
  GetNamespace _ := inl NotFound;
  GetSecret := find_nn (λ s, ObjectKey (sec_Meta s)) secrets;
  GetConfigMap _ := inl NotFound;
  GetEndpoints := find_nn (λ e, mkNN (eps_Namespace e) (eps_Name e)) eps;
  GetFilter _ := inl NotFound;
  GetFilterDefinition _ := inl NotFound;
  ListListenerFilters _ _ := Some [];
  ListEndpointSlices _ _ := Some [];
  ListGatewayClasses _ := Some [];
  ListGateways _ := Some [];
  ListReferenceGrants kind := Some (List.filter (λ g, bool_decide (kind ∈ refGrantIndex g)) grants);
  ListReferenceGrantsOr k1 k2 := Some (List.filter (λ g, bool_decide (k1 ∈ refGrantIndex g ∨ k2 ∈ refGrantIndex g)) grants);
  ListRoutes kind _ := Some (List.filter (λ r, bool_decide (rt_Kind r = kind)) routes);
  ListBackendTLSPolicies _ _ := Some [];
  ListBackendLBPolicies _ _ := Some [];
  ListHealthCheckPolicies _ := Some [];
  ListRouteRuleFilterPolicies _ _ := Some []
|}.

Definition isTrue (t : string) : StatusCondition := mkCond t ConditionTrue t.

Definition demoListener : Listener :=
  mkListener "http" (Some "shop.example.com") 80 HTTPProtocolType None
    (Some (mkAllowedRoutes (Some (mkRouteNamespaces (Some NamespacesFromAll) None)) [])).

Definition demoKind (k : RouteKind) : RouteGroupKind := mkRouteGroupKind (Some GroupName) (kindName k).

Definition demoGateway : Gateway :=
  mkGateway (mkMeta "infra" "gw" 0) "fsm" [demoListener] None [isTrue "Accepted"; isTrue "Programmed"]
    [mkListenerStatus "http" [demoKind HTTPRoute; demoKind GRPCRoute]
       [isTrue "Programmed"; isTrue "Accepted"; isTrue "ResolvedRefs"]].

Definition demoParent : ParentReference := mkParentRef (Some GroupName) (Some "Gateway") (Some "infra") "gw" None None.

Definition demoBackend (ns name : string) : BackendRef :=
  mkBackendRef (mkBackendObjRef (Some "") (Some "Service") name (Some ns) (Some 80)) (Some 1) [].

Definition demoRoute (kind : RouteKind) (hostname ns name : string) (bk : BackendRef) : Route :=
  mkRoute kind (mkMeta ns name 0) [demoParent] [hostname] [mkRouteRule None [bk] [] None] [].

Definition demoService (ns name : string) : GwService :=
  mkGwService (mkK8sService ns name "" ∅ ∅ {["app" := name]} "10.96.0.1"
                 [mkServicePort "web" "TCP" None 80 (IntVal 8080)]) "ClusterIP".

Definition demoEndpoints (ns name ip : string) : Endpoints :=
  mkEndpoints ns name ∅ ∅ [mkSubset [mkEndpointAddress ip ""] [mkEndpointPort "web" "TCP" None 8080]].

(** Routes of "shop" may use services of "db". *)
Definition demoGrant : ReferenceGrant :=
  mkReferenceGrant (mkMeta "db" "grant" 0) [mkGrantFrom GroupName "HTTPRoute" "shop"] [mkGrantTo "" "Service" None].

Definition demoShop : Route := demoRoute HTTPRoute "other.example.org" "shop" "web" (demoBackend "db" "orders").

Definition demoClient (routes : list Route) : Cache :=
  demoCache [demoGateway] [demoService "db" "orders"] [] [demoEndpoints "db" "orders" "10.0.0.1"] [demoGrant] routes.

(** No service of the cluster comes from a connector. *)
Definition demoDecode (svc : K8sService) (annotation : string) : MicroSvcMeta := mkMicroSvc ∅ ∅ None.

Definition demoPort (ns name : string) : ServicePortName :=
  mkServicePortName (mkNN ns name) "web" (Some 80) "TCP" None.

Lemma find_nn_inr {A} (key : A → NamespacedName) l n x : find_nn key l n = inr x → x ∈ l.
Proof.
  unfold find_nn. destruct (List.find _ l) eqn:E; [|done]. intros [= ->].
  apply find_some in E as [? _]. by apply list_elem_of_In.
Qed.

End GatewayDemo.
