(* ===== verification/GatewayStatusFacts.v ===== *)
(** * Properties of the status of routes

    When a route is effective for a parent after a reconciliation: the parent
    is an active gateway with a listener the route may use, and every backend
    resolves to a port of a protocol the kind of route supports. *)

From S2P Require Import Prelude Core Net K8sClient Cidr CidrFacts GatewayApi Gateway GatewayStatus GatewayFacts GatewayDemo.
Import Core.Core Net.Net K8sClient.K8sClient Cidr.Cidr GatewayApi.GatewayApi Gateway.Gateway GatewayStatus.GatewayStatus.
Import GatewayFacts.GatewayFacts.

Module GatewayStatusFacts.

(** ** Conditions of a parent *)

Section conditions.
Context `{SCS : StatusConditionsSpec}.

Lemma ConditionsForParentRef_Add p c statuses :
  ConditionsForParentRef (AddCondition p c statuses) p = SetStatusCondition (ConditionsForParentRef statuses p) c.
Proof.
  unfold ConditionsForParentRef. induction statuses as [|v rest IH]; simpl; [by rewrite bool_decide_true|].
  case_bool_decide as Hv; simpl; [by rewrite bool_decide_true|]. by rewrite bool_decide_false.
Qed.

Lemma ConditionsForParentRef_Add_ne p p' c statuses :
  p' ≠ p → ConditionsForParentRef (AddCondition p c statuses) p' = ConditionsForParentRef statuses p'.
Proof.
  intros Hp. unfold ConditionsForParentRef. induction statuses as [|v rest IH]; simpl; [by rewrite bool_decide_false|].
  case_bool_decide as Hv; simpl; [by rewrite Hv, !bool_decide_false by done|]. by case_bool_decide.
Qed.

(** Whether a condition of a parent is true. *)
Definition holds (p : ParentReference) (t : string) (st : RouteStatus) : bool :=
  IsStatusConditionTrue (ConditionsForParentRef (st_Parents st) p) t.

Lemma IsStatusConditionTrue_Set cs t s r t' :
  IsStatusConditionTrue (SetStatusCondition cs (mkCond t s r)) t' =
  if bool_decide (t' = t) then bool_decide (s = ConditionTrue) else IsStatusConditionTrue cs t'.
Proof.
  unfold IsStatusConditionTrue. case_bool_decide as Ht.
  - subst. by rewrite (Find_Set cs (mkCond t s r)).
  - by rewrite (Find_Set_ne cs (mkCond t s r)).
Qed.

Lemma holds_add p t s r t' st :
  holds p t' (addCondition p t s r st) = if bool_decide (t' = t) then bool_decide (s = ConditionTrue) else holds p t' st.
Proof. unfold holds, addCondition. simpl. by rewrite ConditionsForParentRef_Add, IsStatusConditionTrue_Set. Qed.

Lemma ConditionExists_add p t s r st : ConditionExists (st_Parents (addCondition p t s r st)) p t = true.
Proof.
  unfold ConditionExists, addCondition. simpl. rewrite ConditionsForParentRef_Add.
  pose proof (Find_Set (ConditionsForParentRef (st_Parents st) p) (mkCond t s r)) as H.
  rewrite Find_first in H. apply find_some in H as [Hin Ht]. apply existsb_exists. eauto.
Qed.

End conditions.

(** ** Backends *)

Section backends.
Context {SC : StatusConditions} {LS : LabelSelectors} {G : Globs} {MR : MapRange} {SS : SliceSort} {DV : DNSValidation}.
Context (client : Cache) (route : Route).

#[local] Abbreviation ns := (om_Namespace (rt_Meta route)) (only parsing).

Definition tlsTarget (ref : BackendObjectReference) (spn : ServicePortName) : LocalTargetWithSection :=
  mkSectionTarget (mkLocalTarget (default "" (bor_Group ref)) (default KubernetesServiceKind (bor_Kind ref)) (bor_Name ref))
    (Some (spn_SectionName spn)).

(** The protocols a kind of route supports; a web socket over TLS needs a
    policy for the backend. *)
Definition goodPort (ref : BackendObjectReference) (spn : ServicePortName) : Prop :=
  match rt_Kind route with
  | HTTPRoute =>
      spn_Protocol spn = ProtocolTCP ∧ (∀ p, spn_AppProtocol spn = Some p → p ∈ validHTTPRouteAppProtocols) ∧
      (spn_AppProtocol spn = Some K8sAppProtocolWSS → is_Some (FindBackendTLSPolicy client (tlsTarget ref spn) ns))
  | GRPCRoute =>
      spn_Protocol spn = ProtocolTCP ∧ (∀ p, spn_AppProtocol spn = Some p → p ∈ validGRPCRouteAppProtocols)
  | TLSRoute => True
  | TCPRoute => spn_Protocol spn = ProtocolTCP ∧ spn_AppProtocol spn = None
  | UDPRoute => spn_Protocol spn = ProtocolUDP ∧ spn_AppProtocol spn = None
  end.

Definition goodBackend (bk : BackendRef) : Prop :=
  ∃ spn, resolves client (rt_GVK route) ns (br_Object bk) spn ∧ goodPort (br_Object bk) spn.

(** A step returns whether [good]; if so the conditions stay, else the
    references are marked as not resolved. *)
Definition outcome (p : ParentReference) (good : Prop) (st : RouteStatus) (res : go (RouteStatus * bool)) : Prop :=
  ∃ st' (ok : bool), res = Ret (st', ok) ∧ (ok = true ↔ good) ∧
    if ok then st_Parents st' = st_Parents st
    else ∃ reason, st_Parents st' = st_Parents (addNotResolvedRefsCondition p reason st).

Definition wf_backend (bk : BackendRef) : Prop := is_Some (bor_Group (br_Object bk)) ∧ is_Some (bor_Kind (br_Object bk)).

Lemma outcome_bad p good st reason :
  ¬ good → outcome p good st (Ret (addNotResolvedRefsCondition p reason st, false)).
Proof. intros. eexists _, false. split; [done|]. split; [naive_solver|]. eauto. Qed.

Lemma outcome_good p (good : Prop) st st' :
  good → st_Parents st' = st_Parents st → outcome p good st (Ret (st', true)).
Proof. intros. by eexists _, true. Qed.

Lemma supported_spec p l : isSupportedAppProtocol p l = true ↔ p ∈ l.
Proof.
  unfold isSupportedAppProtocol. rewrite existsb_elem_of. setoid_rewrite bool_decide_eq_true. naive_solver.
Qed.

Lemma unsupported_false (app : option string) l :
  match app with Some p => negb (isSupportedAppProtocol p l) | None => false end = false ↔
  ∀ p, app = Some p → p ∈ l.
Proof. destruct app; [rewrite negb_false_iff, supported_spec|]; naive_solver. Qed.

(** The status of the policies of a backend does not change its conditions. *)
Lemma computeBackendLB_parents ref p st : st_Parents (computeBackendLBPolicyStatus client ns ref p st) = st_Parents st.
Proof. unfold computeBackendLBPolicyStatus. by case_match. Qed.

Lemma computeHealthCheck_parents ref spn p st :
  st_Parents (computeHealthCheckPolicyStatus client ns ref spn p st) = st_Parents st.
Proof. unfold computeHealthCheckPolicyStatus. repeat case_match; done. Qed.

Lemma computeRouteRuleFilter_parents rule p st :
  st_Parents (computeRouteRuleFilterPolicyStatus client route rule p st) = st_Parents st.
Proof. unfold computeRouteRuleFilterPolicyStatus. repeat case_match; done. Qed.

Lemma computeBackendTLS_parents {V} ref spn p (f : bool → RouteStatus * V → RouteStatus * V) st :
  (∀ st, f false st = st) → st_Parents (computeBackendTLSPolicyStatus client ns ref spn p f st).1 = st_Parents st.1.
Proof. intros Hf. unfold computeBackendTLSPolicyStatus. case_match; [done|]. by rewrite Hf. Qed.

(** A backend is resolved first. *)
Lemma outcome_resolve p bk st (k : RouteStatus → ServicePortName → go (RouteStatus * bool)) :
  wf_backend bk →
  (∀ spn, outcome p (goodPort (br_Object bk) spn) st (k st spn)) →
  outcome p (goodBackend bk) st
    ('(st, svcPort) ← backendRefToServicePortName client route (br_Object bk) p st;
     match svcPort with None => Ret (st, false) | Some svcPort => k st svcPort end).
Proof.
  intros [Hg Hk] Hgood. unfold backendRefToServicePortName.
  destruct (BackendRefToServicePortName_cases client (rt_GVK route) ns (addNotResolvedRefsCondition p)
              (br_Object bk) st Hg Hk) as [(spn & -> & Hr)|(reason & -> & Hno)]; simpl.
  - destruct (Hgood spn) as (st' & ok & -> & Hok & Hst). exists st', ok. split; [done|]. split; [|done].
    rewrite Hok. unfold goodBackend. split; [eauto|]. intros (spn' & Hr' & ?).
    by rewrite (resolves_det _ _ _ _ _ _ Hr Hr').
  - apply outcome_bad. intros (spn & ? & _). by eapply Hno.
Qed.

Lemma processHTTPRouteBackend_outcome p bk st :
  rt_Kind route = HTTPRoute → wf_backend bk → outcome p (goodBackend bk) st (processHTTPRouteBackend client route p bk st).
Proof.
  intros Hkind Hwf. unfold processHTTPRouteBackend.
  apply (outcome_resolve p bk st (λ st svcPort, _) Hwf). intros spn. unfold goodPort. rewrite Hkind.
  case_bool_decide as Hp; [apply outcome_bad; tauto|].
  destruct (match spn_AppProtocol spn with Some _ => _ | None => _ end) eqn:Happ.
  { apply outcome_bad. intros (_ & H & _). apply unsupported_false in H. congruence. }
  rewrite unsupported_false in Happ. rewrite Hp.
  unfold computeBackendTLSPolicyStatus. fold (tlsTarget (br_Object bk) spn).
  destruct (FindBackendTLSPolicy _ _ _) as [policy|] eqn:Hf; simpl.
  { apply outcome_good; [by eauto|]. by rewrite computeHealthCheck_parents, computeBackendLB_parents. }
  rewrite andb_true_r. case_bool_decide as Hw; simpl.
  - apply outcome_bad. intros (_ & _ & H). by apply H in Hw as [? ?].
  - apply outcome_good; [naive_solver|]. by rewrite computeHealthCheck_parents, computeBackendLB_parents.
Qed.

Lemma processGRPCRouteBackend_outcome p bk st :
  rt_Kind route = GRPCRoute → wf_backend bk → outcome p (goodBackend bk) st (processGRPCRouteBackend client route p bk st).
Proof.
  intros Hkind Hwf. unfold processGRPCRouteBackend.
  apply (outcome_resolve p bk st (λ st svcPort, _) Hwf). intros spn. unfold goodPort. rewrite Hkind.
  case_bool_decide as Hp; [apply outcome_bad; tauto|].
  destruct (match spn_AppProtocol spn with Some _ => _ | None => _ end) eqn:Happ.
  { apply outcome_bad. intros (_ & H). apply unsupported_false in H. congruence. }
  rewrite unsupported_false in Happ.
  destruct (computeBackendTLSPolicyStatus _ _ _ _ _ _ _) as [st' []] eqn:E.
  apply outcome_good; [done|]. rewrite computeBackendLB_parents.
  transitivity (st_Parents (st', ()).1); [done|]. rewrite <-E. by apply computeBackendTLS_parents.
Qed.

Lemma processTCPRouteBackend_outcome p bk st :
  rt_Kind route = TCPRoute → wf_backend bk → outcome p (goodBackend bk) st (processTCPRouteBackend client route p bk st).
Proof.
  intros Hkind Hwf. unfold processTCPRouteBackend.
  apply (outcome_resolve p bk st (λ st svcPort, _) Hwf). intros spn. unfold goodPort. rewrite Hkind.
  case_bool_decide as Hp; [apply outcome_bad; tauto|].
  case_bool_decide as Happ; [apply outcome_bad; intros [_ H]; rewrite H in Happ; by destruct Happ|].
  destruct (computeBackendTLSPolicyStatus _ _ _ _ _ _ _) as [st' []] eqn:E.
  apply outcome_good; [by rewrite <-eq_None_not_Some in Happ|].
  transitivity (st_Parents (st', ()).1); [done|]. rewrite <-E. by apply computeBackendTLS_parents.
Qed.

Lemma processUDPRouteBackend_outcome p bk st :
  rt_Kind route = UDPRoute → wf_backend bk → outcome p (goodBackend bk) st (processUDPRouteBackend client route p bk st).
Proof.
  intros Hkind Hwf. unfold processUDPRouteBackend.
  apply (outcome_resolve p bk st (λ st svcPort, _) Hwf). intros spn. unfold goodPort. rewrite Hkind.
  case_bool_decide as Hp; [apply outcome_bad; tauto|].
  case_bool_decide as Happ; [apply outcome_bad; intros [_ H]; rewrite H in Happ; by destruct Happ|].
  apply outcome_good; [|done]. by rewrite <-eq_None_not_Some in Happ.
Qed.

(** ** Rules *)

Lemma allOf_outcome {A} p (good : A → Prop) (f : A → RouteStatus → go (RouteStatus * bool)) l st :
  (∀ x st, x ∈ l → outcome p (good x) st (f x st)) →
  outcome p (∀ x, x ∈ l → good x) st (allOf f l st).
Proof.
  revert st. induction l as [|x l IH]; intros st Hf; simpl.
  { apply outcome_good; [|done]. by intros x ?%elem_of_nil. }
  destruct (Hf x st) as (st' & ok & -> & Hok & Hst); [by left|]. simpl. destruct ok; simpl.
  - destruct (IH st') as (st2 & ok2 & -> & Hok2 & Hst2); [intros; apply Hf; by right|].
    exists st2, ok2. split; [done|]. split.
    + rewrite Hok2. setoid_rewrite elem_of_cons. naive_solver.
    + destruct ok2; [congruence|]. destruct Hst2 as [reason Hr]. exists reason. rewrite Hr.
      unfold addNotResolvedRefsCondition, addCondition. simpl. congruence.
  - exists st', false. split; [done|]. split; [|done]. split; [done|]. intros H. apply Hok, H. by left.
Qed.

Definition goodRoute : Prop := ∀ rule, rule ∈ rt_Rules route → ∀ bk, bk ∈ rr_BackendRefs rule → goodBackend bk.
Definition wf_backends : Prop := ∀ rule, rule ∈ rt_Rules route → ∀ bk, bk ∈ rr_BackendRefs rule → wf_backend bk.

Lemma rules_outcome p (backend : BackendRef → RouteStatus → go (RouteStatus * bool)) st :
  wf_backends → (∀ bk st, wf_backend bk → outcome p (goodBackend bk) st (backend bk st)) →
  outcome p goodRoute st (allOf (processRouteRuleBackendRefs backend) (rt_Rules route) st).
Proof.
  intros Hwf Hb. apply allOf_outcome. intros rule st' Hr. apply allOf_outcome. intros bk st2 Hbk. eauto.
Qed.

Lemma rules_policies_outcome p (backend : BackendRef → RouteStatus → go (RouteStatus * bool)) st :
  wf_backends → (∀ bk st, wf_backend bk → outcome p (goodBackend bk) st (backend bk st)) →
  outcome p goodRoute st (allOf (λ rule st,
    '(st, ok) ← processRouteRuleBackendRefs backend rule st;
    if negb ok then Ret (st, false)
    else Ret (computeRouteRuleFilterPolicyStatus client route (rr_Name rule) p st, true)) (rt_Rules route) st).
Proof.
  intros Hwf Hb. apply allOf_outcome. intros rule st' Hr.
  destruct (allOf_outcome p goodBackend backend (rr_BackendRefs rule) st') as (st2 & ok & E & Hok & Hst); [eauto|].
  unfold processRouteRuleBackendRefs. rewrite E. simpl. destruct ok; simpl.
  - apply outcome_good; [by apply Hok|]. by rewrite computeRouteRuleFilter_parents.
  - by exists st2, false.
Qed.

(** Whether the references of the route are resolved, and nothing else. *)
Definition resolved (p : ParentReference) (st : RouteStatus) (res : go (RouteStatus * bool)) : Prop :=
  ∃ st' ok, res = Ret (st', ok) ∧ (ok = true ↔ goodRoute) ∧ ∃ reason,
    st_Parents st' = st_Parents (addCondition p RouteConditionResolvedRefs (if ok : bool then ConditionTrue else ConditionFalse) reason st).

Lemma finish_resolved p st res :
  outcome p goodRoute st res → resolved p st (r ← res; Ret (finishRoute p r)).
Proof.
  intros (st' & ok & -> & Hok & Hst). simpl. destruct ok; simpl; (eexists _, _; split; [done|]; split; [done|]); [|done].
  exists "ResolvedRefs". unfold addResolvedRefsCondition, addCondition. simpl. by rewrite Hst.
Qed.

(** The status function of the kind. *)
Definition processRouteStatus (p : ParentReference) (st : RouteStatus) : go (RouteStatus * bool) :=
  match rt_Kind route with
  | HTTPRoute => processHTTPRouteStatus client route p st
  | GRPCRoute => processGRPCRouteStatus client route p st
  | TLSRoute => Ret (st, true)
  | TCPRoute => processTCPRouteStatus client route p st
  | UDPRoute => processUDPRouteStatus client route p st
  end.

Lemma processRouteStatus_resolved p st :
  rt_Kind route ≠ TLSRoute → wf_backends → resolved p st (processRouteStatus p st).
Proof.
  intros Hk Hwf. unfold processRouteStatus. destruct (rt_Kind route) eqn:E; [| |done| |]; apply finish_resolved.
  - apply rules_outcome; [done|]. intros. by apply processHTTPRouteBackend_outcome.
  - apply rules_outcome; [done|]. intros. by apply processGRPCRouteBackend_outcome.
  - apply rules_policies_outcome; [done|]. intros. by apply processTCPRouteBackend_outcome.
  - apply rules_policies_outcome; [done|]. intros. by apply processUDPRouteBackend_outcome.
Qed.

End backends.

(** ** Parents *)

Section parents.
Context `{SCS : StatusConditionsSpec} {LS : LabelSelectors} `{GS : GlobsSpec} {MR : MapRange} {SS : SliceSort} {DV : DNSValidation}.
Context (client : Cache) (route : Route).

#[local] Abbreviation ns := (om_Namespace (rt_Meta route)) (only parsing).

(** The parent is an active gateway with a listener the route may use. *)
Definition accepted (p : ParentReference) : Prop :=
  (pr_Group p = None ∨ pr_Group p = Some GroupName) ∧ (pr_Kind p = None ∨ pr_Kind p = Some GatewayAPIGatewayKind) ∧
  ∃ gw, GetGateway client (mkNN (NamespaceDerefOr (pr_Namespace p) ns) (pr_Name p)) = inr gw ∧ IsActiveGateway gw = true ∧
    ∃ l, usable client (rt_GVK route) ns p gw l.

(** What the API server's defaults and the controller of gateways ensure. *)
Definition wf_gateway (gw : Gateway) : Prop :=
  ∀ l, l ∈ GetValidListenersForGateway gw → wf_listener l ∧ ∀ h, l_Hostname l = Some h → hostname_ok h.

Definition wf_route : Prop := wf_backends route ∧ ∀ h, h ∈ rt_Hostnames route → hostname_ok h.

Lemma countHostnames_total (ls : list GwListener) hs :
  (∀ (l : GwListener) h, l ∈ ls → l_Hostname l = Some h → hostname_ok h) → (∀ h, h ∈ hs → hostname_ok h) →
  ∃ n, countHostnames ls hs = Ret n.
Proof.
  intros Hl Hh. destruct (gofold_total (λ _, True) (λ count (l : GwListener),
    hs ← GetValidHostnames (l_Hostname l) hs; Ret (count + length hs)%nat) 0 ls) as (n & E & _); [done| |by exists n].
  intros c l Hin _. unfold GetValidHostnames. destruct hs as [|h0 hs0] eqn:E; [by eexists|]. rewrite <-E in *.
  destruct (gofold_total (λ _, True) (hostnameStep (l_Hostname l)) ∅ hs) as (m & -> & _); [done| |by eexists].
  intros m h Hhs _. destruct (hostnameStep_spec (l_Hostname l) m h) as (m' & -> & _); [intros; by eapply Hl|auto|eauto].
Qed.

Lemma wrong_ref (o : option string) x : ¬ (is_Some o ∧ o ≠ Some x) ↔ o = None ∨ o = Some x.
Proof. destruct o as [y|]; [|naive_solver]. destruct (decide (y = x)); naive_solver. Qed.

(** What a round of the loop over the parents does. *)
Definition parentDone (p : ParentReference) (st st' : RouteStatus) : Prop :=
  (∀ p', p' ≠ p → ConditionsForParentRef (st_Parents st') p' = ConditionsForParentRef (st_Parents st) p') ∧
  (holds p RouteConditionAccepted st' = true ↔ accepted p) ∧
  (rt_Kind route ≠ TLSRoute → accepted p → holds p RouteConditionResolvedRefs st' = true ↔ goodRoute client route) ∧
  (rt_Kind route = TLSRoute → holds p RouteConditionResolvedRefs st' = holds p RouteConditionResolvedRefs st).

(** Rounds that only set the condition Accepted. *)
Lemma parentDone_add p s r s0 r0 st :
  (s = ConditionTrue ↔ accepted p) → (rt_Kind route = TLSRoute ∨ ¬ accepted p) →
  parentDone p st (addCondition p RouteConditionAccepted s r (addCondition p RouteConditionAccepted s0 r0 st)).
Proof.
  intros Hs Hk. split; [|split; [|split]].
  - intros p' Hp. unfold addCondition. simpl. by rewrite !ConditionsForParentRef_Add_ne.
  - by rewrite holds_add, bool_decide_true, bool_decide_eq_true.
  - tauto.
  - intros _. by rewrite !holds_add.
Qed.

Lemma parentDone_refused p r s0 r0 st :
  ¬ accepted p →
  parentDone p st (addNotAcceptedCondition p r (addCondition p RouteConditionAccepted s0 r0 st)).
Proof. intros. apply parentDone_add; [|by right]. by split. Qed.

Lemma parentDone_accepted p st st' ok :
  accepted p → rt_Kind route ≠ TLSRoute →
  resolved client route p (addCondition p RouteConditionAccepted ConditionTrue "Accepted" st) (Ret (st', ok)) →
  parentDone p st st'.
Proof.
  intros Hacc Hk (st2 & ok2 & [= <- <-] & Hok & reason & Hst). unfold parentDone, holds. rewrite Hst.
  split; [|split; [|split]]; [| | |done].
  - intros p' Hp. unfold addCondition. simpl. by rewrite !ConditionsForParentRef_Add_ne.
  - fold (holds p RouteConditionAccepted (addCondition p RouteConditionResolvedRefs
      (if ok then ConditionTrue else ConditionFalse) reason (addCondition p RouteConditionAccepted ConditionTrue "Accepted" st))).
    by rewrite !holds_add.
  - intros _ _. rewrite <-Hok. unfold addCondition at 1. simpl.
    rewrite ConditionsForParentRef_Add, IsStatusConditionTrue_Set. simpl. by destruct ok.
Qed.

Lemma parentDone_tls p st :
  accepted p → rt_Kind route = TLSRoute →
  parentDone p st (addCondition p RouteConditionAccepted ConditionTrue "Accepted" st).
Proof.
  intros Hacc Hk. split; [|split; [|split]].
  - intros p' Hp. unfold addCondition. simpl. by rewrite ConditionsForParentRef_Add_ne.
  - by rewrite holds_add.
  - done.
  - intros _. by rewrite holds_add.
Qed.

Lemma accepted_allowed p gw al :
  (pr_Group p = None ∨ pr_Group p = Some GroupName) → (pr_Kind p = None ∨ pr_Kind p = Some GatewayAPIGatewayKind) →
  GetGateway client (mkNN (NamespaceDerefOr (pr_Namespace p) ns) (pr_Name p)) = inr gw → IsActiveGateway gw = true →
  (∀ l, l ∈ al ↔ usable client (rt_GVK route) ns p gw l) → accepted p ↔ al ≠ [].
Proof.
  intros Hg Hk Hgw Ha Hal. split.
  - intros (_ & _ & gw' & Hgw' & _ & l & Hl) ->. rewrite Hgw in Hgw'. simplify_eq. apply Hal in Hl. by apply elem_of_nil in Hl.
  - intros Hne. destruct al as [|l al]; [done|]. split; [done|]. split; [done|].
    exists gw. split; [done|]. split; [done|]. exists l. apply Hal. by left.
Qed.

Lemma computeRouteParentStatus_done p st :
  wf_route → (∀ key gw, GetGateway client key = inr gw → wf_gateway gw) →
  ∃ st', computeRouteParentStatus client route p st = Ret st' ∧ parentDone p st st'.
Proof.
  intros [Hwb Hwh] Hwg. unfold computeRouteParentStatus.
  case_bool_decide as Hg; [eexists; split; [done|]; apply parentDone_refused; intros (H%wrong_ref & _); done|].
  case_bool_decide as Hk; [eexists; split; [done|]; apply parentDone_refused; intros (_ & H%wrong_ref & _); done|].
  destruct (GetGateway _ _) as [e|gw] eqn:Hgw.
  { eexists; split; [done|]; apply parentDone_refused. intros (_ & _ & gw & ? & _). congruence. }
  destruct (IsActiveGateway gw) eqn:Ha; simpl.
  2: { eexists; split; [done|]; apply parentDone_refused. intros (_ & _ & gw' & ? & ? & _). congruence. }
  set (st1 := addCondition p RouteConditionAccepted ConditionTrue "Accepted" st).
  pose proof (Hwg _ _ Hgw) as Hwf.
  destruct (GetAllowedListeners_total client (rt_GVK route) ns p gw (RouteParentListenerConditionProvider p) st1)
    as [[st2 al] Hal]; [intros; by apply Hwf|].
  rewrite Hal. simpl. apply GetAllowedListeners_spec in Hal as [Hal Hst].
  apply wrong_ref in Hg, Hk. pose proof (accepted_allowed p gw al Hg Hk Hgw Ha Hal) as Hacc.
  case_bool_decide as Hlen.
  { apply length_zero_iff_nil in Hlen as ->. eexists. split; [done|].
    destruct Hst as [[? _]|[_ [-> | ->]]]; [done|..]; (apply parentDone_refused; rewrite Hacc; tauto). }
  destruct Hst as [[Hne ->]|[-> _]]; [|done]. apply Hacc in Hne.
  destruct (countHostnames_total al (rt_Hostnames route)) as [n ->]; [|done|].
  { intros l h Hl. apply Hal in Hl as [Hl _]. by apply Hwf. }
  assert (ConditionExists (st_Parents st1) p RouteConditionAccepted = true) as Hex by apply ConditionExists_add.
  cbn [mbind go_bind]. rewrite Hex. simpl. rewrite andb_false_r.
  destruct (decide (rt_Kind route = TLSRoute)) as [E|E].
  - rewrite E. eexists. split; [done|]. by apply parentDone_tls.
  - pose proof (processRouteStatus_resolved client route p st1 E Hwb) as Hr.
    destruct (processRouteStatus client route p st1) as [[st3 ok]|] eqn:Hp; [|by destruct Hr as (? & ? & ? & _)].
    exists st3. split; [|by eapply parentDone_accepted].
    unfold processRouteStatus in Hp. by destruct (rt_Kind route); [..|]; rewrite ?Hp.
Qed.

(** ** Reconciliation *)

(** C6. When a route that is not a TLS route takes effect: a reconciliation
    returns, and for each of its parents the route written back is effective
    (accepted, with its references resolved) exactly when the parent is an
    active gateway with a valid listener that the reference selects and that
    allows the kind and the namespace of the route, and every backend of every
    rule resolves, in its own namespace or by a reference grant, to a port whose
    protocol the kind supports.  Hostnames play no part in it. *)
Theorem route_effective_exact :
  rt_Kind route ≠ TLSRoute → wf_route → (∀ key gw, GetGateway client key = inr gw → wf_gateway gw) →
  ∃ route', reconcileRoute client route = Ret route' ∧
    ∀ p, p ∈ rt_ParentRefs route →
      IsEffectiveRouteForParent (rt_Parents route') p = true ↔ accepted p ∧ goodRoute client route.
Proof.
  intros Hk Hwf Hwg. unfold reconcileRoute, Process.
  destruct (gofold_run (λ ps st, ∀ p, p ∈ ps → IsEffectiveRouteForParent (st_Parents st) p = true ↔
    accepted p ∧ goodRoute client route) (λ st p, computeRouteParentStatus client route p st)
    (NewRouteStatusUpdate route) (rt_ParentRefs route)) as (st & -> & Hst); [by intros p ?%elem_of_nil| |by eexists].
  intros l1 p l2 st _ HP. destruct (computeRouteParentStatus_done p st Hwf Hwg) as (st' & E & Hother & Ha & Hr & _).
  exists st'. split; [done|]. intros p' Hp'. unfold IsEffectiveRouteForParent in *.
  destruct (decide (p' = p)) as [->|Hne].
  - unfold holds in *. rewrite andb_true_iff, Ha. split; [|naive_solver]. intros [? ?]. split; [done|]. by apply Hr.
  - rewrite Hother by done. apply HP. apply elem_of_app in Hp' as [?|?%list_elem_of_singleton]; done.
Qed.

End parents.

(** ** TLS routes *)

Section tls.
Context `{SCS : StatusConditionsSpec} {LS : LabelSelectors} {G : Globs} {MR : MapRange} {SS : SliceSort} {DV : DNSValidation}.

(** The life of a route: it is created without a status, its specification is
    edited, and it is reconciled with whatever the cache holds. *)
Inductive lived : Route → Prop :=
  | lived_created kind meta refs hostnames rules : lived (mkRoute kind meta refs hostnames rules [])
  | lived_edited r meta refs hostnames rules :
      lived r → lived (mkRoute (rt_Kind r) meta refs hostnames rules (rt_Parents r))
  | lived_reconciled client r r' : lived r → reconcileRoute client r = Ret r' → lived r'.

Lemma holds_Accepted p p' s r st :
  holds p' RouteConditionResolvedRefs (addCondition p RouteConditionAccepted s r st) = holds p' RouteConditionResolvedRefs st.
Proof.
  destruct (decide (p' = p)) as [->|Hp]; [by rewrite holds_add|].
  unfold holds, addCondition. simpl. by rewrite ConditionsForParentRef_Add_ne.
Qed.

Lemma computeRouteParentStatus_tls client route p p' st st' :
  rt_Kind route = TLSRoute → computeRouteParentStatus client route p st = Ret st' →
  holds p' RouteConditionResolvedRefs st' = holds p' RouteConditionResolvedRefs st.
Proof.
  intros Hk. unfold computeRouteParentStatus, addNotAcceptedCondition. rewrite Hk. intros H.
  repeat (case_bool_decide; [simplify_eq; by rewrite !holds_Accepted|]).
  destruct (GetGateway _ _) as [e|gw]; [simplify_eq; by rewrite !holds_Accepted|].
  destruct (IsActiveGateway gw); simpl in H; [|simplify_eq; by rewrite !holds_Accepted].
  apply go_bind_Ret in H as ([st2 al] & Hal & H).
  apply GetAllowedListeners_spec in Hal as [_ Hal].
  assert (holds p' RouteConditionResolvedRefs st2 = holds p' RouteConditionResolvedRefs st) as Hst2.
  { destruct Hal as [[_ ->]|[_ [-> | ->]]]; simpl; by rewrite !holds_Accepted. }
  case_bool_decide; [by simplify_eq|]. apply go_bind_Ret in H as (n & _ & H).
  destruct (_ && _); simplify_eq; by rewrite ?holds_Accepted.
Qed.

Lemma lived_tls r :
  lived r → rt_Kind r = TLSRoute →
  ∀ p, IsStatusConditionTrue (ConditionsForParentRef (rt_Parents r) p) RouteConditionResolvedRefs = false.
Proof.
  induction 1 as [|r ???? _ IH|client r r' _ IH Hr]; intros Hk p; simpl in *; [|by apply IH|].
  - unfold IsStatusConditionTrue. by rewrite Find_first.
  - unfold reconcileRoute, Process in Hr. apply go_bind_Ret in Hr as (st & Hst & [= <-]).
    apply go_bind_Ret in Hst as (st1 & Hst & [= <-]). simpl in *.
    change (holds p RouteConditionResolvedRefs st1 = false).
    eapply (gofold_inv (λ _ st, holds p RouteConditionResolvedRefs st = false)); [|intros ????? _ HP Hc|exact Hst].
    + by apply IH.
    + by rewrite (computeRouteParentStatus_tls _ _ _ _ _ _ Hk Hc).
Qed.

Lemma lived_tls_not_effective r p : lived r → rt_Kind r = TLSRoute → IsEffectiveRouteForParent (rt_Parents r) p = false.
Proof. intros Hl Hk. unfold IsEffectiveRouteForParent. by rewrite (lived_tls _ Hl Hk), andb_false_r. Qed.

End tls.

(** ** Witnesses *)

Import GatewayDemo.GatewayDemo.

Lemma demo_wf_gateway routes key gw : GetGateway (demoClient routes) key = inr gw → wf_gateway gw.
Proof.
  intros H. apply (find_nn_inr (λ g, ObjectKey (gw_Meta g))) in H as [->|?%elem_of_nil]%elem_of_cons; [|done].
  intros l [->|?%elem_of_nil]%elem_of_cons; [|done]. split; [split; [by eexists|]|].
  - intros k [->|[->|?%elem_of_nil]%elem_of_cons]%elem_of_cons; [by eexists..|done].
  - intros h [= <-]. left. reflexivity.
Qed.

Lemma demo_wf_route : wf_route demoShop.
Proof.
  split.
  - intros rule [->|?%elem_of_nil]%elem_of_cons; [|done]. intros bk [->|?%elem_of_nil]%elem_of_cons; [|done].
    split; by eexists.
  - intros h [->|?%elem_of_nil]%elem_of_cons; [|done]. left. reflexivity.
Qed.

(** The route is effective although no listener has its hostname. *)
Lemma route_effective_exact_witness :
  ∃ route', reconcileRoute (demoClient []) demoShop = Ret route' ∧
    (IsEffectiveRouteForParent (rt_Parents route') demoParent = true ↔
     accepted (demoClient []) demoShop demoParent ∧ goodRoute (demoClient []) demoShop) ∧
    IsEffectiveRouteForParent (rt_Parents route') demoParent = true ∧
    countHostnames (GetValidListenersForGateway demoGateway) (rt_Hostnames demoShop) = Ret 0.
Proof.
  destruct (route_effective_exact (demoClient []) demoShop) as (route' & E & H).
  - discriminate.
  - apply demo_wf_route.
  - apply demo_wf_gateway.
  - exists route'. split; [done|]. split; [apply H; left|]. vm_compute in E. injection E as <-.
    split; vm_compute; reflexivity.
Defined.

End GatewayStatusFacts.
