(* ===== verification/GatewayListeners.v ===== *)
(** * The status of listeners: pkg/controllers/gateway/v1, pkg/gateway/status/gw

    The controller of gateways looks for listeners that conflict, computes
    the kinds of routes each supports, resolves its certificates, and collects
    the conditions of the gateway and of its listeners in an update. *)

From S2P Require Import Prelude Core Cidr GatewayApi Gateway GatewayStatus.
Import Core.Core Cidr.Cidr GatewayApi.GatewayApi Gateway.Gateway GatewayStatus.GatewayStatus.

Module GatewayListeners.

#[local] Open Scope Z_scope.

(** ** GatewayStatusUpdate (status/gw/gateway.go) *)

Record GatewayStatusUpdate := mkGsu {
  gsu_conditions : gmap string StatusCondition; gsu_listenerStatus : gmap string ListenerStatus }.

Definition NewGatewayStatusUpdate : GatewayStatusUpdate := mkGsu ∅ ∅.

Section update.
Context {SC : StatusConditions}.

Definition AddGatewayCondition (t status reason : string) (g : GatewayStatusUpdate) : GatewayStatusUpdate :=
  mkGsu (<[t := mkCond t status reason]> (gsu_conditions g)) (gsu_listenerStatus g).

Definition listenerStatusOf (g : GatewayStatusUpdate) (name : string) : ListenerStatus :=
  default (mkListenerStatus name [] []) (gsu_listenerStatus g !! name).

Definition SetListenerSupportedKinds (name : string) (groupKinds : list RouteGroupKind) (g : GatewayStatusUpdate)
    : GatewayStatusUpdate :=
  let s := listenerStatusOf g name in
  mkGsu (gsu_conditions g)
    (<[name := mkListenerStatus (lst_Name s) (lst_SupportedKinds s ++ groupKinds) (lst_Conditions s)]> (gsu_listenerStatus g)).

Definition AddListenerCondition (name t status reason : string) (g : GatewayStatusUpdate) : GatewayStatusUpdate :=
  let s := listenerStatusOf g name in
  mkGsu (gsu_conditions g)
    (<[name := mkListenerStatus (lst_Name s) (lst_SupportedKinds s)
                 (SetStatusCondition (lst_Conditions s) (mkCond t status reason))]> (gsu_listenerStatus g)).

Definition GetListenerStatus (g : GatewayStatusUpdate) (name : string) : option ListenerStatus := gsu_listenerStatus g !! name.

(** The listeners part of [Mutate]: all statuses are overwritten, by name. *)
Definition listenerStatusToWrite `{MapRange} `{SliceSort} (g : GatewayStatusUpdate) : list ListenerStatus :=
  sort_slice (λ a b, String.ltb (lst_Name a) (lst_Name b)) (map_range (gsu_listenerStatus g)).*2.

(** ** Conflicts (utils.go) *)

(** The reserved ports of the gateway. *)
Definition ReservedGatewayPorts : list Z := [59091; 59092].

Definition conflictCondition : StatusCondition := mkCond "Conflicted" ConditionTrue "HostnameConflict".

Definition supportedProtocol (p : string) : bool :=
  bool_decide (p ∈ [HTTPProtocolType; HTTPSProtocolType; TLSProtocolType; TCPProtocolType; UDPProtocolType]).

Definition hasHostnames (p : string) : bool := bool_decide (p ∈ [HTTPProtocolType; HTTPSProtocolType; TLSProtocolType]).

(** The loop over the listeners before: the condition of the first conflict. *)
Fixpoint conflictWith (l : Listener) (before : list Listener) : option StatusCondition :=
  match before with
  | [] => None
  | other :: rest =>
      if bool_decide (l_Port l ≠ l_Port other) then conflictWith l rest
      else if bool_decide (l_Protocol l ≠ l_Protocol other) then Some (mkCond "Conflicted" ConditionTrue "ProtocolConflict")
      else if hasHostnames (l_Protocol l) && bool_decide (default "" (l_Hostname l) = default "" (l_Hostname other))
      then Some (mkCond "Conflicted" ConditionTrue "HostnameConflict")
      else conflictWith l rest
  end.

(** One round: the condition of a listener, if any. *)
Definition invalidListener `{DNSValidation} (before : list Listener) (l : Listener) : option StatusCondition :=
  if bool_decide (default "" (l_Hostname l) ≠ "") && negb (IsValidHostname (default "" (l_Hostname l)))
  then Some (mkCond "Programmed" ConditionFalse "Invalid")
  else if negb (supportedProtocol (l_Protocol l)) then Some conflictCondition
  else if bool_decide (l_Port l ∈ ReservedGatewayPorts) then Some conflictCondition
  else conflictWith l before.

Fixpoint invalidFrom `{DNSValidation} (before rest : list Listener) (m : gmap string StatusCondition)
    : gmap string StatusCondition :=
  match rest with
  | [] => m
  | l :: rest' =>
      let m := match invalidListener before l with Some c => <[l_Name l := c]> m | None => m end in
      invalidFrom (before ++ [l]) rest' m
  end.

Definition invalidateListeners `{DNSValidation} (listeners : list Listener) : gmap string StatusCondition :=
  invalidFrom [] listeners ∅.

(** ** Kinds of routes *)

Definition groupKind (kind : RouteKind) : RouteGroupKind := mkRouteGroupKind (Some GroupName) (kindName kind).

(** The first matching check of the loop: whether the kind is refused. *)
Definition refusedKind (protocol : string) (k : RouteGroupKind) : bool :=
  if bool_decide (is_Some (rgk_Group k)) && bool_decide (rgk_Group k ≠ Some GroupName) then true
  else if negb (bool_decide (rgk_Kind k ∈ kindName <$> [HTTPRoute; TLSRoute; GRPCRoute; TCPRoute; UDPRoute])) then true
  else if bool_decide (rgk_Kind k = kindName HTTPRoute) && bool_decide (protocol ≠ HTTPProtocolType) &&
          bool_decide (protocol ≠ HTTPSProtocolType) then true
  else if bool_decide (rgk_Kind k = kindName GRPCRoute) && bool_decide (protocol ≠ HTTPProtocolType) &&
          bool_decide (protocol ≠ HTTPSProtocolType) then true
  else if bool_decide (rgk_Kind k = kindName TLSRoute) && bool_decide (protocol ≠ TLSProtocolType) then true
  else if bool_decide (rgk_Kind k = kindName TCPRoute) && bool_decide (protocol ≠ TCPProtocolType) &&
          bool_decide (protocol ≠ TLSProtocolType) then true
  else bool_decide (rgk_Kind k = kindName UDPRoute) && bool_decide (protocol ≠ UDPProtocolType).

Definition defaultKinds (protocol : string) : option (list RouteGroupKind) :=
  if bool_decide (protocol = HTTPProtocolType) || bool_decide (protocol = HTTPSProtocolType)
  then Some [groupKind HTTPRoute; groupKind GRPCRoute]
  else if bool_decide (protocol = TLSProtocolType) then Some [groupKind TLSRoute; groupKind TCPRoute]
  else if bool_decide (protocol = TCPProtocolType) then Some [groupKind TCPRoute]
  else if bool_decide (protocol = UDPProtocolType) then Some [groupKind UDPRoute]
  else None.

Definition supportedRouteGroupKinds (listener : Listener) (update : GatewayStatusUpdate)
    : go (GatewayStatusUpdate * list RouteGroupKind) :=
  routes ← deref (l_AllowedRoutes listener);
  match (if bool_decide (length (ar_Kinds routes) = 0%nat) then defaultKinds (l_Protocol listener) else None) with
  | Some kinds => Ret (update, kinds)
  | None =>
      Ret (foldl (λ '(update, kinds) k,
             if refusedKind (l_Protocol listener) k
             then (AddListenerCondition (l_Name listener) "ResolvedRefs" ConditionFalse "InvalidRouteKinds" update, kinds)
             else (update, kinds ++ [k])) (update, []) (ar_Kinds routes))
  end.

(** ** The status of a listener (gateway_controller.go) *)

Section listener.
Context {LS : LabelSelectors} {DV : DNSValidation} {MR : MapRange} (client : Cache).

(** types.go: the providers of a listener's references. *)
Definition ListenerSecretProvider (name : string) : SecretConditionProvider GatewayStatusUpdate :=
  let failed reason := AddListenerCondition name "ResolvedRefs" ConditionFalse reason in
  mkSecretProvider
    (λ ref g, _ ← deref (sor_Group ref); _ ← deref (sor_Kind ref); Ret (failed "InvalidCertificateRef" g))
    (failed "RefNotPermitted") (failed "InvalidCertificateRef") (failed "InvalidCertificateRef")
    (AddListenerCondition name "ResolvedRefs" ConditionTrue "ResolvedRefs").

Definition ListenerObjectProvider (name : string) : ObjectConditionProvider GatewayStatusUpdate :=
  let failed reason := AddListenerCondition name "ResolvedRefs" ConditionFalse reason in
  mkObjectProvider (failed "InvalidCertificateRef") (failed "RefNotPermitted") (failed "InvalidCertificateRef")
    (failed "InvalidCertificateRef") (failed "InvalidCertificateRef") (failed "InvalidCertificateRef")
    (AddListenerCondition name "ResolvedRefs" ConditionTrue "ResolvedRefs").

(** The deferred function: conditions that are still missing are true. *)
Definition addIfMissing (name t reason : string) (g : GatewayStatusUpdate) : GatewayStatusUpdate :=
  match FindStatusCondition (lst_Conditions (listenerStatusOf g name)) t with
  | None => AddListenerCondition name t ConditionTrue reason g
  | Some _ => g
  end.

Definition finishListener (name : string) (g : GatewayStatusUpdate) : GatewayStatusUpdate :=
  match GetListenerStatus g name with
  | Some s =>
      if bool_decide (length (lst_Conditions s) = 0%nat) then
        AddListenerCondition name "ResolvedRefs" ConditionTrue "ResolvedRefs"
          (AddListenerCondition name "Accepted" ConditionTrue "Accepted"
             (AddListenerCondition name "Programmed" ConditionTrue "Programmed" g))
      else addIfMissing name "ResolvedRefs" "ResolvedRefs"
             (addIfMissing name "Accepted" "Accepted" (addIfMissing name "Programmed" "Programmed" g))
  | None =>
      AddListenerCondition name "ResolvedRefs" ConditionTrue "ResolvedRefs"
        (AddListenerCondition name "Accepted" ConditionTrue "Accepted"
           (AddListenerCondition name "Programmed" ConditionTrue "Programmed" g))
  end.

(** Whether the selector of the namespaces is usable, when there is one. *)
Definition badSelector (l : Listener) : bool :=
  match l_AllowedRoutes l ≫= ar_Namespaces with
  | Some nss =>
      bool_decide (rn_From nss = Some NamespacesFromSelector) &&
      match rn_Selector nss with
      | None => true
      | Some sel => bool_decide (length (ls_MatchExpressions sel) + size (ls_MatchLabels sel) = 0)%nat ||
                    bool_decide (¬ is_Some (LabelSelectorAsSelector (Some sel)))
      end
  | None => false
  end.

Definition resolveCertificates (gateway : Gateway) (l : Listener) (g : GatewayStatusUpdate) : go GatewayStatusUpdate :=
  tls ← deref (l_TLS l);
  '(g, resolved) ← match tls_CertificateRefs tls with
                   | None => Ret (g, true)
                   | Some refs => ResolveAllSecretRefs (ListenerSecretProvider (l_Name l)) client
                                    (mkGroupKind GroupName GatewayAPIGatewayKind) (om_Namespace (gw_Meta gateway)) refs g
                   end;
  if negb resolved then Ret g
  else match tls_FrontendValidation tls with
       | Some (ref :: refs) =>
           Ret (ResolveAllObjectRefs (ListenerObjectProvider (l_Name l)) client
                  (mkGroupKind GroupName GatewayAPIGatewayKind) (om_Namespace (gw_Meta gateway)) (ref :: refs) g).1
       | _ => Ret g
       end.

Definition computeListenerStatus (gateway : Gateway) (l : Listener) (invalidListeners : gmap string StatusCondition)
    (g : GatewayStatusUpdate) : go GatewayStatusUpdate :=
  '(g, groupKinds) ← supportedRouteGroupKinds l g;
  let g := SetListenerSupportedKinds (l_Name l) groupKinds g in
  if badSelector l then
    Ret (finishListener (l_Name l) (AddListenerCondition (l_Name l) "Programmed" ConditionFalse "Invalid" g))
  else if bool_decide (is_Some (invalidListeners !! l_Name l)) then Ret (finishListener (l_Name l) g)
  else if IsTLSListener l then
    g ← resolveCertificates gateway l g;
    Ret (finishListener (l_Name l) g)
  else Ret (finishListener (l_Name l) g).

(** The gateway is not accepted when a listener is not programmed. *)
Definition computeAllListenerStatus (gateway : Gateway) (g : GatewayStatusUpdate) : go GatewayStatusUpdate :=
  let invalidListeners := invalidateListeners (gw_Listeners gateway) in
  let g := foldl (λ g '(name, cond), AddListenerCondition name (sc_Type cond) (sc_Status cond) (sc_Reason cond) g)
             g (map_range invalidListeners) in
  g ← gofold (λ g l, computeListenerStatus gateway l invalidListeners g) g (gw_Listeners gateway);
  let g := if forallb (λ l, match GetListenerStatus g (l_Name l) with
                            | Some s => IsListenerProgrammed s
                            | None => true
                            end) (gw_Listeners gateway)
           then g else AddGatewayCondition "Accepted" ConditionFalse "ListenersNotValid" g in
  match gw_BackendTLS gateway with
  | Some (Some ref) =>
      '(g, _) ← SecretRefToSecret
        (let failed := AddGatewayCondition "Accepted" ConditionFalse "Invalid" in
         mkSecretProvider (λ ref g, _ ← deref (sor_Group ref); _ ← deref (sor_Kind ref); Ret (failed g))
           failed failed failed (AddGatewayCondition "Accepted" ConditionTrue "Accepted"))
        client (mkGroupKind GroupName GatewayAPIGatewayKind) (om_Namespace (gw_Meta gateway)) ref g;
      Ret g
  | _ => Ret g
  end.

End listener.

End update.

End GatewayListeners.
