(* ===== verification/GatewayListenersFacts.v ===== *)
(** * Properties of the status of listeners

    The listeners that are valid after a reconciliation of their gateway do
    not conflict: on one port they have one protocol and distinct hostnames. *)

From S2P Require Import Prelude Core Net Cidr CidrFacts GatewayApi Gateway GatewayStatus GatewayFacts GatewayDemo.
From S2P Require Import GatewayStatusFacts GatewayListeners.
Import Core.Core Cidr.Cidr GatewayApi.GatewayApi Gateway.Gateway GatewayStatus.GatewayStatus GatewayFacts.GatewayFacts.
Import GatewayStatusFacts.GatewayStatusFacts GatewayListeners.GatewayListeners.

Module GatewayListenersFacts.

#[local] Open Scope Z_scope.

(** ** Conflicts *)

(** What two listeners on one port have to agree and to differ in. *)
Definition compatible (l other : Listener) : Prop :=
  l_Port l = l_Port other →
  l_Protocol l = l_Protocol other ∧
  (l_Protocol l ∈ [HTTPProtocolType; HTTPSProtocolType; TLSProtocolType] →
   default "" (l_Hostname l) ≠ default "" (l_Hostname other)).

Lemma compatible_sym l other : compatible l other → compatible other l.
Proof.
  intros H E. destruct (H (eq_sym E)) as [Hp Hh]. split; [done|]. rewrite <-Hp. intros Hin E'. by apply (Hh Hin).
Qed.

Lemma conflictWith_None l before : conflictWith l before = None → ∀ other, other ∈ before → compatible l other.
Proof.
  induction before as [|o before IH]; simpl; [by intros _ ? ?%elem_of_nil|].
  intros H other [->|Hin]%elem_of_cons.
  - intros Hp. rewrite bool_decide_false in H by (intros H'; by apply H').
    case_bool_decide as Hpr; [done|]. split; [done|].
    intros Hh E. unfold hasHostnames in H. rewrite !bool_decide_true in H by done. done.
  - apply IH; [|done]. case_bool_decide; [done|]. case_bool_decide; [done|]. by destruct (_ && _).
Qed.

Section invalid.
Context `{DV : DNSValidation}.

(** What is checked of a listener alone. *)
Definition acceptable (l : Listener) : Prop :=
  (default "" (l_Hostname l) = "" ∨ IsValidHostname (default "" (l_Hostname l)) = true) ∧
  l_Protocol l ∈ [HTTPProtocolType; HTTPSProtocolType; TLSProtocolType; TCPProtocolType; UDPProtocolType] ∧
  l_Port l ∉ ReservedGatewayPorts.

Lemma invalidListener_None before l :
  invalidListener before l = None → acceptable l ∧ ∀ other, other ∈ before → compatible l other.
Proof.
  unfold invalidListener, acceptable, supportedProtocol. intros H.
  destruct (bool_decide (default "" (l_Hostname l) ≠ "") && _) eqn:Hh; [done|].
  destruct (bool_decide (l_Protocol l ∈ _)) eqn:Hp; simpl in H; [|done].
  case_bool_decide as Hr; [done|]. apply bool_decide_eq_true in Hp.
  split; [|by apply conflictWith_None]. split; [|done].
  apply andb_false_iff in Hh as [Hh|Hh]; [left|right].
  - apply bool_decide_eq_false in Hh. by apply dec_stable.
  - by apply negb_false_iff.
Qed.

(** The conditions that make a listener invalid. *)
Definition disqualifies (c : StatusCondition) : Prop :=
  (sc_Type c = "Conflicted" ∧ sc_Status c = ConditionTrue) ∨ (sc_Type c = "Programmed" ∧ sc_Status c = ConditionFalse).

Lemma conflictWith_Some l before c : conflictWith l before = Some c → disqualifies c.
Proof.
  induction before as [|o before IH]; simpl; [done|]. intros H.
  case_bool_decide; [auto|]. case_bool_decide; [simplify_eq; by left|]. destruct (_ && _); [simplify_eq; by left|auto].
Qed.

Lemma invalidListener_Some before l c : invalidListener before l = Some c → disqualifies c.
Proof.
  unfold invalidListener. intros H. destruct (_ && _); [simplify_eq; by right|].
  destruct (negb _); [simplify_eq; by left|]. case_bool_decide; [simplify_eq; by left|by eapply conflictWith_Some].
Qed.

Lemma invalidFrom_other before rest m n :
  n ∉ l_Name <$> rest → invalidFrom before rest m !! n = m !! n.
Proof.
  revert before m. induction rest as [|l rest IH]; intros before m Hn; simpl; [done|].
  rewrite fmap_cons, not_elem_of_cons in Hn. destruct Hn as [Hn Hr]. rewrite IH by done.
  destruct (invalidListener before l); [by rewrite lookup_insert_ne|done].
Qed.

Lemma invalidFrom_lookup before r1 l r2 m :
  NoDup (l_Name <$> r1 ++ l :: r2) → m !! l_Name l = None →
  invalidFrom before (r1 ++ l :: r2) m !! l_Name l = invalidListener (before ++ r1) l.
Proof.
  revert before m. induction r1 as [|x r1 IH]; intros before m Hd Hm; simpl in *.
  - apply NoDup_cons in Hd as [Hn _]. rewrite invalidFrom_other, app_nil_r by done.
    by destruct (invalidListener before l); [rewrite lookup_insert_eq|].
  - apply NoDup_cons in Hd as [Hn Hd]. rewrite IH; [by rewrite <-app_assoc|done|].
    destruct (invalidListener before x); [|done]. rewrite lookup_insert_ne; [done|].
    intros E. apply Hn. rewrite E. apply list_elem_of_fmap. exists l. split; [done|set_solver].
Qed.

Lemma invalidFrom_Some before rest m n c :
  (∀ n c, m !! n = Some c → disqualifies c) → invalidFrom before rest m !! n = Some c → disqualifies c.
Proof.
  revert before m. induction rest as [|l rest IH]; intros before m Hm; simpl; [by apply Hm|].
  apply IH. destruct (invalidListener before l) as [c'|] eqn:E; [|done].
  intros n' c2 [[_ <-]|[_ ?]]%lookup_insert_Some; [by eapply invalidListener_Some|by eapply Hm].
Qed.

(** Listeners that are not invalid are acceptable and compatible. *)
Lemma not_invalid ls :
  NoDup (l_Name <$> ls) →
  (∀ l, l ∈ ls → invalidateListeners ls !! l_Name l = None → acceptable l) ∧
  (∀ l other, l ∈ ls → other ∈ ls → l ≠ other → invalidateListeners ls !! l_Name l = None →
     invalidateListeners ls !! l_Name other = None → compatible l other).
Proof.
  intros Hd. assert (∀ r1 l r2, ls = r1 ++ l :: r2 → invalidateListeners ls !! l_Name l = None →
    acceptable l ∧ ∀ other, other ∈ r1 → compatible l other) as H.
  { intros r1 l r2 -> H. unfold invalidateListeners in H. rewrite invalidFrom_lookup in H; [|done|done].
    by apply invalidListener_None in H. }
  split.
  - intros l (r1 & r2 & E)%list_elem_of_split Hn. by eapply H.
  - intros l other (r1 & r2 & E)%list_elem_of_split Ho Hne Hl Hother.
    destruct (H _ _ _ E Hl) as [_ Hbefore]. rewrite E in Ho.
    apply elem_of_app in Ho as [?|[?|(r3 & r4 & E2)%list_elem_of_split]%elem_of_cons]; [auto|done|].
    apply compatible_sym. rewrite E2 in E. eapply (H (r1 ++ l :: r3)); [|done|set_solver].
    rewrite E, <-app_assoc. done.
Qed.

End invalid.

(** ** Resolvers keep what their providers keep *)

Section resolvers.
Context {S : Type} (P : S → Prop).

Definition secretProviderKeeps (provider : SecretConditionProvider S) : Prop :=
  (∀ ref st st', P st → AddInvalidCertificateRefCondition provider ref st = Ret st' → P st') ∧
  (∀ ref st, is_Some (sor_Group ref) → is_Some (sor_Kind ref) → ∃ st', AddInvalidCertificateRefCondition provider ref st = Ret st') ∧
  (∀ st, P st → P (sp_AddRefNotPermittedCondition provider st) ∧ P (sp_AddRefNotFoundCondition provider st) ∧
     P (sp_AddGetRefErrorCondition provider st) ∧ P (sp_AddRefsResolvedCondition provider st)).

Lemma SecretRefToSecret_keeps provider client gvk ns ref st :
  secretProviderKeeps provider → is_Some (sor_Group ref) → is_Some (sor_Kind ref) → P st →
  ∃ st' secret, SecretRefToSecret provider client gvk ns ref st = Ret (st', secret) ∧ P st'.
Proof.
  intros (Hkeep & Htot & Hrest) Hg Hk HP. unfold SecretRefToSecret.
  destruct (negb _).
  { destruct (Htot ref st Hg Hk) as [st' E]. rewrite E. destruct Hg as [? ->], Hk as [? ->]. simpl. eauto. }
  destruct (Hrest st HP) as (? & ? & ? & ?). destruct (notPermitted _ _ _ _ _ _); [eauto|].
  destruct (GetSecret _ _) as [[]|]; eauto.
Qed.

Lemma ResolveAllSecretRefs_keeps provider client gvk ns refs st :
  secretProviderKeeps provider → (∀ ref, ref ∈ refs → is_Some (sor_Group ref) ∧ is_Some (sor_Kind ref)) → P st →
  ∃ st' ok, ResolveAllSecretRefs provider client gvk ns refs st = Ret (st', ok) ∧ P st'.
Proof.
  intros Hp Hrefs HP. unfold ResolveAllSecretRefs.
  assert (∃ st' ok, resolveSecrets provider client gvk ns refs st = Ret (st', ok) ∧ P st') as (st' & ok & -> & HP').
  { revert st HP. induction refs as [|ref refs IH]; intros st HP; simpl; [eauto|].
    destruct (Hrefs ref) as [Hg Hk]; [by left|].
    destruct (SecretRefToSecret_keeps provider client gvk ns ref st Hp Hg Hk HP) as (st' & [secret|] & -> & HP'); simpl; [|eauto].
    apply IH; [|done]. intros ref' ?. apply Hrefs. by right. }
  simpl. eexists _, ok. split; [done|]. destruct ok; [|done]. by apply Hp.
Qed.

Definition objectProviderKeeps (provider : ObjectConditionProvider S) : Prop :=
  ∀ st, P st → P (AddInvalidRefCondition provider st) ∧ P (op_AddRefNotPermittedCondition provider st) ∧
    P (op_AddRefNotFoundCondition provider st) ∧ P (op_AddGetRefErrorCondition provider st) ∧
    P (AddNoRequiredCAFileCondition provider st) ∧ P (AddEmptyCACondition provider st) ∧
    P (op_AddRefsResolvedCondition provider st).

Lemma ObjectRefToCACertificate_keeps provider client gvk ns ref st :
  objectProviderKeeps provider → P st → P (ObjectRefToCACertificate provider client gvk ns ref st).1.
Proof.
  intros Hp HP. destruct (Hp st HP) as (? & ? & ? & ? & ? & ? & ?). unfold ObjectRefToCACertificate, caOf.
  repeat (case_match; try done).
Qed.

Lemma ResolveAllObjectRefs_keeps provider client gvk ns refs st :
  objectProviderKeeps provider → P st → P (ResolveAllObjectRefs provider client gvk ns refs st).1.
Proof.
  intros Hp HP. unfold ResolveAllObjectRefs.
  assert (P (resolveObjects provider client gvk ns refs st).1) as H.
  { revert st HP. induction refs as [|ref refs IH]; intros st HP; simpl; [done|].
    pose proof (ObjectRefToCACertificate_keeps provider client gvk ns ref st Hp HP) as HP'.
    destruct (ObjectRefToCACertificate _ _ _ _ _ _) as [st' ca]. simpl in HP'. case_bool_decide; [done|by apply IH]. }
  destruct (resolveObjects _ _ _ _ _ _) as [st' []]; [|done]. by apply Hp.
Qed.

End resolvers.

(** ** A listener that is disqualified stays so *)

Section status.
Context `{SCS : StatusConditionsSpec}.

Definition conditionsOf (g : GatewayStatusUpdate) (n : string) : list StatusCondition := lst_Conditions (listenerStatusOf g n).

Definition flagged (g : GatewayStatusUpdate) (n : string) : Prop :=
  ∃ c, FindStatusCondition (conditionsOf g n) (sc_Type c) = Some c ∧ disqualifies c.

(** The invariant: statuses are kept by their name, and the listeners of a
    table are disqualified. *)
Definition keptInvalid (invalid : gmap string StatusCondition) (g : GatewayStatusUpdate) : Prop :=
  (∀ n s, gsu_listenerStatus g !! n = Some s → lst_Name s = n) ∧
  ∀ n c, invalid !! n = Some c → flagged g n.

Lemma conditionsOf_add n t s r g n' :
  conditionsOf (AddListenerCondition n t s r g) n' =
  if bool_decide (n' = n) then SetStatusCondition (conditionsOf g n) (mkCond t s r) else conditionsOf g n'.
Proof.
  unfold conditionsOf, AddListenerCondition, listenerStatusOf. simpl. case_bool_decide as E.
  - subst. by rewrite lookup_insert_eq.
  - by rewrite lookup_insert_ne.
Qed.

Lemma names_add n t s r g :
  (∀ n s, gsu_listenerStatus g !! n = Some s → lst_Name s = n) →
  ∀ n' s', gsu_listenerStatus (AddListenerCondition n t s r g) !! n' = Some s' → lst_Name s' = n'.
Proof.
  intros H n' s'. unfold AddListenerCondition. cbn [gsu_listenerStatus].
  intros [[<- <-]|[_ ?]]%lookup_insert_Some; [|auto]. simpl. unfold listenerStatusOf.
  destruct (gsu_listenerStatus g !! n) eqn:E; [by apply H|done].
Qed.

(** Conditions that cannot repair a listener. *)
Definition harmless (n t s : string) (g : GatewayStatusUpdate) : Prop :=
  (t ≠ "Conflicted" ∧ t ≠ "Programmed") ∨ (t = "Programmed" ∧ s = ConditionFalse) ∨
  (t = "Programmed" ∧ FindStatusCondition (conditionsOf g n) t = None).

Lemma flagged_add n t s r g n' : harmless n t s g → flagged g n' → flagged (AddListenerCondition n t s r g) n'.
Proof.
  intros Hs (c & Hf & Hd). unfold flagged. setoid_rewrite conditionsOf_add. case_bool_decide as E; [subst n'|by exists c].
  destruct (decide (sc_Type c = t)) as [<-|Ht].
  - destruct Hs as [[??]|[[Ht ->]|[Ht Hn]]]; [destruct Hd as [[??]|[??]]; done| |congruence].
    exists (mkCond (sc_Type c) ConditionFalse r). split; [apply (Find_Set _ (mkCond _ _ _))|by right].
  - exists c. split; [|done]. by rewrite (Find_Set_ne _ (mkCond t s r)).
Qed.

Lemma keptInvalid_add invalid n t s r g :
  harmless n t s g → keptInvalid invalid g → keptInvalid invalid (AddListenerCondition n t s r g).
Proof. intros Hs [Hn Hf]. split; [by apply names_add|]. intros n' c ?. eapply flagged_add; [done|by eapply Hf]. Qed.

Lemma keptInvalid_resolved invalid n s r g :
  keptInvalid invalid g → keptInvalid invalid (AddListenerCondition n "ResolvedRefs" s r g).
Proof. apply keptInvalid_add. by left. Qed.

Lemma keptInvalid_kinds invalid n ks g :
  keptInvalid invalid g → keptInvalid invalid (SetListenerSupportedKinds n ks g).
Proof.
  intros [Hn Hf]. split.
  - intros n' s'. unfold SetListenerSupportedKinds. cbn [gsu_listenerStatus].
    intros [[<- <-]|[_ ?]]%lookup_insert_Some; [|auto]. simpl. unfold listenerStatusOf.
    destruct (gsu_listenerStatus g !! n) eqn:E; [by apply Hn|done].
  - intros n' c Hc. destruct (Hf _ _ Hc) as (c' & Hc' & Hd). exists c'. split; [|done]. rewrite <-Hc'.
    unfold conditionsOf, listenerStatusOf, SetListenerSupportedKinds. simpl.
    destruct (decide (n' = n)) as [->|]; [by rewrite lookup_insert_eq|by rewrite lookup_insert_ne].
Qed.

Lemma keptInvalid_missing invalid n t r g :
  t ≠ "Conflicted" → keptInvalid invalid g → keptInvalid invalid (addIfMissing n t r g).
Proof.
  intros Ht Hg. unfold addIfMissing. fold (conditionsOf g n).
  destruct (FindStatusCondition (conditionsOf g n) t) eqn:E; [done|]. apply keptInvalid_add; [|done].
  destruct (decide (t = "Programmed")) as [->|]; [right; right; done|by left].
Qed.

Lemma keptInvalid_finish invalid n g : keptInvalid invalid g → keptInvalid invalid (finishListener n g).
Proof.
  intros Hg. unfold finishListener, GetListenerStatus.
  assert (conditionsOf g n = [] → keptInvalid invalid
    (AddListenerCondition n "ResolvedRefs" ConditionTrue "ResolvedRefs"
      (AddListenerCondition n "Accepted" ConditionTrue "Accepted"
         (AddListenerCondition n "Programmed" ConditionTrue "Programmed" g)))) as Hfresh.
  { intros E. apply keptInvalid_resolved, keptInvalid_add; [by left|]. apply keptInvalid_add; [|done].
    right. right. split; [done|]. by rewrite E, Find_first. }
  destruct (gsu_listenerStatus g !! n) as [s|] eqn:Es.
  - case_bool_decide as El; [|by repeat apply keptInvalid_missing]. apply Hfresh.
    unfold conditionsOf, listenerStatusOf. rewrite Es. by apply length_zero_iff_nil.
  - apply Hfresh. unfold conditionsOf, listenerStatusOf. by rewrite Es.
Qed.

Lemma keptInvalid_flag seen k c g :
  seen !! k = None → disqualifies c → keptInvalid seen g →
  keptInvalid (<[k := c]> seen) (AddListenerCondition k (sc_Type c) (sc_Status c) (sc_Reason c) g).
Proof.
  intros Hk Hd [Hn Hf]. split; [by apply names_add|].
  intros n c' H. unfold flagged. setoid_rewrite conditionsOf_add. case_bool_decide as E.
  - subst. exists (mkCond (sc_Type c) (sc_Status c) (sc_Reason c)). split; [apply Find_Set|done].
  - rewrite lookup_insert_ne in H by done. by eapply Hf.
Qed.

Lemma keptInvalid_gateway invalid t s r g : keptInvalid invalid g → keptInvalid invalid (AddGatewayCondition t s r g).
Proof. done. Qed.

(** ** The reconciliation of a gateway *)

Section gateway.
Context {LS : LabelSelectors} {DV : DNSValidation} {MR : MapRange} {SS : SliceSort}.
Context (client : Cache) (gw : Gateway).

(** Fields that the API server sets to their defaults. *)
Definition defaulted : Prop :=
  (∀ l, l ∈ gw_Listeners gw → is_Some (l_AllowedRoutes l) ∧
     ∀ tls refs ref, l_TLS l = Some tls → tls_CertificateRefs tls = Some refs → ref ∈ refs →
       is_Some (sor_Group ref) ∧ is_Some (sor_Kind ref)) ∧
  ∀ ref, gw_BackendTLS gw = Some (Some ref) → is_Some (sor_Group ref) ∧ is_Some (sor_Kind ref).

Lemma supportedRouteGroupKinds_keeps invalid l g :
  is_Some (l_AllowedRoutes l) → keptInvalid invalid g →
  ∃ g' ks, supportedRouteGroupKinds l g = Ret (g', ks) ∧ keptInvalid invalid g'.
Proof.
  intros [routes Hr] Hg. unfold supportedRouteGroupKinds. rewrite Hr. simpl.
  destruct (if bool_decide _ then _ else _) as [ks|]; [by eauto|].
  set (res := foldl _ _ _). exists res.1, res.2. split; [by destruct res|].
  unfold res. apply (foldl_inv (λ _ st, keptInvalid invalid st.1)); [done|].
  intros l1 k l2 [g1 ks1] _ HP. simpl in *. destruct (refusedKind _ _); [by apply keptInvalid_resolved|done].
Qed.

Lemma resolveCertificates_keeps invalid l tls g :
  l_TLS l = Some tls →
  (∀ refs ref, tls_CertificateRefs tls = Some refs → ref ∈ refs → is_Some (sor_Group ref) ∧ is_Some (sor_Kind ref)) →
  keptInvalid invalid g → ∃ g', resolveCertificates client gw l g = Ret g' ∧ keptInvalid invalid g'.
Proof.
  intros Ht Hrefs Hg. unfold resolveCertificates. rewrite Ht. simpl.
  assert (∃ g' ok, (match tls_CertificateRefs tls with
    | None => Ret (g, true)
    | Some refs => ResolveAllSecretRefs (ListenerSecretProvider (l_Name l)) client
                     (mkGroupKind GroupName GatewayAPIGatewayKind) (om_Namespace (gw_Meta gw)) refs g
    end) = Ret (g', ok) ∧ keptInvalid invalid g') as (g' & ok & -> & Hg').
  { destruct (tls_CertificateRefs tls) as [refs|] eqn:E; [|eauto]. apply ResolveAllSecretRefs_keeps; [|by eauto|done].
    split; [|split].
    - intros ref st st' HP H. apply go_bind_Ret in H as (? & _ & H). apply go_bind_Ret in H as (? & _ & [= <-]).
      by apply keptInvalid_resolved.
    - intros ref st [a Ha] [b Hb]. simpl. rewrite Ha, Hb. simpl. eauto.
    - intros st HP. simpl. split_and!; by apply keptInvalid_resolved. }
  simpl. destruct ok; simpl; [|eauto]. destruct (tls_FrontendValidation tls) as [[|ref refs]|]; [eauto| |eauto].
  eexists. split; [done|]. apply ResolveAllObjectRefs_keeps; [|done].
  intros st HP. simpl. split_and!; by apply keptInvalid_resolved.
Qed.

Lemma computeListenerStatus_keeps invalid table l g :
  defaulted → l ∈ gw_Listeners gw → keptInvalid invalid g →
  ∃ g', computeListenerStatus client gw l table g = Ret g' ∧ keptInvalid invalid g'.
Proof.
  intros [Hd _] Hl Hg. destruct (Hd l Hl) as [Hr Hrefs]. unfold computeListenerStatus.
  destruct (supportedRouteGroupKinds_keeps invalid l g Hr Hg) as (g1 & ks & -> & Hg1). simpl.
  apply (keptInvalid_kinds _ (l_Name l) ks) in Hg1.
  destruct (badSelector l).
  { eexists. split; [done|]. apply keptInvalid_finish, keptInvalid_add; [by right; left|done]. }
  case_bool_decide; [eexists; split; [done|]; by apply keptInvalid_finish|].
  destruct (IsTLSListener l) eqn:Ht; [|eexists; split; [done|]; by apply keptInvalid_finish].
  unfold IsTLSListener in Ht. destruct (_ || _); [|done]. destruct (l_TLS l) as [tls|] eqn:El; [|done].
  destruct (resolveCertificates_keeps invalid l tls _ El (λ refs ref H1 H2, Hrefs tls refs ref eq_refl H1 H2) Hg1) as (g2 & -> & Hg2).
  simpl. eexists. split; [done|]. by apply keptInvalid_finish.
Qed.

Lemma computeAllListenerStatus_keeps g0 :
  defaulted → gsu_listenerStatus g0 = ∅ →
  ∃ g, computeAllListenerStatus client gw g0 = Ret g ∧ keptInvalid (invalidateListeners (gw_Listeners gw)) g.
Proof.
  intros Hd H0. unfold computeAllListenerStatus. set (invalid := invalidateListeners (gw_Listeners gw)).
  set (g1 := foldl _ g0 _). assert (keptInvalid invalid g1) as Hg1.
  { apply (foldl_map_range_inv keptInvalid).
    - split; [intros n s; by rewrite H0, lookup_empty|]. intros n c. by rewrite lookup_empty.
    - intros seen k c g Hk Hc HP. apply keptInvalid_flag; [done| |done].
      eapply invalidFrom_Some; [|exact Hc]. intros ??. by rewrite lookup_empty. }
  destruct (gofold_total (keptInvalid invalid) (λ g l, computeListenerStatus client gw l invalid g) g1 (gw_Listeners gw))
    as (g2 & -> & Hg2); [done|intros; by apply computeListenerStatus_keeps|].
  simpl. set (g3 := if forallb _ _ then _ else _).
  assert (keptInvalid invalid g3) as Hg3 by by (unfold g3; destruct (forallb _ _)).
  destruct (gw_BackendTLS gw) as [[ref|]|] eqn:Eb; [|by eexists..]. destruct Hd as [_ Hd]. destruct (Hd ref Eb) as [Hgr Hki].
  match goal with |- context [SecretRefToSecret ?p _ _ _ _ _] => set (provider := p) end.
  destruct (SecretRefToSecret_keeps (keptInvalid invalid) provider client (mkGroupKind GroupName GatewayAPIGatewayKind)
    (om_Namespace (gw_Meta gw)) ref g3) as (g4 & secret & -> & Hg4); [|done|done|done|by eexists].
  split; [|split; [|done]].
  - intros ref' st st' HP H. apply go_bind_Ret in H as (? & _ & H). apply go_bind_Ret in H as (? & _ & [= <-]). done.
  - intros ref' st [a Ha] [b Hb]. simpl. rewrite Ha, Hb. simpl. eauto.
Qed.

(** The gateway with the statuses of its listeners that an update writes. *)
Definition withListeners (g : GatewayStatusUpdate) : Gateway :=
  mkGateway (gw_Meta gw) (gw_GatewayClassName gw) (gw_Listeners gw) (gw_BackendTLS gw) (gw_Conditions gw) (listenerStatusToWrite g).

Lemma flagged_not_valid g s : flagged g (lst_Name s) → conditionsOf g (lst_Name s) = lst_Conditions s → IsListenerValid s = false.
Proof.
  intros (c & Hf & Hd) E. rewrite E in Hf. destruct Hd as [[Ht Hs]|[Ht Hs]]; rewrite Ht in Hf.
  - assert (IsListenerConflicted s = true) as Hc
      by (unfold IsListenerConflicted, IsStatusConditionTrue; rewrite Hf; by apply bool_decide_eq_true).
    unfold IsListenerValid. rewrite Hc. by rewrite andb_false_r.
  - assert (IsListenerProgrammed s = false) as Hc
      by (unfold IsListenerProgrammed, IsStatusConditionTrue; rewrite Hf, Hs; done).
    unfold IsListenerValid. rewrite Hc. by rewrite andb_false_r.
Qed.

Lemma valid_not_invalid invalid g l :
  keptInvalid invalid g → l ∈ GetValidListenersForGateway (withListeners g) →
  gl_Listener l ∈ gw_Listeners gw ∧ invalid !! l_Name l = None.
Proof.
  intros [Hn Hf] (Hl & s & Hs & Hname & Hv & _)%elem_of_GetValidListeners. split; [done|].
  destruct (invalid !! l_Name l) as [c|] eqn:E; [|done]. exfalso.
  simpl in Hs. unfold listenerStatusToWrite in Hs. rewrite sort_slice_perm in Hs.
  apply list_elem_of_fmap in Hs as ([n s'] & -> & Hs%elem_of_map_range). simpl in *.
  pose proof (Hn _ _ Hs) as Hns. rewrite (flagged_not_valid g s') in Hv; [done| |].
  - rewrite Hname. by eapply Hf.
  - unfold conditionsOf, listenerStatusOf. by rewrite Hns, Hs.
Qed.

(** C8. Listeners in use do not conflict: the status of the listeners of a
    gateway is computed without a panic, and with it every listener the routes
    and the configuration see as valid has a valid hostname or none, a supported
    protocol and a port that is not reserved, and any two of them that share a
    port have the same protocol and, for HTTP, HTTPS and TLS, distinct
    hostnames. *)
Theorem valid_listeners_compatible g0 :
  NoDup (l_Name <$> gw_Listeners gw) → defaulted → gsu_listenerStatus g0 = ∅ →
  ∃ g, computeAllListenerStatus client gw g0 = Ret g ∧
    (∀ l : GwListener, l ∈ GetValidListenersForGateway (withListeners g) → acceptable l) ∧
    ∀ l l' : GwListener, l ∈ GetValidListenersForGateway (withListeners g) → l' ∈ GetValidListenersForGateway (withListeners g) →
      l_Name l ≠ l_Name l' → compatible l l'.
Proof.
  intros Hnd Hd H0. destruct (computeAllListenerStatus_keeps g0 Hd H0) as (g & E & Hg). exists g. split; [done|].
  destruct (not_invalid _ Hnd) as [Hacc Hcomp]. split.
  - intros l Hl. destruct (valid_not_invalid _ _ _ Hg Hl). by apply Hacc.
  - intros l l' Hl Hl' Hne. destruct (valid_not_invalid _ _ _ Hg Hl), (valid_not_invalid _ _ _ Hg Hl').
    apply Hcomp; try done. intros E2. by rewrite E2 in Hne.
Qed.

End gateway.

End status.

(** ** Witness *)

Import GatewayDemo.GatewayDemo.

(** A second listener on the port of the first, and one with the same hostname. *)
Definition demoListeners : Gateway :=
  let l name hostname := mkListener name (Some hostname) 80 HTTPProtocolType None (Some (mkAllowedRoutes None [])) in
  mkGateway (mkMeta "infra" "gw" 0) "fsm" [l "a" "a.example.com"; l "b" "b.example.com"; l "c" "a.example.com"] None [] [].

Lemma valid_listeners_compatible_witness :
  ∃ g, computeAllListenerStatus (demoClient []) demoListeners NewGatewayStatusUpdate = Ret g ∧
    (l_Name <$> (gl_Listener <$> GetValidListenersForGateway (withListeners demoListeners g))) = ["a"; "b"] ∧
    ∀ l l' : GwListener, l ∈ GetValidListenersForGateway (withListeners demoListeners g) →
      l' ∈ GetValidListenersForGateway (withListeners demoListeners g) → l_Name l ≠ l_Name l' → compatible l l'.
Proof.
  destruct (valid_listeners_compatible (demoClient []) demoListeners NewGatewayStatusUpdate) as (g & E & _ & H).
  - apply (bool_decide_unpack _). reflexivity.
  - split; [|discriminate]. intros l Hl. split.
    + repeat (apply elem_of_cons in Hl as [->|Hl]; [by eexists|]). by apply elem_of_nil in Hl.
    + intros tls refs ref Ht. exfalso. repeat (apply elem_of_cons in Hl as [->|Hl]; [discriminate Ht|]). by apply elem_of_nil in Hl.
  - reflexivity.
  - exists g. split; [exact E|]. split; [|exact H]. vm_compute in E. injection E as <-. vm_compute. reflexivity.
Defined.

End GatewayListenersFacts.
