(* ===== verification/GatewayBackends.v ===== *)
(** * Backends of a gateway's configuration: pkg/gateway/processor/v2

    The targets of a service port, from the endpoints, from the endpoint
    slices or from the annotation of a connector, without the isolated
    addresses (backends.go, utils.go), and the table of backends that are kept
    by the name of their service port.  [connector.Decode] is an argument. *)

From S2P Require Import Prelude Core Net Cidr K8s K8sClient Catalog GatewayApi Gateway.
Import Core.Core Net.Net Cidr.Cidr K8s.K8s K8sClient.K8sClient GatewayApi.GatewayApi Gateway.Gateway.

Module GatewayBackends.

#[local] Open Scope Z_scope.

Record BackendTarget := mkTarget { bt_Address : string; bt_Port : option Z; bt_Weight : option Z }.

Record Backend := mkBackend { bk_Name : string; bk_AppProtocol : option string; bk_Targets : list BackendTarget }.

Definition NewBackend (svcPortName : string) (appProtocol : option string) (targets : list BackendTarget) : Backend :=
  mkBackend svcPortName appProtocol targets.

(** ** utils.go *)

(** [endpointContext]: an address and a port; a set of them is a Go map. *)
Abbreviation endpointContext := (string * Z)%type (only parsing).
Abbreviation EndpointSet := (gmap (string * Z) unit) (only parsing).

Section targets.
Context {MR : MapRange}.
(* catalog.GetMeshCataloger() *)
Context (catalog : option Catalog.MeshCatalog).

Definition isolationCidrs : list CIDR :=
  match catalog with Some mc => Catalog.GetIsolationCidrs mc | None => [] end.

Definition toFGWBackendTargets (endpointSet : EndpointSet) : list BackendTarget :=
  foldl (λ targets ep,
    let isolation := existsb (λ c, Has c (ParseIP ep.1)) isolationCidrs in
    if isolation then targets else targets ++ [mkTarget ep.1 (Some ep.2) (Some 1)])
    [] (map_range endpointSet).*1.

End targets.

Definition isHeadlessServiceWithoutSelector (service : K8sService) : bool :=
  IsHeadlessService (k8s_ClusterIP service) && bool_decide (size (k8s_Selector service) = 0%nat).

Definition isFGWAppProtocolSupported (appProtocol : string) : bool :=
  bool_decide (appProtocol = "h2c") || bool_decide (appProtocol = "ws") || bool_decide (appProtocol = "wss").

(** The loop over the prefixes: the first that leaves a supported name. *)
Fixpoint cutSupported (appProtocol : string) (prefixes : list string) : option string :=
  match prefixes with
  | [] => None
  | prefix :: rest =>
      if HasPrefix appProtocol prefix && isFGWAppProtocolSupported (str_drop (String.length prefix) appProtocol)
      then Some (str_drop (String.length prefix) appProtocol) else cutSupported appProtocol rest
  end.

Definition toFGWAppProtocol (appProtocol : option string) : option string :=
  match appProtocol with
  | None => None
  | Some p =>
      match cutSupported p ["kubernetes.io/"; "gateway.networking.k8s.io/"; "gateway.flomesh.io/"] with
      | Some after => Some after
      | None => if isFGWAppProtocolSupported p then Some p else None
      end
  end.

(** ** backends.go *)

(** The result of [strconv.Atoi] without an error. *)
Definition AtoiOk (s : string) : option Z :=
  match s with
  | EmptyString | String "-" EmptyString | String "+" EmptyString => None
  | String "-" s' => n ← parseDigits s' 0; if bool_decide (n ≤ 2 ^ 63) then Some (- n) else None
  | String "+" s' => n ← parseDigits s' 0; if bool_decide (n < 2 ^ 63) then Some n else None
  | _ => n ← parseDigits s 0; if bool_decide (n < 2 ^ 63) then Some n else None
  end.

(** [connector.AnnotationMeshEndpointAddr] *)
Definition AnnotationMeshEndpointAddr : string := "flomesh.io/cloud-endpoint-addr".

(** The field [IntVal] of a target port, zero for a named one. *)
Definition targetIntVal (t : IntOrString) : Z := match t with IntVal i => i | StrVal _ => 0 end.

(** The endpoint of a gateway's "address:port", if it is one. *)
Definition viaGateway (via : string) : option (string * Z) :=
  match Split via ":" with
  | [viaAddr; portStr] => (λ n, (viaAddr, Z.land n 65535)) <$> AtoiOk portStr
  | _ => None
  end.

Definition addEndpoint (ep : option (string * Z)) (endpointSet : EndpointSet) : EndpointSet :=
  match ep with Some e => <[e := tt]> endpointSet | None => endpointSet end.

Section backends.
Context {MR : MapRange}.
Context (client : Cache) (catalog : option Catalog.MeshCatalog) (decodeMeta : K8sService → string → MicroSvcMeta).
(* processor.UseEndpointSlices() *)
Context (useEndpointSlices : bool).

(** The part both functions start with: the endpoints of the annotation, when
    there is one and the service has the port.  [endpointOf] is the body of
    the loop. *)
Definition crossClusterTargets (endpointOf : Z → string → MicroEndpointMeta → option (string * Z))
    (svc : K8sService) (port : option Z) : go (option (list BackendTarget)) :=
  match k8s_Annotations svc !! AnnotationMeshEndpointAddr with
  | None => Ret None
  | Some v =>
      let svcMeta := decodeMeta svc v in
      p ← deref port;
      match List.find (λ portSpec, bool_decide (svp_Port portSpec = p)) (k8s_Ports svc) with
      | None => Ret None
      | Some portSpec =>
          let targetPort := targetIntVal (svp_TargetPort portSpec) in
          let endpointSet :=
            foldl (λ eps '(address, metadata), addEndpoint (endpointOf targetPort address metadata) eps)
              ∅ (map_range (msm_Endpoints svcMeta)) in
          if bool_decide (0 < size endpointSet)%nat then Ret (Some (toFGWBackendTargets catalog endpointSet)) else Ret (Some [])
      end
  end.

Definition endpointByHTTP (targetPort : Z) (address : string) (metadata : MicroEndpointMeta) : option (string * Z) :=
  if bool_decide (mem_ViaGatewayHTTP metadata = "") then Some (address, targetPort)
  else viaGateway (mem_ViaGatewayHTTP metadata).

Definition endpointByHTTPOrGRPC (targetPort : Z) (address : string) (metadata : MicroEndpointMeta) : option (string * Z) :=
  if bool_decide (mem_ViaGatewayHTTP metadata ≠ "") then viaGateway (mem_ViaGatewayHTTP metadata)
  else if bool_decide (mem_ViaGatewayGRPC metadata ≠ "") then viaGateway (mem_ViaGatewayGRPC metadata)
  else Some (address, targetPort).

Definition validPort (p : Z) : bool := bool_decide (0 < p ∧ p ≤ 65535).

Definition upstreamsByEndpoints (svc : K8sService) (port : option Z) : go (list BackendTarget) :=
  cross ← crossClusterTargets endpointByHTTP svc port;
  match cross with
  | Some targets => Ret targets
  | None =>
      match GetEndpoints client (mkNN (k8s_Namespace svc) (k8s_Name svc)) with
      | inl _ => Ret []
      | inr eps =>
          if bool_decide (length (eps_Subsets eps) = 0%nat) then Ret []
          else
            match GetServicePort svc port with
            | None => Ret []
            | Some svcPort =>
                Ret (toFGWBackendTargets catalog
                  (foldl (λ endpointSet subset,
                     let endpointPort := FindEndpointPort (sub_Ports subset) svcPort in
                     if validPort endpointPort then
                       foldl (λ endpointSet address, <[(epa_IP address, endpointPort) := tt]> endpointSet)
                         endpointSet (sub_Addresses subset)
                     else endpointSet) ∅ (eps_Subsets eps)))
            end
      end
  end.

Definition upstreamsByEndpointSlices (svc : K8sService) (port : option Z) : go (list BackendTarget) :=
  cross ← crossClusterTargets endpointByHTTPOrGRPC svc port;
  match cross with
  | Some targets => Ret targets
  | None =>
      match ListEndpointSlices client (k8s_Namespace svc) (k8s_Name svc) with
      | None | Some [] => Ret []
      | Some slices =>
          match GetServicePort svc port with
          | None => Ret []
          | Some svcPort =>
              match FilterEndpointSliceList slices svcPort with
              | [] => Ret []
              | filteredSlices =>
                  Ret (toFGWBackendTargets catalog
                    (foldl (λ endpointSet eps,
                       foldl (λ endpointSet endpoint,
                         if negb (IsEndpointReady endpoint) then endpointSet
                         else
                           let endpointPort := FindEndpointSlicePort (es_Ports eps) svcPort in
                           if validPort endpointPort then
                             foldl (λ endpointSet address, <[(address, endpointPort) := tt]> endpointSet)
                               endpointSet (sle_Addresses endpoint)
                           else endpointSet) endpointSet (es_Endpoints eps)) ∅ filteredSlices))
              end
          end
      end
  end.

(** The function chosen when the generator is created. *)
Definition upstreams (svc : K8sService) (port : option Z) : go (list BackendTarget) :=
  if useEndpointSlices then upstreamsByEndpointSlices svc port else upstreamsByEndpoints svc port.

Definition calculateEndpoints (svc : K8sService) (port : option Z) : go (list BackendTarget) :=
  if isHeadlessServiceWithoutSelector svc then upstreamsByEndpoints svc port else upstreams svc port.

Definition findFGWBackendTargets (svcPort : ServicePortName) : go (list BackendTarget) :=
  match GetService client (spn_Key svcPort) with
  | inl _ => Ret []
  | inr svc =>
      if bool_decide (gs_Type svc = ServiceTypeExternalName) then Ret []
      else calculateEndpoints (gs_Service svc) (spn_Port svcPort)
  end.

(** The table [c.backends], and the backend or nil. *)
Definition toFGWBackend (svcPort : ServicePortName) (backends : gmap string Backend)
    : go (gmap string Backend * option Backend) :=
  match backends !! spn_String svcPort with
  | Some bk => Ret (backends, Some bk)
  | None =>
      targets ← findFGWBackendTargets svcPort;
      if bool_decide (length targets = 0%nat) then Ret (backends, None)
      else
        let bk := NewBackend (spn_String svcPort) (toFGWAppProtocol (spn_AppProtocol svcPort)) targets in
        Ret (<[spn_String svcPort := bk]> backends, Some bk)
  end.

End backends.

End GatewayBackends.
