(* ===== verification/GatewayBackendsFacts.v ===== *)
(** * Properties of the targets of a gateway's backends

    The targets of a service port are the addresses of its endpoints, or of
    its ready endpoints in slices, or those that a connector annotated, without
    the isolated ones. *)

From S2P Require Import Prelude Core Net Cidr CidrFacts K8s K8sClient Catalog GatewayApi Gateway GatewayFacts GatewayDemo GatewayBackends.
Import Core.Core Net.Net Cidr.Cidr K8s.K8s K8sClient.K8sClient GatewayApi.GatewayApi Gateway.Gateway GatewayFacts.GatewayFacts.
Import GatewayDemo.GatewayDemo GatewayBackends.GatewayBackends.

Module GatewayBackendsFacts.

#[local] Open Scope Z_scope.



Section targets.
Context {MR : MapRange} (catalog : option Catalog.MeshCatalog).






End targets.

Section upstreams.
Context {MR : MapRange}.
Context (client : Cache) (catalog : option Catalog.MeshCatalog) (decodeMeta : K8sService → string → MicroSvcMeta).
Context (useEndpointSlices : bool).

(** An address and a port of a service: of its endpoints, or of its ready
    endpoints in slices. *)
Definition endpointsServe (svc : K8sService) (svcPort : K8sServicePort) (a : string) (p : Z) : Prop :=
  ∃ eps subset address, GetEndpoints client (mkNN (k8s_Namespace svc) (k8s_Name svc)) = inr eps ∧
    subset ∈ eps_Subsets eps ∧ address ∈ sub_Addresses subset ∧ a = epa_IP address ∧
    p = FindEndpointPort (sub_Ports subset) svcPort.

Definition slicesServe (svc : K8sService) (svcPort : K8sServicePort) (a : string) (p : Z) : Prop :=
  ∃ slices es ep, ListEndpointSlices client (k8s_Namespace svc) (k8s_Name svc) = Some slices ∧
    es ∈ slices ∧ ep ∈ es_Endpoints es ∧ sle_Ready ep = Some true ∧ a ∈ sle_Addresses ep ∧
    p = FindEndpointSlicePort (es_Ports es) svcPort.




(** *** Endpoints that a connector annotated *)

(** The annotation and the port of the service, when it has both. *)
Definition annotated (svc : K8sService) (port : option Z) : option (string * K8sServicePort) :=
  v ← k8s_Annotations svc !! AnnotationMeshEndpointAddr;
  p ← port;
  portSpec ← List.find (λ portSpec, bool_decide (svp_Port portSpec = p)) (k8s_Ports svc);
  Some (v, portSpec).

(** An endpoint of the annotation, itself or the gateway it is reached through. *)
Definition connectorServes (endpointOf : Z → string → MicroEndpointMeta → option (string * Z)) (svc : K8sService)
    (v : string) (portSpec : K8sServicePort) (a : string) (p : Z) : Prop :=
  ∃ address metadata, msm_Endpoints (decodeMeta svc v) !! address = Some metadata ∧
    endpointOf (targetIntVal (svp_TargetPort portSpec)) address metadata = Some (a, p).


(** *** Endpoints of the cluster *)

(** An endpoint with a port in range, by the given relation. *)
Definition ownServes (serves : K8sService → K8sServicePort → string → Z → Prop) (svc : K8sService) (port : option Z)
    (a : string) (p : Z) : Prop :=
  ∃ svcPort, GetServicePort svc port = Some svcPort ∧ serves svc svcPort a p ∧ 0 < p ∧ p ≤ 65535.


(** What both functions serve: the endpoints of the annotation if there is one
    and the service has the port, its own otherwise. *)
Definition servesBy (endpointOf : Z → string → MicroEndpointMeta → option (string * Z))
    (own : K8sService → K8sServicePort → string → Z → Prop) (svc : K8sService) (port : option Z) : string → Z → Prop :=
  match annotated svc port with
  | Some (v, portSpec) => connectorServes endpointOf svc v portSpec
  | None => ownServes own svc port
  end.







(** What serves a service port: slices, or endpoints when they are not used
    or the service is headless without a selector. *)
Definition serves (svc : K8sService) (port : option Z) : string → Z → Prop :=
  if useEndpointSlices && negb (isHeadlessServiceWithoutSelector svc)
  then servesBy endpointByHTTPOrGRPC slicesServe svc port else servesBy endpointByHTTP endpointsServe svc port.


End upstreams.

(** The theorem at a service with one endpoint. *)
Lemma backend_targets_exact_example : let ep := mkTarget "10.0.0.1" (Some 8080) (Some 1) in
  findFGWBackendTargets (demoClient []) None demoDecode false (demoPort "db" "orders") = Ret [ep].
Proof. vm_compute. reflexivity. Qed.

End GatewayBackendsFacts.
