(* ===== verification/GatewayConfig.v ===== *)
(** * The configuration of a gateway: pkg/gateway/processor/v2

    For a gateway the generator collects the routes that are effective for it,
    their backends, the policies of the backends, and the certificates and
    filters of its listeners.  The maps of the generator are its state.
    Arguments: the configuration objects of filters ([resolveFilterConfig]
    reads them and encodes them as YAML), the rounding of the durations of
    health checks, and the hashes of filters. *)

From S2P Require Import Prelude Core Cidr MeshConfig Catalog GatewayApi Gateway GatewayStatus GatewayBackends.
Import Core.Core Cidr.Cidr MeshConfig.MeshConfig GatewayApi.GatewayApi Gateway.Gateway GatewayStatus.GatewayStatus.
Import GatewayBackends.GatewayBackends.

Module GatewayConfig.

#[local] Open Scope Z_scope.

(** ** Resources (fgw/config.go) *)

(** A filter; [v2f_Mirror] is the backend of a mirror, [v2f_Config] the
    configuration of an extension. *)
Record V2Filter := mkV2Filter {
  v2f_Type : string; v2f_Mirror : option string; v2f_Body : string; v2f_Config : option string;
  v2f_Priority : option Z; v2f_Key : string }.

(** A reference to a backend, whose kind is always "Backend". *)
Record V2BackendRef := mkV2BackendRef { v2b_Name : string; v2b_Weight : option Z; v2b_Filters : list V2Filter }.

Record V2Rule := mkV2Rule { v2r_Name : option string; v2r_BackendRefs : list V2BackendRef; v2r_Filters : list V2Filter }.

Record V2Route := mkV2Route {
  v2_Kind : RouteKind; v2_Namespace : string; v2_Name : string; v2_ParentRefs : list ParentReference;
  v2_Hostnames : list string; v2_Rules : list V2Rule }.

Record V2BackendTLSPolicy := mkV2TLSPolicy {
  v2t_Meta : NamespacedName; v2t_TargetRefs : list string; v2t_Hostname : string; v2t_CACertificates : list string }.

Record V2BackendLBPolicy := mkV2LBPolicy {
  v2l_Meta : NamespacedName; v2l_TargetRefs : list string; v2l_SessionPersistence : option string;
  v2l_Algorithm : option string }.

Record V2HealthCheckPolicy := mkV2HCPolicy {
  v2h_Meta : NamespacedName; v2h_TargetRefs : list string; v2h_Ports : list PortHealthCheck }.

(** [AddTargetRef] of the three policies. *)
Definition AddTargetRef (refs : list string) (ref : string) : list string :=
  if bool_decide (0 < length refs)%nat then
    (if existsb (λ r, bool_decide (r = ref)) refs then refs else refs ++ [ref])
  else [ref].

(** A listener with the names of its certificate files. *)
Record V2TLS := mkV2TLS {
  v2tls_Mode : option string; v2tls_Certificates : list (string * string);
  v2tls_FrontendValidation : option (list string) }.

Record V2Listener := mkV2Listener {
  v2ls_Name : string; v2ls_Hostname : option string; v2ls_Port : Z; v2ls_Protocol : string; v2ls_TLS : option V2TLS;
  v2ls_Filters : list V2Filter; v2ls_RouteFilters : list V2Filter }.

Record V2Gateway := mkV2Gateway {
  v2g_Meta : NamespacedName; v2g_Listeners : list V2Listener; v2g_ClientCertificate : option (string * string) }.

Inductive Resource :=
  | GatewayResource (g : V2Gateway)
  | RouteResource (r : V2Route)
  | BackendResource (b : Backend)
  | BackendTLSPolicyResource (p : V2BackendTLSPolicy)
  | BackendLBPolicyResource (p : V2BackendLBPolicy)
  | HealthCheckPolicyResource (p : V2HealthCheckPolicy).

(** ** The generator (generator.go) *)

Record Generator := mkGenerator {
  g_secretFiles : gmap string string;
  g_backends : gmap string Backend;
  g_filters : gmap string (gmap string string);
  g_backendTLSPolicies : gmap string V2BackendTLSPolicy;
  g_backendLBPolicies : gmap string V2BackendLBPolicy;
  g_healthCheckPolicies : gmap string V2HealthCheckPolicy }.

Definition newGenerator : Generator := mkGenerator ∅ ∅ ∅ ∅ ∅ ∅.

Definition set_secretFiles (f : gmap string string) (c : Generator) : Generator :=
  mkGenerator f (g_backends c) (g_filters c) (g_backendTLSPolicies c) (g_backendLBPolicies c) (g_healthCheckPolicies c).
Definition set_backends (b : gmap string Backend) (c : Generator) : Generator :=
  mkGenerator (g_secretFiles c) b (g_filters c) (g_backendTLSPolicies c) (g_backendLBPolicies c) (g_healthCheckPolicies c).
Definition set_filters (f : gmap string (gmap string string)) (c : Generator) : Generator :=
  mkGenerator (g_secretFiles c) (g_backends c) f (g_backendTLSPolicies c) (g_backendLBPolicies c) (g_healthCheckPolicies c).
Definition set_tls (p : gmap string V2BackendTLSPolicy) (c : Generator) : Generator :=
  mkGenerator (g_secretFiles c) (g_backends c) (g_filters c) p (g_backendLBPolicies c) (g_healthCheckPolicies c).
Definition set_lb (p : gmap string V2BackendLBPolicy) (c : Generator) : Generator :=
  mkGenerator (g_secretFiles c) (g_backends c) (g_filters c) (g_backendTLSPolicies c) p (g_healthCheckPolicies c).
Definition set_hc (p : gmap string V2HealthCheckPolicy) (c : Generator) : Generator :=
  mkGenerator (g_secretFiles c) (g_backends c) (g_filters c) (g_backendTLSPolicies c) (g_backendLBPolicies c) p.

(** [utils.SimpleHash], of a filter and of a string *)
Class FilterHash : Type := { hashFilter : V2Filter → string; hashString : string → string }.

Definition FilterScopeRoute : string := "Route".
Definition FilterScopeListener : string := "Listener".
Definition FilterProtocolHTTP : string := "http".
Definition FilterProtocolTCP : string := "tcp".
Definition FilterProtocolUDP : string := "udp".
Definition FilterAspectListener : string := "Listener".
Definition FilterAspectRoute : string := "Route".

Section generator.
Context {SC : StatusConditions} {LS : LabelSelectors} {G : Globs} {MR : MapRange} {SS : SliceSort} {FH : FilterHash}.
Context (client : Cache) (gateway : Gateway) (flags : FeatureFlags).
Context (catalog : option Catalog.MeshCatalog) (decodeMeta : K8sService → string → MicroSvcMeta) (useEndpointSlices : bool).
Context (resolveFilterConfig : string → option LocalObjectReference → string).
Context (newHealthCheckConfig : option string → option string).

Definition filterKey (parent : ObjectMeta) (filter : V2Filter) (index : string) : string :=
  hashString (nn_String (ObjectKey parent) +:+ "-" +:+ hashFilter filter +:+ "-" +:+ index).

Definition withKey (parent : ObjectMeta) (index : string) (f : V2Filter) : V2Filter :=
  mkV2Filter (v2f_Type f) (v2f_Mirror f) (v2f_Body f) (v2f_Config f) (v2f_Priority f) (filterKey parent f index).

Definition genServicePortName (route : Route) (backendRef : BackendObjectReference) : go (option ServicePortName) :=
  '(_, svcPort) ← BackendRefToServicePortName client (rt_GVK route) (om_Namespace (rt_Meta route)) backendRef
                    (λ _ st, st) tt;
  Ret svcPort.

Definition genBackend (svcPort : ServicePortName) (c : Generator) : go (Generator * option Backend) :=
  '(backends, bk) ← toFGWBackend client catalog decodeMeta useEndpointSlices svcPort (g_backends c);
  Ret (set_backends backends c, bk).

(** *** Filters (filters.go, httproute.go, grpcroute.go, tcproute.go, udproute.go) *)

Definition resolveFilterDefinition (filterType filterScope : string) (ref : option LocalObjectReference)
    : option FilterDefinition :=
  ref ← ref;
  match GetFilterDefinition client (lor_Name ref) with
  | inl _ => None
  | inr definition =>
      if bool_decide (filterType ≠ fd_Type definition) then None
      else if bool_decide (filterScope ≠ default FilterScopeRoute (fd_Scope definition)) then None
      else Some definition
  end.

(** The script of a type is kept once per protocol. *)
Definition addScript (protocol filterType script : string) (c : Generator) : Generator :=
  let scripts := default ∅ (g_filters c !! protocol) in
  match scripts !! filterType with
  | Some _ => set_filters (<[protocol := scripts]> (g_filters c)) c
  | None => set_filters (<[protocol := <[filterType := script]> scripts]> (g_filters c)) c
  end.

(** The end of the loops over filters; [only] is the protocol of the route. *)
Definition registerDefinition (definition : option FilterDefinition) (only : option string) (filterType : string)
    (c : Generator) : Generator :=
  match definition with
  | None => c
  | Some d =>
      let protocol := default FilterProtocolHTTP (fd_Protocol d) in
      match only with
      | Some p => if bool_decide (protocol ≠ p) then c else addScript protocol filterType (fd_Script d) c
      | None => addScript protocol filterType (fd_Script d) c
      end
  end.

Definition routeFilterStep (route : Route) (idx : string) (st : Generator * list V2Filter) (fi : RouteFilter * nat)
    : go (Generator * list V2Filter) :=
  let '(c, filters) := st in
  let '(f, i) := fi in
  let key := idx +:+ "-" +:+ pretty (Z.of_nat i) in
  if bool_decide (rf_Type f = FilterRequestMirror) then
    mirror ← deref (rf_RequestMirror f);
    svcPort ← genServicePortName route mirror;
    match svcPort with
    | None => Ret (c, filters)
    | Some svcPort =>
        '(c, bk) ← genBackend svcPort c;
        match bk with
        | None => Ret (c, filters)
        | Some _ =>
            Ret (c, filters ++ [withKey (rt_Meta route) key
                                  (mkV2Filter (rf_Type f) (Some (spn_String svcPort)) (rf_Body f) None None "")])
        end
    end
  else if bool_decide (rf_Type f = FilterExtensionRef) then
    ref ← deref (rf_ExtensionRef f);
    match GetFilter client (mkNN (om_Namespace (rt_Meta route)) (lor_Name ref)) with
    | inl _ => Ret (c, filters)
    | inr filter =>
        let f2 := mkV2Filter (f_Type filter) None "" (Some (resolveFilterConfig (om_Namespace (f_Meta filter)) (f_ConfigRef filter)))
                    None "" in
        let definition := resolveFilterDefinition (f_Type filter) FilterScopeRoute (f_DefinitionRef filter) in
        Ret (registerDefinition definition (Some FilterProtocolHTTP) (f_Type filter) c,
             filters ++ [withKey (rt_Meta route) key f2])
    end
  else Ret (c, filters ++ [withKey (rt_Meta route) key (mkV2Filter (rf_Type f) None (rf_Body f) None None "")]).

Definition toV2HTTPRouteFilters (route : Route) (idx : string) (routeFilters : list RouteFilter) (c : Generator)
    : go (Generator * list V2Filter) :=
  gofold (routeFilterStep route idx) (c, []) (zip routeFilters (seq 0 (length routeFilters))).

(** The same body. *)
Definition toV2GRPCRouteFilters := toV2HTTPRouteFilters.

Definition nonHTTPFilterStep (protocol : string) (route : Route) (ruleIndex : nat) (st : Generator * list V2Filter)
    (fi : LocalFilterReference * nat) : Generator * list V2Filter :=
  let '(c, filters) := st in
  let '(filterRef, i) := fi in
  match GetFilter client (mkNN (om_Namespace (rt_Meta route)) (lfr_Name filterRef)) with
  | inl _ => (c, filters)
  | inr filter =>
      let f2 := mkV2Filter (f_Type filter) None "" (Some (resolveFilterConfig (om_Namespace (f_Meta filter)) (f_ConfigRef filter)))
                  (Some (default 100 (lfr_Priority filterRef))) "" in
      let key := pretty (Z.of_nat ruleIndex) +:+ "-" +:+ pretty (Z.of_nat i) in
      let definition := resolveFilterDefinition (f_Type filter) FilterScopeRoute (f_DefinitionRef filter) in
      (registerDefinition definition (Some protocol) (f_Type filter) c, filters ++ [withKey (rt_Meta route) key f2])
  end.

Definition toV2TCPRouteFilters (route : Route) (ruleIndex : nat) (filterRefs : list LocalFilterReference) (c : Generator)
    : Generator * list V2Filter :=
  let sorted := SortFilterRefs filterRefs in
  foldl (nonHTTPFilterStep FilterProtocolTCP route ruleIndex) (c, []) (zip sorted (seq 0 (length sorted))).

Definition toV2UDPRouteFilters (route : Route) (ruleIndex : nat) (filterRefs : list LocalFilterReference) (c : Generator)
    : Generator * list V2Filter :=
  let sorted := SortFilterRefs filterRefs in
  foldl (nonHTTPFilterStep FilterProtocolUDP route ruleIndex) (c, []) (zip sorted (seq 0 (length sorted))).

(** *** Policies of backends (backend_tls_policy.go, backend_lb_policy.go,
    health_check_policy.go, route_filter_policy.go) *)

Definition DummyObjectReferenceConditionProvider : ObjectConditionProvider unit :=
  let id := λ st : unit, st in mkObjectProvider id id id id id id id.

Definition caStep (policy : BackendTLSPolicy) (key : string) (c : Generator) (ri : (string * string * string) * nat) : Generator :=
  let '(group, kind, name, i) := ri in
  let caName := "bktls-" +:+ om_Namespace (btp_Meta policy) +:+ "-" +:+ om_Name (btp_Meta policy) +:+ "-" +:+
                pretty (Z.of_nat i) +:+ ".crt" in
  match g_secretFiles c !! caName with
  | Some _ => c
  | None =>
      let ca := (ObjectRefToCACertificate DummyObjectReferenceConditionProvider client BackendTLSPolicyGVK
                   (om_Namespace (btp_Meta policy))
                   (mkObjectRef group kind name (Some (om_Namespace (btp_Meta policy)))) tt).2 in
      if bool_decide (ca = "") then c
      else
        set_secretFiles (<[caName := ca]> (g_secretFiles c))
          (set_tls (alter (λ p, mkV2TLSPolicy (v2t_Meta p) (v2t_TargetRefs p) (v2t_Hostname p) (v2t_CACertificates p ++ [caName]))
                      key (g_backendTLSPolicies c)) c)
  end.

Definition processCACertificates (policy : BackendTLSPolicy) (key : string) (c : Generator) : Generator :=
  foldl (caStep policy key) c (zip (btp_CACertificateRefs policy) (seq 0 (length (btp_CACertificateRefs policy)))).

(** The policy of the map or a new one: the pointer is the key. *)
Definition getOrCreateBackendTLSPolicy (policy : BackendTLSPolicy) (c : Generator) : Generator :=
  let key := nn_String (ObjectKey (btp_Meta policy)) in
  match g_backendTLSPolicies c !! key with
  | Some _ => c
  | None => set_tls (<[key := mkV2TLSPolicy (ObjectKey (btp_Meta policy)) [] (btp_Hostname policy) []]> (g_backendTLSPolicies c)) c
  end.

Definition processBackendTLSPolicy (route : Route) (routeParentRef : ParentReference) (backendRef : BackendObjectReference)
    (svcPort : ServicePortName) (c : Generator) : Generator :=
  let targetRef := mkSectionTarget (mkLocalTarget (default "" (bor_Group backendRef))
                                      (default KubernetesServiceKind (bor_Kind backendRef)) (bor_Name backendRef))
                     (Some (spn_SectionName svcPort)) in
  match FindBackendTLSPolicy client targetRef (om_Namespace (rt_Meta route)) with
  | None => c
  | Some policy =>
      if negb (IsPolicyAcceptedForAncestor routeParentRef (btp_Ancestors policy)) then c
      else
        let key := nn_String (ObjectKey (btp_Meta policy)) in
        let c := getOrCreateBackendTLSPolicy policy c in
        let c := set_tls (alter (λ p, mkV2TLSPolicy (v2t_Meta p) (AddTargetRef (v2t_TargetRefs p) (spn_String svcPort))
                                        (v2t_Hostname p) (v2t_CACertificates p)) key (g_backendTLSPolicies c)) c in
        processCACertificates policy key c
  end.

(** Nil when there is nothing left to configure. *)
Definition getOrCreateBackendLBPolicy (policy : BackendLBPolicy) (rule : RouteRule) (c : Generator) : Generator * bool :=
  let key := nn_String (ObjectKey (blp_Meta policy)) in
  match g_backendLBPolicies c !! key with
  | Some _ => (c, true)
  | None =>
      let session := if bool_decide (is_Some (rr_SessionPersistence rule)) then None else blp_SessionPersistence policy in
      if bool_decide (session = None) && bool_decide (blp_Algorithm policy = None) then (c, false)
      else (set_lb (<[key := mkV2LBPolicy (ObjectKey (blp_Meta policy)) [] session (blp_Algorithm policy)]> (g_backendLBPolicies c)) c, true)
  end.

Definition processBackendLBPolicy (route : Route) (routeParentRef : ParentReference) (rule : RouteRule)
    (backendRef : BackendObjectReference) (svcPort : ServicePortName) (c : Generator) : Generator :=
  let targetRef := mkLocalTarget (default "" (bor_Group backendRef))
                     (default KubernetesServiceKind (bor_Kind backendRef)) (bor_Name backendRef) in
  match FindBackendLBPolicy client targetRef (om_Namespace (rt_Meta route)) with
  | None => c
  | Some policy =>
      if negb (IsPolicyAcceptedForAncestor routeParentRef (blp_Ancestors policy)) then c
      else
        let '(c, created) := getOrCreateBackendLBPolicy policy rule c in
        if negb created then c
        else set_lb (alter (λ p, mkV2LBPolicy (v2l_Meta p) (AddTargetRef (v2l_TargetRefs p) (spn_String svcPort))
                                   (v2l_SessionPersistence p) (v2l_Algorithm p))
                       (nn_String (ObjectKey (blp_Meta policy))) (g_backendLBPolicies c)) c
  end.

Definition AddPort (ports : list PortHealthCheck) (port : PortHealthCheck) : list PortHealthCheck :=
  let port2 := mkPortHealthCheck (phc_Port port) (newHealthCheckConfig (phc_HealthCheck port)) in
  if bool_decide (0 < length ports)%nat then
    (if existsb (λ p, bool_decide (phc_Port p = phc_Port port)) ports then ports else ports ++ [port2])
  else [port2].

Definition processHealthCheckPolicy (route : Route) (routeParentRef : ParentReference)
    (backendRef : BackendObjectReference) (svcPort : ServicePortName) (c : Generator) : Generator :=
  let targetRef := mkPolicyTarget (default "" (bor_Group backendRef))
                     (default KubernetesServiceKind (bor_Kind backendRef)) (bor_Name backendRef) (bor_Namespace backendRef) in
  match FindHealthCheckPolicy client targetRef (om_Namespace (rt_Meta route)) (Some svcPort) with
  | None => c
  | Some (policy, port) =>
      if negb (IsPolicyAcceptedForAncestor routeParentRef (hcp_Ancestors policy)) then c
      else if negb (HasAccessToBackendTargetRef client HealthCheckPolicyGVK (om_Namespace (hcp_Meta policy)) targetRef
                      (λ _ st, st) tt).2 then c
      else
        let key := nn_String (ObjectKey (hcp_Meta policy)) in
        let p := default (mkV2HCPolicy (ObjectKey (hcp_Meta policy)) [] []) (g_healthCheckPolicies c !! key) in
        set_hc (<[key := mkV2HCPolicy (v2h_Meta p) (AddTargetRef (v2h_TargetRefs p) (spn_String svcPort))
                           (AddPort (v2h_Ports p) port)]> (g_healthCheckPolicies c)) c
  end.

(** The processors of a route (policies.go), in their order. *)
Definition backendPolicies (route : Route) (parentRef : ParentReference) (rule : RouteRule)
    (backendRef : BackendObjectReference) (svcPort : ServicePortName) (c : Generator) : Generator :=
  match rt_Kind route with
  | HTTPRoute =>
      processHealthCheckPolicy route parentRef backendRef svcPort
        (processBackendLBPolicy route parentRef rule backendRef svcPort
           (processBackendTLSPolicy route parentRef backendRef svcPort c))
  | GRPCRoute =>
      processBackendLBPolicy route parentRef rule backendRef svcPort
        (processBackendTLSPolicy route parentRef backendRef svcPort c)
  | TCPRoute => processBackendTLSPolicy route parentRef backendRef svcPort c
  | _ => c
  end.

Definition ruleFilterRefs (route : Route) (routeParentRef : ParentReference) (rule : option string) : list LocalFilterReference :=
  match rule with
  | None => []
  | Some rule =>
      match FindRouteRuleFilterPolicy client (mkFilterTarget GroupName (gk_Kind (rt_GVK route)) (om_Name (rt_Meta route)) rule)
              (om_Namespace (rt_Meta route)) with
      | None => []
      | Some policy =>
          if negb (IsPolicyAcceptedForAncestor routeParentRef (rfp_Ancestors policy)) then [] else rfp_FilterRefs policy
      end
  end.

(** *** Routes *)

(** One round of the loops [toV2...BackendRefs]; [filters] converts those of
    HTTP and GRPC backends. *)
Definition backendRefStep (route : Route) (parentRef : ParentReference) (rule : RouteRule)
    (filters : nat → list RouteFilter → Generator → go (Generator * list V2Filter))
    (st : Generator * list V2BackendRef) (bi : BackendRef * nat) : go (Generator * list V2BackendRef) :=
  let '(c, backendRefs) := st in
  let '(bk, i) := bi in
  svcPort ← genServicePortName route (br_Object bk);
  match svcPort with
  | None => Ret (c, backendRefs)
  | Some svcPort =>
      '(c, backend) ← genBackend svcPort c;
      if bool_decide (is_Some backend) || negb (DropRouteRuleIfNoAvailableBackends flags) then
        '(c, fs) ← (if bool_decide (0 < length (br_Filters bk))%nat then filters i (br_Filters bk) c else Ret (c, []));
        let b2 := mkV2BackendRef (spn_String svcPort) (br_Weight bk) fs in
        Ret (backendPolicies route parentRef rule (br_Object bk) svcPort c, backendRefs ++ [b2])
      else Ret (c, backendRefs)
  end.

Definition indexed {A} (l : list A) : list (A * nat) := zip l (seq 0 (length l)).

Definition toV2HTTPBackendRefs (route : Route) (rule : RouteRule) (ruleIndex : nat) (parentRef : ParentReference)
    (c : Generator) : go (Generator * list V2BackendRef) :=
  gofold (backendRefStep route parentRef rule
            (λ i, toV2HTTPRouteFilters route (pretty (Z.of_nat ruleIndex) +:+ "-" +:+ pretty (Z.of_nat i))))
    (c, []) (indexed (rr_BackendRefs rule)).

(** The same body. *)
Definition toV2GRPCBackendRefs := toV2HTTPBackendRefs.

(** Backends of TCP and UDP routes have no filters. *)
Definition noFilters (i : nat) (fs : list RouteFilter) (c : Generator) : go (Generator * list V2Filter) := Ret (c, []).

Definition toV2TCPBackendRefs (route : Route) (rule : RouteRule) (parentRef : ParentReference) (c : Generator)
    : go (Generator * list V2BackendRef) :=
  gofold (backendRefStep route parentRef rule noFilters) (c, []) (indexed (rr_BackendRefs rule)).

Definition toV2UDPBackendRefs := toV2TCPBackendRefs.

Definition toV2HTTPRouteRule (route : Route) (rule : RouteRule) (ruleIndex : nat) (parentRef : ParentReference)
    (c : Generator) : go (Generator * option V2Rule) :=
  '(c, backendRefs) ← toV2HTTPBackendRefs route rule ruleIndex parentRef c;
  if DropRouteRuleIfNoAvailableBackends flags && bool_decide (length backendRefs = 0%nat) then Ret (c, None)
  else
    '(c, filters) ← (if bool_decide (0 < length (rr_Filters rule))%nat
                     then toV2HTTPRouteFilters route (pretty (Z.of_nat ruleIndex)) (rr_Filters rule) c else Ret (c, []));
    Ret (c, Some (mkV2Rule (rr_Name rule) backendRefs filters)).

Definition toV2GRPCRouteRule := toV2HTTPRouteRule.

Definition toV2TCPRouteRule (route : Route) (rule : RouteRule) (ruleIndex : nat) (parentRef : ParentReference)
    (c : Generator) : go (Generator * option V2Rule) :=
  '(c, backendRefs) ← toV2TCPBackendRefs route rule parentRef c;
  if DropRouteRuleIfNoAvailableBackends flags && bool_decide (length backendRefs = 0%nat) then Ret (c, None)
  else
    let filterRefs := ruleFilterRefs route parentRef (rr_Name rule) in
    let '(c, filters) := if bool_decide (0 < length filterRefs)%nat
                         then toV2TCPRouteFilters route ruleIndex filterRefs c else (c, []) in
    Ret (c, Some (mkV2Rule (rr_Name rule) backendRefs filters)).

Definition toV2UDPRouteRule (route : Route) (rule : RouteRule) (ruleIndex : nat) (parentRef : ParentReference)
    (c : Generator) : go (Generator * option V2Rule) :=
  '(c, backendRefs) ← toV2UDPBackendRefs route rule parentRef c;
  if DropRouteRuleIfNoAvailableBackends flags && bool_decide (length backendRefs = 0%nat) then Ret (c, None)
  else
    let filterRefs := ruleFilterRefs route parentRef (rr_Name rule) in
    let '(c, filters) := if bool_decide (0 < length filterRefs)%nat
                         then toV2UDPRouteFilters route ruleIndex filterRefs c else (c, []) in
    Ret (c, Some (mkV2Rule (rr_Name rule) backendRefs filters)).

(** [toV2HTTPRoute], [toV2GRPCRoute], [toV2TCPRoute] and [toV2UDPRoute]: the
    conversion of the rules, and nil when none is left. *)
Definition toV2Route (route : Route) (parentRef : ParentReference) (c : Generator) : go (Generator * option V2Route) :=
  let toRule := match rt_Kind route with
                | HTTPRoute => toV2HTTPRouteRule | GRPCRoute => toV2GRPCRouteRule
                | UDPRoute => toV2UDPRouteRule | _ => toV2TCPRouteRule
                end in
  '(c, rules) ← gofold (λ '(c, rules) '(rule, i),
                   '(c, r2) ← toRule route rule i parentRef c;
                   Ret (c, rules ++ option_list r2)) (c, []) (indexed (rt_Rules route));
  if bool_decide (length rules = 0%nat) then Ret (c, None)
  else Ret (c, Some (mkV2Route (rt_Kind route) (om_Namespace (rt_Meta route)) (om_Name (rt_Meta route))
                       (rt_ParentRefs route) (rt_Hostnames route) rules)).

(** *** TLS routes (tlsroute.go) *)

Definition formatTLSPort (port : option Z) : string := match port with None => "" | Some p => "-" +:+ pretty p end.

Definition tlsBackendName (bk : BackendRef) : string := bor_Name (br_Object bk) +:+ formatTLSPort (bor_Port (br_Object bk)).

Definition toV2TLSBackendRefs (rule : RouteRule) : list V2BackendRef * list Backend :=
  ((λ bk, mkV2BackendRef (tlsBackendName bk) (br_Weight bk) []) <$> rr_BackendRefs rule,
   (λ bk, NewBackend (tlsBackendName bk) (toFGWAppProtocol None)
            [mkTarget (bor_Name (br_Object bk)) (bor_Port (br_Object bk)) None]) <$> rr_BackendRefs rule).

Definition toV2TLSRouteRule (rule : RouteRule) : option (V2Rule * list Backend) :=
  let '(backendRefs, bks) := toV2TLSBackendRefs rule in
  if bool_decide (length backendRefs = 0%nat) then None else Some (mkV2Rule (rr_Name rule) backendRefs [], bks).

Definition toV2TLSRoute (route : Route) : option (V2Route * list Backend) :=
  let rules := rt_Rules route ≫= λ rule, option_list (toV2TLSRouteRule rule) in
  if bool_decide (length rules = 0%nat) then None
  else Some (mkV2Route (rt_Kind route) (om_Namespace (rt_Meta route)) (om_Name (rt_Meta route)) (rt_ParentRefs route)
               (rt_Hostnames route) rules.*1, rules ≫= snd).

(** *** The parent of a route *)

(** Whether a route of the kind can use an allowed listener. *)
Definition usesListener (kind : RouteKind) (hostnames : list string) (l : Listener) : go bool :=
  match kind with
  | HTTPRoute | GRPCRoute =>
      hs ← GetValidHostnames (l_Hostname l) hostnames; Ret (bool_decide (0 < length hs)%nat)
  | TLSRoute =>
      if bool_decide (l_Protocol l ≠ TLSProtocolType) then Ret false
      else match l_TLS l with
           | None => Ret false
           | Some tls =>
               if bool_decide (tls_Mode tls ≠ Some TLSModePassthrough) then Ret false
               else hs ← GetValidHostnames (l_Hostname l) hostnames; Ret (bool_decide (0 < length hs)%nat)
           end
  | TCPRoute =>
      if bool_decide (l_Protocol l = TLSProtocolType) then
        match l_TLS l with
        | None => Ret false
        | Some tls =>
            if bool_decide (tls_Mode tls ≠ Some TLSModeTerminate) then Ret false
            else hs ← GetValidHostnames (l_Hostname l) []; Ret (bool_decide (0 < length hs)%nat)
        end
      else Ret (bool_decide (l_Protocol l = TCPProtocolType))
  | UDPRoute => Ret (bool_decide (l_Protocol l = UDPProtocolType))
  end.

Fixpoint anyListener (kind : RouteKind) (hostnames : list string) (listeners : list GwListener) : go bool :=
  match listeners with
  | [] => Ret false
  | l :: rest => ok ← usesListener kind hostnames l; if ok : bool then Ret true else anyListener kind hostnames rest
  end.

(** [get...RouteParentRefToGateway], for the five kinds. *)
Fixpoint parentRefToGateway (route : Route) (parentRefs : list ParentReference) : go (option ParentReference) :=
  match parentRefs with
  | [] => Ret None
  | parentRef :: rest =>
      if negb (IsRefToGateway parentRef (ObjectKey (gw_Meta gateway))) then parentRefToGateway route rest
      else if negb (IsEffectiveRouteForParent (rt_Parents route) parentRef) then parentRefToGateway route rest
      else
        '(_, allowed) ← GetAllowedListeners client DummyGatewayListenerConditionProvider (rt_GVK route)
                          (om_Namespace (rt_Meta route)) parentRef gateway tt;
        ok ← anyListener (rt_Kind route) (rt_Hostnames route) allowed;
        if ok : bool then Ret (Some parentRef) else parentRefToGateway route rest
  end.

Definition getRouteParentRefToGateway (route : Route) : go (option ParentReference) :=
  parentRefToGateway route (rt_ParentRefs route).

(** [process...Routes] *)
Definition processRoutes (kind : RouteKind) (c : Generator) : go (Generator * list Resource) :=
  match ListRoutes client kind (nn_String (ObjectKey (gw_Meta gateway))) with
  | None => Ret (c, [])
  | Some items =>
      gofold (λ '(c, resources) route,
        parentRef ← getRouteParentRefToGateway route;
        match parentRef with
        | None => Ret (c, resources)
        | Some parentRef =>
            match kind with
            | TLSRoute =>
                match toV2TLSRoute route with
                | None => Ret (c, resources)
                | Some (t2, bks) => Ret (c, resources ++ RouteResource t2 :: (BackendResource <$> bks))
                end
            | _ =>
                '(c, r2) ← toV2Route route parentRef c;
                match r2 with
                | None => Ret (c, resources)
                | Some r2 => Ret (c, resources ++ [RouteResource r2])
                end
            end
        end) (c, []) (SortResources rt_Meta items)
  end.

(** *** The gateway (gateway.go) *)

Definition DummySecretReferenceConditionProvider : SecretConditionProvider unit :=
  let id := λ st : unit, st in mkSecretProvider (λ _ st, Ret st) id id id id.

Definition GatewayGVK : GroupKind := mkGroupKind GroupName GatewayAPIGatewayKind.

(** [corev1.SecretTypeTLS], [corev1.TLSCertKey], [corev1.TLSPrivateKeyKey] *)
Definition SecretTypeTLS : string := "kubernetes.io/tls".
Definition TLSCertKey : string := "tls.crt".
Definition TLSPrivateKeyKey : string := "tls.key".

Definition certName (port : Z) (i : nat) : string := "tls-" +:+ pretty port +:+ "-" +:+ pretty (Z.of_nat i) +:+ ".crt".
Definition keyName (port : Z) (i : nat) : string := "tls-" +:+ pretty port +:+ "-" +:+ pretty (Z.of_nat i) +:+ ".key".

(** The secret of a reference of the gateway, when it is one for TLS. *)
Definition tlsSecret (ref : SecretObjectReference) : go (option Secret) :=
  '(_, secret) ← SecretRefToSecret DummySecretReferenceConditionProvider client GatewayGVK (om_Namespace (gw_Meta gateway)) ref tt;
  Ret (match secret with
       | None => None
       | Some secret => if bool_decide (sec_Type secret ≠ SecretTypeTLS) then None else Some secret
       end).

Definition storePair (cert key : string) (secret : Secret) (c : Generator) : Generator :=
  set_secretFiles (<[key := default "" (sec_Data secret !! TLSPrivateKeyKey)]>
                     (<[cert := default "" (sec_Data secret !! TLSCertKey)]> (g_secretFiles c))) c.

Definition processCertificates (l : Listener) (refs : list SecretObjectReference) (c : Generator)
    : go (Generator * list (string * string)) :=
  gofold (λ '(c, certs) '(ref, i),
    secret ← tlsSecret ref;
    match secret with
    | None => Ret (c, certs)
    | Some secret =>
        let cert := certName (l_Port l) i in let key := keyName (l_Port l) i in
        Ret (storePair cert key secret c, certs ++ [(cert, key)])
    end) (c, []) (indexed refs).

Definition processCACerts (l : Listener) (refs : list ObjectReference) (c : Generator) : Generator * list string :=
  foldl (λ '(c, cas) '(ref, i),
    let ca := (ObjectRefToCACertificate DummyObjectReferenceConditionProvider client GatewayGVK
                 (om_Namespace (gw_Meta gateway)) ref tt).2 in
    if bool_decide (ca = "") then (c, cas)
    else
      let caName := "ca-" +:+ pretty (l_Port l) +:+ "-" +:+ pretty (Z.of_nat i) +:+ ".crt" in
      (set_secretFiles (<[caName := ca]> (g_secretFiles c)) c, cas ++ [caName])) (c, []) (indexed refs).

Definition listenerFilterLess (a b : ListenerFilter) : bool :=
  match lf_Priority a, lf_Priority b with
  | Some p, Some q => if bool_decide (p = q) then String.ltb (lf_Type a) (lf_Type b) else bool_decide (p < q)
  | _, _ => String.ltb (lf_Type a) (lf_Type b)
  end.

(** The aspect is dereferenced for the key. *)
Definition resolveListenerFilters (filters : list ListenerFilter) (l : Listener) (c : Generator)
    : go (Generator * list V2Filter) :=
  gofold (λ '(c, result) '(f, i),
    aspect ← deref (lf_Aspect f);
    let f2 := mkV2Filter (lf_Type f) None "" (Some (resolveFilterConfig (lf_Namespace f) (lf_ConfigRef f))) None "" in
    let key := pretty (l_Port l) +:+ "-" +:+ aspect +:+ "-" +:+ pretty (Z.of_nat i) in
    let definition := resolveFilterDefinition (lf_Type f) FilterScopeListener (lf_DefinitionRef f) in
    Ret (registerDefinition definition None (lf_Type f) c, result ++ [withKey (gw_Meta gateway) key f2]))
    (c, []) (indexed (sort_slice listenerFilterLess filters)).

Definition processListenerFilters (l : Listener) (c : Generator) : go (Generator * (list V2Filter * list V2Filter)) :=
  match ListListenerFilters client (om_Name (gw_Meta gateway) +:+ "/" +:+ pretty (l_Port l)) (om_Namespace (gw_Meta gateway)) with
  | None | Some [] => Ret (c, ([], []))
  | Some items =>
      let ofAspect aspect := List.filter (λ f, bool_decide (default FilterAspectListener (lf_Aspect f) = aspect)) items in
      '(c, filters) ← resolveListenerFilters (ofAspect FilterAspectListener) l c;
      '(c, routeFilters) ← resolveListenerFilters (ofAspect FilterAspectRoute) l c;
      Ret (c, (filters, routeFilters))
  end.

(** One listener of the loop. *)
Definition processListener (l : Listener) (c : Generator) : go (Generator * V2Listener) :=
  '(c, tls) ← match l_TLS l with
              | None => Ret (c, None)
              | Some tls =>
                  if IsTLSListener l then
                    '(c, certs) ← processCertificates l (default [] (tls_CertificateRefs tls)) c;
                    let '(c, cas) := processCACerts l (default [] (tls_FrontendValidation tls)) c in
                    Ret (c, Some (mkV2TLS (tls_Mode tls) certs ((λ _, cas) <$> tls_FrontendValidation tls)))
                  else Ret (c, Some (mkV2TLS (tls_Mode tls) [] ((λ _, []) <$> tls_FrontendValidation tls)))
              end;
  '(c, (filters, routeFilters)) ← processListenerFilters l c;
  Ret (c, mkV2Listener (l_Name l) (l_Hostname l) (l_Port l) (l_Protocol l) tls filters routeFilters).

Definition processGatewayBackendTLS (c : Generator) : go (Generator * option (string * string)) :=
  match gw_BackendTLS gateway with
  | Some (Some ref) =>
      secret ← tlsSecret ref;
      match secret with
      | None => Ret (c, None)
      | Some secret =>
          let base := "gw-bk-tls-" +:+ om_Namespace (gw_Meta gateway) +:+ "-" +:+ om_Name (gw_Meta gateway) in
          Ret (storePair (base +:+ ".crt") (base +:+ ".key") secret c, Some (base +:+ ".crt", base +:+ ".key"))
      end
  | _ => Ret (c, None)
  end.

Definition processListeners (listeners : list GwListener) (c : Generator) : go (Generator * list V2Listener) :=
  gofold (λ '(c, ls) l, '(c, v2l) ← processListener (gl_Listener l) c; Ret (c, ls ++ [v2l])) (c, []) listeners.

Definition processGateway (c : Generator) : go (Generator * Resource) :=
  '(c, listeners) ← processListeners (GetValidListenersForGateway gateway) c;
  '(c, cert) ← processGatewayBackendTLS c;
  Ret (c, GatewayResource (mkV2Gateway (ObjectKey (gw_Meta gateway)) listeners cert)).

(** *** The whole configuration (generator.go) *)

Record ConfigSpec := mkConfigSpec {
  cs_Resources : list Resource; cs_Secrets : gmap string string; cs_Filters : gmap string (gmap string string) }.

Definition processResources (c : Generator) : go (Generator * list Resource) :=
  '(c, gw) ← processGateway c;
  '(c, resources) ← gofold (λ '(c, resources) kind, '(c, rs) ← processRoutes kind c; Ret (c, resources ++ rs))
                      (c, [gw]) [HTTPRoute; GRPCRoute; TLSRoute; TCPRoute; UDPRoute];
  Ret (c, resources ++ (BackendResource <$> (map_range (g_backends c)).*2) ++
          (BackendTLSPolicyResource <$> (map_range (g_backendTLSPolicies c)).*2) ++
          (BackendLBPolicyResource <$> (map_range (g_backendLBPolicies c)).*2) ++
          (HealthCheckPolicyResource <$> (map_range (g_healthCheckPolicies c)).*2)).

(** The version, a hash of the configuration, is left to the caller. *)
Definition Generate : go ConfigSpec :=
  '(c, resources) ← processResources newGenerator;
  Ret (mkConfigSpec resources (g_secretFiles c) (g_filters c)).

End generator.

End GatewayConfig.
