(* ===== verification/GatewayConfigFacts.v ===== *)
(** * Properties of the configuration of a gateway

    Which routes the generator writes and what their backends name, and what
    happens when two service ports share a name or two listeners a port. *)

From S2P Require Import Prelude Core K8sClient Cidr CidrFacts MeshConfig Catalog GatewayApi Gateway GatewayStatus GatewayFacts.
From S2P Require Import GatewayDemo GatewayStatusFacts GatewayBackends GatewayConfig.
Import Core.Core K8sClient.K8sClient Cidr.Cidr MeshConfig.MeshConfig GatewayApi.GatewayApi Gateway.Gateway.
Import GatewayStatus.GatewayStatus GatewayFacts.GatewayFacts GatewayStatusFacts.GatewayStatusFacts.
Import GatewayBackends.GatewayBackends GatewayConfig.GatewayConfig.

Module GatewayConfigFacts.

Lemma elem_of_indexed {A} (l : list A) x i : (x, i) ∈ indexed l → x ∈ l.
Proof. unfold indexed. apply elem_of_zip_l. Qed.

Section generator.
Context {SC : StatusConditions} {LS : LabelSelectors} {G : Globs} {MR : MapRange} {SS : SliceSort} {FH : FilterHash}.
Context (client : Cache) (gateway : Gateway) (flags : FeatureFlags).
Context (catalog : option Catalog.MeshCatalog) (decodeMeta : K8sService → string → MicroSvcMeta) (useEndpointSlices : bool).
Context (resolveFilterConfig : string → option LocalObjectReference → string).
Context (newHealthCheckConfig : option string → option string).

#[local] Abbreviation backendStep :=
  (backendRefStep client flags catalog decodeMeta useEndpointSlices newHealthCheckConfig) (only parsing).

(** ** Backends of a rule *)

(** A reference of the configuration comes from a backend that resolves. *)
Definition fromBackend (route : Route) (bks : list BackendRef) (b : V2BackendRef) : Prop :=
  ∃ bk spn, bk ∈ bks ∧ resolves client (rt_GVK route) (om_Namespace (rt_Meta route)) (br_Object bk) spn ∧
    v2b_Name b = spn_String spn ∧ v2b_Weight b = br_Weight bk.

Lemma backendRefStep_from route p rule fs c refs bk i c' refs' :
  backendStep route p rule fs (c, refs) (bk, i) = Ret (c', refs') →
  ∀ b, b ∈ refs' → b ∈ refs ∨ fromBackend route [bk] b.
Proof.
  unfold backendRefStep, genServicePortName. intros H b Hb.
  apply go_bind_Ret in H as (spn & Hs & H). apply go_bind_Ret in Hs as ([[] spn'] & Hs & [= ->]).
  destruct spn as [spn|]; [|simplify_eq; auto]. apply BackendRefToServicePortName_Some in Hs as [_ Hs].
  apply go_bind_Ret in H as ([c1 backend] & _ & H). destruct (_ || _); [|simplify_eq; auto].
  apply go_bind_Ret in H as ([c2 f2] & _ & H). simplify_eq.
  apply elem_of_app in Hb as [?|?%list_elem_of_singleton]; [auto|subst]. right.
  exists bk, spn. split; [by left|]. done.
Qed.

Lemma backendRefs_from route p rule fs c c' refs :
  gofold (backendStep route p rule fs) (c, []) (indexed (rr_BackendRefs rule)) = Ret (c', refs) →
  ∀ b, b ∈ refs → fromBackend route (rr_BackendRefs rule) b.
Proof.
  intros H. change refs with ((c', refs).2).
  eapply (gofold_inv (λ _ st, ∀ b, b ∈ st.2 → fromBackend route (rr_BackendRefs rule) b)); [| |exact H].
  - by intros b ?%elem_of_nil.
  - intros l1 [bk i] l2 [c1 refs1] [c2 refs2] Hl HP Hstep b Hb.
    destruct (backendRefStep_from _ _ _ _ _ _ _ _ _ _ Hstep b Hb) as [?|(bk' & spn & Hbk & ?)]; [by apply HP|].
    apply list_elem_of_singleton in Hbk as ->. exists bk, spn. split; [|done].
    apply (elem_of_indexed _ _ i). rewrite Hl. set_solver.
Qed.

(** ** Rules and routes *)

Definition ruleFrom (route : Route) (r2 : V2Rule) : Prop :=
  ∃ rule, rule ∈ rt_Rules route ∧ v2r_Name r2 = rr_Name rule ∧
    ∀ b, b ∈ v2r_BackendRefs r2 → fromBackend route (rr_BackendRefs rule) b.

#[local] Abbreviation httpRule :=
  (toV2HTTPRouteRule client flags catalog decodeMeta useEndpointSlices resolveFilterConfig newHealthCheckConfig) (only parsing).
#[local] Abbreviation tcpRule :=
  (toV2TCPRouteRule client flags catalog decodeMeta useEndpointSlices resolveFilterConfig newHealthCheckConfig) (only parsing).
#[local] Abbreviation udpRule :=
  (toV2UDPRouteRule client flags catalog decodeMeta useEndpointSlices resolveFilterConfig newHealthCheckConfig) (only parsing).
#[local] Abbreviation v2route :=
  (toV2Route client flags catalog decodeMeta useEndpointSlices resolveFilterConfig newHealthCheckConfig) (only parsing).
#[local] Abbreviation routes2 :=
  (processRoutes client gateway flags catalog decodeMeta useEndpointSlices resolveFilterConfig newHealthCheckConfig) (only parsing).

Lemma httpRule_from route rule i p c c' r2 :
  rule ∈ rt_Rules route → httpRule route rule i p c = Ret (c', Some r2) → ruleFrom route r2.
Proof.
  intros Hr H. apply go_bind_Ret in H as ([c1 refs] & Hrefs & H). destruct (_ && _); [done|].
  apply go_bind_Ret in H as ([c2 fs] & _ & H). simplify_eq. exists rule. split; [done|]. split; [done|].
  by eapply backendRefs_from.
Qed.

Lemma tcpRule_from route rule i p c c' r2 :
  rule ∈ rt_Rules route → tcpRule route rule i p c = Ret (c', Some r2) → ruleFrom route r2.
Proof.
  intros Hr H. apply go_bind_Ret in H as ([c1 refs] & Hrefs & H). destruct (_ && _); [done|].
  cbv zeta in H. repeat case_match; simplify_eq; (exists rule; split; [done|]; split; [done|]; by eapply backendRefs_from).
Qed.

Lemma udpRule_from route rule i p c c' r2 :
  rule ∈ rt_Rules route → udpRule route rule i p c = Ret (c', Some r2) → ruleFrom route r2.
Proof.
  intros Hr H. apply go_bind_Ret in H as ([c1 refs] & Hrefs & H). destruct (_ && _); [done|].
  cbv zeta in H. repeat case_match; simplify_eq; (exists rule; split; [done|]; split; [done|]; by eapply backendRefs_from).
Qed.

(** The route of the configuration has the key, the parents and the hostnames
    of the route, and its rules come from rules of it. *)
Definition routeFrom (route : Route) (r2 : V2Route) : Prop :=
  v2_Kind r2 = rt_Kind route ∧ v2_Namespace r2 = om_Namespace (rt_Meta route) ∧ v2_Name r2 = om_Name (rt_Meta route) ∧
  v2_ParentRefs r2 = rt_ParentRefs route ∧ v2_Hostnames r2 = rt_Hostnames route ∧
  ∀ rule, rule ∈ v2_Rules r2 → ruleFrom route rule.

Lemma toV2Route_from route p c c' r2 : v2route route p c = Ret (c', Some r2) → routeFrom route r2.
Proof.
  unfold toV2Route. intros H. apply go_bind_Ret in H as ([c1 rules] & Hrules & H).
  assert (∀ r, r ∈ rules → ruleFrom route r) as Hr; [|case_bool_decide; [done|]; simplify_eq; by repeat split].
  change rules with ((c1, rules).2). clear H.
  eapply (gofold_inv (λ _ st, ∀ r, r ∈ st.2 → ruleFrom route r)); [| |exact Hrules]; [by intros r ?%elem_of_nil|].
  intros l1 [rule i] l2 [c2 rs2] [c3 rs3] Hl HP Hstep r. simpl in *.
  apply go_bind_Ret in Hstep as ([c4 o] & Ho & [= <- <-]).
  intros [?|?%elem_of_option]%elem_of_app; [by apply HP|subst].
  assert (rule ∈ rt_Rules route) as Hin by (apply (elem_of_indexed _ _ i); rewrite Hl; set_solver).
  destruct (rt_Kind route);
    [by eapply httpRule_from|by eapply httpRule_from|by eapply tcpRule_from|by eapply tcpRule_from|by eapply udpRule_from].
Qed.

(** ** The parent *)

(** The first of the references to the gateway for which the route is
    effective and that leads to a listener the route can use. *)
Definition attached (route : Route) (ps : list ParentReference) (p : ParentReference) : Prop :=
  p ∈ ps ∧ IsRefToGateway p (ObjectKey (gw_Meta gateway)) = true ∧
  IsEffectiveRouteForParent (rt_Parents route) p = true ∧
  ∃ l, usable client (rt_GVK route) (om_Namespace (rt_Meta route)) p gateway l ∧
       usesListener (rt_Kind route) (rt_Hostnames route) l = Ret true.

Lemma anyListener_true kind hs ls :
  anyListener kind hs ls = Ret true → ∃ l, l ∈ ls ∧ usesListener kind hs (gl_Listener l) = Ret true.
Proof.
  induction ls as [|l ls IH]; simpl; [done|].
  destruct (usesListener kind hs l) as [[]|] eqn:E; simpl; [|intros (l' & ? & ?)%IH; exists l'; split; [by right|done]|done].
  intros _. exists l. split; [by left|done].
Qed.

Lemma parentRefToGateway_attached route ps p :
  parentRefToGateway client gateway route ps = Ret (Some p) → attached route ps p.
Proof.
  induction ps as [|q ps IH]; intros H; simpl in H; [done|].
  assert (attached route ps p → attached route (q :: ps) p) as Hw by (intros (? & ?); split; [by right|done]).
  destruct (IsRefToGateway q _) eqn:Hq; simpl in H; [|auto].
  destruct (IsEffectiveRouteForParent _ q) eqn:He; simpl in H; [|auto].
  apply go_bind_Ret in H as ([[] al] & Hal & H). apply go_bind_Ret in H as (ok & Hok & H).
  destruct ok; [|auto]. simplify_eq. split; [by left|]. split; [done|]. split; [done|].
  apply anyListener_true in Hok as (l & Hl & Hu). exists l. split; [|done].
  apply GetAllowedListeners_spec in Hal as [Hal _]. by apply Hal.
Qed.

Lemma parentRefToGateway_ineffective route ps :
  (∀ p, IsEffectiveRouteForParent (rt_Parents route) p = false) → parentRefToGateway client gateway route ps = Ret None.
Proof. intros H. induction ps as [|q ps IH]; simpl; [done|]. rewrite H. simpl. by destruct (IsRefToGateway _ _). Qed.

(** ** The whole configuration *)

(** A route of the configuration that the cache lists for the gateway. *)
Definition generated (kind : RouteKind) (r2 : V2Route) : Prop :=
  ∃ items route p, ListRoutes client kind (nn_String (ObjectKey (gw_Meta gateway))) = Some items ∧ route ∈ items ∧
    attached route (rt_ParentRefs route) p ∧ routeFrom route r2.

Lemma processRoutes_generated kind c c' rs r2 :
  kind ≠ TLSRoute → routes2 kind c = Ret (c', rs) → RouteResource r2 ∈ rs → generated kind r2.
Proof.
  intros Hk H. unfold processRoutes in H. destruct (ListRoutes _ _ _) as [items|] eqn:Hl.
  2: { simplify_eq. by intros ?%elem_of_nil. }
  change rs with ((c', rs).2). revert r2.
  eapply (gofold_inv (λ _ st, ∀ r2, RouteResource r2 ∈ st.2 → generated kind r2)); [| |exact H];
    [by intros r2 ?%elem_of_nil|].
  intros l1 route l2 [c1 rs1] [c2 rs2] Hsort HP Hstep r2. simpl in *.
  assert (route ∈ items) as Hin.
  { assert (route ∈ SortResources rt_Meta items) as Hr by (rewrite Hsort; set_solver).
    unfold SortResources in Hr. by rewrite sort_slice_perm in Hr. }
  apply go_bind_Ret in Hstep as ([p|] & Hp & Hstep); [|simplify_eq; apply HP].
  assert (('(c, r2) ← v2route route p c1;
          match r2 with None => Ret (c, rs1) | Some r2 => Ret (c, rs1 ++ [RouteResource r2]) end) = Ret (c2, rs2)) as Hv
    by by destruct kind. clear Hstep.
  apply go_bind_Ret in Hv as ([c3 [r3|]] & Hv & [= <- <-]); [|exact (HP r2)].
  intros [?|[= ->]%list_elem_of_singleton]%elem_of_app; [by apply HP|].
  exists items, route, p. split; [done|]. split; [done|].
  split; [by apply parentRefToGateway_attached|by eapply toV2Route_from].
Qed.

#[local] Abbreviation generate :=
  (Generate client gateway flags catalog decodeMeta useEndpointSlices resolveFilterConfig newHealthCheckConfig) (only parsing).

(** Routes come from the loops over the five kinds. *)
Lemma Generate_routes spec r2 :
  generate = Ret spec → RouteResource r2 ∈ cs_Resources spec →
  ∃ kind c c' rs, routes2 kind c = Ret (c', rs) ∧ RouteResource r2 ∈ rs.
Proof.
  intros H Hr. apply go_bind_Ret in H as ([c resources] & H & [= <-]). simpl in Hr.
  apply go_bind_Ret in H as ([c1 gw] & Hg & H). apply go_bind_Ret in H as ([c2 rs] & Hrs & [= <- <-]).
  apply go_bind_Ret in Hg as ([? ?] & _ & Hg). apply go_bind_Ret in Hg as ([? ?] & _ & [= _ <-]).
  rewrite !elem_of_app, !list_elem_of_fmap in Hr. destruct Hr as [Hr|[(?&?&_)|[(?&?&_)|[(?&?&_)|(?&?&_)]]]]; [|done..].
  revert Hr. change rs with ((c2, rs).2).
  eapply (gofold_inv (λ _ st, RouteResource r2 ∈ st.2 → _)); [| |exact Hrs].
  - by intros [?|?%elem_of_nil]%elem_of_cons.
  - intros l1 kind l2 [c3 rs3] [c4 rs4] _ HP Hstep. apply go_bind_Ret in Hstep as ([c5 rs5] & Hk & [= <- <-]).
    intros [?|?]%elem_of_app; [by apply HP|]. by exists kind, c3, c5, rs5.
Qed.

(** The cache lists routes of the kind that is asked for. *)
Definition typed_routes : Prop :=
  ∀ kind key items, ListRoutes client kind key = Some items → ∀ r, r ∈ items → rt_Kind r = kind.

Lemma processRoutes_tls_kind c c' rs r2 :
  typed_routes → routes2 TLSRoute c = Ret (c', rs) → RouteResource r2 ∈ rs → v2_Kind r2 = TLSRoute.
Proof.
  intros Ht H. unfold processRoutes in H. destruct (ListRoutes _ _ _) as [items|] eqn:Hl.
  2: { simplify_eq. by intros ?%elem_of_nil. }
  change rs with ((c', rs).2).
  eapply (gofold_inv (λ _ st, RouteResource r2 ∈ st.2 → v2_Kind r2 = TLSRoute)); [| |exact H]; [by intros ?%elem_of_nil|].
  intros l1 route l2 [c1 rs1] [c2 rs2] Hsort HP Hstep. simpl in *.
  assert (rt_Kind route = TLSRoute) as Hk.
  { eapply Ht; [done|]. rewrite <-(sort_slice_perm (resourceLess rt_Meta)). unfold SortResources in Hsort. rewrite Hsort. set_solver. }
  apply go_bind_Ret in Hstep as ([p|] & Hp & Hstep); [|by simplify_eq].
  unfold toV2TLSRoute in Hstep. case_bool_decide; [by simplify_eq|]. simplify_eq.
  intros [?|[[= ->]|(? & ? & _)%list_elem_of_fmap]%elem_of_cons]%elem_of_app; [by apply HP|done|done].
Qed.

(** C5. What a gateway is configured with: every HTTP, GRPC, TCP or UDP route of
    a generated configuration is a route the cache lists for the gateway, with
    its name, parents and hostnames; it is effective for a reference to the
    gateway that leads to a valid listener which allows its kind and namespace
    and which it can use; and every backend of its rules is the name of a
    service port that a backend reference of that rule resolves to, in the
    namespace of the route or by a reference grant of the other namespace. *)
Theorem generated_routes_sound spec r2 :
  typed_routes → generate = Ret spec → RouteResource r2 ∈ cs_Resources spec → v2_Kind r2 ≠ TLSRoute →
  ∃ items route p, ListRoutes client (v2_Kind r2) (nn_String (ObjectKey (gw_Meta gateway))) = Some items ∧ route ∈ items ∧
    attached route (rt_ParentRefs route) p ∧ routeFrom route r2.
Proof.
  intros Ht Hg Hr Hk. destruct (Generate_routes _ _ Hg Hr) as (kind & c & c' & rs & Hp & Hin).
  destruct (decide (kind = TLSRoute)) as [->|Hkind]; [by apply (processRoutes_tls_kind _ _ _ _ Ht Hp) in Hin|].
  destruct (processRoutes_generated _ _ _ _ _ Hkind Hp Hin) as (items & route & p & Hl & Hroute & Ha & Hf).
  exists items, route, p. rewrite (proj1 Hf), (Ht _ _ _ Hl _ Hroute). done.
Qed.

End generator.

(** ** TLS routes *)

Section tls.
Context `{SCS : StatusConditionsSpec} {LS : LabelSelectors} {G : Globs} {MR : MapRange} {SS : SliceSort} {FH : FilterHash}.
Context {DV : DNSValidation}.

(** C25. TLS routes are never configured: the status of a TLS route never gets
    the condition ResolvedRefs, whatever reconciliations and edits it lives
    through, so it is effective for no parent, and the generator writes no
    route of that kind and no backend for one. *)
Theorem tls_routes_never_configured client gateway flags catalog decodeMeta slices config health c :
  (∀ key items, ListRoutes client TLSRoute key = Some items → ∀ r, r ∈ items → rt_Kind r = TLSRoute ∧ lived r) →
  processRoutes client gateway flags catalog decodeMeta slices config health TLSRoute c = Ret (c, []).
Proof.
  intros Hl. unfold processRoutes. destruct (ListRoutes _ _ _) as [items|] eqn:E; [|done].
  destruct (gofold_total (λ st, st = (c, [])) (λ '(c, resources) route,
    parentRef ← getRouteParentRefToGateway client gateway route;
    match parentRef with
    | None => Ret (c, resources)
    | Some parentRef =>
        match toV2TLSRoute route with
        | None => Ret (c, resources)
        | Some (t2, bks) => Ret (c, resources ++ RouteResource t2 :: (BackendResource <$> bks))
        end
    end) (c, []) (SortResources rt_Meta items)) as (st & -> & ->); [done| |done].
  intros st r Hr ->. unfold SortResources in Hr. rewrite sort_slice_perm in Hr. destruct (Hl _ _ E _ Hr) as [Hk Hlived].
  unfold getRouteParentRefToGateway. rewrite parentRefToGateway_ineffective; [by eexists|].
  intros p. by apply lived_tls_not_effective.
Qed.

End tls.

(** ** Backends *)

Section backends.
Context {MR : MapRange}.
Context (client : Cache) (catalog : option Catalog.MeshCatalog) (decodeMeta : K8sService → string → MicroSvcMeta).
Context (useEndpointSlices : bool).

#[local] Abbreviation backend := (toFGWBackend client catalog decodeMeta useEndpointSlices) (only parsing).

(** C30. Names of backends are ambiguous: a hyphen joins the namespace and the
    name of a service, so the service [y] of the namespace [ns-x] and the
    service [x-y] of the namespace [ns] share the name of a backend; when both
    are used, the second gets the backend of the first, with its endpoints and
    protocol. *)
Theorem backend_names_collide ns x y section section' port proto proto' app app' backends backends' bk :
  let first := mkServicePortName (mkNN (ns +:+ "-" +:+ x) y) section port proto app in
  let second := mkServicePortName (mkNN ns (x +:+ "-" +:+ y)) section' port proto' app' in
  backend first backends = Ret (backends', Some bk) →
  spn_Key first ≠ spn_Key second ∧ backend second backends' = Ret (backends', Some bk).
Proof.
  intros first second H.
  assert (spn_String second = spn_String first) as Hs.
  { unfold spn_String. simpl. by rewrite !str_app_assoc. }
  split.
  - intros [= E _]. apply (f_equal String.length) in E. rewrite !str_length_app in E. simpl in E. lia.
  - unfold toFGWBackend in *. rewrite Hs. destruct (backends !! spn_String first) as [b|] eqn:Hb; [by simplify_eq; rewrite Hb|].
    apply go_bind_Ret in H as (targets & _ & H). case_bool_decide; [done|]. simplify_eq.
    by rewrite lookup_insert_eq.
Qed.

End backends.

(** ** Certificates *)

Lemma certName_keyName port i : certName port i ≠ keyName port i.
Proof. unfold certName, keyName. by intros ?%str_app_inv_head%str_app_inv_head%str_app_inv_head%str_app_inv_head. Qed.

Section certificates.
Context {SC : StatusConditions} {LS : LabelSelectors} {MR : MapRange} {SS : SliceSort} {FH : FilterHash}.
Context (client : Cache) (gateway : Gateway) (resolveFilterConfig : string → option LocalObjectReference → string).

(** A listener that terminates TLS with one certificate. *)
Definition oneCertificate (l : Listener) (secret : Secret) : Prop :=
  IsTLSListener l = true ∧
  ∃ mode ref, l_TLS l = Some (mkGatewayTLS mode (Some [ref]) None) ∧ tlsSecret client gateway ref = Ret (Some secret).

Lemma processListener_certificate l secret c :
  oneCertificate l secret →
  ListListenerFilters client (om_Name (gw_Meta gateway) +:+ "/" +:+ pretty (l_Port l)) (om_Namespace (gw_Meta gateway)) = Some [] →
  ∃ v2l, processListener client gateway resolveFilterConfig l c =
      Ret (storePair (certName (l_Port l) 0) (keyName (l_Port l) 0) secret c, v2l) ∧
    v2tls_Certificates <$> v2ls_TLS v2l = Some [(certName (l_Port l) 0, keyName (l_Port l) 0)].
Proof.
  intros (Ht & mode & ref & Hl & Hs) Hf. unfold processListener. rewrite Hl, Ht. cbn [mbind go_bind default tls_CertificateRefs].
  unfold processCertificates. simpl. rewrite Hs. simpl. unfold processListenerFilters. rewrite Hf. simpl. by eexists.
Qed.

(** C31. Certificates of listeners on one port are mixed up: the names of the
    files have the port and the index of the reference, not the listener, so
    two listeners of a port, which may both be valid when their hostnames
    differ, name the same files, and the files hold the certificate and the key
    of the second. *)
Theorem certificates_of_a_port_collide l1 l2 ks1 ks2 s1 s2 c :
  l_Port l2 = l_Port l1 → oneCertificate l1 s1 → oneCertificate l2 s2 →
  ListListenerFilters client (om_Name (gw_Meta gateway) +:+ "/" +:+ pretty (l_Port l1)) (om_Namespace (gw_Meta gateway)) = Some [] →
  ∃ c' v1 v2, processListeners client gateway resolveFilterConfig [mkGwListener l1 ks1; mkGwListener l2 ks2] c = Ret (c', [v1; v2]) ∧
    v2tls_Certificates <$> v2ls_TLS v1 = Some [(certName (l_Port l1) 0, keyName (l_Port l1) 0)] ∧
    v2tls_Certificates <$> v2ls_TLS v2 = v2tls_Certificates <$> v2ls_TLS v1 ∧
    g_secretFiles c' !! certName (l_Port l1) 0 = Some (default "" (sec_Data s2 !! TLSCertKey)) ∧
    g_secretFiles c' !! keyName (l_Port l1) 0 = Some (default "" (sec_Data s2 !! TLSPrivateKeyKey)).
Proof.
  intros Hp H1 H2 Hf. destruct (processListener_certificate l1 s1 c H1 Hf) as (v1 & E1 & Hv1).
  destruct (processListener_certificate l2 s2 (storePair (certName (l_Port l1) 0) (keyName (l_Port l1) 0) s1 c) H2)
    as (v2 & E2 & Hv2); [by rewrite Hp|].
  rewrite Hp in E2, Hv2. eexists _, v1, v2. unfold processListeners. simpl. rewrite E1. simpl. rewrite E2. simpl.
  split; [done|]. split; [done|]. split; [congruence|]. split; [|apply lookup_insert_eq].
  unfold storePair at 1. cbn [g_secretFiles set_secretFiles].
  rewrite lookup_insert_ne by (apply not_eq_sym, certName_keyName). apply lookup_insert_eq.
Qed.

End certificates.

(** ** Witnesses *)

Import GatewayDemo.GatewayDemo.

#[local] Instance demoHash : FilterHash := {| hashFilter f := v2f_Type f; hashString s := s |}.

Definition demoFlags : FeatureFlags :=
  mkFlags false false false false false false false false false false false false false false false false false true.

(** Routes as the controller leaves them. *)
Definition demoReconciled (r : Route) : Route :=
  match reconcileRoute (demoClient []) r with Ret r' => r' | _ => r end.

Definition demoWeb : Route := demoReconciled (demoRoute HTTPRoute "shop.example.com" "shop" "web" (demoBackend "db" "orders")).
Definition demoTLS : Route := demoReconciled (demoRoute TLSRoute "shop.example.com" "shop" "tls" (demoBackend "db" "orders")).

Definition demoWeb2 : V2Route :=
  mkV2Route HTTPRoute "shop" "web" [demoParent] ["shop.example.com"]
    [mkV2Rule None [mkV2BackendRef "db-orders-80" (Some 1%Z) []] []].

Lemma demo_lists routes kind key items r :
  ListRoutes (demoClient routes) kind key = Some items → r ∈ items → r ∈ routes ∧ rt_Kind r = kind.
Proof. intros [= <-] [Hr H]%elem_of_lfilter. by apply bool_decide_eq_true in H. Qed.

Lemma demo_typed routes : typed_routes (demoClient routes).
Proof. intros kind key items H r Hr. by eapply demo_lists. Qed.

Lemma generated_routes_sound_witness :
  ∃ spec, Generate (demoClient [demoWeb]) demoGateway demoFlags None demoDecode false (λ _ _, "") (λ x, x) = Ret spec ∧
    RouteResource demoWeb2 ∈ cs_Resources spec ∧
    ∃ route p, attached (demoClient [demoWeb]) demoGateway route (rt_ParentRefs route) p ∧
               routeFrom (demoClient [demoWeb]) route demoWeb2.
Proof.
  destruct (Generate (demoClient [demoWeb]) demoGateway demoFlags None demoDecode false (λ _ _, "") (λ x, x))
    as [spec|] eqn:E; [|vm_compute in E; discriminate].
  assert (RouteResource demoWeb2 ∈ cs_Resources spec) as Hin.
  { vm_compute in E. injection E as <-. right. left. }
  exists spec. split; [reflexivity|]. split; [exact Hin|].
  destruct (generated_routes_sound (demoClient [demoWeb]) demoGateway demoFlags None demoDecode false (λ _ _, "") (λ x, x)
    spec demoWeb2 (demo_typed _) E Hin) as (items & route & p & _ & _ & Ha & Hf); [discriminate|].
  exists route, p. split; [exact Ha|exact Hf].
Defined.

Lemma demo_tls_lived : lived demoTLS.
Proof.
  apply (lived_reconciled (demoClient []) (demoRoute TLSRoute "shop.example.com" "shop" "tls" (demoBackend "db" "orders")));
    [apply lived_created|]. vm_compute. reflexivity.
Qed.

Lemma tls_routes_never_configured_witness :
  processRoutes (demoClient [demoTLS]) demoGateway demoFlags None demoDecode false (λ _ _, "") (λ x, x) TLSRoute newGenerator =
  Ret (newGenerator, []).
Proof.
  apply tls_routes_never_configured. intros key items H r Hr. destruct (demo_lists _ _ _ _ _ H Hr) as [Hin Hk].
  split; [exact Hk|]. apply list_elem_of_singleton in Hin as ->. apply demo_tls_lived.
Defined.

Definition demoClash : Cache :=
  demoCache [] [demoService "a-b" "c"; demoService "a" "b-c"] []
    [demoEndpoints "a-b" "c" "10.0.0.1"; demoEndpoints "a" "b-c" "10.0.0.2"] [] [].

Lemma demo_clash_first :
  ∃ table bk, toFGWBackend demoClash None demoDecode false (demoPort "a-b" "c") ∅ = Ret (table, Some bk) ∧
    bk_Targets bk = [mkTarget "10.0.0.1" (Some 8080%Z) (Some 1%Z)].
Proof.
  set (bk := mkBackend "a-b-c-80" None [mkTarget "10.0.0.1" (Some 8080%Z) (Some 1%Z)]).
  exists {["a-b-c-80" := bk]}, bk. split; [|reflexivity]. vm_compute. reflexivity.
Qed.

Lemma backend_names_collide_witness :
  ∃ table bk, toFGWBackend demoClash None demoDecode false (demoPort "a-b" "c") ∅ = Ret (table, Some bk) ∧
    bk_Targets bk = [mkTarget "10.0.0.1" (Some 8080%Z) (Some 1%Z)] ∧
    toFGWBackend demoClash None demoDecode false (demoPort "a" "b-c") table = Ret (table, Some bk).
Proof.
  destruct demo_clash_first as (table & bk & E & Ht). exists table, bk. split; [exact E|]. split; [exact Ht|].
  apply (backend_names_collide demoClash None demoDecode false "a" "b" "c" "web" "web" (Some 80%Z) "TCP" "TCP" None None ∅ table bk E).
Defined.

(** Two HTTPS listeners of a port, each with a secret of its own. *)
Definition demoHTTPS (name hostname secret : string) : Listener :=
  mkListener name (Some hostname) 443 HTTPSProtocolType
    (Some (mkGatewayTLS None (Some [mkSecretRef (Some "") (Some "Secret") secret None]) None)) None.

Definition demoSecret (name cert key : string) : Secret :=
  mkSecret (mkMeta "infra" name 0) SecretTypeTLS {[TLSCertKey := cert; TLSPrivateKeyKey := key]}.

Definition demoSecrets : Cache := demoCache [] [] [demoSecret "s1" "cert1" "key1"; demoSecret "s2" "cert2" "key2"] [] [] [].

Lemma certificates_of_a_port_collide_witness :
  ∃ c' v1 v2, processListeners demoSecrets demoGateway (λ _ _, "")
      [mkGwListener (demoHTTPS "a" "a.example.com" "s1") []; mkGwListener (demoHTTPS "b" "b.example.com" "s2") []] newGenerator =
      Ret (c', [v1; v2]) ∧
    v2tls_Certificates <$> v2ls_TLS v1 = Some [("tls-443-0.crt", "tls-443-0.key")] ∧
    g_secretFiles c' !! "tls-443-0.crt" = Some "cert2".
Proof.
  destruct (certificates_of_a_port_collide demoSecrets demoGateway (λ _ _, "") (demoHTTPS "a" "a.example.com" "s1")
    (demoHTTPS "b" "b.example.com" "s2") [] [] (demoSecret "s1" "cert1" "key1") (demoSecret "s2" "cert2" "key2") newGenerator)
    as (c' & v1 & v2 & E & Hv & _ & Hc & _).
  - reflexivity.
  - split; [reflexivity|]. eexists _, _. split; reflexivity.
  - split; [reflexivity|]. eexists _, _. split; reflexivity.
  - reflexivity.
  - exists c', v1, v2. split; [exact E|]. split; [exact Hv|exact Hc].
Defined.

End GatewayConfigFacts.
