(* ===== verification/GatewaySync.v ===== *)
(** * Uploading a gateway's configuration: processor/v2/config.go, pkg/repo

    The repository of codebases is a separate program and an argument: a state
    and what it does and answers to a request.  The client's functions thread
    that state.  The processor keeps, by the path of a gateway, a table of the
    hashes of the files it uploaded; [syncConfigDir] works on the table itself,
    not on a copy, so the table is the model's state and what is left in it
    when the function returns early is part of the result. *)

From S2P Require Import Prelude Core K8sClient GatewayApi Gateway GatewayBackends GatewayConfig.
Import Core.Core K8sClient.K8sClient GatewayApi.GatewayApi GatewayBackends.GatewayBackends GatewayConfig.GatewayConfig.

Module GatewaySync.

#[local] Open Scope Z_scope.

(** ** Requests *)

(** The fields of a Codebase that are read. *)
Record Codebase := mkCodebase { cb_Version : Z; cb_Files : list string }.

Inductive Request :=
  | GetRepo (path : string)
  | PostRepo (path : string) (base : string)
  (* a commit, with the time as the version, or an incremental one *)
  | PatchRepo (path : string) (incremental : bool)
  | GetFileRequest (path : string)
  | PostFile (path content : string)
  | DeleteFile (path : string).

(** No answer, or a status with the codebase and the text of the body. *)
Inductive Response := NoAnswer | Answer (code : Z) (codebase : Codebase) (text : string).

Definition IsSuccess (r : Response) : bool :=
  match r with NoAnswer => false | Answer code _ _ => bool_decide (200 ≤ code ≤ 299) end.

(** [resp.IsError()] *)
Definition IsError (r : Response) : bool :=
  match r with NoAnswer => false | Answer code _ _ => bool_decide (399 < code) end.

(** The repository: its state and its reaction to a request. *)
Class RepoServer (W : Type) : Type := { handle : Request → W → W * Response }.

(** ** pkg/repo/types.go *)

Record BatchItem := mkBatchItem { bi_Path : string; bi_Filename : string; bi_Content : string }.
Record Batch := mkRepoBatch { bt_Basepath : string; bt_Items : list BatchItem; bt_DelItems : list string }.

Definition item_String (item : BatchItem) : string :=
  let path := if HasPrefix (bi_Path item) "/" then bi_Path item else "/" +:+ bi_Path item in
  if bool_decide (path = "/") then "/" +:+ bi_Filename item else path +:+ "/" +:+ bi_Filename item.

(** ** pkg/repo/client.go: errors carry no data that is read *)

Section client.
Context {W : Type} {RS : RepoServer W}.

(** A missing result decodes to the zero codebase. *)
Definition resultOf (r : Response) : Codebase :=
  match r with
  | Answer code codebase _ => if bool_decide (200 ≤ code ≤ 299) then codebase else mkCodebase 0 []
  | NoAnswer => mkCodebase 0 []
  end.

Definition codebaseExists (path : string) (w : W) : W * option Codebase :=
  let '(w, r) := handle (GetRepo path) w in
  (w, match r with Answer code _ _ => if bool_decide (code = 200) then Some (resultOf r) else None | NoAnswer => None end).

Definition CodebaseExists (path : string) (w : W) : W * bool :=
  let '(w, codebase) := codebaseExists path w in (w, bool_decide (is_Some (cb_Version <$> codebase))).

Definition get (path : string) (w : W) : W * option Codebase :=
  let '(w, r) := handle (GetRepo path) w in
  (w, match r with NoAnswer => None | Answer _ _ _ => Some (resultOf r) end).

Definition createCodebase (path : string) (w : W) : W * option Codebase :=
  let '(w, r) := handle (PostRepo path "") w in
  match r with
  | NoAnswer => (w, None)
  | Answer _ _ _ => if IsError r then (w, None) else get path w
  end.

Definition deriveCodebase (path base : string) (w : W) : W * option Codebase :=
  let '(w, exists_) := codebaseExists base w in
  match exists_ with
  | None => (w, None)
  | Some _ =>
      let '(w, r) := handle (PostRepo path base) w in
      match r with
      | NoAnswer => (w, None)
      | Answer code _ _ => if bool_decide (code = 200 ∨ code = 201) then get path w else (w, None)
      end
  end.

Definition GetFile (path : string) (w : W) : W * option string :=
  let '(w, r) := handle (GetFileRequest path) w in
  (w, match r with NoAnswer => None | Answer _ _ text => Some text end).

(** Whether there was no error. *)
Definition upsertFile (path content : string) (w : W) : W * bool :=
  let '(w, r) := handle (PostFile path content) w in (w, IsSuccess r).

Definition deleteFile (path : string) (w : W) : W * bool :=
  let '(w, r) := handle (DeleteFile path) w in (w, IsSuccess r).

Definition commit (path : string) (w : W) : W * bool :=
  let '(w, r) := handle (PatchRepo path false) w in (w, IsSuccess r).

Definition incrementalCommit (path : string) (w : W) : W * bool :=
  let '(w, r) := handle (PatchRepo path true) w in (w, IsSuccess r).

(** The two loops of [batch], which return at the first error. *)
Fixpoint upsertItems (base : string) (items : list BatchItem) (w : W) : W * bool :=
  match items with
  | [] => (w, true)
  | item :: rest =>
      let '(w, ok) := upsertFile (base +:+ item_String item) (bi_Content item) w in
      if negb ok then (w, false) else upsertItems base rest w
  end.

Fixpoint deleteItems (base : string) (files : list string) (w : W) : W * bool :=
  match files with
  | [] => (w, true)
  | file :: rest =>
      let '(w, ok) := deleteFile (base +:+ file) w in
      if negb ok then (w, false) else deleteItems base rest w
  end.

(** One batch of [batch]; its callers pass one. *)
Definition batch (b : Batch) (incremental : bool) (w : W) : W * bool :=
  let '(w, codebase) := codebaseExists (bt_Basepath b) w in
  let '(w, codebase) := match codebase with
                        | Some cb => (w, Some cb)
                        | None => createCodebase (bt_Basepath b) w
                        end in
  match codebase with
  | None => (w, false)
  | Some cb =>
      let '(w, ok) := upsertItems (bt_Basepath b) (bt_Items b) w in
      if negb ok then (w, false)
      else
        let '(w, ok) := deleteItems (bt_Basepath b) (bt_DelItems b) w in
        if negb ok then (w, false)
        else if bool_decide (cb_Version cb = -1) then (w, false)
        else if incremental then incrementalCommit (bt_Basepath b) w else commit (bt_Basepath b) w
  end.

Definition BatchFullUpdate (b : Batch) : W → W * bool := batch b false.
Definition BatchIncrementalUpdate (b : Batch) : W → W * bool := batch b true.

Definition DeriveCodebaseOnly (path base : string) (w : W) : W * bool :=
  let '(w, baseExists) := codebaseExists base w in
  match baseExists with
  | None => (w, false)
  | Some _ =>
      let '(w, exists_) := codebaseExists path w in
      match exists_ with
      | Some _ => (w, true)
      | None => let '(w, result) := deriveCodebase path base w in (w, bool_decide (is_Some (cb_Version <$> result)))
      end
  end.

Definition ListFiles (path : string) (w : W) : W * option (list string) :=
  let '(w, codebase) := get path w in (w, cb_Files <$> codebase).

End client.

(** ** The files of a configuration (config.go) *)

Definition resourceKind (r : Resource) : string :=
  match r with
  | GatewayResource _ => "Gateway" | RouteResource r => kindName (v2_Kind r) | BackendResource _ => "Backend"
  | BackendTLSPolicyResource _ => "BackendTLSPolicy" | BackendLBPolicyResource _ => "BackendLBPolicy"
  | HealthCheckPolicyResource _ => "HealthCheckPolicy"
  end.

Definition resourceKey (r : Resource) : NamespacedName :=
  match r with
  | GatewayResource g => v2g_Meta g | RouteResource r => mkNN (v2_Namespace r) (v2_Name r)
  | BackendResource b => mkNN "" (bk_Name b) | BackendTLSPolicyResource p => v2t_Meta p
  | BackendLBPolicyResource p => v2l_Meta p | HealthCheckPolicyResource p => v2h_Meta p
  end.

Definition resourceName (r : Resource) : string :=
  if bool_decide (nn_Namespace (resourceKey r) = "")
  then resourceKind r +:+ "-" +:+ nn_Name (resourceKey r) +:+ ".yaml"
  else resourceKind r +:+ "-" +:+ nn_Namespace (resourceKey r) +:+ "-" +:+ nn_Name (resourceKey r) +:+ ".yaml".

Definition GatewayCodebasePath (namespace name : string) : string := "/local/gw/" +:+ namespace +:+ "/" +:+ name.
Definition GetDefaultGatewaysPath : string := "/local/gateways".

(** ** The processor *)

(** What other packages compute: the encoding of a resource, the hash of a
    text, which is a [uint64] in hexadecimal and may collide, the field
    "version" of a JSON text. *)
Record Encoders := mkEncoders {
  toYAML : Resource → string; SimpleHash : string → string; gjsonVersion : string → string }.

Section processor.
Context {W : Type} {RS : RepoServer W} {MR : MapRange} (enc : Encoders).

Definition configItems (config : ConfigSpec) : list BatchItem :=
  ((λ r, mkBatchItem "/config/resources" (ToLower (resourceName r)) (toYAML enc r)) <$> cs_Resources config) ++
  ((λ '(name, secret), mkBatchItem "/config/secrets" name secret) <$> map_range (cs_Secrets config)) ++
  (map_range (cs_Filters config) ≫= λ '(protocol, filters),
     (λ '(filterType, script), mkBatchItem ("/config/filters/" +:+ ToLower protocol) (filterType +:+ ".js") script)
       <$> map_range filters).

Definition dquote : string := String (ascii_of_nat 34) EmptyString.

Definition versionItem (version : string) : BatchItem :=
  mkBatchItem "/config" "version.json"
    ("{" +:+ dquote +:+ "version" +:+ dquote +:+ ": " +:+ dquote +:+ version +:+ dquote +:+ "}").

(** The closure: the items of the batch and the table. *)
Definition upsertItem (st : list BatchItem * gmap string string) (item : BatchItem) : list BatchItem * gmap string string :=
  let '(items, filesHash) := st in
  let newHash := SimpleHash enc (bi_Content item) in
  if bool_decide (filesHash !! item_String item = Some newHash) then (items, filesHash)
  else (items ++ [item], <[item_String item := newHash]> filesHash).

Definition checkGatewayCodebase (gatewayPath : string) (w : W) : W * bool :=
  let '(w, exists_) := CodebaseExists gatewayPath w in
  if exists_ : bool then (w, true) else DeriveCodebaseOnly gatewayPath GetDefaultGatewaysPath w.

Definition getVersion (basepath file : string) (w : W) : W * option string :=
  let '(w, json) := GetFile (basepath +:+ "/" +:+ file) w in (w, gjsonVersion enc <$> json).

(** The order of the set is left out: files are deleted in some order. *)
Definition getDelItems (gatewayPath : string) (existFiles : list string) (w : W) : W * option (list string) :=
  let '(w, files) := ListFiles gatewayPath w in
  (w, (λ fs, (map_range (foldl (λ s f, delete f s) (list_to_map ((λ f, (f, tt)) <$> fs) : gmap string unit) existFiles)).*1)
        <$> files).

(** What is left in the processor's tables when the function returns before
    its end: the table was changed in place if it was there. *)
Definition leaveHashes (gatewayPath : string) (found : bool) (filesHash : gmap string string)
    (hashes : gmap string (gmap string string)) : gmap string (gmap string string) :=
  if found then <[gatewayPath := filesHash]> hashes else hashes.

(** The tables, and whether the update was made.  The batch always has the
    version, so that it is never empty. *)
Definition syncConfigDir (gateway : Gateway) (version : string) (config : ConfigSpec)
    (hashes : gmap string (gmap string string)) (w : W) : W * gmap string (gmap string string) * bool :=
  let gatewayPath := GatewayCodebasePath (om_Namespace (gw_Meta gateway)) (om_Name (gw_Meta gateway)) in
  let '(w, ok) := checkGatewayCodebase gatewayPath w in
  if negb ok then (w, hashes, false)
  else
    let '(w, jsonVersion) := getVersion gatewayPath "config/version.json" w in
    match jsonVersion with
    | None => (w, hashes, false)
    | Some jsonVersion =>
        if bool_decide (jsonVersion = version) then (w, hashes, false)
        else
          let found := bool_decide (is_Some (hashes !! gatewayPath)) in
          let filesHash := <[item_String (versionItem version) := version]> (default ∅ (hashes !! gatewayPath)) in
          let '(items, filesHash) := foldl upsertItem ([versionItem version], filesHash) (configItems config) in
          let existFiles := item_String (versionItem version) :: (item_String <$> configItems config) in
          let '(w, delItems) := getDelItems gatewayPath existFiles w in
          match delItems with
          | None => (w, leaveHashes gatewayPath found filesHash hashes, false)
          | Some delItems =>
              let b := mkRepoBatch gatewayPath items delItems in
              let '(w, ok) := if bool_decide (jsonVersion = "") then BatchFullUpdate b w else BatchIncrementalUpdate b w in
              if negb ok then (w, leaveHashes gatewayPath found filesHash hashes, false)
              else (w, <[gatewayPath := foldl (λ m f, delete f m) filesHash delItems]> hashes, true)
          end
    end.

End processor.

End GatewaySync.
