(* ===== verification/GatewaySyncFacts.v ===== *)
(** * Properties of the upload of a gateway's configuration

    A successful upload leaves exactly the files of the configuration, as long
    as the table of hashes describes the repository; a failed one breaks that,
    and the changes it did not make are not made later. *)

From S2P Require Import Prelude Core K8sClient Cidr GatewayApi Gateway GatewayBackends GatewayConfig GatewaySync GatewayDemo.
Import Core.Core K8sClient.K8sClient GatewayApi.GatewayApi GatewayConfig.GatewayConfig GatewaySync.GatewaySync.

Module GatewaySyncFacts.

(** The codebase at a path: its files as committed, and with the changes that
    were uploaded since, both by their names, which begin with a slash.  A
    successful upload or removal changes the second, a commit makes it the
    first; a codebase that is created has no files of its own; and the list of
    a codebase has the committed files. *)
Class CodebaseLaws {W : Type} (RS : RepoServer W) (path : string) (committed current : W → gmap string string) : Prop := {
  handle_post : ∀ f c w w' r, HasPrefix f "/" = true → handle (PostFile (path +:+ f) c) w = (w', r) → IsSuccess r = true →
    committed w' = committed w ∧ current w' = <[f := c]> (current w);
  handle_delete : ∀ f w w' r, HasPrefix f "/" = true → handle (DeleteFile (path +:+ f)) w = (w', r) → IsSuccess r = true →
    committed w' = committed w ∧ current w' = delete f (current w);
  handle_commit : ∀ inc w w' r, handle (PatchRepo path inc) w = (w', r) → IsSuccess r = true →
    committed w' = current w ∧ current w' = current w;
  handle_other : ∀ q w, match q with
    | GetRepo _ | GetFileRequest _ | PostRepo _ _ =>
        committed (handle q w).1 = committed w ∧ current (handle q w).1 = current w
    | _ => True
    end;
  handle_list : ∀ w w' code cb text, handle (GetRepo path) w = (w', Answer code cb text) → IsSuccess (Answer code cb text) = true →
    ∀ f, f ∈ cb_Files cb ↔ is_Some (committed w !! f);
  committed_slash : ∀ w f, is_Some (committed w !! f) → HasPrefix f "/" = true
}.

(** ** Tables *)

Lemma lfilter_nil {A} (p : A → bool) l : (∀ x, x ∈ l → p x = false) → List.filter p l = [].
Proof.
  induction l as [|x l IH]; intros H; simpl; [done|]. rewrite (H x) by left. apply IH. intros y ?. apply H. by right.
Qed.

Lemma NoDup_fmap_eq {A} (key : A → string) (l : list A) x y :
  NoDup (key <$> l) → x ∈ l → y ∈ l → key x = key y → x = y.
Proof.
  induction l as [|z l IH]; [by intros _ ?%elem_of_nil|]. rewrite fmap_cons. intros [Hz Hd]%NoDup_cons.
  intros [->|Hx]%elem_of_cons [->|Hy]%elem_of_cons E; [done| | |by apply IH].
  - exfalso. apply Hz. rewrite E. apply list_elem_of_fmap. eauto.
  - exfalso. apply Hz. rewrite <-E. apply list_elem_of_fmap. eauto.
Qed.

Lemma foldl_insert_notin {A} (key : A → string) (val : A → string) l (m : gmap string string) k :
  k ∉ key <$> l → foldl (λ m x, <[key x := val x]> m) m l !! k = m !! k.
Proof.
  revert m. induction l as [|x l IH]; intros m; simpl; [done|].
  rewrite not_elem_of_cons. intros [Hk Hl]. by rewrite IH, lookup_insert_ne.
Qed.

Lemma foldl_insert_in {A} (key : A → string) (val : A → string) l (m : gmap string string) x :
  NoDup (key <$> l) → x ∈ l → foldl (λ m x, <[key x := val x]> m) m l !! key x = Some (val x).
Proof.
  revert m. induction l as [|y l IH]; intros m; simpl; [by intros _ ?%elem_of_nil|].
  intros [Hy Hl]%NoDup_cons [->|Hx]%elem_of_cons; [|by apply IH]. by rewrite foldl_insert_notin, lookup_insert_eq.
Qed.

Lemma foldl_delete_lookup {V} (g : string → string) l (m : gmap string V) k :
  foldl (λ m f, delete (g f) m) m l !! k = if bool_decide (k ∈ g <$> l) then None else m !! k.
Proof.
  revert m. induction l as [|f l IH]; intros m; simpl; [done|]. rewrite IH.
  destruct (decide (k = g f)) as [->|Hk].
  - rewrite lookup_delete_eq, (bool_decide_true (g f ∈ g f :: _)) by left. by case_bool_decide.
  - rewrite lookup_delete_ne by done.
    case_bool_decide as H1; case_bool_decide as H2; [done|exfalso; apply H2; by right| |done].
    by apply elem_of_cons in H2 as [?|?].
Qed.

Definition gatewayPath (gw : Gateway) : string := GatewayCodebasePath (om_Namespace (gw_Meta gw)) (om_Name (gw_Meta gw)).

Lemma HasPrefix_slash s : HasPrefix (String "/" s) "/" = true.
Proof. apply bool_decide_eq_true. simpl. by destruct s. Qed.

Lemma item_String_slash it : HasPrefix (item_String it) "/" = true.
Proof.
  unfold item_String. case_bool_decide as E; [apply HasPrefix_slash|].
  destruct (HasPrefix (bi_Path it) "/") eqn:Hp; [|apply HasPrefix_slash].
  destruct (bi_Path it) as [|c s]; [done|]. unfold HasPrefix in Hp. apply bool_decide_eq_true in Hp.
  simpl in Hp. injection Hp as ->. apply HasPrefix_slash.
Qed.

Section sync.
Context {W : Type} {RS : RepoServer W} (gw : Gateway) (committed current : W → gmap string string).
Context {SP : CodebaseLaws RS (gatewayPath gw) committed current} {MR : MapRange} (enc : Encoders).

Let path := gatewayPath gw.

(** Nothing changed in the codebase. *)
Definition sameFiles (w w' : W) : Prop := committed w' = committed w ∧ current w' = current w.

#[local] Instance sameFiles_trans : Transitive sameFiles.
Proof. unfold sameFiles. intros ??? [??] [??]. split; congruence. Qed.

Definition upserted (items : list BatchItem) (m : gmap string string) : gmap string string :=
  foldl (λ m it, <[item_String it := bi_Content it]> m) m items.

Definition deleted (fs : list string) (m : gmap string string) : gmap string string := foldl (λ m f, delete f m) m fs.

(** ** The client *)

Lemma files_handle q w w' r :
  match q with GetRepo _ | GetFileRequest _ | PostRepo _ _ => True | _ => False end → handle q w = (w', r) → sameFiles w w'.
Proof. intros Hq H. pose proof (handle_other q w) as Ho. rewrite H in Ho. by destruct q. Qed.

#[local] Ltac one_request :=
  match goal with H : context [handle ?q ?w] |- _ =>
    let w' := fresh "w" in let r := fresh "r" in let E := fresh "E" in
    destruct (handle q w) as [w' r] eqn:E; apply files_handle in E; [|done] end.

Lemma codebaseExists_files p w w' o : codebaseExists p w = (w', o) → sameFiles w w'.
Proof. unfold codebaseExists. intros H. one_request. by simplify_eq. Qed.

Lemma get_files p w w' o : get p w = (w', o) → sameFiles w w'.
Proof. unfold get. intros H. one_request. by simplify_eq. Qed.

Lemma createCodebase_files p w w' o : createCodebase p w = (w', o) → sameFiles w w'.
Proof.
  unfold createCodebase. intros H. one_request. destruct r; [by simplify_eq|].
  destruct (IsError _); [by simplify_eq|]. apply get_files in H. by etrans.
Qed.

Lemma deriveCodebase_files p b w w' o : deriveCodebase p b w = (w', o) → sameFiles w w'.
Proof.
  unfold deriveCodebase. intros H. destruct (codebaseExists b w) as [w1 [cb|]] eqn:E1;
    apply codebaseExists_files in E1; [|by simplify_eq].
  one_request. destruct r; [simplify_eq; by etrans|].
  case_bool_decide; [apply get_files in H; etrans; [done|by etrans]|simplify_eq; by etrans].
Qed.

Lemma upsertItems_files items w w' :
  upsertItems path items w = (w', true) → committed w' = committed w ∧ current w' = upserted items (current w).
Proof.
  revert w. induction items as [|it items IH]; simpl; intros w H; [by simplify_eq|].
  unfold upsertFile in H. destruct (handle _ w) as [w1 r] eqn:E. destruct (IsSuccess r) eqn:Hr; [|done].
  destruct (handle_post _ _ _ _ _ (item_String_slash it) E Hr) as [H1 H2]. destruct (IH _ H) as [-> ->]. split; [done|].
  unfold upserted. simpl. by rewrite H2.
Qed.

Lemma deleteItems_files fs w w' : (∀ f, f ∈ fs → HasPrefix f "/" = true) →
  deleteItems path fs w = (w', true) → committed w' = committed w ∧ current w' = deleted fs (current w).
Proof.
  revert w. induction fs as [|f fs IH]; simpl; intros w Hs H; [by simplify_eq|].
  unfold deleteFile in H. destruct (handle _ w) as [w1 r] eqn:E. destruct (IsSuccess r) eqn:Hr; [|done].
  destruct (handle_delete f _ _ _ (Hs f (list_elem_of_here _ _)) E Hr) as [H1 H2].
  destruct (IH w1) as [-> ->]; [intros ? ?; apply Hs; by right|done|]. split; [done|]. unfold deleted. simpl. by rewrite H2.
Qed.

Lemma batch_files items fs inc w w' : (∀ f, f ∈ fs → HasPrefix f "/" = true) →
  batch (mkRepoBatch path items fs) inc w = (w', true) →
  committed w' = deleted fs (upserted items (current w)) ∧ current w' = committed w'.
Proof.
  unfold batch. cbn [bt_Basepath bt_Items bt_DelItems]. intros Hs H.
  destruct (codebaseExists _ w) as [w1 o] eqn:E1. apply codebaseExists_files in E1.
  assert (∃ w2 o2, (match o with Some cb => (w1, Some cb) | None => createCodebase path w1 end) = (w2, o2) ∧
    sameFiles w w2) as (w2 & o2 & E2 & _ & Hw2).
  { destruct o; [by eauto|]. destruct (createCodebase _ w1) as [w2 o2] eqn:E2. apply createCodebase_files in E2. eexists _, _. split; [done|by etrans]. }
  rewrite E2 in H. destruct o2 as [cb|]; [|done].
  destruct (upsertItems _ _ w2) as [w3 []] eqn:E3; simpl in H; [|done]. apply upsertItems_files in E3 as [_ E3].
  destruct (deleteItems _ _ w3) as [w4 []] eqn:E4; simpl in H; [|done]. apply deleteItems_files in E4 as [_ E4]; [|done].
  case_bool_decide; [done|]. rewrite <-Hw2, <-E3, <-E4.
  destruct inc; unfold incrementalCommit, commit in H; destruct (handle _ w4) as [w5 r5] eqn:E5;
    injection H as <- Hr; destruct (handle_commit _ _ _ _ E5 Hr) as [-> ->]; done.
Qed.

(** ** Reading the repository *)

Lemma checkGatewayCodebase_files p w w' ok : checkGatewayCodebase p w = (w', ok) → sameFiles w w'.
Proof.
  unfold checkGatewayCodebase, CodebaseExists, DeriveCodebaseOnly. intros H.
  destruct (codebaseExists p w) as [w1 o1] eqn:E1. apply codebaseExists_files in E1.
  case_bool_decide; [by simplify_eq|]. etrans; [done|].
  destruct (codebaseExists _ w1) as [w2 [cb|]] eqn:E2; apply codebaseExists_files in E2; [|by simplify_eq]. etrans; [done|].
  destruct (codebaseExists p w2) as [w3 [cb3|]] eqn:E3; apply codebaseExists_files in E3; [by simplify_eq|]. etrans; [done|].
  destruct (deriveCodebase _ _ w3) as [w4 o4] eqn:E4. apply deriveCodebase_files in E4. by simplify_eq.
Qed.

Lemma getVersion_files p f w w' v : getVersion enc p f w = (w', v) → sameFiles w w'.
Proof. unfold getVersion, GetFile. intros H. one_request. by simplify_eq. Qed.

Lemma getDelItems_files p existing w w' o : getDelItems p existing w = (w', o) → sameFiles w w'.
Proof.
  unfold getDelItems, ListFiles. destruct (get p w) as [w1 cb] eqn:E. apply get_files in E. intros H. by simplify_eq.
Qed.

Lemma elem_of_remaining (listed existing : list string) f :
  f ∈ (map_range (foldl (λ s f, delete f s) (list_to_map ((λ f, (f, tt)) <$> listed) : gmap string unit) existing)).*1 ↔
  f ∈ listed ∧ f ∉ existing.
Proof.
  rewrite list_elem_of_fmap. transitivity (is_Some (foldl (λ s f, delete f s)
    (list_to_map ((λ f, (f, tt)) <$> listed) : gmap string unit) existing !! f)).
  - split; [intros ([k []] & -> & ?%elem_of_map_range); by eexists|]. intros [[] ?]. exists (f, tt).
    split; [done|]. by apply elem_of_map_range.
  - rewrite (foldl_delete_lookup (λ f, f)), list_fmap_id. case_bool_decide; [split; [by intros []|tauto]|].
    assert (is_Some ((list_to_map ((λ f, (f, tt)) <$> listed) : gmap string unit) !! f) ↔ f ∈ listed) as ->; [|tauto].
    induction listed as [|x l IH]; simpl; [rewrite lookup_empty; split; [by intros []|by intros ?%elem_of_nil]|].
    rewrite lookup_insert_is_Some', IH, elem_of_cons. naive_solver.
Qed.

(** The files to delete are committed ones that are not in the configuration;
    all of them if the repository could list its files. *)
Lemma getDelItems_spec existing w w' fs :
  getDelItems path existing w = (w', Some fs) →
  (∀ f, f ∈ fs → is_Some (committed w !! f) ∧ f ∉ existing) ∧
  (IsSuccess (handle (GetRepo path) w).2 = true → ∀ f, is_Some (committed w !! f) → f ∉ existing → f ∈ fs).
Proof.
  unfold getDelItems, ListFiles, get. destruct (handle (GetRepo path) w) as [w1 r] eqn:E. intros H.
  destruct r as [|code cb text]; [done|]. injection H as <- <-. cbn [snd].
  destruct (IsSuccess (Answer code cb text)) eqn:Hs; unfold resultOf; unfold IsSuccess in Hs; rewrite Hs.
  - split; [intros f; rewrite elem_of_remaining|intros _ f; rewrite elem_of_remaining]; by rewrite (handle_list _ _ _ _ _ E Hs).
  - split; [intros f; rewrite elem_of_remaining; by intros [?%elem_of_nil _]|done].
Qed.

(** ** The batch *)

Definition hashOf (it : BatchItem) : string := SimpleHash enc (bi_Content it).

(** Whether the table has the hash of the item. *)
Definition changed (fh : gmap string string) (it : BatchItem) : bool :=
  negb (bool_decide (fh !! item_String it = Some (hashOf it))).

Lemma upsertItems_fold its items fh :
  NoDup (item_String <$> its) →
  foldl (upsertItem enc) (items, fh) its =
  (items ++ List.filter (changed fh) its, foldl (λ m it, <[item_String it := hashOf it]> m) fh its).
Proof.
  revert items fh. induction its as [|it its IH]; intros items fh Hd; simpl; [by rewrite app_nil_r|].
  apply NoDup_cons in Hd as [Hit Hd]. unfold changed at 1. fold (hashOf it).
  assert (∀ h, List.filter (changed (<[item_String it := h]> fh)) its = List.filter (changed fh) its) as Hother.
  { intros h. apply List.filter_ext_in. intros x Hx. unfold changed. rewrite lookup_insert_ne; [done|].
    intros Eq. apply Hit. rewrite Eq. apply list_elem_of_fmap. exists x. by rewrite list_elem_of_In. }
  case_bool_decide as E; simpl.
  - rewrite IH by done. by rewrite (insert_id fh).
  - rewrite IH by done. by rewrite Hother, <-app_assoc.
Qed.

(** The files of a configuration have distinct names. *)
Definition distinctFiles (version : string) (config : ConfigSpec) : Prop :=
  NoDup (item_String <$> versionItem version :: configItems enc config).

(** The table a run starts with and the one it leaves. *)
Definition startTable (version : string) (hashes : gmap string (gmap string string)) : gmap string string :=
  <[item_String (versionItem version) := version]> (default ∅ (hashes !! path)).
Definition endTable (version : string) (config : ConfigSpec) (hashes : gmap string (gmap string string)) : gmap string string :=
  foldl (λ m it, <[item_String it := hashOf it]> m) (startTable version hashes) (configItems enc config).

(** What a run that updates the repository does. *)
Lemma syncConfigDir_updated version config hashes w w' hashes' :
  distinctFiles version config →
  syncConfigDir enc gw version config hashes w = (w', hashes', true) →
  ∃ w1 fs, sameFiles w w1 ∧
    (∀ f, f ∈ fs → is_Some (committed w !! f) ∧ f ∉ item_String <$> versionItem version :: configItems enc config) ∧
    (IsSuccess (handle (GetRepo path) w1).2 = true →
     ∀ f, is_Some (committed w !! f) → f ∉ item_String <$> versionItem version :: configItems enc config → f ∈ fs) ∧
    committed w' = deleted fs (upserted
      (versionItem version :: List.filter (changed (startTable version hashes)) (configItems enc config)) (current w)) ∧
    current w' = committed w' ∧
    hashes' = <[path := foldl (λ m f, delete f m) (endTable version config hashes) fs]> hashes.
Proof.
  intros Hd. unfold syncConfigDir. change (GatewayCodebasePath _ _) with path. intros H.
  destruct (checkGatewayCodebase path w) as [w1 []] eqn:E1; simpl in H; [|done]. apply checkGatewayCodebase_files in E1.
  destruct (getVersion enc path _ w1) as [w2 [v|]] eqn:E2; [|done]. apply getVersion_files in E2.
  case_bool_decide; [done|].
  apply NoDup_cons in Hd as [_ Hd]. rewrite upsertItems_fold in H by done.
  destruct (getDelItems path _ w2) as [w3 [fs|]] eqn:E3; [|done].
  pose proof (getDelItems_spec _ _ _ _ E3) as [Hfs Hall]. apply getDelItems_files in E3 as [_ E3].
  assert (sameFiles w w2) as [Ec Eu] by by etrans. rewrite Ec in Hfs, Hall.
  assert (∃ inc, batch (mkRepoBatch path (versionItem version :: List.filter (changed (startTable version hashes))
    (configItems enc config)) fs) inc w3 = (w', true) ∧
    hashes' = <[path := foldl (λ m f, delete f m) (endTable version config hashes) fs]> hashes) as (inc & Hb & Hh).
  { unfold BatchFullUpdate, BatchIncrementalUpdate in H.
    destruct (bool_decide (v = "")); (destruct (batch _ _ w3) as [w4 []] eqn:Eb; simpl in H; [|done]);
      injection H as <- <-; eexists; (split; [exact Eb|done]). }
  apply batch_files in Hb as [Hb1 Hb2]; [|intros f [? _]%Hfs; by eapply committed_slash].
  exists w2, fs. rewrite E3, Eu in Hb1. by repeat (split; [done|]).
Qed.

(** The table of a gateway describes committed files of the codebase. *)
Definition agrees (version : string) (hashes : gmap string (gmap string string)) (w : W) : Prop :=
  ∀ fh, hashes !! path = Some fh → ∀ k h, k ≠ item_String (versionItem version) → fh !! k = Some h →
    ∃ content, committed w !! k = Some content ∧ SimpleHash enc content = h.

(** No new content has the hash of another content that is committed under
    its name. *)
Definition noCollision (config : ConfigSpec) (w : W) : Prop := ∀ it content, it ∈ configItems enc config →
  committed w !! item_String it = Some content → SimpleHash enc content = hashOf it → content = bi_Content it.

Lemma deleted_lookup fs m k : deleted fs m !! k = if bool_decide (k ∈ fs) then None else m !! k.
Proof. unfold deleted. by rewrite (foldl_delete_lookup (λ f, f)), list_fmap_id. Qed.

Lemma upserted_notin its m k : k ∉ item_String <$> its → upserted its m !! k = m !! k.
Proof. apply (foldl_insert_notin item_String). Qed.

Lemma upserted_in its m it :
  NoDup (item_String <$> its) → it ∈ its → upserted its m !! item_String it = Some (bi_Content it).
Proof. apply (foldl_insert_in item_String bi_Content). Qed.

(** The items of a batch have distinct names as well. *)
Lemma batch_NoDup fh version config :
  distinctFiles version config →
  NoDup (item_String <$> versionItem version :: List.filter (changed fh) (configItems enc config)).
Proof.
  unfold distinctFiles. rewrite !fmap_cons, !NoDup_cons. intros [Hv Hd]. split.
  - intros (it & E & [Hit _]%elem_of_lfilter)%list_elem_of_fmap. apply Hv. rewrite E. apply list_elem_of_fmap. eauto.
  - clear Hv. induction (configItems enc config) as [|it its IH]; simpl; [constructor|].
    rewrite fmap_cons in Hd. apply NoDup_cons in Hd as [Hit Hd]. destruct (changed fh it); [|by apply IH].
    rewrite fmap_cons. apply NoDup_cons. split; [|by apply IH].
    intros (it' & E & [? _]%elem_of_lfilter)%list_elem_of_fmap. apply Hit. rewrite E. apply list_elem_of_fmap. eauto.
Qed.

(** The version and every file of the configuration are in the codebase after
    an update, when the table agreed with it before and nothing was uploaded
    since. *)
Lemma updated_content version config hashes w it :
  noCollision config w → current w = committed w →
  distinctFiles version config → agrees version hashes w → it ∈ versionItem version :: configItems enc config →
  upserted (versionItem version :: List.filter (changed (startTable version hashes)) (configItems enc config))
    (current w) !! item_String it = Some (bi_Content it).
Proof.
  intros Hinj Hcur Hd Ha Hit. pose proof (batch_NoDup (startTable version hashes) _ _ Hd) as Hb.
  apply NoDup_cons in Hd as [Hv Hd].
  apply elem_of_cons in Hit as [->|Hit]; [apply upserted_in; [done|by left]|].
  assert (item_String it ≠ item_String (versionItem version)) as Hne.
  { intros E. apply Hv. rewrite <-E. apply list_elem_of_fmap. eauto. }
  destruct (changed (startTable version hashes) it) eqn:Hc.
  { apply upserted_in; [done|]. right. by apply elem_of_lfilter. }
  rewrite upserted_notin, Hcur.
  - unfold changed, startTable in Hc. rewrite lookup_insert_ne in Hc by done.
    apply negb_false_iff, bool_decide_eq_true in Hc. destruct (hashes !! path) as [fh|] eqn:E; [|done].
    destruct (Ha fh E _ _ Hne Hc) as (content & Hl & Hh). rewrite Hl. f_equal. by apply Hinj.
  - rewrite fmap_cons, not_elem_of_cons. split; [done|].
    intros (it' & E & [Hit' Hc']%elem_of_lfilter)%list_elem_of_fmap.
    pose proof (NoDup_fmap_eq item_String _ _ _ Hd Hit Hit' E). congruence.
Qed.

(** C10. An update brings the codebase of a gateway to the configuration.  The
    files of the configuration have distinct names, the table of hashes
    describes committed files of the codebase, no change is uploaded and not
    committed, and no content has the hash of a different one committed under
    its name.  Then a run that reports an update has committed the version and
    the files of the configuration, with their contents, and the new table
    describes committed files again.  If the repository also lists the files of
    the codebase when asked, the codebase has no other file. *)
Theorem sync_uploads_configuration version config hashes w w' hashes' :
  distinctFiles version config → agrees version hashes w → current w = committed w → noCollision config w →
  syncConfigDir enc gw version config hashes w = (w', hashes', true) →
  (∀ it, it ∈ versionItem version :: configItems enc config → committed w' !! item_String it = Some (bi_Content it)) ∧
  agrees version hashes' w' ∧ current w' = committed w' ∧
  ((∀ w1, sameFiles w w1 → IsSuccess (handle (GetRepo path) w1).2 = true) →
   ∀ f, is_Some (committed w' !! f) → f ∈ item_String <$> versionItem version :: configItems enc config).
Proof.
  intros Hd Ha Hcur Hinj H.
  destruct (syncConfigDir_updated _ _ _ _ _ _ Hd H) as (w1 & fs & Hw1 & Hfs & Hall & Hfiles & Hc' & ->).
  assert (Hin : ∀ it, it ∈ versionItem version :: configItems enc config → committed w' !! item_String it = Some (bi_Content it)).
  { intros it Hit. rewrite Hfiles, deleted_lookup, bool_decide_false; [by apply updated_content|].
    intros Hf. apply (Hfs _ Hf). apply list_elem_of_fmap. eauto. }
  assert (Hout : ∀ f, f ∉ item_String <$> versionItem version :: configItems enc config →
    committed w' !! f = if bool_decide (f ∈ fs) then None else committed w !! f).
  { intros f Hf. rewrite Hfiles, deleted_lookup, <-Hcur. case_bool_decide as Hdel; [done|]. apply upserted_notin.
    intros [E|(it & -> & [Hit _]%elem_of_lfilter)%list_elem_of_fmap]%elem_of_cons; apply Hf; [rewrite E; by left|].
    right. apply list_elem_of_fmap. eauto. }
  split; [done|]. split; [|split; [done|]].
  - intros fh. rewrite lookup_insert_eq. intros [= <-] k h Hk. rewrite (foldl_delete_lookup (λ f, f)), list_fmap_id.
    case_bool_decide as Hdel; [done|]. unfold endTable.
    apply NoDup_cons in Hd as [_ Hd]. destruct (decide (k ∈ item_String <$> configItems enc config)) as [(it & -> & Hit)%list_elem_of_fmap|Hno].
    + rewrite (foldl_insert_in item_String hashOf) by done. intros [= <-]. exists (bi_Content it). split; [|done].
      apply Hin. by right.
    + rewrite (foldl_insert_notin item_String hashOf) by done. unfold startTable. rewrite lookup_insert_ne by done.
      destruct (hashes !! path) as [fh|] eqn:E; simpl; [|by rewrite lookup_empty]. intros Hh.
      rewrite Hout, bool_decide_false by (done || by rewrite fmap_cons, not_elem_of_cons). by apply (Ha fh E).
  - intros Hlist f Hf. destruct (decide (f ∈ item_String <$> versionItem version :: configItems enc config)) as [|Hno]; [done|].
    rewrite (Hout f Hno) in Hf. case_bool_decide as Hdel; [by destruct Hf|]. destruct Hdel. by apply (Hall (Hlist w1 Hw1)).
Qed.

(** ** A failed update *)

(** A run that changed the table without an update left the new hashes in it. *)
Lemma syncConfigDir_failed version config hashes w w' hashes' :
  distinctFiles version config → syncConfigDir enc gw version config hashes w = (w', hashes', false) → hashes' ≠ hashes →
  hashes' = <[path := endTable version config hashes]> hashes.
Proof.
  intros Hd. unfold syncConfigDir. change (GatewayCodebasePath _ _) with path. intros H Hne.
  destruct (checkGatewayCodebase path w) as [w1 []]; simpl in H; [|by simplify_eq].
  destruct (getVersion enc path _ w1) as [w2 [v|]]; [|by simplify_eq].
  case_bool_decide; [by simplify_eq|]. apply NoDup_cons in Hd as [_ Hd]. rewrite upsertItems_fold in H by done.
  assert (hashes' = leaveHashes path (bool_decide (is_Some (hashes !! path))) (endTable version config hashes) hashes) as ->.
  { destruct (getDelItems path _ w2) as [w3 [fs|]]; [|by injection H as _ <-].
    destruct (if bool_decide (v = "") then _ else _) as [w4 []]; simpl in H; [done|by injection H as _ <-]. }
  unfold leaveHashes in *. by destruct (bool_decide _).
Qed.

(** C24. A failed update is lost: after a run that failed once it had compared
    the files, with the table of the gateway in place, the table already has
    the hashes of the new files; the next run of the same configuration that
    updates the repository commits the new version and uploads none of the
    other files, which are committed as they were found. *)
Theorem failed_update_is_lost version config hashes w w1 hashes1 w1' w2 hashes2 :
  distinctFiles version config →
  syncConfigDir enc gw version config hashes w = (w1, hashes1, false) → hashes1 ≠ hashes →
  syncConfigDir enc gw version config hashes1 w1' = (w2, hashes2, true) →
  committed w2 !! item_String (versionItem version) = Some (bi_Content (versionItem version)) ∧
  ∀ it, it ∈ configItems enc config → committed w2 !! item_String it = current w1' !! item_String it.
Proof.
  intros Hd H1 Hne H2. apply syncConfigDir_failed in H1; [|done..].
  destruct (syncConfigDir_updated _ _ _ _ _ _ Hd H2) as (w3 & fs & _ & Hfs & _ & -> & _ & _).
  assert (∀ it, it ∈ configItems enc config → item_String it ≠ item_String (versionItem version)) as Hv.
  { intros it Hit E. apply NoDup_cons in Hd as [Hv _]. apply Hv. rewrite <-E. apply list_elem_of_fmap. eauto. }
  assert (List.filter (changed (startTable version hashes1)) (configItems enc config) = []) as ->.
  { apply lfilter_nil. intros it Hit. apply not_true_iff_false. intros Hc. unfold changed, startTable in Hc.
    rewrite lookup_insert_ne in Hc by (apply not_eq_sym; by apply Hv). rewrite H1, lookup_insert_eq in Hc. simpl in Hc. unfold endTable in Hc.
    apply NoDup_cons in Hd as [_ Hd]. rewrite (foldl_insert_in item_String hashOf), bool_decide_true in Hc by done. done. }
  split.
  - rewrite deleted_lookup, bool_decide_false by (intros Hf; apply (Hfs _ Hf); by left).
    apply upserted_in; [|by left]. apply NoDup_singleton.
  - intros it Hit. rewrite deleted_lookup, bool_decide_false.
    + apply upserted_notin. rewrite fmap_cons, not_elem_of_cons. split; [by apply Hv|by intros ?%elem_of_nil].
    + intros Hf. apply (Hfs _ Hf). right. apply list_elem_of_fmap. eauto.
Qed.

End sync.

(** ** Witnesses *)

Import GatewayDemo.GatewayDemo(demoGateway).

#[local] Existing Instance trie_range.

(** A repository with the codebase of the gateway, committed and with changes,
    which may be out of service for uploads. *)
Record demoRepo := mkDemoRepo { dr_committed : gmap string string; dr_current : gmap string string; dr_down : bool }.

(** The file of the codebase that a request is for. *)
Definition fileOf (p : string) : option string :=
  let base := gatewayPath demoGateway in
  if bool_decide (str_take (String.length base) p = base) && HasPrefix (str_drop (String.length base) p) "/"
  then Some (str_drop (String.length base) p) else None.

(** The names that begin with a slash. *)
Definition slashed (m : gmap string string) : gmap string string := filter (λ kv, HasPrefix kv.1 "/" = true) m.

#[local] Instance demoServer : RepoServer demoRepo := {|
  handle (q : Request) (w : demoRepo) :=
    let ok codebase text := Answer 200 codebase text in
    let none := mkCodebase 0 [] in
    match q with
    | GetRepo p => (w, ok (mkCodebase 1 (map_to_list (slashed (dr_committed w))).*1) "")
    | GetFileRequest p => (w, ok none (default "" (fileOf p ≫= λ f, dr_committed w !! f)))
    | PostFile p c => match fileOf p with
                      | Some f => if dr_down w then (w, NoAnswer) else (mkDemoRepo (dr_committed w) (<[f := c]> (dr_current w)) false, ok none "")
                      | None => (w, ok none "")
                      end
    | DeleteFile p => match fileOf p with
                      | Some f => (mkDemoRepo (dr_committed w) (delete f (dr_current w)) (dr_down w), ok none "")
                      | None => (w, ok none "")
                      end
    | PatchRepo p _ => (mkDemoRepo (if bool_decide (p = gatewayPath demoGateway) then dr_current w else dr_committed w) (dr_current w) (dr_down w), ok none "")
    | PostRepo _ _ => (w, ok none "")
    end |}.

Lemma fileOf_app f : HasPrefix f "/" = true → fileOf (gatewayPath demoGateway +:+ f) = Some f.
Proof. intros Hf. unfold fileOf. by rewrite str_take_app, str_drop_app, bool_decide_true, Hf. Qed.

Lemma lookup_slashed m f c : slashed m !! f = Some c ↔ m !! f = Some c ∧ HasPrefix f "/" = true.
Proof. apply map_lookup_filter_Some. Qed.

#[local] Instance demoServerLaws :
  CodebaseLaws demoServer (gatewayPath demoGateway) (λ w, slashed (dr_committed w)) (λ w, slashed (dr_current w)).
Proof.
  constructor.
  - intros f c [m m' []] w' r Hf; cbn [handle demoServer]; rewrite fileOf_app by done; simpl; [by intros [= <- <-]|].
    intros [= <- <-] _. simpl. split; [done|]. apply map_filter_insert_True. done.
  - intros f [m m' down] w' r Hf; cbn [handle demoServer]; rewrite fileOf_app by done. intros [= <- <-] _. simpl. split; [done|].
    apply map_filter_delete.
  - intros inc w w' r [= <- <-] _. split; reflexivity.
  - by intros [] w.
  - intros w w' code cb text [= <- <- <- <-] _ f. cbn [cb_Files]. rewrite list_elem_of_fmap. split.
    + intros ([k c] & -> & Hk%elem_of_map_to_list). by eexists.
    + intros [c Hc]. exists (f, c). split; [done|]. by apply elem_of_map_to_list.
  - by intros w f [c [_ ?]%lookup_slashed].
Qed.

(** Version 2 of the configuration changes one secret. *)
Definition demoConfig : ConfigSpec := mkConfigSpec [] {["a" := "new"]} ∅.
Definition demoEncoders : Encoders :=
  mkEncoders (λ _, "") (λ s, pretty (Zpos (encode s) mod 2 ^ 64)%Z)
    (λ json, if bool_decide (json = bi_Content (versionItem "2")) then "2" else "1").

Definition demoBefore : gmap string string := <["/config/version.json" := "1"]> {["/config/secrets/a" := "old"]}.
Definition demoRepository (down : bool) : demoRepo := mkDemoRepo demoBefore demoBefore down.
Definition demoTable : gmap string (gmap string string) :=
  {[gatewayPath demoGateway := {["/config/secrets/a" := SimpleHash demoEncoders "old"]}]}.

Lemma demo_distinct : distinctFiles demoEncoders "2" demoConfig.
Proof. apply (bool_decide_unpack _). vm_compute. exact I. Qed.

Lemma demo_before f c : slashed demoBefore !! f = Some c → f = "/config/version.json" ∧ c = "1" ∨ f = "/config/secrets/a" ∧ c = "old".
Proof.
  intros [H _]%lookup_slashed. unfold demoBefore in H. rewrite lookup_insert_Some in H.
  destruct H as [[<- <-]|[_ [<- <-]%lookup_singleton_Some]]; auto.
Qed.

Lemma demo_agrees : agrees demoGateway (λ w, slashed (dr_committed w)) demoEncoders "2" demoTable (demoRepository false).
Proof.
  intros fh. unfold demoTable. rewrite lookup_singleton_eq. intros [= <-] k h _ [<- <-]%lookup_singleton_Some.
  exists "old". split; [|done]. vm_compute. reflexivity.
Qed.

Lemma demo_noCollision : noCollision (λ w, slashed (dr_committed w)) demoEncoders demoConfig (demoRepository false).
Proof.
  intros it content Hit Hc Hh. exfalso. assert (it = mkBatchItem "/config/secrets" "a" "new") as ->.
  { assert (configItems demoEncoders demoConfig = [mkBatchItem "/config/secrets" "a" "new"]) as E by (vm_compute; reflexivity).
    rewrite E in Hit. by apply list_elem_of_singleton in Hit. }
  apply demo_before in Hc as [[? _]|[_ ->]]; [done|]. revert Hh. apply (bool_decide_unpack _). vm_compute. exact I.
Qed.

Lemma demo_answers (w w1 : demoRepo) :
  sameFiles (λ w, slashed (dr_committed w)) (λ w, slashed (dr_current w)) w w1 →
  IsSuccess (handle (GetRepo (gatewayPath demoGateway)) w1).2 = true.
Proof. intros _. apply bool_decide_eq_true. simpl. lia. Qed.

Lemma demo_updated :
  ∃ w hashes, syncConfigDir demoEncoders demoGateway "2" demoConfig demoTable (demoRepository false) = (w, hashes, true).
Proof.
  assert ((syncConfigDir demoEncoders demoGateway "2" demoConfig demoTable (demoRepository false)).2 = true) as H
    by (vm_compute; reflexivity).
  destruct (syncConfigDir _ _ _ _ _ _) as [[w hashes] ok]. simpl in H. subst. eauto.
Qed.

Lemma sync_uploads_configuration_witness :
  ∃ w hashes, syncConfigDir demoEncoders demoGateway "2" demoConfig demoTable (demoRepository false) = (w, hashes, true) ∧
    slashed (dr_committed w) !! "/config/secrets/a" = Some "new" ∧
    ∀ f, is_Some (slashed (dr_committed w) !! f) → f ∈ ["/config/version.json"; "/config/secrets/a"].
Proof.
  destruct demo_updated as (w & hashes & E). exists w, hashes. split; [exact E|].
  destruct (sync_uploads_configuration demoGateway (λ w, slashed (dr_committed w)) (λ w, slashed (dr_current w)) demoEncoders
    "2" demoConfig demoTable (demoRepository false) w hashes demo_distinct demo_agrees eq_refl demo_noCollision E)
    as (H & _ & _ & Hall).
  split; [exact (H (mkBatchItem "/config/secrets" "a" "new") (list_elem_of_further _ _ _ (list_elem_of_here _ _)))|].
  exact (Hall (demo_answers _)).
Defined.

(** Uploads fail, the repository recovers, and the next run updates it. *)
Lemma demo_lost :
  ∃ w1 hashes w2 hashes2,
    syncConfigDir demoEncoders demoGateway "2" demoConfig demoTable (demoRepository true) = (w1, hashes, false) ∧
    hashes ≠ demoTable ∧
    syncConfigDir demoEncoders demoGateway "2" demoConfig hashes (demoRepository false) = (w2, hashes2, true).
Proof.
  set (first := syncConfigDir demoEncoders demoGateway "2" demoConfig demoTable (demoRepository true)).
  assert (first.2 = false) as H1 by (vm_compute; reflexivity).
  assert ((first.1.2 !! gatewayPath demoGateway ≫= lookup "/config/secrets/a") ≠
    (demoTable !! gatewayPath demoGateway ≫= lookup "/config/secrets/a")) as Hn
    by (apply (bool_decide_unpack _); vm_compute; exact I).
  assert ((syncConfigDir demoEncoders demoGateway "2" demoConfig first.1.2 (demoRepository false)).2 = true) as H2
    by (vm_compute; reflexivity).
  destruct first as [[w1 hashes] ok] eqn:E. simpl in *. subst ok.
  destruct (syncConfigDir _ _ _ _ hashes _) as [[w2 hashes2] ok] eqn:E2. simpl in H2. subst ok.
  exists w1, hashes, w2, hashes2. split; [reflexivity|]. split; [intros ->; congruence|exact E2].
Qed.

Lemma failed_update_is_lost_witness :
  ∃ hashes w2 hashes2,
    syncConfigDir demoEncoders demoGateway "2" demoConfig hashes (demoRepository false) = (w2, hashes2, true) ∧
    slashed (dr_committed w2) !! "/config/version.json" = Some (bi_Content (versionItem "2")) ∧
    slashed (dr_committed w2) !! "/config/secrets/a" = slashed demoBefore !! "/config/secrets/a".
Proof.
  destruct demo_lost as (w1 & hashes & w2 & hashes2 & E1 & Hne & E2). exists hashes, w2, hashes2. split; [exact E2|].
  destruct (failed_update_is_lost demoGateway (λ w, slashed (dr_committed w)) (λ w, slashed (dr_current w)) demoEncoders
    "2" demoConfig demoTable (demoRepository true) w1 hashes (demoRepository false) w2 hashes2 demo_distinct E1 Hne E2) as [Hv H].
  split; [exact Hv|]. exact (H (mkBatchItem "/config/secrets" "a" "new") (list_elem_of_here _ _)).
Defined.

End GatewaySyncFacts.
